(* ===== verification/_CoqProject ===== *)
-Q . S2P
Prelude.v
GoInt.v
GoStrings.v
Float64.v
Utf8.v
JsonNumber.v
FloatText.v
Strconv.v
Json.v
JsonProofs.v
Api.v
Objects.v
DeepCopy.v
ApplyConfig.v
ApplyConfigProofs.v
Errors.v
BackendMetrics.v
BackendMetricsProofs.v
Metrics.v
MetricsProofs.v
ExtProc.v
Frontend.v
Bbr.v
BbrProofs.v
Scheduling.v
SchedulingProofs.v
LiveScheduling.v
EnvConfig.v
Datastore.v
DatastoreProofs.v
DatastoreSpec.v
MetricsLogger.v
Locking.v
Handlers.v
Server.v
Streaming.v
Streams.v
HandlersProofs.v
FrontendProofs.v
StreamingProofs.v
StreamsProofs.v
RequestProofs.v
ResponseProofs.v
Conversation.v
ServerProofs.v
Controllers.v
Concurrent.v
ControllersProofs.v
ConcurrentProofs.v
Uninterrupted.v
Interleavings.v
Convergence.v
SystemProofs.v
Informers.v
InformersProofs.v
Listers.v
Clientset.v
Schemes.v
FakeClientset.v
Fakes.v
TestHelpers.v
Runnable.v
Tls.v
Startup.v
StartupProofs.v
