(* ===== verification/Prelude.v ===== *)
(** * Verification of the inference gateway extension

    The repository holds two Envoy external processors (ext-proc servers) and the
    controllers around them.

    - The endpoint picker (cmd/epp, pkg/epp) receives the messages of an HTTP request
      from Envoy, reads the model from the body, resolves it to a target model, asks the
      Dynamo front end for a worker, schedules the request on a pod of an InferencePool
      and answers with the endpoint; on the way back it reads token usage from the
      response.  It exists twice: a full-duplex streaming server and a buffered server.
    - A datastore caches the pool, its InferenceModels and its pods; three reconcilers
      fill it from the Kubernetes API; one goroutine for each pod refreshes its metrics.
    - The body-based router (pkg/body-based-routing) copies the model of a body into a
      header.
    - Two commands start these servers under a controller manager, and a generated library
      (api, client-go) holds the resources with their deep copies, clients and listers,
      shared informers, apply configurations and a clientset for tests.

    ** Files

    The first group models what Go provides: this file (panics as values in a small
    monad, iteration over maps in an unspecified order, tactics, the hint database [epp],
    lemmas on lists); [GoInt] (fixed-width integers with wrap-around, Itoa and Atoi);
    [GoStrings] (package strings on bytes); [Float64] (binary64 from the Standard
    Library's SpecFloat, with the order and rounding facts the filters need); [Utf8],
    [JsonNumber], [Json] and [JsonProofs] (encoding/json: scanner with its depth limit,
    values, shortest float texts, Unmarshal, Marshal, and their round trip); [FloatText]
    (the shortest text of every float reads back as that float); [Strconv] (ParseBool and
    ParseFloat on arbitrary text, and Quote).

    The second group models the program, one file for each component, its theorems in the
    file of the same name with the suffix Proofs.
    - [Api]: api/v1alpha2, the two resources as the program reads them, condition
      constants, registration.
    - [Objects], [DeepCopy]: the same structs with their pointers, slices and maps as
      references into a heap, and zz_generated.deepcopy.go on it.
    - [ApplyConfig]: client-go/applyconfiguration, builders that mutate configurations in
      a heap of their own.
    - [Informers]: client-go/informers, the shared informer factory; its goroutines and
      callers as steps are in [InformersProofs].
    - [Listers]: client-go/listers and the listers of the informers.
    - [Clientset]: client-go/clientset, construction of the clients.
    - [Schemes]: the registration of the types in the schemes of the clientsets and of the
      manager, and the parser of client-go/applyconfiguration that is built once.
    - [FakeClientset]: the clientset for tests, on a heap of trackers and Fakes.
    - [Fakes]: the fake metrics client and the builders the tests use.
    - [TestHelpers]: test/utils and the loggers for tests, calls to a cluster that may fail.
    - [Errors]: pkg/epp/util/error, error values and their codes.
    - [BackendMetrics]: pkg/epp/backend/metrics, metric specifications and scraping.
    - [Metrics]: pkg/epp/metrics and backend/metrics/logger.go, the Prometheus registry
      as state.
    - [ExtProc]: the protocol messages and handlers.RequestContext.
    - [Frontend]: callFrontEndForWorker of handlers/streamingserver.go, with its
      server-sent-event reader.
    - [Bbr]: pkg/body-based-routing.
    - [Scheduling]: pkg/epp/scheduling, predicates, filters, filter tree, scheduler, on
      metrics taken at one moment.
    - [LiveScheduling]: the same code on live pods: every call of GetMetrics is a read of
      its own, the [n]-th read of a call finds [live n p] on pod [p], and [live] is any
      function.  When it is constant this is [Scheduling] ([frozen_schedule]).
    - [Datastore]: pkg/epp/datastore and the pod objects of backend/metrics.  Pods are
      objects in a heap of locations, because the store, the refresh goroutine and the
      scheduler share them by pointer.
    - [DatastoreSpec]: the interface of the datastore as the class [DatastoreI], the store
      as one instance and its specification, a pool and two maps, as the other; runs of
      calls with the refresh goroutines in between.
    - [Locking]: the operations on the pool and the models as programs of calls on the
      reader-writer lock and of reads and writes of the fields; goroutines that run them
      interleave step by step on one store.
    - [Handlers]: what the two servers share, the class [Scheduler] through which they
      see the scheduler, the record [Env] of what a handler finds when a message arrives
      (the store at each of the three looks the handler takes at it: for the model, for
      the pods and for the pool), and the receive loop.
    - [Streaming] (theorems in [StreamingProofs], [RequestProofs], [ResponseProofs],
      [Conversation]) and [Server]: the two servers, each as handlers on a request context and a loop over
      events.
    - [Streams], [StreamsProofs]: the class [StreamServer] of what the two servers offer,
      and a server that runs any number of streams at once, one turn at a time, on one
      registry.
    - [Controllers]: pkg/epp/controller, the reconcilers, each a function in one piece.
    - [Concurrent]: the same reconcilers, the pod operations of the datastore and the
      refresh goroutines cut at every access to shared state: a goroutine is a stack of
      frames, [exec] runs the frame on top for one step, [perform] interleaves them in a
      [system] whose API server may change at any time, and [request] is how a controller
      starts one.  A range over a sync.Map
      visits keys in any order and may or may not see what is stored meanwhile, which an
      oracle decides ([range_may_end] is what the package promises).  [ConcurrentProofs]
      has the invariants (each object has one owner; what was removed stays removed),
      [Uninterrupted] the equivalence with [Controllers], [Interleavings] the theorems,
      [Convergence] that the pod store reaches the state of the API server while the rest
      runs, and [SystemProofs] where the contents of the store come from.
    - [EnvConfig]: pkg/epp/util/env and LoadConfig of the scheduler.
    - [MetricsLogger]: the goroutines of StartMetricsLogger, and the health services.
    - [Runnable]: internal/runnable, a gRPC server as a runnable: two goroutines and the
      server, one event at a time.
    - [Tls]: internal/tls, the self-signed certificate.
    - [Startup]: cmd/epp, cmd/body-based-routing, pkg/epp/server and the runner of the
      router: programs in a monad whose state is the list of library calls made so far,
      an object being named by the position of the call that created it.

    ** How the code corresponds to the definitions

    A Go function is a definition of the same name.  A pointer that may be nil is an
    option; a panic is the value [Panic] of type [outcome]; an error result is a sum or an
    option of [error].  State is passed: the request context, the registry, the messages
    sent, the datastore.  A server's stream is a list of events (a message with its
    environment, an end, a failure, a cancelled context); [Process] runs its loop on it
    and returns that the stream is open, or the value Process returns after its deferred
    function.  Logging is left out.

    Code outside the repository is an argument: the order of map iteration ([MapOrder]),
    random draws ([Rand], and two functions of [Env], with the documented bound), the
    clock, the API server ([Client]), label selectors ([Labels], a selector matches when
    its pairs are among the labels), the outcome of each Send, the HTTP answers of the
    front end and of model servers, the Prometheus text parser, what converting an
    unrepresentable float to an int gives, which runes beyond Latin-1 are printable
    ([PrintTable]), apimachinery's types and their copies
    ([KubeTypes], [KubeCopy], with the documented law [KubeLaws]), the gRPC server
    ([GrpcServer] with [GrpcServerLaws]), cryptography ([Crypto]), REST clients
    ([RestLibrary]), scheme builders ([SchemeLibrary], a builder applies its functions in
    order), the object tracker of client-go ([TestingLibrary]), which library call fails
    during start-up ([World]), and the time, the next entry of a range and the fetched
    metrics a concurrent step finds (the record [oracle] of [Concurrent]).

    ** What the theorems show

    - Streaming server: every conversation in the order of the protocol gets exactly the
      answers due, in order, cut short with at most one immediate response when the stream
      ends early; the gauge of running requests is balanced; the forwarded body is the
      request with the target model; the endpoint is that of a listed pod, in header and
      metadata; handling never panics on validated models; each failure gets its status
      and is counted, except that a pool that is gone leaves the request without an
      answer; event streams pass unchanged and JSON responses keep their contents however
      they are cut.  Text that is no JSON does not pass, and an incomplete usage object
      panics.
    - Concurrent streams: the gauge of running requests is, in every interleaving, the
      number of streams whose request runs; the handlers read nothing the streams share,
      so each stream does what it does alone.
    - Buffered server: it decides as the streaming server does; its error counter and its
      status test do not work, which two theorems state.
    - Scheduler: it returns one of the pods it was given; with ordinary metrics critical
      requests are never shed, with NaN for every cache usage they are; other requests are
      admitted exactly when a pod has capacity; while the metrics change it still returns
      a listed pod or an error, and a pod that showed capacity for a request that is not
      critical, but a refresh between the two loops of the last filter can drop a critical
      request, and only a change of a cache usage can; the least-queue
      filter keeps exactly the pods in its range, the least-KV-cache filter never loses a
      minimum (a statement about rounding), and LoRA affinity is as described.
    - Datastore: an invariant of every reachable store by induction on steps; every call
      of the interface answers as the specification does, whatever the refresh goroutines
      do in between; the oldest model of a name stays; concurrent operations on the pool
      and the models do not race and are atomic, and without PoolGet they never deadlock;
      PoolGet can.
    - Reconcilers: pods, pool and models agree with the API server; the model store
      converges for every order of requests from any store whose models are filed once
      and were not created anew, and the pod store also under every
      interleaving of the steps while the pool stays (seven steps for each request are
      enough); what becomes of the name of a withdrawn model, on every branch.
    - Interleavings: run without interruption the steps of a reconcile are the reconcile;
      however they interleave, no channel is closed twice and the only panic is a read of
      a pool that was cleared in between; what a resync removes stays removed; without
      Clear and without overlapping adds no refresh goroutine leaks, and with overlapping
      adds one can; a pod reconcile can undo a resync.  Whatever the interleaving, a
      request goes to a ready pod and for a model the API server reported.
    - Weighted draws pick each target in exact proportion to its weight.
    - Front end: what the request keeps of the client's fields, exactly, and an announced
      worker is found.
    - Scraping: specifications parse back from their text; the latest matching series is
      used; each field follows its own metric.
    - Body-based router: both modes on every branch, and the loss of the last chunk.
    - Start-up: both programs carry out a plan of calls and stop at the first failure; the
      manager starts last; secure serving never uses a server without a certificate; the
      log level wraps at eight bits; the router never registers its counters.
    - A gRPC runnable returns nil only after cancellation; once it is to end, its two
      goroutines make at most three more moves, and only pending calls can hold them up.
    - The configuration is what the environment says, within the bounds of the machine.
    - Deep copies read as the original and share nothing with it.
    - Informers are shared and started once, none outlives Shutdown, and Shutdown returns;
      all accessors of a kind read one store.
    - The schemes know the four kinds; a clientset for tests, its discovery and its typed
      clients share one Fake over the tracker that holds the objects.
    - Chains of builder calls have the documented effect.

    ** Bounds and fuel

    The JSON parser runs on fuel of twice the length of its input plus two; its result
    is that of every larger fuel ([parse_any_fuel] of [JsonProofs]), so a text is rejected
    by the grammar and the depth limit only.  Shortest float texts try up to
    seventeen digits, which are always enough ([float_text_reads_back] of [FloatText]).
    Loops of the program are structural recursions over the data or the events they
    consume.  Integers keep their width: weights and their sums are
    32-bit, queue lengths and token counts 64-bit.

    ** Not modelled

    Log messages, timers (a sleep is a step that may take any time), the parsing of the
    command line (the zap library binds flags of its own; the model starts from the parsed
    values), and the String methods, which only feed log messages.  The interfaces of the
    generated clients and listers have no code of their own: client-go implements them.

    ** This file

    Go run-time panics as values, the outcome monad with stdpp's notations, iteration over
    Go maps, the tactics and the hint database, lemmas on lists. *)

From Stdlib Require Export ZArith Lia Ascii.
From stdpp Require Export base numbers strings gmap list.

(** ** Go run-time panics

    A Go statement may panic; the model makes the panic a value so that the
    absence of panics is a theorem and not an assumption. *)

Inductive panic : Type :=
  | NilDereference
  | IndexOutOfRange
  | InvalidArgument
  | FailedTypeAssertion
  | CloseOfClosedChannel
  | NilMapAssignment
  | ExplicitPanic (msg : string).

Global Instance panic_eq_dec : EqDecision panic.
Proof. solve_decision. Defined.

(** The result of running Go code: a value, or the panic that aborted it. *)
Inductive outcome (A : Type) : Type :=
  | Val (a : A)
  | Panic (p : panic).
Arguments Val {A} _.
Arguments Panic {A} _.

Global Instance outcome_ret : MRet outcome := λ A a, Val a.
Global Instance outcome_bind : MBind outcome := λ A B f m,
  match m with Val a => f a | Panic p => Panic p end.
Global Instance outcome_fmap : FMap outcome := λ A B f m,
  match m with Val a => Val (f a) | Panic p => Panic p end.

Global Instance outcome_eq_dec {A} `{EqDecision A} : EqDecision (outcome A).
Proof. solve_decision. Defined.

(** Dereference of a pointer that may be nil. *)
Definition deref {A} (p : option A) : outcome A :=
  match p with Some a => Val a | None => Panic NilDereference end.

(** [s[i]] on a slice. *)
Definition index {A} (l : list A) (i : nat) : outcome A :=
  match l !! i with Some a => Val a | None => Panic IndexOutOfRange end.

Definition is_val {A} (m : outcome A) : bool :=
  match m with Val _ => true | Panic _ => false end.

(** Two runs with related values, or with the same panic. *)
Definition outcome_rel {A} (R : A → A → Prop) (x y : outcome A) : Prop :=
  match x, y with
  | Val a, Val b => R a b
  | Panic p, Panic q => p = q
  | _, _ => False
  end.

(** ** Iteration over Go maps

    The language leaves the order in which [range] visits a map (and in which
    [sync.Map.Range] visits its keys) unspecified.  The order is a parameter of
    every definition that iterates, and the only thing the language promises is
    that each entry is visited once. *)

Class MapOrder := {
  map_range : ∀ {K V : Type} `{Countable K}, gmap K V → list (K * V);
  map_range_perm : ∀ {K V : Type} `{Countable K} (m : gmap K V),
    map_range m ≡ₚ map_to_list m
}.

(** The order stdpp enumerates a map in is one such order. *)
Global Program Instance canonical_order : MapOrder | 100 := {|
  map_range K V _ _ m := map_to_list m
|}.
Next Obligation. done. Qed.

Section map_order.
Context `{MapOrder} {K V : Type} `{Countable K}.
Implicit Types m : gmap K V.

Lemma map_range_elem m k v : (k, v) ∈ map_range m ↔ m !! k = Some v.
Proof. rewrite (map_range_perm m). apply elem_of_map_to_list. Qed.

Lemma map_range_NoDup m : NoDup (map_range m).*1.
Proof. rewrite (map_range_perm m). apply NoDup_fst_map_to_list. Qed.

Lemma map_range_nil_inv m : map_range m = [] → m = ∅.
Proof.
  intros Hnil. apply map_to_list_empty_iff.
  apply Permutation_nil_r. by rewrite <-Hnil, map_range_perm.
Qed.

Lemma foldl_insert_union (l : list (K * V)) m :
  NoDup l.*1 → foldl (λ out kv, <[kv.1 := kv.2]> out) m l = list_to_map l ∪ m.
Proof.
  revert m. induction l as [|[k v] l IH]; intros m Hnd; simpl.
  { by rewrite (left_id_L ∅ (∪)). }
  apply NoDup_cons in Hnd as [Hk Hnd]. rewrite IH by done.
  rewrite <-insert_union_r by (by apply not_elem_of_list_to_map).
  by rewrite insert_union_l.
Qed.

(** Copying a map entry by entry gives the map. *)
Lemma foldl_insert_range m :
  foldl (λ out kv, <[kv.1 := kv.2]> out) ∅ (map_range m) = m.
Proof.
  rewrite foldl_insert_union, (right_id_L ∅ (∪)) by apply map_range_NoDup.
  rewrite <-(list_to_map_to_list m) at 2. apply list_to_map_proper.
  - apply map_range_NoDup.
  - apply map_range_perm.
Qed.

Lemma map_range_length m : length (map_range m) = size m.
Proof. by rewrite (map_range_perm m), length_map_to_list. Qed.
End map_order.

(** ** Automation *)

Create HintDb epp discriminated.

(** Case on every match or test in the goal or hypotheses whose scrutinee is
    syntactically visible, simplifying after each step. *)
Ltac split_match :=
  repeat first
    [ progress simplify_eq/=
    | case_match
    | case_bool_decide ].

(** Run the binds of the outcome monad whose first part is a value. *)
Ltac run_outcome := cbn [mbind outcome_bind].

(** Turn boolean hypotheses into propositions. *)
Ltac to_prop :=
  repeat match goal with
  | H : context [ (_ && _)%bool = true ] |- _ => rewrite andb_true_iff in H
  | H : (_ && _)%bool = false |- _ => apply andb_false_iff in H
  | H : (_ || _)%bool = true |- _ => apply orb_true_iff in H
  | H : (_ || _)%bool = false |- _ => apply orb_false_iff in H
  | H : negb _ = true |- _ => apply negb_true_iff in H
  | H : negb _ = false |- _ => apply negb_false_iff in H
  | H : bool_decide _ = true |- _ => apply bool_decide_eq_true in H
  | H : bool_decide _ = false |- _ => apply bool_decide_eq_false in H
  | H : (_ <=? _)%Z = true |- _ => apply Z.leb_le in H
  | H : (_ <=? _)%Z = false |- _ => apply Z.leb_gt in H
  | H : (_ <? _)%Z = true |- _ => apply Z.ltb_lt in H
  | H : (_ <? _)%Z = false |- _ => apply Z.ltb_ge in H
  | H : (_ =? _)%Z = true |- _ => apply Z.eqb_eq in H
  | H : (_ =? _)%Z = false |- _ => apply Z.eqb_neq in H
  | H : _ ∧ _ |- _ => destruct H
  end.

(** ** Lists *)

Section lists.
Context {A : Type}.
Implicit Types l k : list A.

Lemma filter_sublist (P : A → Prop) `{∀ x, Decision (P x)} l :
  filter P l `sublist_of` l.
Proof.
  induction l as [|x l IH]; [done|].
  rewrite filter_cons. case_decide; by constructor.
Qed.

Lemma elem_of_sublist x l k : l `sublist_of` k → x ∈ l → x ∈ k.
Proof. intros Hsub Hx. eapply sublist_subseteq; eauto. Qed.

Lemma filter_nil_iff (P : A → Prop) `{∀ x, Decision (P x)} l :
  filter P l = [] ↔ ∀ x, x ∈ l → ¬ P x.
Proof.
  split.
  - intros Hnil x Hx HP.
    assert (x ∈ filter P l) as Hin by (by apply list_elem_of_filter).
    rewrite Hnil in Hin. by apply not_elem_of_nil in Hin.
  - intros Hnone. apply elem_of_nil_inv. intros x [HP Hx]%list_elem_of_filter.
    by apply (Hnone x).
Qed.

Lemma filter_ne_nil (P : A → Prop) `{∀ x, Decision (P x)} l x :
  x ∈ l → P x → filter P l ≠ [].
Proof. intros Hx HP Hnil. by apply (proj1 (filter_nil_iff P l) Hnil x). Qed.

Lemma filter_all (P : A → Prop) `{∀ x, Decision (P x)} l :
  (∀ x, x ∈ l → P x) → filter P l = l.
Proof.
  induction l as [|x l IH]; intros Hall; [done|].
  rewrite filter_cons_True by (apply Hall; left). f_equal.
  apply IH. intros y Hy. apply Hall. by right.
Qed.

Lemma ne_nil_elem l : l ≠ [] → ∃ x, x ∈ l.
Proof. destruct l as [|x l]; [done|]. intros _. exists x. left. Qed.

Lemma Forall_sublist (P : A → Prop) l k :
  l `sublist_of` k → Forall P k → Forall P l.
Proof.
  intros Hsub Hk. apply Forall_forall. intros x Hx.
  rewrite Forall_forall in Hk. by eapply Hk, elem_of_sublist.
Qed.
End lists.

Lemma filter_all_or_none {A} (P : A → Prop) `{!∀ x, Decision (P x)} (b : Prop) `{!Decision b}
    (l : list A) :
  (∀ x, x ∈ l → P x ↔ b) → length (filter P l) = if decide b then length l else 0%nat.
Proof.
  induction l as [|x l IH]; intros Hl; [by destruct (decide b)|].
  rewrite filter_cons. pose proof (Hl x ltac:(by left)).
  rewrite (decide_ext (P x) b) by done.
  assert (∀ y, y ∈ l → P y ↔ b) as Hl' by (intros y Hy; apply Hl; by right).
  specialize (IH Hl'). destruct (decide b); simpl; auto.
Qed.

Lemma filter_ext_elem {A} (P Q : A → Prop) `{!∀ x, Decision (P x), !∀ x, Decision (Q x)} (l : list A) :
  (∀ x, x ∈ l → P x ↔ Q x) → filter P l = filter Q l.
Proof.
  induction l as [|x l IH]; intros Hl; [done|]. rewrite !filter_cons.
  rewrite IH by (intros y Hy; apply Hl; by right).
  rewrite (decide_ext (P x) (Q x)) by (apply Hl; by left). done.
Qed.

Lemma filter_fmap_length {A B} (f : A → B) (P : B → Prop) `{!∀ x, Decision (P x)} (l : list A) :
  length (filter P (f <$> l)) = length (filter (λ x, P (f x)) l).
Proof.
  induction l as [|x l IH]; [done|]. rewrite fmap_cons, !filter_cons.
  destruct (decide (P (f x))); simpl; by rewrite ?IH.
Qed.

#[export] Hint Resolve filter_sublist : epp.
