(* ===== verification/GoInt.v ===== *)
(** * Go's fixed-width integers and their decimal text

    [int] is 64 bits wide (the images this program ships as are linux/amd64 and
    linux/arm64).  A machine integer is a [Z] in range; arithmetic wraps. *)

From S2P Require Import Prelude.

Local Open Scope Z_scope.

Definition two_pow (w : Z) : Z := 2 ^ w.

(** Two's-complement wrap-around to [w] bits. *)
Definition wrap (w : Z) (z : Z) : Z :=
  (z + two_pow (w - 1)) mod two_pow w - two_pow (w - 1).

Definition in_range (w : Z) (z : Z) : Prop := - two_pow (w - 1) <= z < two_pow (w - 1).

Definition int64_ok : Z → Prop := in_range 64.
Definition int32_ok : Z → Prop := in_range 32.

Global Instance in_range_dec w z : Decision (in_range w z).
Proof. unfold in_range. apply _. Defined.

Definition MaxInt : Z := 9223372036854775807.
Definition MinInt : Z := -9223372036854775808.

(** Arithmetic on [int] and [int32].  Go's [/] truncates toward zero; division
    by zero is a panic, guarded at the call sites. *)
Definition int_add (x y : Z) : Z := wrap 64 (x + y).
Definition int_sub (x y : Z) : Z := wrap 64 (x - y).
Definition int_quot (x y : Z) : Z := wrap 64 (Z.quot x y).
Definition int32_add (x y : Z) : Z := wrap 32 (x + y).
Definition int32_sub (x y : Z) : Z := wrap 32 (x - y).

Lemma wrap_id w z : 0 < w → in_range w z → wrap w z = z.
Proof.
  unfold in_range, wrap, two_pow. intros Hw Hz.
  assert (2 ^ w = 2 * 2 ^ (w - 1)) as Hpow.
  { rewrite <-Z.pow_succ_r by lia. f_equal. lia. }
  rewrite Z.mod_small by lia. lia.
Qed.

Lemma wrap_in_range w z : 0 < w → in_range w (wrap w z).
Proof.
  unfold in_range, wrap, two_pow. intros Hw.
  assert (2 ^ w = 2 * 2 ^ (w - 1)) as Hpow.
  { rewrite <-Z.pow_succ_r by lia. f_equal. lia. }
  assert (0 < 2 ^ (w - 1)) by (apply Z.pow_pos_nonneg; lia).
  pose proof (Z.mod_pos_bound (z + 2 ^ (w - 1)) (2 ^ w)). lia.
Qed.

Lemma int64_ok_iff z : int64_ok z ↔ MinInt <= z <= MaxInt.
Proof. unfold int64_ok, in_range, two_pow, MinInt, MaxInt. simpl. lia. Qed.

Lemma wrap64_id z : MinInt <= z <= MaxInt → wrap 64 z = z.
Proof. intros Hz. apply wrap_id; [lia|]. by apply int64_ok_iff. Qed.

Lemma wrap32_id z : -2147483648 <= z <= 2147483647 → wrap 32 z = z.
Proof. intros Hz. apply wrap_id; [lia|]. unfold in_range, two_pow. simpl. lia. Qed.

Example wrap_overflow : int_add MaxInt 1 = MinInt.
Proof. reflexivity. Qed.

(** ** [strconv.Itoa] and [strconv.Atoi] *)

(** The decimal digits of a natural number, most significant first. *)
Definition digit_char (d : Z) : ascii := Ascii.ascii_of_nat (Z.to_nat (48 + d)).

Fixpoint dec_digits (fuel : nat) (z : Z) (acc : string) : string :=
  match fuel with
  | O => acc
  | S fuel =>
      let acc := String (digit_char (z mod 10)) acc in
      if z <? 10 then acc else dec_digits fuel (z / 10) acc
  end.

(** [strconv.Itoa].  Twenty digits are enough for 64 bits; the fuel is the
    number of bits of the argument, so it never runs out for any integer. *)
Definition nat_text (z : Z) : string := dec_digits (S (Z.to_nat (Z.log2 z))) z "".

Definition Itoa (z : Z) : string :=
  if z <? 0 then String "-"%char (nat_text (- z)) else nat_text z.

Definition char_digit (c : ascii) : option Z :=
  let n := Z.of_nat (Ascii.nat_of_ascii c) in
  if (48 <=? n) && (n <=? 57) then Some (n - 48) else None.

Fixpoint dec_value (s : string) (acc : Z) : option Z :=
  match s with
  | EmptyString => Some acc
  | String c s =>
      match char_digit c with
      | Some d => dec_value s (10 * acc + d)
      | None => None
      end
  end.

(** [strconv.Atoi]: an optional sign, at least one decimal digit and nothing
    else; a value outside 64 bits is a range error. *)
Definition Atoi (s : string) : option Z :=
  let unsigned (s : string) :=
    match s with EmptyString => None | _ => dec_value s 0 end in
  let range (z : Z) := if bool_decide (int64_ok z) then Some z else None in
  match s with
  | String "-" s => z ← unsigned s; range (- z)
  | String "+" s => z ← unsigned s; range z
  | s => z ← unsigned s; range z
  end.

(** [Atoi] returns the saturated bound next to a range error and 0 next to a
    syntax error; one caller stores the value before it looks at the error. *)
Definition Atoi_value (s : string) : Z :=
  let unsigned (s : string) :=
    match s with EmptyString => None | _ => dec_value s 0 end in
  let sat (o : option Z) :=
    match o with None => 0 | Some z => Z.max MinInt (Z.min MaxInt z) end in
  match s with
  | String "-" s => sat (Z.opp <$> unsigned s)
  | String "+" s => sat (unsigned s)
  | s => sat (unsigned s)
  end.

Lemma char_digit_char d : 0 <= d < 10 → char_digit (digit_char d) = Some d.
Proof.
  intros Hd. unfold char_digit, digit_char.
  rewrite Ascii.nat_ascii_embedding by lia.
  rewrite Z2Nat.id by lia.
  replace (48 <=? 48 + d) with true by lia.
  replace (48 + d <=? 57) with true by lia. simpl. f_equal. lia.
Qed.

Lemma dec_digits_value fuel z acc k :
  0 <= z < 2 ^ Z.of_nat fuel →
  dec_value (dec_digits fuel z acc) k =
    dec_value acc (k * 10 ^ Z.of_nat (String.length (dec_digits fuel z acc)
                                      - String.length acc) + z)
  ∧ (String.length acc <= String.length (dec_digits fuel z acc))%nat.
Proof.
  revert z acc k. induction fuel as [|fuel IH]; intros z acc k Hz.
  - simpl in *. rewrite Nat.sub_diag. replace z with 0 by lia.
    rewrite Z.mul_1_r, Z.add_0_r. auto.
  - rewrite Nat2Z.inj_succ, Z.pow_succ_r in Hz by lia.
    simpl. set (c := digit_char (z mod 10)).
    destruct (Z.ltb_spec z 10) as [Hlt|Hge].
    + simpl. subst c. rewrite char_digit_char by (apply Z.mod_pos_bound; lia).
      rewrite Z.mod_small by lia. replace (S (String.length acc) - String.length acc)%nat
        with 1%nat by lia. change (10 ^ Z.of_nat 1) with 10.
      split; [f_equal; lia | lia].
    + assert (0 <= z / 10 < 2 ^ Z.of_nat fuel) as Hz'.
      { split; [apply Z.div_pos; lia|]. apply Z.div_lt_upper_bound; lia. }
      destruct (IH (z / 10) (String c acc) k Hz') as [IHv IHl]. rewrite IHv.
      simpl in *. subst c.
      rewrite char_digit_char by (apply Z.mod_pos_bound; lia).
      split; [|lia].
      set (n := String.length (dec_digits fuel (z / 10) _)) in *.
      replace (n - String.length acc)%nat with (S (n - S (String.length acc)))%nat by lia.
      rewrite Nat2Z.inj_succ, Z.pow_succ_r by lia. f_equal.
      pose proof (Z.div_mod z 10). lia.
Qed.

Lemma nat_text_value z : 0 <= z → dec_value (nat_text z) 0 = Some z.
Proof.
  intros Hz. unfold nat_text.
  destruct (dec_digits_value (S (Z.to_nat (Z.log2 z))) z "" 0) as [-> _].
  - split; [lia|]. rewrite Nat2Z.inj_succ, Z2Nat.id by apply Z.log2_nonneg.
    destruct (decide (z = 0)) as [->|]; [reflexivity|].
    apply Z.log2_spec. lia.
  - done.
Qed.

Lemma dec_digits_head fuel z acc :
  0 <= z → fuel ≠ O → ∃ c s, dec_digits fuel z acc = String c s ∧ is_Some (char_digit c).
Proof.
  revert z acc. induction fuel as [|fuel IH]; intros z acc Hz Hf; [done|]. simpl.
  assert (is_Some (char_digit (digit_char (z mod 10)))) as Hd.
  { rewrite char_digit_char by (apply Z.mod_pos_bound; lia). eauto. }
  destruct (Z.ltb_spec z 10); [eauto|].
  destruct fuel as [|fuel']; [simpl; eauto|].
  apply IH; [apply Z.div_pos; lia|done].
Qed.

Lemma nat_text_head z :
  0 <= z → ∃ c s, nat_text z = String c s ∧ is_Some (char_digit c).
Proof. intros. by apply dec_digits_head. Qed.

(** [Atoi] on a decimal text: the integer, unless it is outside 64 bits. *)
Lemma Atoi_Itoa_range z : Atoi (Itoa z) = if bool_decide (int64_ok z) then Some z else None.
Proof.
  unfold Itoa, Atoi. destruct (Z.ltb_spec z 0).
  - destruct (nat_text_head (- z)) as (c & s & Heq & _); [lia|].
    rewrite Heq. rewrite <-Heq, nat_text_value by lia. simpl. by rewrite Z.opp_involutive.
  - destruct (nat_text_head z) as (c & s & Heq & [d Hd]); [lia|].
    assert (dec_value (String c s) 0 = Some z) as Hv by (rewrite <-Heq; by apply nat_text_value).
    rewrite Heq.
    destruct (decide (c = "-"%char)) as [->|]; [by compute in Hd|].
    destruct (decide (c = "+"%char)) as [->|]; [by compute in Hd|].
    transitivity (z' ← dec_value (String c s) 0;
      if bool_decide (int64_ok z') then Some z' else None).
    + destruct c as [[][][][][][][][]]; done.
    + by rewrite Hv.
Qed.

(** [Atoi] inverts [Itoa] on every machine integer. *)
Lemma Atoi_Itoa z : int64_ok z → Atoi (Itoa z) = Some z.
Proof. intros Hz. by rewrite Atoi_Itoa_range, bool_decide_true. Qed.
