(* ===== verification/GoStrings.v ===== *)
(** * Go's strings package, on byte strings

    A Go string is a sequence of bytes; [string] is the Standard Library's, one
    [ascii] (eight bits) per byte.  Only what the program calls is defined. *)

From S2P Require Import Prelude.

(** [strings.HasPrefix] *)
Fixpoint HasPrefix (s pre : string) : bool :=
  match pre, s with
  | EmptyString, _ => true
  | String p pre, String c s => bool_decide (p = c) && HasPrefix s pre
  | String _ _, EmptyString => false
  end.

(** Drop the first [n] bytes. *)
Fixpoint str_drop (n : nat) (s : string) : string :=
  match n, s with
  | S n, String _ s => str_drop n s
  | _, _ => s
  end.

Fixpoint str_take (n : nat) (s : string) : string :=
  match n, s with
  | S n, String c s => String c (str_take n s)
  | _, _ => EmptyString
  end.

(** [strings.TrimPrefix] *)
Definition TrimPrefix (s pre : string) : string :=
  if HasPrefix s pre then str_drop (String.length pre) s else s.

(** [strings.Contains] *)
Fixpoint Contains (s sub : string) : bool :=
  HasPrefix s sub ||
  match s with
  | EmptyString => false
  | String _ s => Contains s sub
  end.

(** [strings.IndexByte] (and [strings.Index] of a one-byte string); -1 is [None]. *)
Fixpoint IndexByte (s : string) (b : ascii) : option nat :=
  match s with
  | EmptyString => None
  | String c s => if bool_decide (c = b) then Some 0 else S <$> IndexByte s b
  end.

(** [strings.Split] on a one-byte separator: always at least one piece. *)
Fixpoint Split (s : string) (sep : ascii) : list string :=
  match s with
  | EmptyString => [EmptyString]
  | String c s =>
      if bool_decide (c = sep) then EmptyString :: Split s sep
      else match Split s sep with
           | [] => [String c EmptyString]
           | p :: ps => String c p :: ps
           end
  end.

Fixpoint Join (ps : list string) (sep : ascii) : string :=
  match ps with
  | [] => EmptyString
  | [p] => p
  | p :: ps => p +:+ String sep (Join ps sep)
  end.

(** [strings.TrimRight] and [strings.Trim] with an ASCII cutset. *)
Definition str_rev (s : string) : string :=
  String.string_of_list_ascii (reverse (String.list_ascii_of_string s)).

Fixpoint TrimLeft (s : string) (cut : ascii → bool) : string :=
  match s with
  | EmptyString => EmptyString
  | String c s' => if cut c then TrimLeft s' cut else s
  end.

Definition TrimRight (s : string) (cut : ascii → bool) : string :=
  str_rev (TrimLeft (str_rev s) cut).

Definition Trim (s : string) (cut : ascii → bool) : string :=
  TrimRight (TrimLeft s cut) cut.

Definition chr (n : nat) : ascii := Ascii.ascii_of_nat n.
Definition is_byte (n : nat) (c : ascii) : bool := bool_decide (c = chr n).

Definition LF : ascii := chr 10.
Definition CR : ascii := chr 13.
Definition quote : ascii := chr 34.

(** [strings.TrimSpace] removes Unicode white space.  In UTF-8 these are the
    single bytes 9 to 13 and 32, and the encodings of U+0085, U+00A0, U+1680,
    U+2000 to U+200A, U+2028, U+2029, U+202F, U+205F and U+3000. *)
Definition bytes (l : list nat) : string := String.string_of_list_ascii (chr <$> l).

Definition white_space : list string :=
  (bytes ∘ (λ n, [n]) <$> [9; 10; 11; 12; 13; 32])
  ++ [bytes [194; 133]; bytes [194; 160]; bytes [225; 154; 128]]
  ++ (bytes ∘ (λ n, [226; 128; n]) <$> seq 128 11)
  ++ [bytes [226; 128; 168]; bytes [226; 128; 169]; bytes [226; 128; 175];
      bytes [226; 129; 159]; bytes [227; 128; 128]].

(** Strip a prefix that is in [ws], if there is one. *)
Fixpoint strip_one (ws : list string) (s : string) : option string :=
  match ws with
  | [] => None
  | w :: ws => if HasPrefix s w then Some (str_drop (String.length w) s) else strip_one ws s
  end.

(** Every strip removes at least a byte, so the length of [s] is enough fuel. *)
Fixpoint strip_all (ws : list string) (fuel : nat) (s : string) : string :=
  match fuel with
  | 0 => s
  | S fuel =>
      match strip_one ws s with
      | Some s => strip_all ws fuel s
      | None => s
      end
  end.

Definition TrimSpace (s : string) : string :=
  let l := strip_all white_space (String.length s) s in
  let r := strip_all (str_rev <$> white_space) (String.length l) (str_rev l) in
  str_rev r.

(** [strings.ToLower] on the bytes below 128, which is all that matters to a
    search for an ASCII word without the letters i and k. *)
Definition lower_char (c : ascii) : ascii :=
  let n := Ascii.nat_of_ascii c in
  if (65 <=? n) && (n <=? 90) then chr (n + 32) else c.

Fixpoint ToLower (s : string) : string :=
  match s with
  | EmptyString => EmptyString
  | String c s => String (lower_char c) (ToLower s)
  end.

Example trim_space_ex : TrimSpace (bytes [32; 194; 160; 97; 32; 98; 226; 128; 137; 10]) = "a b".
Proof. reflexivity. Qed.
Example split_ex : Split "a,b,,c" "," = ["a"; "b"; ""; "c"].
Proof. reflexivity. Qed.

(** ** Facts *)

Lemma append_cons c s t : String c s +:+ t = String c (s +:+ t).
Proof. reflexivity. Qed.

Lemma append_nil_l s : "" +:+ s = s.
Proof. reflexivity. Qed.

Lemma append_nil_r s : s +:+ "" = s.
Proof. induction s as [|c s IH]; [done|]. rewrite append_cons. by f_equal. Qed.

Lemma append_assoc s t u : (s +:+ t) +:+ u = s +:+ (t +:+ u).
Proof. induction s as [|c s IH]; [done|]. rewrite !append_cons. by f_equal. Qed.

Lemma length_append s t : String.length (s +:+ t) = String.length s + String.length t.
Proof. induction s as [|c s IH]; [done|]. rewrite append_cons. simpl. by rewrite IH. Qed.

Lemma HasPrefix_app pre s : HasPrefix (pre +:+ s) pre = true.
Proof.
  induction pre as [|c pre IH]; [by destruct s|]. rewrite append_cons. simpl.
  by rewrite bool_decide_true, IH.
Qed.

Lemma HasPrefix_spec s pre : HasPrefix s pre = true ↔ ∃ t, s = pre +:+ t.
Proof.
  split; [|intros [t ->]; apply HasPrefix_app].
  revert s. induction pre as [|c pre IH]; intros s Hs; [by exists s|].
  destruct s as [|d s]; [done|]. simpl in Hs. to_prop. subst d.
  destruct (IH s) as [t ->]; [done|]. by exists t.
Qed.

Lemma str_drop_app s t : str_drop (String.length s) (s +:+ t) = t.
Proof. induction s as [|c s IH]; [done|]. rewrite append_cons. apply IH. Qed.

Lemma TrimPrefix_app pre s : TrimPrefix (pre +:+ s) pre = s.
Proof. unfold TrimPrefix. by rewrite HasPrefix_app, str_drop_app. Qed.

Lemma Contains_spec s sub : Contains s sub = true ↔ ∃ a b, s = a +:+ sub +:+ b.
Proof.
  split.
  - induction s as [|c s IH]; cbn [Contains]; intros [H|H]%orb_true_iff.
    + apply HasPrefix_spec in H as [t ->]. by exists "", t.
    + done.
    + apply HasPrefix_spec in H as [t ->]. by exists "", t.
    + destruct (IH H) as (a & b & ->). by exists (String c a), b.
  - intros (a & b & ->). induction a as [|c a IH].
    + rewrite append_nil_l. destruct (sub +:+ b) eqn:E; cbn [Contains];
        rewrite <-E, HasPrefix_app; done.
    + rewrite append_cons. cbn [Contains]. rewrite IH. apply orb_true_r.
Qed.

Lemma Split_ne_nil s sep : Split s sep ≠ [].
Proof.
  induction s as [|c s IH]; simpl; [done|]. case_bool_decide; [done|]. by destruct (Split s sep).
Qed.

(** Splitting and joining are inverse. *)
Lemma Join_Split s sep : Join (Split s sep) sep = s.
Proof.
  induction s as [|c s IH]; [done|]. simpl.
  pose proof (Split_ne_nil s sep). destruct (Split s sep) as [|p ps]; [done|].
  case_bool_decide as Hc; [subst c|].
  - by rewrite <-IH.
  - rewrite <-IH. by destruct ps.
Qed.

Lemma Split_no_sep s sep : IndexByte s sep = None → Split s sep = [s].
Proof.
  induction s as [|c s IH]; [done|]. simpl. case_bool_decide; [done|].
  intros Hn. rewrite IH; [done|]. by destruct (IndexByte s sep).
Qed.

(** Every piece is free of the separator. *)
Lemma Split_pieces s sep p : p ∈ Split s sep → IndexByte p sep = None.
Proof.
  revert p. induction s as [|c s IH]; intros p; simpl.
  { by intros ->%list_elem_of_singleton. }
  case_bool_decide as Hc.
  - intros [->|Hp]%elem_of_cons; [done|by apply IH].
  - pose proof (Split_ne_nil s sep). destruct (Split s sep) as [|q qs]; [done|].
    intros [->|Hp]%elem_of_cons.
    + simpl. rewrite bool_decide_false by done. by rewrite (IH q) by left.
    + apply IH. by right.
Qed.

(** ** Strings without a given byte, and printable strings *)

Fixpoint str_all (P : ascii → bool) (s : string) : bool :=
  match s with
  | EmptyString => true
  | String c s => P c && str_all P s
  end.

Lemma str_all_app P s t : str_all P (s +:+ t) = str_all P s && str_all P t.
Proof.
  induction s as [|c s IH]; [done|]. rewrite append_cons. simpl. rewrite IH.
  by rewrite andb_assoc.
Qed.

Lemma str_all_impl (P Q : ascii → bool) s :
  (∀ c, P c = true → Q c = true) → str_all P s = true → str_all Q s = true.
Proof.
  intros HPQ. induction s as [|c s IH]; [done|]. simpl. intros [? ?]%andb_true_iff.
  apply andb_true_iff. auto.
Qed.

Definition lacks (b : ascii) (s : string) : bool := str_all (λ c, negb (bool_decide (c = b))) s.

Lemma IndexByte_lacks s b : lacks b s = true → IndexByte s b = None.
Proof.
  unfold lacks. induction s as [|c s IH]; [done|]. simpl. intros [Hc Hs]%andb_true_iff.
  apply negb_true_iff, bool_decide_eq_false in Hc. by rewrite bool_decide_false, IH.
Qed.

Lemma IndexByte_app s b t :
  lacks b s = true → IndexByte (s +:+ String b t) b = Some (String.length s).
Proof.
  unfold lacks. induction s as [|c s IH].
  - intros _. simpl. by rewrite bool_decide_true.
  - intros [Hc Hs]%andb_true_iff.
    apply negb_true_iff, bool_decide_eq_false in Hc.
    rewrite append_cons. simpl. rewrite bool_decide_false by done. by rewrite IH.
Qed.

Lemma Split_app s sep t :
  lacks sep s = true → Split (s +:+ String sep t) sep = s :: Split t sep.
Proof.
  unfold lacks. induction s as [|c s IH].
  - intros _. rewrite append_nil_l. simpl. by rewrite bool_decide_true.
  - intros [Hc Hs]%andb_true_iff. apply negb_true_iff, bool_decide_eq_false in Hc.
    rewrite append_cons. simpl. rewrite bool_decide_false by done. by rewrite IH.
Qed.

Lemma Split_lacks s sep : lacks sep s = true → Split s sep = [s].
Proof. intros. by apply Split_no_sep, IndexByte_lacks. Qed.

Lemma Split_Join ps sep :
  ps ≠ [] → Forall (λ p, lacks sep p = true) ps → Split (Join ps sep) sep = ps.
Proof.
  intros Hne Hall. induction Hall as [|p ps Hp Hps IH]; [done|].
  destruct ps as [|q ps]; [by apply Split_lacks|].
  change (Join (p :: q :: ps) sep) with (p +:+ String sep (Join (q :: ps) sep)).
  by rewrite Split_app, IH.
Qed.

(** Bytes 33 to 126. *)
Definition printable (c : ascii) : bool :=
  (33 <=? Ascii.nat_of_ascii c) && (Ascii.nat_of_ascii c <=? 126).

Lemma list_ascii_append s t :
  String.list_ascii_of_string (s +:+ t)
  = String.list_ascii_of_string s ++ String.list_ascii_of_string t.
Proof. induction s as [|c s IH]; [done|]. rewrite append_cons. simpl. by rewrite IH. Qed.

Lemma str_all_list P s : str_all P s = forallb P (String.list_ascii_of_string s).
Proof. induction s as [|c s IH]; [done|]. simpl. by rewrite IH. Qed.

Lemma str_rev_involutive s : str_rev (str_rev s) = s.
Proof.
  unfold str_rev. rewrite String.list_ascii_of_string_of_list_ascii, reverse_involutive.
  apply String.string_of_list_ascii_of_string.
Qed.

Lemma str_all_rev P s : str_all P (str_rev s) = str_all P s.
Proof.
  rewrite !str_all_list. unfold str_rev.
  rewrite String.list_ascii_of_string_of_list_ascii.
  apply eq_true_iff_eq. rewrite !forallb_forall.
  setoid_rewrite <-list_elem_of_In. by setoid_rewrite elem_of_reverse.
Qed.

(** A word that starts with a byte that is not printable is no prefix of a
    printable string. *)
Lemma strip_all_printable ws fuel s :
  forallb (λ w, match w with String c _ => negb (printable c) | _ => false end) ws = true →
  str_all printable s = true → strip_all ws fuel s = s.
Proof.
  intros Hws Hs. destruct fuel as [|fuel]; [done|]. simpl.
  assert (strip_one ws s = None) as ->; [|done].
  induction ws as [|w ws IH]; [done|]. simpl in *. apply andb_true_iff in Hws as [Hw Hws].
  destruct w as [|c w]; [done|]. destruct s as [|d s]; [by apply IH|].
  simpl in *. apply andb_true_iff in Hs as [Hd Hs].
  rewrite bool_decide_false; [by apply IH|]. intros ->. by rewrite Hd in Hw.
Qed.

Lemma TrimSpace_printable s : str_all printable s = true → TrimSpace s = s.
Proof.
  intros Hs. unfold TrimSpace.
  rewrite (strip_all_printable white_space) by done.
  rewrite strip_all_printable; [apply str_rev_involutive|done|by rewrite str_all_rev].
Qed.
