(* ===== verification/Float64.v ===== *)
(** * Go's float64

    A [float64] is an IEEE 754 binary64 datum: the Standard Library's
    [spec_float] at precision 53 and maximal exponent 1024, with its executable,
    correctly rounded operations.  No primitive float and no axiom is used.

    The second half proves the order facts the schedulers' arithmetic rests on:
    [<=] is a total preorder off NaN, rounding never takes a sum of
    non-negative numbers below its first operand, and the difference of an
    ordered pair is not negative. *)

From S2P Require Import Prelude GoInt.
From Stdlib Require Import SpecFloat.

Local Open Scope Z_scope.

Definition prec : Z := 53.
Definition emax : Z := 1024.

Definition float64 : Type := spec_float.

Global Instance float64_eq_dec : EqDecision float64.
Proof. unfold float64. solve_decision. Defined.

(** ** Operations *)

Definition fzero : float64 := S754_zero false.
Definition fadd : float64 → float64 → float64 := SFadd prec emax.
Definition fsub : float64 → float64 → float64 := SFsub prec emax.
Definition fdiv : float64 → float64 → float64 := SFdiv prec emax.

(** Go's [<], [<=] and [>=]; all are false when an operand is a NaN. *)
Definition fltb (x y : float64) : bool := SFltb x y.
Definition fleb (x y : float64) : bool := SFleb x y.
Definition fgeb (x y : float64) : bool := fleb y x.
Definition fgtb (x y : float64) : bool := fltb y x.
Definition feqb (x y : float64) : bool := SFeqb x y.

(** The conversion [float64(i)] of an integer. *)
Definition of_int (z : Z) : float64 := binary_normalize prec emax z 0 false.

(** [math.MaxFloat64]. *)
Definition MaxFloat64 : float64 := S754_finite false 9007199254740991 971.

(** The float nearest to the decimal [m * 10^e], for [m] not negative. *)
Definition of_decimal (s : bool) (m : Z) (e : Z) : float64 :=
  if m =? 0 then S754_zero s
  else if 0 <=? e then binary_round prec emax s (Z.to_pos (m * 10 ^ e)) 0
  else
    let '(q, e', l) := SFdiv_core_binary prec emax m 0 (10 ^ (- e)) 0 in
    binary_round_aux prec emax s q e' l.

(** The conversion [int(f)] truncates toward zero.  When the value does not fit
    (or is a NaN) the language leaves the result to the implementation; that
    result is the parameter [ovf]. *)
Definition trunc (s : bool) (m : positive) (e : Z) : Z :=
  let a := if 0 <=? e then Z.pos m * 2 ^ e else Z.pos m / 2 ^ (- e) in
  if s then - a else a.

Definition to_int (ovf : float64 → Z) (f : float64) : Z :=
  match f with
  | S754_zero _ => 0
  | S754_finite s m e =>
      let z := trunc s m e in
      if bool_decide (int64_ok z) then z else ovf f
  | _ => ovf f
  end.

Example float_tenth : of_decimal false 8 (-1) = S754_finite false 7205759403792794 (-53).
Proof. reflexivity. Qed.

(** ** Classification *)

(** A datum as the hardware stores it. *)
Definition valid (x : float64) : Prop := valid_binary prec emax x = true.

(** Neither a NaN nor negative (both zeros count as zero). *)
Definition nonneg (x : float64) : Prop :=
  match x with
  | S754_zero _ | S754_infinity false | S754_finite false _ _ => True
  | _ => False
  end.

Definition finite (x : float64) : Prop :=
  match x with S754_zero _ | S754_finite _ _ _ => True | _ => False end.

(** Strictly positive (infinity included). *)
Definition positive_float (x : float64) : Prop :=
  match x with S754_infinity false | S754_finite false _ _ => True | _ => False end.

Definition not_nan (x : float64) : Prop := x ≠ S754_nan.

Global Instance valid_dec x : Decision (valid x).
Proof. unfold valid. apply _. Defined.
Global Instance nonneg_dec x : Decision (nonneg x).
Proof. unfold nonneg. destruct x as [|[]| |[]]; apply _. Defined.
Global Instance finite_dec x : Decision (finite x).
Proof. unfold finite. destruct x; apply _. Defined.

(** ** The order *)

Lemma fleb_refl x : not_nan x → fleb x x = true.
Proof.
  unfold fleb, SFleb. destruct x as [[]|[]| |[] m e]; intros Hn; try done; simpl;
    rewrite Z.compare_refl; by rewrite Pos.compare_cont_refl.
Qed.

Local Ltac cmp_cases :=
  repeat match goal with
  | H : context [ (?a ?= ?b)%Z ] |- _ => destruct (Z.compare_spec a b)
  | |- context [ (?a ?= ?b)%Z ] => destruct (Z.compare_spec a b)
  | H : context [ Pos.compare_cont Eq ?a ?b ] |- _ =>
      change (Pos.compare_cont Eq a b) with (Pos.compare a b) in H;
      destruct (Pos.compare_spec a b)
  | |- context [ Pos.compare_cont Eq ?a ?b ] =>
      change (Pos.compare_cont Eq a b) with (Pos.compare a b);
      destruct (Pos.compare_spec a b)
  | _ => progress simplify_eq/=
  end.

Lemma fleb_trans x y z : fleb x y = true → fleb y z = true → fleb x z = true.
Proof.
  unfold fleb, SFleb.
  destruct x as [[]|[]| |[] mx ex], y as [[]|[]| |[] my ey], z as [[]|[]| |[] mz ez];
    simpl; try done; intros H1 H2; cmp_cases; try done; try lia.
Qed.

Lemma fleb_total x y : not_nan x → not_nan y → fleb x y = true ∨ fleb y x = true.
Proof.
  unfold fleb, SFleb, not_nan.
  destruct x as [[]|[]| |[] mx ex], y as [[]|[]| |[] my ey];
    simpl; intros ??; try done; auto; cmp_cases; auto; lia.
Qed.

Lemma fleb_not_nan x y : fleb x y = true → not_nan x ∧ not_nan y.
Proof. by destruct x as [[]|[]| |[] mx ex], y as [[]|[]| |[] my ey]. Qed.

Lemma fleb_finite m1 e1 m2 e2 :
  fleb (S754_finite false m1 e1) (S754_finite false m2 e2) = true
  ↔ e1 < e2 ∨ e1 = e2 ∧ Z.pos m1 <= Z.pos m2.
Proof. unfold fleb, SFleb. simpl. cmp_cases; split; intros; try done; lia. Qed.

Lemma nonneg_not_nan x : nonneg x → not_nan x.
Proof. by destruct x. Qed.

Lemma nonneg_zero_le x : nonneg x → fleb fzero x = true.
Proof. by destruct x as [|[]| |[]]. Qed.

(** ** Rounding *)

Lemma digits_log2 m : Z.pos (digits2_pos m) = Z.log2 (Z.pos m) + 1.
Proof.
  induction m as [m IH|m IH|]; simpl digits2_pos; [| |done];
    rewrite Pos2Z.inj_succ, IH.
  - rewrite Pos2Z.inj_xI, Z.log2_succ_double by lia. lia.
  - rewrite Pos2Z.inj_xO, Z.log2_double by lia. lia.
Qed.

Lemma Zdigits_log2 z : 0 < z → Zdigits2 z = Z.log2 z + 1.
Proof. destruct z as [|m|]; try lia. intros _. apply digits_log2. Qed.

Lemma shr_1_div r : 0 <= shr_m r → shr_m (shr_1 r) = shr_m r / 2.
Proof.
  destruct r as [m r s]. destruct m as [|[p|p|]|]; simpl; intros; try done; try lia.
  - rewrite Pos2Z.inj_xI. apply Z.div_unique with 1; lia.
  - rewrite Pos2Z.inj_xO. apply Z.div_unique with 0; lia.
Qed.

Lemma iter_shr_div p r :
  0 <= shr_m r → shr_m (iter_pos shr_1 p r) = shr_m r / 2 ^ Z.pos p.
Proof.
  revert r. induction p as [p IH|p IH|]; intros r Hr; simpl.
  - assert (0 < 2 ^ Z.pos p) by (apply Z.pow_pos_nonneg; lia).
    assert (0 <= shr_m r / 2) by (apply Z.div_pos; lia).
    assert (0 <= shr_m (shr_1 r)) by (by rewrite shr_1_div).
    assert (0 <= shr_m (iter_pos shr_1 p (shr_1 r)))
      by (rewrite IH by done; apply Z.div_pos; lia).
    rewrite IH, IH, shr_1_div, !Z.div_div by lia.
    f_equal. replace (Z.pos p~1) with (1 + Z.pos p + Z.pos p) by lia.
    rewrite !Z.pow_add_r by lia. lia.
  - assert (0 < 2 ^ Z.pos p) by (apply Z.pow_pos_nonneg; lia).
    assert (0 <= shr_m (iter_pos shr_1 p r)) by (rewrite IH by done; apply Z.div_pos; lia).
    rewrite IH, IH, Z.div_div by lia. f_equal.
    replace (Z.pos p~0) with (Z.pos p + Z.pos p) by lia.
    by rewrite Z.pow_add_r by lia.
  - by rewrite shr_1_div.
Qed.

(** What the shift before rounding leaves: the integral part at exponent [e'],
    where [e'] is the larger of the exponents [e] and [fexp]. *)
Lemma shr_fexp_spec m e l :
  0 <= m →
  let k := fexp prec emax (Zdigits2 m + e) - e in
  shr_m (fst (shr_fexp prec emax m e l)) = m / 2 ^ Z.max 0 k ∧
  snd (shr_fexp prec emax m e l) = e + Z.max 0 k.
Proof.
  intros Hm k. unfold shr_fexp. fold k.
  assert (shr_m (shr_record_of_loc m l) = m) as Hrec by (by destruct l as [|[]]).
  unfold shr. destruct k as [|p|p]; simpl fst; simpl snd.
  - rewrite Hrec, Z.div_1_r. split; [done|lia].
  - rewrite iter_shr_div by (by rewrite Hrec). rewrite Hrec.
    rewrite Z.max_r by lia. done.
  - rewrite Hrec. rewrite Z.max_l, Z.div_1_r by lia. split; [done|lia].
Qed.

Lemma round_ge m l : m <= round_nearest_even m l.
Proof. destruct l as [|[]]; simpl; try lia. case_match; lia. Qed.

Lemma round_le m l : round_nearest_even m l <= m + 1.
Proof. destruct l as [|[]]; simpl; try lia. case_match; lia. Qed.

Lemma fexp_mono a b : a <= b → fexp prec emax a <= fexp prec emax b.
Proof. unfold fexp. lia. Qed.

Lemma log2_scaled a d m : 0 < a → 0 <= d → a * 2 ^ d <= m → Z.log2 a + d <= Z.log2 m.
Proof.
  intros Ha Hd Hle. pose proof (Z.log2_mul_pow2 a d Ha Hd) as Hlog.
  apply Z.log2_le_mono in Hle. lia.
Qed.

(** The exponents and mantissas the two shifts of [binary_round_aux] produce. *)
Lemma binary_round_aux_spec s m e l :
  0 <= m →
  ∃ k1 m2 k2 : Z,
    k1 = Z.max 0 (fexp prec emax (Zdigits2 m + e) - e) ∧
    m / 2 ^ k1 <= m2 <= m / 2 ^ k1 + 1 ∧
    k2 = Z.max 0 (fexp prec emax (Zdigits2 m2 + (e + k1)) - (e + k1)) ∧
    binary_round_aux prec emax s m e l =
      match m2 / 2 ^ k2 with
      | Z0 => S754_zero s
      | Z.pos p => if e + k1 + k2 <=? emax - prec
                   then S754_finite s p (e + k1 + k2) else S754_infinity s
      | Z.neg _ => S754_nan
      end.
Proof.
  intros Hm. unfold binary_round_aux.
  destruct (shr_fexp prec emax m e l) as [mrs e1] eqn:E1.
  destruct (shr_fexp_spec m e l Hm) as [Hm1 He1].
  rewrite E1 in Hm1, He1. simpl in Hm1, He1.
  set (k1 := Z.max 0 _) in *.
  set (m2 := round_nearest_even (shr_m mrs) (loc_of_shr_record mrs)).
  assert (0 <= shr_m mrs) by (rewrite Hm1; apply Z.div_pos; [lia|apply Z.pow_pos_nonneg; lia]).
  pose proof (round_ge (shr_m mrs) (loc_of_shr_record mrs)).
  pose proof (round_le (shr_m mrs) (loc_of_shr_record mrs)).
  destruct (shr_fexp prec emax m2 e1 loc_Exact) as [mrs2 e2] eqn:E2.
  destruct (shr_fexp_spec m2 e1 loc_Exact) as [Hm2 He2]; [unfold m2; lia|].
  rewrite E2 in Hm2, He2. simpl in Hm2, He2.
  exists k1, m2. eexists. split; [done|]. split; [unfold m2; lia|]. split; [done|].
  rewrite <-He1. rewrite <-Hm2, <-He2. done.
Qed.

(** Rounding a non-negative number gives a non-negative number. *)
Lemma binary_round_aux_nonneg m e l :
  0 <= m → nonneg (binary_round_aux prec emax false m e l).
Proof.
  intros Hm. destruct (binary_round_aux_spec false m e l Hm)
    as (k1 & m2 & k2 & Hk1 & Hm2 & Hk2 & ->).
  assert (0 <= m / 2 ^ k1) by (apply Z.div_pos; [lia|apply Z.pow_pos_nonneg; lia]).
  assert (0 <= m2 / 2 ^ k2) by (apply Z.div_pos; [lia|apply Z.pow_pos_nonneg; lia]).
  destruct (m2 / 2 ^ k2) eqn:?; [done| |lia]. by case_match.
Qed.

(** A shift to the canonical exponent never clears a number that is at least
    the smallest subnormal. *)
Lemma shr_keeps_pos m e :
  0 < m → emin prec emax <= Z.log2 m + e →
  0 < m / 2 ^ Z.max 0 (fexp prec emax (Zdigits2 m + e) - e).
Proof.
  intros Hm He. rewrite Zdigits_log2 by done. pose proof (Z.log2_nonneg m).
  apply Z.div_str_pos. split; [apply Z.pow_pos_nonneg; lia|].
  apply Z.log2_le_pow2; [done|]. unfold fexp, prec in *. lia.
Qed.

Lemma valid_finite s m e :
  valid (S754_finite s m e) →
  fexp prec emax (Z.log2 (Z.pos m) + 1 + e) = e ∧ e <= emax - prec ∧ emin prec emax <= e.
Proof.
  unfold valid, valid_binary, bounded, canonical_mantissa.
  intros [Hcan Hmax]%andb_true_iff. apply Z.eqb_eq in Hcan. apply Z.leb_le in Hmax.
  rewrite digits_log2 in Hcan. split; [done|]. split; [done|]. unfold fexp in Hcan. lia.
Qed.

(** A canonical float [x] is at most the rounding of any number that is at least
    its own value: rounding to nearest is monotone and fixes representables. *)
Lemma binary_round_aux_ge mx ex m e l d :
  valid (S754_finite false mx ex) →
  0 <= d → ex - e = d → Z.pos mx * 2 ^ d <= m →
  fleb (S754_finite false mx ex) (binary_round_aux prec emax false m e l) = true.
Proof.
  intros (Hcan & _ & Hmin)%valid_finite Hd Hde Hge.
  assert (0 < 2 ^ d) by (apply Z.pow_pos_nonneg; lia).
  assert (0 < m) as Hm by nia.
  pose proof (log2_scaled (Z.pos mx) d m ltac:(lia) Hd Hge) as Hlog.
  pose proof (Z.log2_nonneg (Z.pos mx)).
  destruct (binary_round_aux_spec false m e l ltac:(lia))
    as (k1 & m2 & k2 & Hk1 & Hm2 & Hk2 & ->).
  assert (ex <= e + k1) as Hexp.
  { rewrite Hk1, Zdigits_log2 by done.
    pose proof (fexp_mono (Z.log2 (Z.pos mx) + 1 + ex) (Z.log2 m + 1 + e)). lia. }
  assert (0 < m / 2 ^ k1) by (rewrite Hk1; apply shr_keeps_pos; lia).
  pose proof (Z.log2_nonneg m2).
  assert (0 < m2 / 2 ^ k2) as Hpos by (rewrite Hk2; apply shr_keeps_pos; lia).
  assert (Z.pos mx <= m2 / 2 ^ k2 ∨ ex < e + k1 + k2) as Hor.
  { destruct (decide (ex = e + k1 + k2)) as [Heq|Hne]; [left|right; lia].
    assert (k2 = 0) as -> by lia. assert (k1 = d) as -> by lia.
    rewrite Z.div_1_r.
    assert (Z.pos mx <= m / 2 ^ d) by (apply Z.div_le_lower_bound; lia). lia. }
  destruct (m2 / 2 ^ k2) as [|p|]; [lia| |lia]. case_match; [|done].
  apply fleb_finite. lia.
Qed.

Lemma pos_iter_xO m p : Z.pos (Pos.iter xO m p) = Z.pos m * 2 ^ Z.pos p.
Proof.
  induction p as [|p IH] using Pos.peano_ind; [simpl; lia|].
  rewrite Pos.iter_succ, Pos2Z.inj_xO, IH, Pos2Z.inj_succ, Z.pow_succ_r by lia. lia.
Qed.

Lemma shl_align_spec m e e' :
  ∃ d, 0 <= d ∧ Z.pos (fst (shl_align m e e')) = Z.pos m * 2 ^ d
       ∧ snd (shl_align m e e') = e - d ∧ (e' <= e → d = e - e').
Proof.
  unfold shl_align. destruct (e' - e) as [|p|p] eqn:E; simpl.
  - exists 0. rewrite Z.mul_1_r. repeat split; lia.
  - exists 0. rewrite Z.mul_1_r. repeat split; lia.
  - exists (Z.pos p). split; [lia|]. split; [|split; lia].
    apply pos_iter_xO.
Qed.

Lemma binary_round_nonneg m e : nonneg (binary_round prec emax false m e).
Proof.
  unfold binary_round. destruct (shl_align _ _ _). apply binary_round_aux_nonneg. lia.
Qed.

Lemma binary_round_ge mx ex m e d :
  valid (S754_finite false mx ex) →
  0 <= d → ex - e = d → Z.pos mx * 2 ^ d <= Z.pos m →
  fleb (S754_finite false mx ex) (binary_round prec emax false m e) = true.
Proof.
  intros Hv Hd Hde Hge. unfold binary_round.
  destruct (shl_align_spec m e (fexp prec emax (Z.pos (digits2_pos m) + e)))
    as (k & Hk & Hm & He & _).
  destruct (shl_align _ _ _) as [mz ez]. simpl in *. subst ez.
  apply (binary_round_aux_ge mx ex _ _ _ (d + k)); [done|lia|lia|].
  rewrite Hm, Z.pow_add_r by lia.
  assert (0 < 2 ^ k) by (apply Z.pow_pos_nonneg; lia). nia.
Qed.

(** ** Arithmetic facts used by the filters *)

(** Adding a non-negative number never goes below the first operand. *)
Lemma fadd_ge x y : valid x → finite x → nonneg x → nonneg y → fleb x (fadd x y) = true.
Proof.
  destruct x as [sx|[]| |[] mx ex]; intros Hv Hf Hx Hy; try done.
  - destruct y as [sy|[]| |[] my ey]; try done; by destruct sx, sy.
  - destruct y as [sy|[]| |[] my ey]; try done.
    + by apply fleb_refl.
    + unfold fadd, SFadd, cond_Zopp.
      destruct (shl_align_spec mx ex (Z.min ex ey)) as (d1 & Hd1 & -> & _ & Hal).
      specialize (Hal ltac:(lia)).
      set (b := fst (shl_align my ey (Z.min ex ey))).
      assert (0 < 2 ^ d1) by (apply Z.pow_pos_nonneg; lia).
      unfold binary_normalize.
      destruct (Z.pos mx * 2 ^ d1 + Z.pos b) as [|p|p] eqn:E; [lia| |lia].
      apply (binary_round_ge mx ex p _ d1); [done|lia|lia|lia].
Qed.

(** For canonical floats the order of the data is the order of the numbers. *)
Lemma fleb_scaled m1 e1 m2 e2 :
  valid (S754_finite false m1 e1) → valid (S754_finite false m2 e2) →
  fleb (S754_finite false m1 e1) (S754_finite false m2 e2) = true →
  Z.pos m1 * 2 ^ (e1 - Z.min e1 e2) <= Z.pos m2 * 2 ^ (e2 - Z.min e1 e2).
Proof.
  intros (Hc1 & _ & Hmin1)%valid_finite (Hc2 & _ & _)%valid_finite.
  intros [Hlt|[-> Hle]]%fleb_finite; [|rewrite Z.min_id, Z.sub_diag; lia].
  - rewrite Z.min_l, Z.sub_diag, Z.mul_1_r by lia.
    unfold fexp, prec, emax, emin in *.
    pose proof (Z.log2_spec (Z.pos m1) ltac:(lia)) as [_ Hup1].
    pose proof (Z.log2_spec (Z.pos m2) ltac:(lia)) as [Hlow2 _].
    assert (2 ^ Z.succ (Z.log2 (Z.pos m1)) <= 2 ^ (Z.log2 (Z.pos m2) + (e2 - e1)))
      by (apply Z.pow_le_mono_r; lia).
    rewrite Z.pow_add_r in * by (pose proof (Z.log2_nonneg (Z.pos m2)); lia).
    assert (0 < 2 ^ (e2 - e1)) by (apply Z.pow_pos_nonneg; lia). nia.
Qed.

(** The difference of an ordered pair of finite non-negative floats. *)
Lemma fsub_nonneg x y :
  valid x → valid y → finite x → finite y → nonneg x → nonneg y →
  fleb x y = true → nonneg (fsub y x).
Proof.
  destruct x as [sx|[]| |[] mx ex], y as [sy|[]| |[] my ey]; intros; try done.
  - by destruct sx, sy.
  - unfold fsub, SFsub, cond_Zopp.
    pose proof (fleb_scaled mx ex my ey) as Hle.
    destruct (shl_align_spec mx ex (Z.min ey ex)) as (d1 & _ & -> & _ & Hd1).
    destruct (shl_align_spec my ey (Z.min ey ex)) as (d2 & _ & -> & _ & Hd2).
    rewrite Hd1, Hd2, (Z.min_comm ey ex) by lia.
    specialize (Hle ltac:(done) ltac:(done) ltac:(done)).
    set (diff := _ - Z.pos mx * _). assert (0 <= diff) by lia.
    unfold binary_normalize. destruct diff; [done|apply binary_round_nonneg|lia].
Qed.

(** Dividing a non-negative number by a positive finite one. *)
Lemma fdiv_nonneg x y : nonneg x → positive_float y → finite y → nonneg (fdiv x y).
Proof.
  destruct x as [sx|[]| |[] mx ex], y as [sy|[]| |[] my ey]; intros; try done.
  unfold fdiv, SFdiv, SFdiv_core_binary.
  destruct (Z.div_eucl _ _) as [q r] eqn:E. apply binary_round_aux_nonneg.
  apply (f_equal fst) in E. change (fst (Z.div_eucl ?a ?b)) with (a / b) in E.
  simpl in E. rewrite <-E. apply Z.div_pos; [|lia].
  case_match; [lia| |lia]. apply Z.shiftl_nonneg. lia.
Qed.

(** Rounding stays strictly positive above the smallest subnormal, and finite
    well below the largest exponent. *)
Lemma binary_round_aux_pos m e l :
  0 < m → emin prec emax <= Z.log2 m + e →
  positive_float (binary_round_aux prec emax false m e l).
Proof.
  intros Hm He. destruct (binary_round_aux_spec false m e l ltac:(lia))
    as (k1 & m2 & k2 & Hk1 & Hm2 & Hk2 & ->).
  assert (0 < m / 2 ^ k1) by (rewrite Hk1; by apply shr_keeps_pos).
  pose proof (Z.log2_nonneg m2).
  assert (0 < m2 / 2 ^ k2).
  { rewrite Hk2. apply shr_keeps_pos; [lia|]. unfold fexp in Hk1. lia. }
  destruct (m2 / 2 ^ k2); [lia| |lia]. by case_match.
Qed.

Lemma binary_round_aux_finite s m e l :
  0 < m → e <= 900 → Z.log2 m + e <= 900 → finite (binary_round_aux prec emax s m e l).
Proof.
  intros Hm He Hlog. destruct (binary_round_aux_spec s m e l ltac:(lia))
    as (k1 & m2 & k2 & Hk1 & Hm2 & Hk2 & ->).
  assert (0 <= m / 2 ^ k1) by (apply Z.div_pos; [lia|apply Z.pow_pos_nonneg; lia]).
  assert (0 <= m2 / 2 ^ k2) by (apply Z.div_pos; [lia|apply Z.pow_pos_nonneg; lia]).
  destruct (m2 / 2 ^ k2) as [|p|] eqn:E; [done| |lia].
  assert (0 < m2) by (destruct (decide (m2 = 0)) as [->|]; [by rewrite Z.div_0_l in E
    by (apply Z.pow_nonzero; lia)|lia]).
  assert (Z.log2 m2 <= Z.max 0 (Z.log2 m - k1) + 1) as Hl2.
  { rewrite <-Z.log2_shiftr, Z.shiftr_div_pow2 by lia.
    etrans; [|apply Z.log2_succ_le]. apply Z.log2_le_mono. lia. }
  rewrite !Zdigits_log2 in * by lia. unfold fexp, emin, prec, emax in *.
  by rewrite (proj2 (Z.leb_le _ _)) by lia.
Qed.

Lemma of_int_positive z : 0 < z → positive_float (of_int z).
Proof.
  intros Hz. unfold of_int, binary_normalize, binary_round.
  destruct z as [|p|p]; [lia| |lia].
  destruct (shl_align_spec p 0 (fexp prec emax (Z.pos (digits2_pos p) + 0)))
    as (k & Hk & Hm & He & _).
  destruct (shl_align _ _ _) as [mz ez]. simpl in *. subst ez.
  apply binary_round_aux_pos; [lia|].
  pose proof (log2_scaled (Z.pos p) k (Z.pos mz)).
  pose proof (Z.log2_nonneg (Z.pos p)). unfold emin, prec, emax. lia.
Qed.

Lemma of_int_finite z : int64_ok z → 0 < z → finite (of_int z).
Proof.
  intros Hr Hz. unfold of_int, binary_normalize, binary_round.
  destruct z as [|p|p]; [lia| |lia].
  destruct (shl_align_spec p 0 (fexp prec emax (Z.pos (digits2_pos p) + 0)))
    as (k & Hk & Hm & He & _).
  destruct (shl_align _ _ _) as [mz ez]. simpl in *. subst ez.
  assert (Z.log2 (Z.pos p) <= 63).
  { change 63 with (Z.log2 9223372036854775808). apply Z.log2_le_mono.
    apply int64_ok_iff in Hr. unfold MaxInt in Hr. lia. }
  apply binary_round_aux_finite; [lia|lia|].
  rewrite Hm, Z.log2_mul_pow2 by lia. lia.
Qed.

Lemma le_MaxFloat64 x : valid x → finite x → fleb x MaxFloat64 = true.
Proof.
  destruct x as [s|[]| |[] m e]; intros Hv Hf; try done.
  apply valid_finite in Hv as (Hcan & Hmax & _).
  unfold fexp, emin, prec, emax in *. apply fleb_finite.
  destruct (decide (e = 971)) as [->|]; [right; split; [done|]|left; lia].
  apply Z.nlt_ge. intros Hlt.
  assert (Z.log2 9007199254740992 <= Z.log2 (Z.pos m)) by (apply Z.log2_le_mono; lia).
  change (Z.log2 9007199254740992) with 53 in *. lia.
Qed.

#[export] Hint Resolve nonneg_not_nan of_int_positive of_int_finite : epp.
