(* ===== verification/Utf8.v ===== *)
(** * UTF-8 and JSON string literals

    The part of [unicode/utf8] and [unicode/utf16] that [encoding/json] uses,
    its [unquote] (with the scanner's checks) and its [appendString] with HTML
    escaping, which is what [json.Unmarshal] and [json.Marshal] do with strings.
    Bytes are [ascii], byte strings [string]. *)

From S2P Require Import Prelude GoStrings.

Local Open Scope Z_scope.

Definition ord (c : ascii) : Z := Z.of_N (Ascii.N_of_ascii c).
Definition byte (z : Z) : ascii := Ascii.ascii_of_N (Z.to_N z).

Definition between (lo hi : Z) (c : ascii) : bool := (lo <=? ord c) && (ord c <=? hi).

(** ** [utf8.DecodeRune]

    The length of the encoding the bytes start with, 0 when they start with no
    valid one (and then the decoder consumes one byte and yields U+FFFD). *)
Definition cont : ascii → bool := between 128 191.

Definition second_ok (c d : ascii) : bool :=
  if ord c =? 224 then between 160 191 d
  else if ord c =? 237 then between 128 159 d
  else if ord c =? 240 then between 144 191 d
  else if ord c =? 244 then between 128 143 d
  else cont d.

Definition utf8_len (s : string) : nat :=
  match s with
  | EmptyString => 0%nat
  | String c s1 =>
      if ord c <? 128 then 1%nat
      else if between 194 223 c then
        match s1 with
        | String d _ => if cont d then 2%nat else 0%nat
        | _ => 0%nat
        end
      else if between 224 239 c then
        match s1 with
        | String d (String e _) => if second_ok c d && cont e then 3%nat else 0%nat
        | _ => 0%nat
        end
      else if between 240 244 c then
        match s1 with
        | String d (String e (String f _)) =>
            if second_ok c d && cont e && cont f then 4%nat else 0%nat
        | _ => 0%nat
        end
      else 0%nat
  end.

(** U+FFFD. *)
Definition replacement : string := bytes [239; 191; 189]%nat.

(** [utf8.EncodeRune] of a code point that is not a surrogate. *)
Definition encode_rune (r : Z) : string :=
  if r <? 128 then String (byte r) ""
  else if r <? 2048 then
    String (byte (192 + r / 64)) (String (byte (128 + r mod 64)) "")
  else if r <? 65536 then
    String (byte (224 + r / 4096))
      (String (byte (128 + (r / 64) mod 64)) (String (byte (128 + r mod 64)) ""))
  else
    String (byte (240 + r / 262144))
      (String (byte (128 + (r / 4096) mod 64))
        (String (byte (128 + (r / 64) mod 64)) (String (byte (128 + r mod 64)) ""))).

(** Every maximal run of valid encodings, the other bytes replaced. *)
Fixpoint sanitize (s : string) : string :=
  match s with
  | EmptyString => ""
  | String c s1 =>
      match utf8_len s, s1 with
      | 1%nat, _ => String c (sanitize s1)
      | 2%nat, String d s2 => String c (String d (sanitize s2))
      | 3%nat, String d (String e s3) => String c (String d (String e (sanitize s3)))
      | 4%nat, String d (String e (String f s4)) =>
          String c (String d (String e (String f (sanitize s4))))
      | _, _ => replacement +:+ sanitize s1
      end
  end.

Definition valid_utf8 (s : string) : Prop := sanitize s = s.

Global Instance valid_utf8_dec s : Decision (valid_utf8 s).
Proof. unfold valid_utf8. apply _. Defined.

(** ** Reading a string literal *)

Definition backslash : ascii := chr 92.

Definition hex_digit (c : ascii) : option Z :=
  if between 48 57 c then Some (ord c - 48)
  else if between 97 102 c then Some (ord c - 87)
  else if between 65 70 c then Some (ord c - 55)
  else None.

(** [getu4] without its backslash and u. *)
Definition hex4 (a b c d : ascii) : option Z :=
  match hex_digit a, hex_digit b, hex_digit c, hex_digit d with
  | Some a, Some b, Some c, Some d => Some (4096 * a + 256 * b + 16 * c + d)
  | _, _, _, _ => None
  end.

Definition is_surrogate (r : Z) : bool := (55296 <=? r) && (r <? 57344).

(** [utf16.DecodeRune], [None] for the replacement character. *)
Definition utf16_decode (r1 r2 : Z) : option Z :=
  if (55296 <=? r1) && (r1 <? 56320) && (56320 <=? r2) && (r2 <? 57344)
  then Some (1024 * (r1 - 55296) + (r2 - 56320) + 65536) else None.

Definition simple_escape (e : ascii) : option ascii :=
  if bool_decide (e = quote) then Some quote
  else if bool_decide (e = backslash) then Some backslash
  else if bool_decide (e = "/"%char) then Some "/"%char
  else if bool_decide (e = "b"%char) then Some (chr 8)
  else if bool_decide (e = "f"%char) then Some (chr 12)
  else if bool_decide (e = "n"%char) then Some (chr 10)
  else if bool_decide (e = "r"%char) then Some (chr 13)
  else if bool_decide (e = "t"%char) then Some (chr 9)
  else None.

Definition prepend (p : string) (r : option (string * string)) : option (string * string) :=
  match r with Some (s, rest) => Some (p +:+ s, rest) | None => None end.

(** A second escaped code unit. *)
Definition next_unit (s : string) : option (Z * string) :=
  match s with
  | String b (String u (String h1 (String h2 (String h3 (String h4 rest))))) =>
      if bool_decide (b = backslash) && bool_decide (u = "u"%char)
      then match hex4 h1 h2 h3 h4 with Some r => Some (r, rest) | None => None end
      else None
  | _ => None
  end.

(** The text of a literal whose opening quote was read, and what follows its
    closing quote; [None] when the scanner rejects it. *)
Fixpoint unquote (s : string) : option (string * string) :=
  match s with
  | EmptyString => None
  | String c s1 =>
      if bool_decide (c = quote) then Some ("", s1)
      else if bool_decide (c = backslash) then
        match s1 with
        | EmptyString => None
        | String e s2 =>
            if bool_decide (e = "u"%char) then
              match s2 with
              | String h1 (String h2 (String h3 (String h4 s3))) =>
                  match hex4 h1 h2 h3 h4 with
                  | None => None
                  | Some r =>
                      if is_surrogate r then
                        match s3 with
                        | String b (String u (String g1 (String g2 (String g3 (String g4 s4))))) =>
                            match next_unit s3 with
                            | Some (r2, _) =>
                                match utf16_decode r r2 with
                                | Some dec => prepend (encode_rune dec) (unquote s4)
                                | None => prepend replacement (unquote s3)
                                end
                            | None => prepend replacement (unquote s3)
                            end
                        | _ => prepend replacement (unquote s3)
                        end
                      else prepend (encode_rune r) (unquote s3)
                  end
              | _ => None
              end
            else match simple_escape e with
                 | Some x => prepend (String x "") (unquote s2)
                 | None => None
                 end
        end
      else if ord c <? 32 then None
      else
        match utf8_len s, s1 with
        | 1%nat, _ => prepend (String c "") (unquote s1)
        | 2%nat, String d s2 => prepend (String c (String d "")) (unquote s2)
        | 3%nat, String d (String e s3) => prepend (String c (String d (String e ""))) (unquote s3)
        | 4%nat, String d (String e (String f s4)) =>
            prepend (String c (String d (String e (String f "")))) (unquote s4)
        | _, _ => prepend replacement (unquote s1)
        end
  end.

(** ** Writing a string literal *)

Definition hex_char (d : Z) : ascii := if d <? 10 then byte (48 + d) else byte (87 + d).

(** One byte below 128, with HTML escaping. *)
Definition escape_ascii (c : ascii) : string :=
  if bool_decide (c = quote) || bool_decide (c = backslash) then String backslash (String c "")
  else if bool_decide (c = chr 8) then String backslash "b"
  else if bool_decide (c = chr 12) then String backslash "f"
  else if bool_decide (c = chr 10) then String backslash "n"
  else if bool_decide (c = chr 13) then String backslash "r"
  else if bool_decide (c = chr 9) then String backslash "t"
  else if (ord c <? 32) || bool_decide (c = "<"%char) || bool_decide (c = ">"%char)
          || bool_decide (c = "&"%char)
  then String backslash ("u00" +:+ String (hex_char (ord c / 16)) (String (hex_char (ord c mod 16)) ""))
  else String c "".

(** U+2028 and U+2029 are escaped too. *)
Definition line_separator (c d e : ascii) : bool :=
  bool_decide (c = chr 226) && bool_decide (d = chr 128)
  && (bool_decide (e = chr 168) || bool_decide (e = chr 169)).

Fixpoint escape (s : string) : string :=
  match s with
  | EmptyString => ""
  | String c s1 =>
      match utf8_len s, s1 with
      | 1%nat, _ => escape_ascii c +:+ escape s1
      | 2%nat, String d s2 => String c (String d (escape s2))
      | 3%nat, String d (String e s3) =>
          if line_separator c d e
          then String backslash ("u202" +:+ String (hex_char (ord e - 160)) (escape s3))
          else String c (String d (String e (escape s3)))
      | 4%nat, String d (String e (String f s4)) =>
          String c (String d (String e (String f (escape s4))))
      | _, _ => String backslash "ufffd" +:+ escape s1
      end
  end.

(** The literal, quotes included. *)
Definition quote_string (s : string) : string := String quote (escape s +:+ String quote "").

Example escape_examples :
  quote_string ("a<b" +:+ bytes [10; 34; 195; 169; 255]%nat)
  = String quote ("a" +:+ String backslash "u003cb" +:+ String backslash "n"
      +:+ String backslash (String quote (bytes [195; 169]%nat
      +:+ String backslash ("ufffd" +:+ String quote "")))).
Proof. reflexivity. Qed.

(** ** Bytes *)

Lemma ord_range c : 0 <= ord c < 256.
Proof.
  unfold ord. pose proof (Ascii.N_ascii_bounded c). lia.
Qed.

Lemma ord_byte z : 0 <= z < 256 → ord (byte z) = z.
Proof. intros Hz. unfold ord, byte. rewrite Ascii.N_ascii_embedding; lia. Qed.

Lemma between_spec lo hi c : between lo hi c = true ↔ lo <= ord c <= hi.
Proof. unfold between. rewrite andb_true_iff, !Z.leb_le. done. Qed.

Lemma ord_chr n : (n < 256)%nat → ord (chr n) = Z.of_nat n.
Proof.
  intros Hn. unfold ord, chr. rewrite <-(nat_ascii_embedding n Hn) at 2.
  unfold Ascii.nat_of_ascii. lia.
Qed.

(** A byte of a multi-byte encoding is not a character the scanner looks at. *)
Lemma high_byte c :
  128 <= ord c →
  bool_decide (c = quote) = false ∧ bool_decide (c = backslash) = false ∧ (ord c <? 32) = false.
Proof.
  intros Hc. split; [|split; [|by apply Z.ltb_ge; lia]].
  - apply bool_decide_eq_false. intros ->. by vm_compute in Hc.
  - apply bool_decide_eq_false. intros ->. by vm_compute in Hc.
Qed.

(** ** Decoding: the shape of what was recognised *)

Lemma utf8_len_ascii c s : utf8_len (String c s) = 1%nat ↔ ord c < 128.
Proof.
  unfold utf8_len. destruct (Z.ltb_spec (ord c) 128); [done|].
  repeat case_match; split; intros; simplify_eq; lia.
Qed.

Lemma utf8_len_high c s n : utf8_len (String c s) = n → n ≠ 1%nat → 128 <= ord c.
Proof.
  intros <- Hn. destruct (Z.ltb_spec (ord c) 128) as [Hlt|]; [|lia].
  by apply (utf8_len_ascii c s) in Hlt.
Qed.

Lemma high_of_len c s n : utf8_len (String c s) = S (S n) → 128 <= ord c.
Proof. intros Hl. by apply (utf8_len_high c s (S (S n))). Qed.

Lemma utf8_len_2 c s : utf8_len (String c s) = 2%nat →
  ∃ d s2, s = String d s2 ∧ ∀ t, utf8_len (String c (String d t)) = 2%nat.
Proof.
  unfold utf8_len. repeat case_match; intros; simplify_eq.
  all: eexists _, _; split; [done|]; intros; repeat case_match; congruence.
Qed.

Lemma utf8_len_3 c s : utf8_len (String c s) = 3%nat →
  ∃ d e s3, s = String d (String e s3)
            ∧ ∀ t, utf8_len (String c (String d (String e t))) = 3%nat.
Proof.
  unfold utf8_len. repeat case_match; intros; simplify_eq.
  all: eexists _, _, _; split; [done|]; intros; repeat case_match; congruence.
Qed.

Lemma utf8_len_4 c s : utf8_len (String c s) = 4%nat →
  ∃ d e f s4, s = String d (String e (String f s4))
              ∧ ∀ t, utf8_len (String c (String d (String e (String f t)))) = 4%nat.
Proof.
  unfold utf8_len. repeat case_match; intros; simplify_eq.
  all: eexists _, _, _, _; split; [done|]; intros; repeat case_match; congruence.
Qed.

Lemma utf8_len_le c s : (utf8_len (String c s) <= 4)%nat.
Proof. unfold utf8_len. repeat case_match; lia. Qed.

(** Induction along the decoder. *)
Lemma utf8_ind (P : string → Prop) :
  P "" →
  (∀ c s, utf8_len (String c s) = 0%nat → P s → P (String c s)) →
  (∀ c s, utf8_len (String c s) = 1%nat → P s → P (String c s)) →
  (∀ c d s, (∀ t, utf8_len (String c (String d t)) = 2%nat) → P s → P (String c (String d s))) →
  (∀ c d e s, (∀ t, utf8_len (String c (String d (String e t))) = 3%nat) →
              P s → P (String c (String d (String e s)))) →
  (∀ c d e f s, (∀ t, utf8_len (String c (String d (String e (String f t)))) = 4%nat) →
                P s → P (String c (String d (String e (String f s))))) →
  ∀ s, P s.
Proof.
  intros Hnil H0 H1 H2 H3 H4 s.
  remember (String.length s) as n eqn:Hn.
  assert (String.length s <= n)%nat as Hle by lia. clear Hn. revert s Hle.
  induction n as [|n IH]; intros s Hle.
  { by destruct s; simpl in Hle; [|lia]. }
  destruct s as [|c s]; [done|]. simpl in Hle.
  pose proof (utf8_len_le c s).
  destruct (utf8_len (String c s)) as [|[|[|[|[|]]]]] eqn:Hl; try lia.
  - apply H0; [done|]. apply IH. lia.
  - apply H1; [done|]. apply IH. lia.
  - apply utf8_len_2 in Hl as (d & s2 & -> & Hl). apply H2; [done|]. apply IH. simpl in Hle. lia.
  - apply utf8_len_3 in Hl as (d & e & s3 & -> & Hl). apply H3; [done|]. apply IH.
    simpl in Hle. lia.
  - apply utf8_len_4 in Hl as (d & e & f & s4 & -> & Hl). apply H4; [done|]. apply IH.
    simpl in Hle. lia.
Qed.

(** ** Reading what was written *)

Lemma prepend_Some p s rest : prepend p (Some (s, rest)) = Some (p +:+ s, rest).
Proof. done. Qed.

(** One escaped byte is read back, whatever follows. *)
Lemma unquote_escape_ascii c t :
  ord c < 128 → unquote (escape_ascii c +:+ t) = prepend (String c "") (unquote t).
Proof.
  destruct c as [[] [] [] [] [] [] [] []]; intros Hc; first
    [ by vm_compute in Hc | reflexivity ].
Qed.

Lemma unquote_replacement t :
  unquote (String backslash "ufffd" +:+ t) = prepend replacement (unquote t).
Proof. reflexivity. Qed.

(** The decoders pass over a multi-byte encoding in one step. *)
Section chunks.
Context (c d e f : ascii).

Lemma unquote_2 t :
  (∀ t, utf8_len (String c (String d t)) = 2%nat) →
  unquote (String c (String d t)) = prepend (String c (String d "")) (unquote t).
Proof.
  intros Hl. destruct (high_byte c) as (H1 & H2 & H3); [by apply (high_of_len c (String d "") 0)|].
  cbn [unquote]. by rewrite H1, H2, H3, Hl.
Qed.

Lemma unquote_3 t :
  (∀ t, utf8_len (String c (String d (String e t))) = 3%nat) →
  unquote (String c (String d (String e t)))
  = prepend (String c (String d (String e ""))) (unquote t).
Proof.
  intros Hl. destruct (high_byte c) as (H1 & H2 & H3); [by apply (high_of_len c (String d (String e "")) 1)|].
  cbn [unquote]. by rewrite H1, H2, H3, Hl.
Qed.

Lemma unquote_4 t :
  (∀ t, utf8_len (String c (String d (String e (String f t)))) = 4%nat) →
  unquote (String c (String d (String e (String f t))))
  = prepend (String c (String d (String e (String f "")))) (unquote t).
Proof.
  intros Hl. destruct (high_byte c) as (H1 & H2 & H3); [by apply (high_of_len c (String d (String e (String f ""))) 2)|].
  cbn [unquote]. by rewrite H1, H2, H3, Hl.
Qed.

Lemma unquote_separator t :
  line_separator c d e = true →
  unquote (String backslash ("u202" +:+ String (hex_char (ord e - 160)) t))
  = prepend (String c (String d (String e ""))) (unquote t).
Proof.
  unfold line_separator. intros [[->%bool_decide_eq_true ->%bool_decide_eq_true]%andb_true_iff
    [->%bool_decide_eq_true| ->%bool_decide_eq_true]%orb_true_iff]%andb_true_iff; reflexivity.
Qed.
End chunks.

Lemma sanitize_len0 c s :
  utf8_len (String c s) = 0%nat →
  sanitize (String c s) = replacement +:+ sanitize s
  ∧ escape (String c s) = String backslash "ufffd" +:+ escape s.
Proof. intros Hl. cbn [sanitize escape]. by rewrite Hl. Qed.

Lemma sanitize_len1 c s :
  utf8_len (String c s) = 1%nat →
  sanitize (String c s) = String c (sanitize s)
  ∧ escape (String c s) = escape_ascii c +:+ escape s.
Proof. intros Hl. cbn [sanitize escape]. by rewrite Hl. Qed.

(** Reading a literal that was written gives the text back, with the bytes that
    are no UTF-8 replaced. *)
Lemma unquote_escape s rest :
  unquote (escape s +:+ String quote rest) = Some (sanitize s, rest).
Proof.
  induction s as [|c s Hl IH|c s Hl IH|c d s Hl IH|c d e s Hl IH|c d e f s Hl IH]
    using utf8_ind.
  - reflexivity.
  - destruct (sanitize_len0 c s Hl) as [-> ->].
    by rewrite append_assoc, unquote_replacement, IH.
  - destruct (sanitize_len1 c s Hl) as [-> ->].
    rewrite append_assoc, unquote_escape_ascii by (by apply utf8_len_ascii in Hl).
    by rewrite IH.
  - cbn [sanitize escape]. rewrite Hl, !append_cons, unquote_2, IH by done. done.
  - cbn [sanitize escape]. rewrite Hl.
    destruct (line_separator c d e) eqn:Hs.
    + etrans; [exact (unquote_separator c d e (escape s +:+ String quote rest) Hs)|].
      by rewrite IH.
    + by rewrite !append_cons, unquote_3, IH.
  - cbn [sanitize escape]. by rewrite Hl, !append_cons, unquote_4, IH.
Qed.

(** ** What is read is valid UTF-8 *)

Lemma sanitize_app_2 c d s :
  (∀ t, utf8_len (String c (String d t)) = 2%nat) →
  sanitize (String c (String d s)) = String c (String d (sanitize s)).
Proof. intros Hl. cbn [sanitize]. by rewrite Hl. Qed.

Lemma sanitize_app_3 c d e s :
  (∀ t, utf8_len (String c (String d (String e t))) = 3%nat) →
  sanitize (String c (String d (String e s))) = String c (String d (String e (sanitize s))).
Proof. intros Hl. cbn [sanitize]. by rewrite Hl. Qed.

Lemma sanitize_app_4 c d e f s :
  (∀ t, utf8_len (String c (String d (String e (String f t)))) = 4%nat) →
  sanitize (String c (String d (String e (String f s))))
  = String c (String d (String e (String f (sanitize s)))).
Proof. intros Hl. cbn [sanitize]. by rewrite Hl. Qed.

(** A prefix after which decoding starts afresh. *)
Definition chunk (p : string) : Prop := ∀ s, sanitize (p +:+ s) = p +:+ sanitize s.

Lemma chunk_ascii c : ord c < 128 → chunk (String c "").
Proof.
  intros Hc s. rewrite !append_cons, !append_nil_l.
  by apply sanitize_len1, utf8_len_ascii.
Qed.

Lemma chunk_replacement : chunk replacement.
Proof. intros s. reflexivity. Qed.

Lemma between_byte lo hi z : 0 <= lo → hi < 256 → lo <= z <= hi → between lo hi (byte z) = true.
Proof. intros. apply between_spec. rewrite ord_byte; lia. Qed.

(** The encoding of a code point is a chunk: the decoder accepts it. *)
Lemma chunk_rune r : 0 <= r <= 1114111 → is_surrogate r = false → chunk (encode_rune r).
Proof.
  intros Hr Hs s. unfold is_surrogate in Hs. unfold encode_rune.
  destruct (Z.ltb_spec r 128); [by apply chunk_ascii; rewrite ord_byte; lia|].
  destruct (Z.ltb_spec r 2048); [|destruct (Z.ltb_spec r 65536)]; rewrite !append_cons, !append_nil_l.
  - apply sanitize_app_2. intros t. unfold utf8_len, cont.
    assert (2 <= r / 64 < 32) by (split; [apply Z.div_le_lower_bound|apply Z.div_lt_upper_bound]; lia).
    pose proof (Z.mod_pos_bound r 64).
    rewrite (proj2 (Z.ltb_ge _ _)) by (rewrite ord_byte; lia).
    by rewrite !between_byte by lia.
  - apply sanitize_app_3. intros t. unfold utf8_len, cont, second_ok.
    assert (0 <= r / 4096 < 16) by (split; [apply Z.div_pos|apply Z.div_lt_upper_bound]; lia).
    pose proof (Z.mod_pos_bound r 64). pose proof (Z.mod_pos_bound (r / 64) 64).
    rewrite !ord_byte by lia.
    rewrite (proj2 (Z.ltb_ge _ _)) by lia.
    replace (between 194 223 (byte (224 + r / 4096))) with false
      by (symmetry; apply not_true_is_false; rewrite between_spec, ord_byte; lia).
    rewrite (between_byte 224 239) by lia.
    assert (r / 4096 = r / 64 / 64) as Hq by (rewrite Z.div_div by lia; done).
    pose proof (Z.div_mod (r / 64) 64 ltac:(lia)). pose proof (Z.div_mod r 64 ltac:(lia)).
    destruct (Z.eqb_spec (224 + r / 4096) 224); [by rewrite !between_byte by lia|].
    destruct (Z.eqb_spec (224 + r / 4096) 237).
    { assert (r < 55296) by (apply andb_false_iff in Hs as [?%Z.leb_gt|?%Z.ltb_ge]; lia).
      by rewrite !between_byte by lia. }
    rewrite !(proj2 (Z.eqb_neq _ _)) by lia. unfold cont. by rewrite !between_byte by lia.
  - apply sanitize_app_4. intros t. unfold utf8_len, cont, second_ok.
    assert (0 <= r / 262144 < 5) by (split; [apply Z.div_pos|apply Z.div_lt_upper_bound]; lia).
    pose proof (Z.mod_pos_bound r 64). pose proof (Z.mod_pos_bound (r / 64) 64).
    pose proof (Z.mod_pos_bound (r / 4096) 64).
    rewrite !ord_byte by lia.
    rewrite (proj2 (Z.ltb_ge _ _)) by lia.
    replace (between 194 223 (byte (240 + r / 262144))) with false
      by (symmetry; apply not_true_is_false; rewrite between_spec, ord_byte; lia).
    replace (between 224 239 (byte (240 + r / 262144))) with false
      by (symmetry; apply not_true_is_false; rewrite between_spec, ord_byte; lia).
    rewrite (between_byte 240 244) by lia.
    assert (r / 4096 = r / 64 / 64) as Hq by (rewrite Z.div_div by lia; done).
    assert (r / 262144 = r / 4096 / 64) as Hq2 by (rewrite Z.div_div by lia; done).
    pose proof (Z.div_mod (r / 64) 64 ltac:(lia)). pose proof (Z.div_mod r 64 ltac:(lia)).
    pose proof (Z.div_mod (r / 4096) 64 ltac:(lia)).
    rewrite !(proj2 (Z.eqb_neq (240 + r / 262144) 224)), (proj2 (Z.eqb_neq (240 + r / 262144) 237))
      by lia.
    destruct (Z.eqb_spec (240 + r / 262144) 240); [by rewrite !between_byte by lia|].
    destruct (Z.eqb_spec (240 + r / 262144) 244); [by rewrite !between_byte by lia|].
    unfold cont. by rewrite !between_byte by lia.
Qed.

Lemma hex_digit_range c d : hex_digit c = Some d → 0 <= d < 16.
Proof.
  unfold hex_digit. intros Hd. repeat case_match; simplify_eq;
    repeat match goal with H : between _ _ _ = true |- _ => apply between_spec in H end; lia.
Qed.

Lemma hex4_range a b c d r : hex4 a b c d = Some r → 0 <= r <= 65535.
Proof.
  unfold hex4. intros Hr. repeat case_match; simplify_eq.
  repeat match goal with H : hex_digit _ = Some _ |- _ => apply hex_digit_range in H end. lia.
Qed.

Lemma utf16_decode_range r1 r2 r :
  utf16_decode r1 r2 = Some r → 65536 <= r <= 1114111.
Proof. unfold utf16_decode. intros Hr. case_match; simplify_eq. to_prop. lia. Qed.

Lemma simple_escape_ascii e x : simple_escape e = Some x → ord x < 128.
Proof. unfold simple_escape. intros Hx. repeat case_match; simplify_eq; by vm_compute. Qed.

Lemma prepend_inv p r t rest :
  prepend p r = Some (t, rest) → ∃ s, r = Some (s, rest) ∧ t = p +:+ s.
Proof. destruct r as [[s r']|]; simpl; [|done]. intros [= <- <-]. eauto. Qed.

(** The remaining text of every successful step is shorter. *)
Definition reads (n : nat) : Prop :=
  ∀ s t rest, (String.length s <= n)%nat → unquote s = Some (t, rest) → valid_utf8 t.

Lemma reads_prepend n p s t rest :
  reads n → chunk p → (String.length s <= n)%nat →
  prepend p (unquote s) = Some (t, rest) → valid_utf8 t.
Proof.
  intros Hn Hp Hs (t' & Ht & ->)%prepend_inv. unfold valid_utf8. rewrite Hp. f_equal.
  by eapply Hn.
Qed.

Lemma chunk_2 c d : (∀ t, utf8_len (String c (String d t)) = 2%nat) → chunk (String c (String d "")).
Proof. intros Hl s. by apply sanitize_app_2. Qed.

Lemma chunk_3 c d e :
  (∀ t, utf8_len (String c (String d (String e t))) = 3%nat) →
  chunk (String c (String d (String e ""))).
Proof. intros Hl s. by apply sanitize_app_3. Qed.

Lemma chunk_4 c d e f :
  (∀ t, utf8_len (String c (String d (String e (String f t)))) = 4%nat) →
  chunk (String c (String d (String e (String f "")))).
Proof. intros Hl s. by apply sanitize_app_4. Qed.

Create HintDb utf8 discriminated.
#[export] Hint Resolve chunk_replacement : utf8.

(** An escape sequence, after its backslash and u. *)
Lemma reads_unit n r s3 t rest :
  reads n → (String.length s3 <= n)%nat → 0 <= r <= 65535 →
  (if is_surrogate r then
     match s3 with
     | String b (String u (String g1 (String g2 (String g3 (String g4 s4))))) =>
         match next_unit s3 with
         | Some (r2, _) =>
             match utf16_decode r r2 with
             | Some dec => prepend (encode_rune dec) (unquote s4)
             | None => prepend replacement (unquote s3)
             end
         | None => prepend replacement (unquote s3)
         end
     | _ => prepend replacement (unquote s3)
     end
   else prepend (encode_rune r) (unquote s3)) = Some (t, rest) → valid_utf8 t.
Proof.
  intros Hn Hs Hr. destruct (is_surrogate r) eqn:Hsur.
  2:{ apply (reads_prepend n); auto. apply chunk_rune; [lia|done]. }
  destruct s3 as [|b [|u [|g1 [|g2 [|g3 [|g4 s4]]]]]];
    try (apply (reads_prepend n); auto with utf8; fail).
  destruct (next_unit _) as [[r2 ?]|]; [|apply (reads_prepend n); auto with utf8].
  destruct (utf16_decode r r2) as [dec|] eqn:Hdec; [|apply (reads_prepend n); auto with utf8].
  apply (reads_prepend n); auto.
  - apply utf16_decode_range in Hdec. apply chunk_rune; [lia|].
    unfold is_surrogate. apply andb_false_iff. right. apply Z.ltb_ge. lia.
  - simpl in Hs. lia.
Qed.

Lemma reads_all n : reads n.
Proof.
  induction n as [|n IH]; intros s t rest Hs; [by destruct s; simpl in *; [|lia]|].
  destruct s as [|c s1]; [done|]. simpl in Hs. cbn [unquote].
  case_bool_decide; [by intros [= <- <-]|]. case_bool_decide.
  - destruct s1 as [|e s2]; [done|]. simpl in Hs. case_bool_decide.
    + destruct s2 as [|h1 [|h2 [|h3 [|h4 s3]]]]; try done. simpl in Hs.
      destruct (hex4 h1 h2 h3 h4) as [r|] eqn:Hr; [|done].
      apply hex4_range in Hr. apply (reads_unit n); [done|lia|done].
    + destruct (simple_escape e) as [x|] eqn:Hx; [|done].
      apply (reads_prepend n); [done| |lia]. by eapply chunk_ascii, simple_escape_ascii.
  - case_match; [done|]. pose proof (utf8_len_le c s1).
    destruct (utf8_len (String c s1)) as [|[|[|[|[|]]]]] eqn:Hl; try lia.
    + apply (reads_prepend n); auto with utf8. lia.
    + apply (reads_prepend n); [done| |lia]. by apply chunk_ascii, (utf8_len_ascii c s1).
    + apply utf8_len_2 in Hl as (d & s2 & -> & Hl). simpl in Hs.
      apply (reads_prepend n); [done|by apply chunk_2|lia].
    + apply utf8_len_3 in Hl as (d & e & s3 & -> & Hl). simpl in Hs.
      apply (reads_prepend n); [done|by apply chunk_3|lia].
    + apply utf8_len_4 in Hl as (d & e & f & s4 & -> & Hl). simpl in Hs.
      apply (reads_prepend n); [done|by apply chunk_4|lia].
Qed.

(** Every string [json.Unmarshal] produces is valid UTF-8. *)
Lemma unquote_valid s t rest : unquote s = Some (t, rest) → valid_utf8 t.
Proof. by apply (reads_all (String.length s)). Qed.

(** A whole literal starts with a quote and reads back. *)
Lemma unquote_quote_string s rest :
  ∃ t, quote_string s +:+ rest = String quote t ∧ unquote t = Some (sanitize s, rest).
Proof.
  exists (escape s +:+ String quote rest). split; [|apply unquote_escape].
  unfold quote_string. by rewrite append_cons, append_assoc.
Qed.
