(* ===== verification/JsonNumber.v ===== *)
(** * JSON numbers and float64

    The number grammar of [encoding/json]'s scanner, [strconv.ParseFloat] on such
    a literal, and the text [json.Marshal] writes for a float64: the shortest
    decimal that reads back to the same float, in plain notation between 1e-6 and
    1e21 and in exponent notation outside. *)

From S2P Require Import Prelude GoInt GoStrings Float64 Utf8.
From Stdlib Require Import SpecFloat.

Local Open Scope Z_scope.

(** ** Scanning a literal *)

Definition is_digit (c : ascii) : bool :=
  match char_digit c with Some _ => true | None => false end.

Fixpoint take_digits (s : string) : string * string :=
  match s with
  | String c s' =>
      if is_digit c then let '(d, r) := take_digits s' in (String c d, r) else ("", s)
  | EmptyString => ("", "")
  end.

(** At least one digit. *)
Definition digits1 (s : string) : option (string * string) :=
  match take_digits s with
  | (EmptyString, _) => None
  | r => Some r
  end.

(** The pieces of a literal: sign, integer digits, fraction digits, exponent
    sign ([None] without an exponent) and exponent digits. *)
Record literal := mkLiteral {
  lit_neg : bool;
  lit_int : string;
  lit_frac : string;
  lit_exp : option (bool * string)
}.

Definition scan_int (s : string) : option (string * string) :=
  match s with
  | String c s' =>
      if bool_decide (c = "0"%char) then Some ("0", s') else digits1 s
  | EmptyString => None
  end.

Definition scan_frac (s : string) : option (string * string) :=
  match s with
  | String c s' => if bool_decide (c = "."%char) then digits1 s' else Some ("", s)
  | EmptyString => Some ("", "")
  end.

Definition scan_exp_sign (s : string) : bool * string :=
  match s with
  | String c s' =>
      if bool_decide (c = "-"%char) then (true, s')
      else if bool_decide (c = "+"%char) then (false, s') else (false, s)
  | EmptyString => (false, s)
  end.

Definition scan_exp (s : string) : option (option (bool * string) * string) :=
  match s with
  | String c s' =>
      if bool_decide (c = "e"%char) || bool_decide (c = "E"%char) then
        let '(neg, s'') := scan_exp_sign s' in
        match digits1 s'' with
        | Some (d, r) => Some (Some (neg, d), r)
        | None => None
        end
      else Some (None, s)
  | EmptyString => Some (None, "")
  end.

Definition scan_sign (s : string) : bool * string :=
  match s with
  | String c s' => if bool_decide (c = "-"%char) then (true, s') else (false, s)
  | EmptyString => (false, s)
  end.

Definition scan_number (s : string) : option (literal * string) :=
  let '(neg, s) := scan_sign s in
  match scan_int s with
  | None => None
  | Some (i, s) =>
      match scan_frac s with
      | None => None
      | Some (f, s) =>
          match scan_exp s with
          | None => None
          | Some (e, s) => Some (mkLiteral neg i f e, s)
          end
      end
  end.

(** ** [strconv.ParseFloat] and [strconv.ParseInt] on a literal *)

Definition dec (s : string) : Z := default 0 (dec_value s 0).

Definition lit_exponent (l : literal) : Z :=
  match lit_exp l with
  | None => 0
  | Some (neg, d) => if neg then - dec d else dec d
  end.

(** The nearest float; an overflow is a range error. *)
Definition ParseFloat (l : literal) : option float64 :=
  let x := of_decimal (lit_neg l) (dec (lit_int l +:+ lit_frac l))
             (lit_exponent l - Z.of_nat (String.length (lit_frac l))) in
  match x with S754_infinity _ => None | _ => Some x end.

(** Base ten, 64 bits: a fraction or an exponent is a syntax error. *)
Definition ParseInt (l : literal) : option Z :=
  match lit_frac l, lit_exp l with
  | EmptyString, None =>
      let z := if lit_neg l then - dec (lit_int l) else dec (lit_int l) in
      if bool_decide (int64_ok z) then Some z else None
  | _, _ => None
  end.

(** ** The text of a float *)

(** The integer part of [m * 2^e / 10^x]. *)
Definition scaled (m : Z) (e x : Z) : Z * Z :=
  let num := m * 2 ^ Z.max 0 e * 10 ^ Z.max 0 (- x) in
  let den := 2 ^ Z.max 0 (- e) * 10 ^ Z.max 0 x in
  (num, den).

(** The decimal exponent p of a positive number: 10^p <= m * 2^e < 10^(p+1),
    from an estimate that is at most a few too small. *)
Fixpoint raise (fuel : nat) (m e p : Z) : Z :=
  match fuel with
  | O => p
  | S fuel =>
      let '(num, den) := scaled m e (p + 1) in
      if den <=? num then raise fuel m e (p + 1) else p
  end.

Definition decimal_exponent (m e : Z) : Z :=
  raise 4 m e ((Z.log2 m + e) * 30103 / 100000 - 2).

(** The n-digit decimals next to the number, tried in order of length: the one
    below, the one above, or the nearer of the two when both read back. *)
Fixpoint shortest_from (fuel : nat) (f : float64) (m e p n : Z) : Z * Z :=
  let x := p - n + 1 in
  let '(num, den) := scaled m e x in
  let down := num / den in
  let rest := num mod den in
  let okdown := bool_decide (of_decimal false down x = f) in
  let okup := bool_decide (of_decimal false (down + 1) x = f) in
  if okdown && okup then
    (match 2 * rest ?= den with
     | Lt => down
     | Gt => down + 1
     | Eq => if Z.even down then down else down + 1
     end, x)
  else if okdown then (down, x)
  else if okup then (down + 1, x)
  else match fuel with
       | O => (down, x)
       | S fuel => shortest_from fuel f m e p (n + 1)
       end.

(** Without trailing zeros. *)
Fixpoint strip_zeros (fuel : nat) (d x : Z) : Z * Z :=
  match fuel with
  | O => (d, x)
  | S fuel => if d mod 10 =? 0 then strip_zeros fuel (d / 10) (x + 1) else (d, x)
  end.

(** Seventeen digits always suffice for a binary64 number. *)
Definition shortest (m : positive) (e : Z) : Z * Z :=
  let '(d, x) :=
    shortest_from 16 (S754_finite false m e) (Z.pos m) e (decimal_exponent (Z.pos m) e) 1 in
  strip_zeros 20 d x.

(** [k] digits, with leading zeros. *)
Fixpoint pad (k : nat) (z : Z) : string :=
  match k with
  | O => ""
  | S k => pad k (z / 10) +:+ String (digit_char (z mod 10)) ""
  end.

Fixpoint zeros (k : nat) : string :=
  match k with O => "" | S k => String "0" (zeros k) end.

(** Format 'f': d * 10^x. *)
Definition plain_literal (neg : bool) (d x : Z) : literal :=
  if 0 <=? x then mkLiteral neg (nat_text (d * 10 ^ x)) "" None
  else mkLiteral neg (nat_text (d / 10 ^ (- x))) (pad (Z.to_nat (- x)) (d mod 10 ^ (- x))) None.

(** Format 'e'. *)
Definition exp_literal (neg : bool) (d x : Z) : literal :=
  let k := (String.length (nat_text d) - 1)%nat in
  let p := x + Z.of_nat k in
  mkLiteral neg (nat_text (d / 10 ^ Z.of_nat k)) (pad k (d mod 10 ^ Z.of_nat k))
    (Some (p <? 0, nat_text (Z.abs p))).

(** The text of a literal; an exponent is written with its sign. *)
Definition frac_text (f : string) : string :=
  match f with EmptyString => "" | String _ _ => String "." f end.

Definition exp_text (e : option (bool * string)) : string :=
  match e with
  | None => ""
  | Some (neg, d) => String "e" (String (if neg then "-"%char else "+"%char) d)
  end.

Definition literal_text (l : literal) : string :=
  (if lit_neg l then "-" else "") +:+ lit_int l +:+ frac_text (lit_frac l)
  +:+ exp_text (lit_exp l).

(** [floatEncoder.encode]; NaN and the infinities are refused before. *)
Definition float_literal (f : float64) : literal :=
  match f with
  | S754_finite neg m e =>
      let '(d, x) := shortest m e in
      let abs := S754_finite false m e in
      if fltb abs (of_decimal false 1 (-6)) || fgeb abs (of_decimal false 1 21)
      then exp_literal neg d x
      else plain_literal neg d x
  | S754_zero neg => mkLiteral neg "0" "" None
  | _ => mkLiteral false "0" "" None
  end.

Definition float_text (f : float64) : string := literal_text (float_literal f).

(** The shortest decimal reads back. *)
Definition float_ok (f : float64) : Prop :=
  match f with
  | S754_zero _ => True
  | S754_finite neg m e => let '(d, x) := shortest m e in 0 < d ∧ of_decimal neg d x = f
  | _ => False
  end.

Global Instance float_ok_dec f : Decision (float_ok f).
Proof. unfold float_ok. destruct f; repeat case_match; apply _. Defined.

Example float_texts :
  map float_text [of_decimal false 1 (-1); of_int 1; of_int (-120); of_decimal false 1 21;
                  of_decimal false 123456789 (-15); of_decimal true 5 (-324);
                  of_decimal false 17976931348623157 292; of_decimal false 1 (-6); fzero;
                  of_decimal false 30000000000000004 (-17); of_int 9007199254740993;
                  S754_finite false 4503599627370496 (-96)]
  = ["0.1"; "1"; "-120"; "1e+21"; "1.23456789e-7"; "-5e-324"; "1.7976931348623157e+308";
     "0.000001"; "0"; "0.30000000000000004"; "9007199254740992"; "5.684341886080802e-14"].
Proof. vm_compute. reflexivity. Qed.

(** ** Digits *)

Definition all_digits (s : string) : Prop := str_all is_digit s = true.

Lemma is_digit_char d : 0 <= d < 10 → is_digit (digit_char d) = true.
Proof. intros Hd. unfold is_digit. by rewrite char_digit_char. Qed.

Lemma mod10 z : 0 <= z mod 10 < 10.
Proof. apply Z.mod_pos_bound. lia. Qed.

Lemma dec_digits_all fuel z acc : all_digits acc → all_digits (dec_digits fuel z acc).
Proof.
  revert z acc. induction fuel as [|fuel IH]; intros z acc Hacc; simpl; [done|].
  assert (all_digits (String (digit_char (z mod 10)) acc)).
  { unfold all_digits in *. simpl. by rewrite is_digit_char by apply mod10. }
  case_match; auto.
Qed.

Lemma nat_text_digits z : all_digits (nat_text z).
Proof. by apply dec_digits_all. Qed.

(** The leading digit of a positive number is not zero. *)
Lemma dec_digits_lead fuel z acc :
  0 < z < 2 ^ Z.of_nat fuel →
  ∃ d s, dec_digits fuel z acc = String (digit_char d) s ∧ 1 <= d <= 9.
Proof.
  revert z acc. induction fuel as [|fuel IH]; intros z acc Hz.
  { simpl in Hz. lia. }
  rewrite Nat2Z.inj_succ, Z.pow_succ_r in Hz by lia. simpl.
  destruct (Z.ltb_spec z 10).
  - exists (z mod 10), acc. rewrite Z.mod_small by lia. split; [done|lia].
  - apply IH. split; [apply Z.div_str_pos; lia|]. apply Z.div_lt_upper_bound; lia.
Qed.

Lemma nat_text_lead z :
  0 < z → ∃ d s, nat_text z = String (digit_char d) s ∧ 1 <= d <= 9.
Proof.
  intros Hz. apply dec_digits_lead. split; [done|].
  rewrite Nat2Z.inj_succ, Z2Nat.id by apply Z.log2_nonneg. by apply Z.log2_spec.
Qed.

Lemma digit_char_not_zero d : 1 <= d <= 9 → digit_char d ≠ "0"%char.
Proof.
  intros Hd Heq. assert (Some d = char_digit "0") as Hz
    by (rewrite <-Heq; symmetry; apply char_digit_char; lia).
  vm_compute in Hz. simplify_eq. lia.
Qed.

Lemma dec_value_app s t k : dec_value (s +:+ t) k = dec_value s k ≫= dec_value t.
Proof.
  revert k. induction s as [|c s IH]; intros k; [done|]. rewrite append_cons. simpl.
  destruct (char_digit c); [apply IH|done].
Qed.

Lemma pad_value k z a : 0 <= z < 10 ^ Z.of_nat k → dec_value (pad k z) a = Some (a * 10 ^ Z.of_nat k + z).
Proof.
  revert z a. induction k as [|k IH]; intros z a Hz.
  { simpl in *. f_equal. lia. }
  rewrite Nat2Z.inj_succ, Z.pow_succ_r in * by lia. simpl. rewrite dec_value_app, IH.
  - simpl. rewrite char_digit_char by apply mod10. f_equal.
    pose proof (Z.div_mod z 10). lia.
  - split; [apply Z.div_pos; lia|]. apply Z.div_lt_upper_bound; lia.
Qed.

Lemma pad_length k z : String.length (pad k z) = k.
Proof. revert z. induction k as [|k IH]; intros z; simpl; [done|]. rewrite length_append, IH. simpl. lia. Qed.

Lemma pad_digits k z : all_digits (pad k z).
Proof.
  revert z. induction k as [|k IH]; intros z; [done|]. unfold all_digits in *. simpl.
  rewrite str_all_app, IH. simpl. by rewrite is_digit_char by apply mod10.
Qed.

(** ** Scanning what was written *)

(** What may follow a number. *)
Definition ends_number (c : ascii) : bool :=
  negb (is_digit c) && negb (bool_decide (c ∈ ["."; "e"; "E"]%char)).

Definition delimited (rest : string) : Prop :=
  match rest with EmptyString => True | String c _ => ends_number c = true end.

Definition no_digit (rest : string) : Prop :=
  match rest with EmptyString => True | String c _ => is_digit c = false end.

Lemma take_digits_app d rest : all_digits d → no_digit rest → take_digits (d +:+ rest) = (d, rest).
Proof.
  intros Hd Hr. induction d as [|c d IH].
  - rewrite append_nil_l. destruct rest as [|c rest]; [done|]. simpl in *. by rewrite Hr.
  - unfold all_digits in Hd. simpl in Hd. apply andb_true_iff in Hd as [Hc Hd].
    rewrite append_cons. simpl. by rewrite Hc, IH.
Qed.

Lemma digits1_app d rest :
  d ≠ "" → all_digits d → no_digit rest → digits1 (d +:+ rest) = Some (d, rest).
Proof. intros Hne Hd Hr. unfold digits1. rewrite take_digits_app by done. by destruct d. Qed.

(** Literals as the writer makes them. *)
Definition wf_int (s : string) : Prop :=
  s = "0" ∨ ∃ c t, s = String c t ∧ c ≠ "0"%char ∧ all_digits s.

Record wf_literal (l : literal) : Prop := {
  wf_lit_int : wf_int (lit_int l);
  wf_lit_frac : all_digits (lit_frac l);
  wf_lit_exp : match lit_exp l with None => True | Some (_, d) => d ≠ "" ∧ all_digits d end
}.

Lemma scan_int_app i rest : wf_int i → no_digit rest → scan_int (i +:+ rest) = Some (i, rest).
Proof.
  intros [->|(c & t & -> & Hc & Hd)] Hr; [done|].
  rewrite append_cons. simpl. rewrite bool_decide_false by done.
  rewrite <-append_cons. by apply digits1_app.
Qed.

Lemma wf_int_head i : wf_int i → ∃ c t, i = String c t ∧ is_digit c = true.
Proof.
  intros [->|(c & t & -> & _ & Hd)]; [by eexists _, _|]. eexists _, _. split; [done|].
  unfold all_digits in Hd. simpl in Hd. by apply andb_true_iff in Hd as [? _].
Qed.

Lemma digit_not c x : is_digit c = true → is_digit x = false → bool_decide (c = x) = false.
Proof. intros Hc Hx. apply bool_decide_eq_false. intros ->. congruence. Qed.

Lemma scan_frac_app f rest :
  all_digits f → delimited rest ∨ (∃ r, rest = String "e" r) →
  scan_frac (frac_text f +:+ rest) = Some (f, rest).
Proof.
  intros Hf Hr. assert (no_digit rest ∧ ∀ r, rest ≠ String "." r) as [Hnd Hdot].
  { destruct Hr as [Hr|[r ->]]; [|done]. destruct rest as [|c rest]; [done|].
    unfold delimited, ends_number in Hr. to_prop. split; [done|].
    intros r [= ->]. by apply H0; set_solver. }
  destruct f as [|c f]; unfold frac_text.
  - rewrite append_nil_l. destruct rest as [|c rest]; [done|]. simpl.
    rewrite bool_decide_false; [done|]. intros ->. by apply (Hdot rest).
  - rewrite append_cons. simpl. by apply digits1_app.
Qed.

Lemma scan_exp_app (e : option (bool * string)) rest :
  match e with None => True | Some (_, d) => d ≠ "" ∧ all_digits d end → delimited rest →
  scan_exp (exp_text e +:+ rest) = Some (e, rest).
Proof.
  intros He Hr. assert (no_digit rest) as Hnd.
  { destruct rest; [done|]. unfold delimited, ends_number in Hr. by to_prop. }
  destruct e as [[neg d]|]; unfold exp_text.
  - destruct He as [Hne Hd]. rewrite !append_cons. unfold scan_exp.
    rewrite bool_decide_true by done. simpl.
    destruct neg; simpl; by rewrite digits1_app.
  - rewrite append_nil_l. destruct rest as [|c rest]; [done|]. simpl.
    unfold delimited, ends_number in Hr. to_prop.
    rewrite !bool_decide_false; [done| |]; intros ->; apply H0; set_solver.
Qed.

Lemma scan_literal_text l rest :
  wf_literal l → delimited rest → scan_number (literal_text l +:+ rest) = Some (l, rest).
Proof.
  intros [Hi Hf He] Hr. destruct l as [neg i f e]. simpl in *. unfold literal_text. simpl.
  rewrite !append_assoc. unfold scan_number.
  match goal with |- context [scan_sign (_ +:+ (i +:+ ?t))] => set (tail := t) end.
  assert (scan_sign ((if neg then "-" else "") +:+ i +:+ tail) = (neg, i +:+ tail)) as ->.
  { destruct neg; [done|]. destruct (wf_int_head i Hi) as (c & t & -> & Hc).
    rewrite append_nil_l, append_cons. simpl. by rewrite digit_not. }
  assert (no_digit tail) as Hnd.
  { subst tail. destruct f as [|c f]; [|done]. destruct e as [[neg' d]|]; [done|]. simpl. destruct rest; [done|].
    unfold delimited, ends_number in Hr. by to_prop. }
  rewrite scan_int_app by done. subst tail.
  rewrite (scan_frac_app f); [by rewrite scan_exp_app|done|].
  destruct e as [[neg' d]|]; [right; by eexists|by left].
Qed.

(** ** Floats read back *)

Lemma nat_text_wf_int z : 0 <= z → wf_int (nat_text z).
Proof.
  intros Hz. destruct (decide (z = 0)) as [->|]; [by left|]. right.
  destruct (nat_text_lead z) as (d & s & Heq & Hd); [lia|].
  eexists _, _. split; [exact Heq|]. split; [by apply digit_char_not_zero|apply nat_text_digits].
Qed.

Lemma nat_text_ne z : 0 <= z → nat_text z ≠ "".
Proof. intros Hz. by destruct (nat_text_head z Hz) as (c & s & -> & _). Qed.

Lemma plain_literal_wf neg d x : 0 < d → wf_literal (plain_literal neg d x).
Proof.
  intros Hd. unfold plain_literal. destruct (Z.leb_spec 0 x); split; simpl; try done.
  - apply nat_text_wf_int. pose proof (Z.pow_pos_nonneg 10 x). nia.
  - apply nat_text_wf_int, Z.div_pos; [lia|]. apply Z.pow_pos_nonneg; lia.
  - apply pad_digits.
Qed.

Lemma exp_literal_wf neg d x : 0 < d → wf_literal (exp_literal neg d x).
Proof.
  intros Hd. unfold exp_literal. split; simpl.
  - apply nat_text_wf_int, Z.div_pos; [lia|]. apply Z.pow_pos_nonneg; lia.
  - apply pad_digits.
  - split; [apply nat_text_ne; lia|apply nat_text_digits].
Qed.

(** The digits before and after the point, read together. *)
Lemma dec_split d k :
  0 < d → dec (nat_text (d / 10 ^ Z.of_nat k) +:+ pad k (d mod 10 ^ Z.of_nat k)) = d.
Proof.
  intros Hd. assert (0 < 10 ^ Z.of_nat k) by (apply Z.pow_pos_nonneg; lia).
  unfold dec. rewrite dec_value_app, nat_text_value by (apply Z.div_pos; lia). simpl.
  rewrite pad_value by (apply Z.mod_pos_bound; lia). simpl.
  pose proof (Z.div_mod d (10 ^ Z.of_nat k)). lia.
Qed.

Lemma of_decimal_shift neg d x : 0 < d → 0 <= x → of_decimal neg (d * 10 ^ x) 0 = of_decimal neg d x.
Proof.
  intros Hd Hx. assert (0 < 10 ^ x) by (apply Z.pow_pos_nonneg; lia).
  unfold of_decimal. rewrite !(proj2 (Z.eqb_neq _ _)) by nia.
  rewrite (proj2 (Z.leb_le 0 x)) by done. simpl. by rewrite Z.mul_1_r.
Qed.

Lemma plain_literal_value neg d x :
  0 < d →
  of_decimal neg (dec (lit_int (plain_literal neg d x) +:+ lit_frac (plain_literal neg d x)))
    (lit_exponent (plain_literal neg d x)
     - Z.of_nat (String.length (lit_frac (plain_literal neg d x)))) = of_decimal neg d x.
Proof.
  intros Hd. unfold plain_literal. destruct (Z.leb_spec 0 x) as [Hx|Hx]; simpl.
  - assert (0 < 10 ^ x) by (apply Z.pow_pos_nonneg; lia).
    rewrite append_nil_r. unfold dec. rewrite nat_text_value by nia. by apply of_decimal_shift.
  - rewrite pad_length. assert (10 ^ (- x) = 10 ^ Z.of_nat (Z.to_nat (- x))) as ->
      by (rewrite Z2Nat.id; lia).
    rewrite dec_split by done. f_equal. unfold lit_exponent. simpl. lia.
Qed.

Lemma exp_literal_value neg d x :
  0 < d →
  of_decimal neg (dec (lit_int (exp_literal neg d x) +:+ lit_frac (exp_literal neg d x)))
    (lit_exponent (exp_literal neg d x)
     - Z.of_nat (String.length (lit_frac (exp_literal neg d x)))) = of_decimal neg d x.
Proof.
  intros Hd. unfold exp_literal. simpl. rewrite dec_split, pad_length by done.
  f_equal. unfold lit_exponent. simpl. unfold dec. rewrite nat_text_value by lia. simpl.
  destruct (Z.ltb_spec (x + Z.of_nat (String.length (nat_text d) - 1)) 0); lia.
Qed.

Lemma float_literal_wf f : float_ok f → wf_literal (float_literal f).
Proof.
  unfold float_ok, float_literal. destruct f as [neg| | |neg m e]; try done.
  - intros _. split; simpl; [by left|done|done].
  - destruct (shortest m e) as [d x]. intros [Hd _].
    case_match; [by apply exp_literal_wf|by apply plain_literal_wf].
Qed.

Lemma ParseFloat_float_literal f : float_ok f → ParseFloat (float_literal f) = Some f.
Proof.
  unfold float_ok, ParseFloat, float_literal. destruct f as [neg| | |neg m e]; try done.
  destruct (shortest m e) as [d x]. intros [Hd Hok].
  destruct (fltb _ _ || fgeb _ _)%bool.
  - replace (lit_neg (exp_literal neg d x)) with neg by done.
    by rewrite exp_literal_value, Hok.
  - replace (lit_neg (plain_literal neg d x)) with neg by (unfold plain_literal; by case_match).
    by rewrite plain_literal_value, Hok.
Qed.

(** The text starts with a digit or a minus sign. *)
Definition number_start (c : ascii) : bool := is_digit c || bool_decide (c = "-"%char).

Lemma literal_text_head l : wf_literal l → ∃ c t, literal_text l = String c t ∧ number_start c = true.
Proof.
  intros [Hi _ _]. destruct (wf_int_head _ Hi) as (c & t & Heq & Hc). unfold literal_text.
  destruct (lit_neg l).
  - eexists _, _. split; [done|]. done.
  - rewrite append_nil_l, Heq, append_cons. eexists _, _. split; [done|].
    unfold number_start. by rewrite Hc.
Qed.

(** ** What is read is finite *)

Lemma binary_round_aux_not_nan s m e l :
  0 <= m → binary_round_aux prec emax s m e l ≠ S754_nan.
Proof.
  intros Hm. destruct (binary_round_aux_spec s m e l Hm)
    as (k1 & m2 & k2 & Hk1 & Hm2 & Hk2 & ->).
  assert (0 <= m / 2 ^ k1) by (apply Z.div_pos; [lia|apply Z.pow_pos_nonneg; lia]).
  assert (0 <= m2 / 2 ^ k2) by (apply Z.div_pos; [lia|apply Z.pow_pos_nonneg; lia]).
  destruct (m2 / 2 ^ k2) eqn:?; [done| |lia]. by case_match.
Qed.

Lemma of_decimal_not_nan s m e : 0 <= m → of_decimal s m e ≠ S754_nan.
Proof.
  intros Hm. unfold of_decimal. destruct (Z.eqb_spec m 0); [done|].
  destruct (Z.leb_spec 0 e).
  - unfold binary_round. destruct (shl_align _ _ _). by apply binary_round_aux_not_nan.
  - unfold SFdiv_core_binary. destruct (Z.div_eucl _ _) as [q r] eqn:E.
    apply binary_round_aux_not_nan. apply (f_equal fst) in E.
    change (fst (Z.div_eucl ?a ?b)) with (a / b) in E. simpl in E. rewrite <-E.
    apply Z.div_pos; [|apply Z.pow_pos_nonneg; lia].
    case_match; [lia| |lia]. by apply Z.shiftl_nonneg.
Qed.

Lemma dec_value_nonneg s acc z : 0 <= acc → dec_value s acc = Some z → 0 <= z.
Proof.
  revert acc. induction s as [|c s IH]; intros acc Hacc; simpl; [by intros [= <-]|].
  destruct (char_digit c) as [d|] eqn:Hd; [|done]. apply IH.
  unfold char_digit in Hd. case_match eqn:E; simplify_eq. to_prop. lia.
Qed.

Lemma ParseFloat_finite l f : ParseFloat l = Some f → finite f.
Proof.
  unfold ParseFloat. set (x := of_decimal _ _ _).
  assert (x ≠ S754_nan) as Hx.
  { apply of_decimal_not_nan. unfold dec.
    destruct (dec_value _ 0) as [z|] eqn:Hz; simpl; [|lia]. by eapply dec_value_nonneg; [|exact Hz]. }
  by destruct x; intros [= <-].
Qed.
