(* ===== verification/FloatText.v ===== *)
(** * The text of a float reads back

    The shortest decimal that [shortest] finds for a float is read back as that float:
    seventeen digits are enough.  Rounding is followed on exact rationals N/D. *)

From S2P Require Import Prelude GoInt GoStrings Float64 Utf8 JsonNumber.
From Stdlib Require Import SpecFloat.

Local Open Scope Z_scope.

(** ** Where a rational lies above an integer *)

(** [l] says where N/D lies in the interval from [m] to [m + 1]. *)
Definition located (m : Z) (l : location) (N D : Z) : Prop :=
  m * D <= N < (m + 1) * D
  ∧ match l with
    | loc_Exact => N = m * D
    | loc_Inexact c => m * D < N ∧ (2 * (N - m * D) ?= D) = c
    end.

Definition record_located (r : shr_record) (N D : Z) : Prop :=
  located (shr_m r) (loc_of_shr_record r) N D.

Lemma shr_1_half m b s :
  0 <= m → ∃ h (p : bool), m = 2 * h + (if p then 1 else 0) ∧ 0 <= h
    ∧ shr_1 (Build_shr_record m b s) = Build_shr_record h p (b || s).
Proof.
  destruct m as [|[p|p|]|]; intros Hm;
    [exists 0, false|exists (Z.pos p), true|exists (Z.pos p), false|exists 0, true|lia];
    (split; [lia|split; [lia|done]]).
Qed.

Lemma shr_1_located r N D :
  0 < D → 0 <= shr_m r → record_located r N D → record_located (shr_1 r) N (2 * D).
Proof.
  destruct r as [m b s]. intros HD Hm. destruct (shr_1_half m b s Hm) as (h & p & Hmh & Hh & ->).
  unfold record_located, located. cbn [shr_m]. intros [Hb Hl].
  assert (m * D = 2 * (h * D) + (if p then D else 0)) as E2 by (rewrite Hmh; destruct p; lia).
  split; [destruct p; lia|].
  destruct p, b, s; cbn [orb loc_of_shr_record] in *;
    repeat match goal with
    | H : _ ∧ (_ ?= _) = _ |- _ => destruct H as [? H]; first [apply Z.compare_lt_iff in H
        | apply Z.compare_gt_iff in H | apply Z.compare_eq_iff in H]
    end;
    first [lia | split; [lia|]; first [apply Z.compare_lt_iff; lia
        | apply Z.compare_gt_iff; lia | apply Z.compare_eq_iff; lia]].
Qed.

Lemma iter_shr_located p r N D :
  0 < D → 0 <= shr_m r → record_located r N D →
  record_located (iter_pos shr_1 p r) N (2 ^ Z.pos p * D).
Proof.
  revert r D. induction p as [p IH|p IH|]; intros r D HD Hm Hl; simpl iter_pos.
  - assert (0 < 2 ^ Z.pos p) by (apply Z.pow_pos_nonneg; lia).
    assert (0 <= shr_m (shr_1 r)) by (rewrite shr_1_div by done; apply Z.div_pos; lia).
    replace (2 ^ Z.pos p~1 * D) with (2 ^ Z.pos p * (2 ^ Z.pos p * (2 * D)))
      by (replace (Z.pos p~1) with (1 + Z.pos p + Z.pos p) by lia; rewrite !Z.pow_add_r by lia; ring).
    apply IH; [nia| |apply IH; [lia|done|by apply shr_1_located]].
    rewrite iter_shr_div by done. apply Z.div_pos; lia.
  - assert (0 < 2 ^ Z.pos p) by (apply Z.pow_pos_nonneg; lia).
    replace (2 ^ Z.pos p~0 * D) with (2 ^ Z.pos p * (2 ^ Z.pos p * D))
      by (replace (Z.pos p~0) with (Z.pos p + Z.pos p) by lia; rewrite !Z.pow_add_r by lia; ring).
    apply IH; [nia| |by apply IH].
    rewrite iter_shr_div by done. apply Z.div_pos; lia.
  - rewrite Z.pow_1_r. by apply shr_1_located.
Qed.

Lemma record_of_loc_located m l N D : located m l N D → record_located (shr_record_of_loc m l) N D.
Proof. unfold record_located. by destruct l as [|[]]. Qed.

Lemma shr_fexp_located m e l N D :
  0 < D → 0 <= m → located m l N D →
  record_located (fst (shr_fexp prec emax m e l)) N
    (2 ^ Z.max 0 (fexp prec emax (Zdigits2 m + e) - e) * D).
Proof.
  intros HD Hm Hl%record_of_loc_located. unfold shr_fexp, shr.
  assert (shr_m (shr_record_of_loc m l) = m) as Hrec by (by destruct l as [|[]]).
  destruct (fexp prec emax (Zdigits2 m + e) - e) as [|p|p]; simpl fst.
  - by rewrite Z.mul_1_l.
  - rewrite Z.max_r by lia. apply iter_shr_located; [done|by rewrite Hrec|done].
  - rewrite Z.max_l by lia. by rewrite Z.mul_1_l.
Qed.

(** Rounding gives the integer that is less than a half away. *)
Lemma round_nearest m l N D t :
  0 < D → located m l N D → 2 * Z.abs (N - t * D) < D → round_nearest_even m l = t.
Proof.
  intros HD [Hb Hl] Ht.
  assert (2 * (N - t * D) < D ∧ 2 * (t * D - N) < D) as [Ht1 Ht2] by lia. clear Ht.
  assert (t = m ∨ t = m + 1) as [->| ->].
  { assert (t < m + 2) by (apply (Z.mul_lt_mono_pos_r D); lia).
    assert (m < t + 1) by (apply (Z.mul_lt_mono_pos_r D); lia). lia. }
  - destruct l as [|[]]; simpl; [done| | |]; destruct Hl as [Hl Hc].
    + rewrite Z.compare_eq_iff in Hc. lia.
    + done.
    + rewrite Z.compare_gt_iff in Hc. lia.
  - destruct l as [|[]]; simpl; [lia| | |done]; destruct Hl as [Hl Hc].
    + rewrite Z.compare_eq_iff in Hc. lia.
    + rewrite Z.compare_lt_iff in Hc. lia.
Qed.

Lemma Zdigits2_scaled m k : 0 < m → 0 <= k → Zdigits2 (m * 2 ^ k) = Zdigits2 m + k.
Proof.
  intros Hm Hk. assert (0 < 2 ^ k) by (apply Z.pow_pos_nonneg; lia).
  rewrite !Zdigits_log2 by nia. rewrite Z.log2_mul_pow2 by done. lia.
Qed.

(** A number within half a unit, at the exponent the rounding chooses, of a float is
    rounded to it. *)
Lemma round_aux_at s m e l N D mx ex e1 :
  valid (S754_finite false mx ex) → 0 < D → 0 <= m → located m l N D →
  e1 = fexp prec emax (Zdigits2 m + e) → e <= e1 <= ex →
  2 * Z.abs (N - Z.pos mx * 2 ^ (ex - e) * D) < 2 ^ (e1 - e) * D →
  binary_round_aux prec emax s m e l = S754_finite s mx ex.
Proof.
  intros (Hcan & Hmax & Hmin)%valid_finite HD Hm Hl He1 Hle Hnear.
  pose proof (shr_fexp_spec m e l Hm) as [Hsm Hse].
  pose proof (shr_fexp_located m e l N D HD Hm Hl) as Hloc.
  rewrite <-He1, Z.max_r in Hsm, Hse, Hloc by lia.
  unfold binary_round_aux. destruct (shr_fexp prec emax m e l) as [r e']. cbn [fst snd] in *. subst e'.
  replace (e + (e1 - e)) with e1 by lia.
  assert (0 < 2 ^ (e1 - e)) by (apply Z.pow_pos_nonneg; lia).
  assert (0 < 2 ^ (ex - e1)) by (apply Z.pow_pos_nonneg; lia).
  rewrite (round_nearest _ _ N (2 ^ (e1 - e) * D) (Z.pos mx * 2 ^ (ex - e1))); [|nia|done|].
  2:{ replace (Z.pos mx * 2 ^ (ex - e1) * (2 ^ (e1 - e) * D)) with (Z.pos mx * 2 ^ (ex - e) * D); [done|].
      replace (ex - e) with ((ex - e1) + (e1 - e)) by lia. rewrite Z.pow_add_r by lia. ring. }
  pose proof (shr_fexp_spec (Z.pos mx * 2 ^ (ex - e1)) e1 loc_Exact) as [Hm2 He2]; [nia|].
  rewrite Zdigits2_scaled in Hm2, He2 by lia.
  replace (fexp prec emax (Zdigits2 (Z.pos mx) + (ex - e1) + e1) - e1) with (ex - e1) in Hm2, He2.
  2:{ rewrite Zdigits_log2 by lia. replace (Z.log2 (Z.pos mx) + 1 + (ex - e1) + e1)
        with (Z.log2 (Z.pos mx) + 1 + ex) by lia. by rewrite Hcan. }
  rewrite Z.max_r in Hm2, He2 by lia. rewrite Z.div_mul in Hm2 by lia.
  destruct (shr_fexp prec emax _ e1 loc_Exact) as [r2 e2]. cbn [fst snd] in *. rewrite Hm2, He2.
  replace (e1 + (ex - e1)) with ex by lia. by rewrite (proj2 (Z.leb_le _ _)) by lia.
Qed.

(** ** A decimal that is close enough is rounded to the float *)

(** Within a relative error of 5e-17: half a unit of the seventeenth digit. *)
Definition close (A V : Z) : Prop := 2 * 10 ^ 16 * Z.abs (A - V) <= V.

Lemma valid_mantissa mx ex : valid (S754_finite false mx ex) → Z.pos mx < 2 ^ 53.
Proof.
  intros (Hcan & _ & _)%valid_finite. unfold fexp, prec in Hcan.
  apply Z.log2_lt_pow2; lia.
Qed.

(** A close number is less than half a unit away. *)
Lemma close_half A mx W :
  0 < mx < 2 ^ 53 → 0 < W → close A (mx * W) → 2 * Z.abs (A - mx * W) < W.
Proof. unfold close. intros Hmx HW Hc. change (2 ^ 53) with 9007199254740992 in *. nia. Qed.

Lemma close_cancel N V k : 0 < k → close (N * k) (V * k) → close N V.
Proof.
  unfold close. intros Hk Hc. rewrite <-Z.mul_sub_distr_r, Z.abs_mul, (Z.abs_eq k) in Hc by lia.
  rewrite Z.mul_assoc in Hc. by apply Z.mul_le_mono_pos_r in Hc.
Qed.

(** The exponent of the rounding is at most the float's. *)
Lemma close_exponent m e N D mx ex f :
  valid (S754_finite false mx ex) → 0 < D → 0 <= m → m * D <= N →
  e <= fexp prec emax (Zdigits2 m + e) → f <= e → f <= ex →
  close (N * 2 ^ (e - f)) (Z.pos mx * (2 ^ (ex - f) * D)) →
  fexp prec emax (Zdigits2 m + e) <= ex.
Proof.
  intros Hv HD Hm Hlow He Hfe Hfx Hc. pose proof (valid_mantissa mx ex Hv) as Hmx.
  pose proof (valid_finite _ _ _ Hv) as (Hcan & _ & Hmin).
  destruct (decide (m = 0)) as [->|Hm0].
  { simpl Zdigits2 in *. unfold fexp, prec in *. lia. }
  assert (0 < 2 ^ (ex - f)) by (apply Z.pow_pos_nonneg; lia).
  assert (0 < 2 ^ (e - f)) by (apply Z.pow_pos_nonneg; lia).
  apply close_half in Hc; [|lia|nia].
  assert (m * 2 ^ (e - f) < (Z.pos mx + 1) * 2 ^ (ex - f)) as Hlt.
  { apply (Z.mul_lt_mono_pos_r D); [done|]. nia. }
  assert (m * 2 ^ (e - f) < 2 ^ (Z.log2 (Z.pos mx) + 1 + (ex - f))) as Hlog.
  { pose proof (Z.log2_nonneg (Z.pos mx)). pose proof (Z.log2_spec (Z.pos mx) ltac:(lia)) as [_ Hup].
    rewrite <-Z.add_1_r in Hup. rewrite (Z.pow_add_r 2 (_ + 1)) by lia. nia. }
  apply Z.log2_lt_pow2 in Hlog; [|nia]. rewrite Z.log2_mul_pow2 in Hlog by lia.
  rewrite <-Hcan, Zdigits_log2 by lia. apply fexp_mono. lia.
Qed.

Lemma close_low_exponent m e N D mx ex :
  valid (S754_finite false mx ex) → 0 < D → 0 <= m → N < (m + 1) * D → e <= ex →
  close N (Z.pos mx * (2 ^ (ex - e) * D)) → fexp prec emax (Zdigits2 m + e) < ex →
  Z.pos mx = 2 ^ 52 ∧ fexp prec emax (Zdigits2 m + e) = ex - 1.
Proof.
  intros Hv HD Hm Hup Hex Hc Hlt. pose proof (valid_mantissa mx ex Hv) as Hmx.
  pose proof (valid_finite _ _ _ Hv) as (Hcan & _ & Hmin).
  assert (0 < 2 ^ (ex - e)) as Hk by (apply Z.pow_pos_nonneg; lia).
  apply close_half in Hc; [|lia|nia].
  assert (Z.log2 (Z.pos mx) = 52) as H52 by (unfold fexp, prec in *; lia).
  pose proof (Z.log2_spec (Z.pos mx) ltac:(lia)) as [Hge _]. rewrite H52 in Hge.
  assert ((2 * Z.pos mx - 1) * 2 ^ (ex - e) < 2 * (m + 1)) as Hm2.
  { apply (Z.mul_lt_mono_pos_r D); [done|]. nia. }
  assert (0 < m) as Hm0 by (change (2 ^ 52) with 4503599627370496 in *; nia).
  rewrite Zdigits_log2 in * by done.
  assert (m < 2 ^ (52 + (ex - e))) as Hmup.
  { apply Z.log2_lt_pow2; [done|]. unfold fexp, prec in *. lia. }
  assert (2 ^ (51 + (ex - e)) <= m) as Hmlow.
  { rewrite Z.pow_add_r in * by lia. change (2 ^ 52) with 4503599627370496 in *.
    change (2 ^ 51) with 2251799813685248. nia. }
  apply Z.log2_le_pow2 in Hmlow; [|done].
  split; [|unfold fexp, prec in *; lia].
  rewrite Z.pow_add_r in Hmup by lia. apply Z.le_antisymm; [|done].
  apply Z.nlt_ge. intros Hgt. nia.
Qed.

Theorem round_aux_close s m e l N D mx ex f :
  valid (S754_finite false mx ex) → 0 < D → 0 <= m → located m l N D →
  e <= fexp prec emax (Zdigits2 m + e) → f <= e → f <= ex →
  close (N * 2 ^ (e - f)) (Z.pos mx * (2 ^ (ex - f) * D)) →
  binary_round_aux prec emax s m e l = S754_finite s mx ex.
Proof.
  intros Hv HD Hm Hl He Hfe Hfx Hc. pose proof (valid_mantissa mx ex Hv) as Hmx.
  pose proof Hl as [[Hlow Hup] _].
  pose proof (close_exponent m e N D mx ex f Hv HD Hm Hlow He Hfe Hfx Hc) as Hle.
  assert (0 < 2 ^ (e - f)) by (apply Z.pow_pos_nonneg; lia).
  assert (0 < 2 ^ (ex - e)) as Hk by (apply Z.pow_pos_nonneg; lia).
  assert (close N (Z.pos mx * (2 ^ (ex - e) * D))) as Hc'.
  { apply (close_cancel _ _ (2 ^ (e - f))); [done|].
    replace (ex - f) with ((ex - e) + (e - f)) in Hc by lia. rewrite Z.pow_add_r in Hc by lia.
    by replace (Z.pos mx * (2 ^ (ex - e) * D) * 2 ^ (e - f))
      with (Z.pos mx * (2 ^ (ex - e) * 2 ^ (e - f) * D)) by ring. }
  apply (round_aux_at s m e l N D mx ex _ Hv HD Hm Hl eq_refl); [lia|].
  rewrite <-Z.mul_assoc.
  destruct (decide (fexp prec emax (Zdigits2 m + e) = ex)) as [->|Hne];
    [apply close_half; [lia|nia|done]|].
  destruct (close_low_exponent m e N D mx ex Hv HD Hm Hup ltac:(lia) Hc' ltac:(lia)) as [H52 Heq].
  rewrite Heq in *. replace (ex - e) with (1 + (ex - 1 - e)) in * by lia.
  rewrite Z.pow_add_r in * by lia. unfold close in Hc'. rewrite H52 in *.
  set (a := Z.abs _) in *. change (2 ^ 52) with 4503599627370496 in *.
  assert (0 < 2 ^ (ex - 1 - e)) by (apply Z.pow_pos_nonneg; lia). nia.
Qed.

Lemma close_scale A V k : 0 <= k → close A V → close (A * k) (V * k).
Proof.
  unfold close. intros Hk Hc. rewrite <-Z.mul_sub_distr_r, Z.abs_mul, (Z.abs_eq k) by lia.
  rewrite Z.mul_assoc. by apply Z.mul_le_mono_nonneg_r.
Qed.

Lemma close_eq A V A' V' : close A V → A = A' → V = V' → close A' V'.
Proof. by intros ? <- <-. Qed.

Lemma Zdigits2_quot a b : 0 < a → 0 < b → Zdigits2 a - Zdigits2 b <= Zdigits2 (a / b).
Proof.
  intros Ha Hb. rewrite (Zdigits_log2 a), (Zdigits_log2 b) by done.
  destruct (Z.lt_ge_cases a b) as [Hlt|Hge].
  { rewrite Z.div_small by lia. pose proof (Z.log2_le_mono a b). simpl. lia. }
  assert (0 < a / b) as Hq by (apply Z.div_str_pos; lia). rewrite Zdigits_log2 by done.
  pose proof (Z.log2_spec b Hb) as [_ Hb2]. pose proof (Z.log2_spec _ Hq) as [_ Hq2].
  pose proof (Z.mul_succ_div_gt a b Hb).
  assert (a < 2 ^ (Z.succ (Z.log2 b) + Z.succ (Z.log2 (a / b)))) as Hlt.
  { pose proof (Z.log2_nonneg b). pose proof (Z.log2_nonneg (a / b)).
    rewrite Z.pow_add_r by lia. nia. }
  apply Z.log2_lt_pow2 in Hlt; lia.
Qed.

Lemma new_location_located q r D N :
  0 < D → N = q * D + r → 0 <= r < D → located q (new_location D r) N D.
Proof.
  intros HD -> Hr. split; [lia|]. unfold new_location, new_location_even, new_location_odd.
  destruct (Z.even D) eqn:Hev; destruct (Z.eqb_spec r 0) as [->|Hr0]; try lia.
  - split; [lia|]. f_equal. lia.
  - split; [lia|]. replace (2 * (q * D + r - q * D)) with (2 * r) by lia.
    assert (2 * r ≠ D) as Hne by (intros <-; by rewrite Z.even_mul in Hev).
    destruct (Z.compare_spec (2 * r + 1) D), (Z.compare_spec (2 * r) D); try done; lia.
Qed.

(** ** Reading a decimal is one rounding of its exact value *)

(** [m], [l] and the exponent [-k] stand for N/D: what a rounding starts from. *)
Definition prepared (m k : Z) (l : location) (N D : Z) : Prop :=
  0 <= m ∧ 0 <= k ∧ 0 < D ∧ located m l (N * 2 ^ k) D ∧ - k <= fexp prec emax (Zdigits2 m - k).

Lemma binary_round_prepared s M :
  ∃ m k, binary_round prec emax s M 0 = binary_round_aux prec emax s m (- k) loc_Exact
    ∧ prepared m k loc_Exact (Z.pos M) 1.
Proof.
  unfold binary_round.
  destruct (shl_align_spec M 0 (fexp prec emax (Z.pos (digits2_pos M) + 0))) as (k & Hk & Hmz & Hez & Hal).
  destruct (shl_align M 0 _) as [mz ez]. cbn [fst snd] in *. subst ez.
  exists (Z.pos mz), k. split; [f_equal; lia|]. split; [lia|]. split; [done|]. split; [lia|].
  rewrite Hmz. split; [split; lia|].
  rewrite Zdigits2_scaled by lia. change (Zdigits2 (Z.pos M)) with (Z.pos (digits2_pos M)).
  replace (Z.pos (digits2_pos M) + k - k) with (Z.pos (digits2_pos M) + 0) by lia. lia.
Qed.

Lemma div_core_prepared d D :
  0 < d → 0 < D →
  ∃ m k l, SFdiv_core_binary prec emax d 0 D 0 = (m, - k, l) ∧ prepared m k l d D.
Proof.
  intros Hd HD. unfold SFdiv_core_binary. rewrite !Z.add_0_r, Z.sub_0_r. set (E := fexp _ _ _).
  set (k := - Z.min E 0).
  replace (match 0 - Z.min E 0 with Z0 => d | Z.pos _ => Z.shiftl d (0 - Z.min E 0) | Z.neg _ => 0 end)
    with (d * 2 ^ k).
  2:{ replace (0 - Z.min E 0) with k by lia. destruct k eqn:Ek; [lia|by rewrite Z.shiftl_mul_pow2|lia]. }
  assert (0 < 2 ^ k) by (apply Z.pow_pos_nonneg; lia).
  pose proof (Z_div_mod_eq_full (d * 2 ^ k) D) as Hdm.
  pose proof (Z.mod_pos_bound (d * 2 ^ k) D HD) as Hmod.
  pose proof (Zdigits2_quot (d * 2 ^ k) D ltac:(nia) HD) as Hdig.
  rewrite Zdigits2_scaled in Hdig by lia.
  assert (0 <= d * 2 ^ k / D) by (apply Z.div_pos; nia).
  unfold Z.div, Z.modulo in *. destruct (Z.div_eucl (d * 2 ^ k) D) as [q r].
  exists q, k, (new_location D r). split; [f_equal; f_equal; lia|].
  split; [done|]. split; [lia|]. split; [done|]. split; [apply new_location_located; lia|].
  pose proof (fexp_mono (Zdigits2 d - Zdigits2 D) (Zdigits2 q - k)). unfold E in *. lia.
Qed.

Lemma of_decimal_prepared s d x :
  0 < d →
  ∃ m k l, of_decimal s d x = binary_round_aux prec emax s m (- k) l
    ∧ prepared m k l (d * 10 ^ Z.max 0 x) (10 ^ Z.max 0 (- x)).
Proof.
  intros Hd. unfold of_decimal. rewrite (proj2 (Z.eqb_neq d 0)) by lia.
  destruct (Z.leb_spec 0 x) as [Hx|Hx].
  - rewrite (Z.max_r 0 x), (Z.max_l 0 (- x)) by lia.
    assert (0 < 10 ^ x) by (apply Z.pow_pos_nonneg; lia).
    destruct (binary_round_prepared s (Z.to_pos (d * 10 ^ x))) as (m & k & Heq & Hp).
    rewrite Z2Pos.id in Hp by nia. by exists m, k, loc_Exact.
  - rewrite (Z.max_l 0 x), (Z.max_r 0 (- x)), Z.mul_1_r by lia.
    destruct (div_core_prepared d (10 ^ (- x))) as (m & k & l & Heq & Hp);
      [done|apply Z.pow_pos_nonneg; lia|].
    rewrite Heq. by exists m, k, l.
Qed.

(** The decimal [d * 10^x] is read as the float it is close to. *)
Theorem of_decimal_close s d x mx ex :
  valid (S754_finite false mx ex) → 0 < d →
  close (d * snd (scaled (Z.pos mx) ex x)) (fst (scaled (Z.pos mx) ex x)) →
  of_decimal s d x = S754_finite s mx ex.
Proof.
  intros Hv Hd Hc. destruct (of_decimal_prepared s d x Hd) as (m & k & l & -> & Hm & Hk & HD & Hl & He).
  unfold scaled in Hc. cbn [fst snd] in Hc.
  apply (round_aux_close _ _ _ _ _ _ _ _ (- k - Z.max 0 (- ex)) Hv HD Hm Hl); [exact He|lia|lia|].
  replace (- k - (- k - Z.max 0 (- ex))) with (Z.max 0 (- ex)) by lia.
  replace (ex - (- k - Z.max 0 (- ex))) with (Z.max 0 ex + k) by lia.
  apply (close_scale _ _ (2 ^ k)) in Hc; [|lia]. rewrite Z.pow_add_r by lia.
  apply (close_eq _ _ _ _ Hc); ring.
Qed.

(** ** The rounding depends on the value only *)

Lemma located_le m l m' l' N D N' D' :
  0 < D → 0 < D' → located m l N D → located m' l' N' D' → N * D' = N' * D → m <= m'.
Proof.
  intros HD HD' [Hb _] [Hb' _] Heq. apply Z.lt_succ_r.
  apply (Z.mul_lt_mono_pos_r (D * D')); nia.
Qed.

Lemma located_unique m l m' l' N D N' D' :
  0 < D → 0 < D' → located m l N D → located m' l' N' D' → N * D' = N' * D → m = m' ∧ l = l'.
Proof.
  intros HD HD' Hl Hl' Heq.
  assert (m = m') as <- by (apply Z.le_antisymm; eauto using located_le, eq_sym).
  split; [done|]. destruct Hl as [_ Hl], Hl' as [_ Hl'].
  assert ((N - m * D) * D' = (N' - m * D') * D) as Hr by lia.
  destruct l as [|c], l' as [|c']; [done|nia|nia|].
  destruct Hl as [_ <-], Hl' as [_ <-]. f_equal.
  destruct (Z.compare_spec (2 * (N - m * D)) D), (Z.compare_spec (2 * (N' - m * D')) D');
    try done; nia.
Qed.

Lemma prepared_exponent m k l N D m' k' l' N' D' :
  prepared m k l N D → prepared m' k' l' N' D' → N * D' = N' * D →
  fexp prec emax (Zdigits2 m - k) <= fexp prec emax (Zdigits2 m' - k').
Proof.
  intros (Hm & Hk & HD & [[Hlow _] _] & He) (Hm' & Hk' & HD' & [[_ Hup] _] & He') Heq.
  destruct (decide (m = 0)) as [->|Hm0].
  { simpl Zdigits2 in *. unfold fexp, prec in *. lia. }
  assert (0 < 2 ^ k) by (apply Z.pow_pos_nonneg; lia).
  assert (0 < 2 ^ k') by (apply Z.pow_pos_nonneg; lia).
  assert (m * 2 ^ k' < (m' + 1) * 2 ^ k) as Hlt.
  { apply (Z.mul_lt_mono_pos_r (D * D')); [nia|].
    assert (m * D * (2 ^ k' * D') <= N * 2 ^ k * (2 ^ k' * D')) by (apply Z.mul_le_mono_nonneg_r; nia).
    assert (N' * 2 ^ k' * (2 ^ k * D) < (m' + 1) * D' * (2 ^ k * D)) by (apply Z.mul_lt_mono_pos_r; nia).
    assert (N * 2 ^ k * (2 ^ k' * D') = N' * 2 ^ k' * (2 ^ k * D))
      by (transitivity (N * D' * (2 ^ k * 2 ^ k')); [ring|rewrite Heq; ring]).
    lia. }
  apply fexp_mono.
  assert (0 <= Zdigits2 m' ∧ m' + 1 <= 2 ^ Zdigits2 m') as [Hd0 Hdig].
  { destruct (decide (m' = 0)) as [->|]; [done|]. rewrite Zdigits_log2 by lia.
    pose proof (Z.log2_nonneg m'). pose proof (Z.log2_spec m' ltac:(lia)). lia. }
  assert (m * 2 ^ k' < 2 ^ (Zdigits2 m' + k)) as Hlog by (rewrite Z.pow_add_r by lia; nia).
  apply Z.log2_lt_pow2 in Hlog; [|nia]. rewrite Z.log2_mul_pow2 in Hlog by lia.
  rewrite (Zdigits_log2 m) by lia. lia.
Qed.

Theorem round_value s m k l N D m' k' l' N' D' :
  prepared m k l N D → prepared m' k' l' N' D' → N * D' = N' * D →
  binary_round_aux prec emax s m (- k) l = binary_round_aux prec emax s m' (- k') l'.
Proof.
  intros Hp Hp' Heq. assert (fexp prec emax (Zdigits2 m - k) = fexp prec emax (Zdigits2 m' - k')) as Hf
    by (apply Z.le_antisymm; eauto using prepared_exponent, eq_sym).
  destruct Hp as (Hm & Hk & HD & Hl & He), Hp' as (Hm' & Hk' & HD' & Hl' & He').
  pose proof (shr_fexp_spec m (- k) l Hm) as [_ Hse].
  pose proof (shr_fexp_spec m' (- k') l' Hm') as [_ Hse'].
  pose proof (shr_fexp_located m (- k) l _ D HD Hm Hl) as Hr.
  pose proof (shr_fexp_located m' (- k') l' _ D' HD' Hm' Hl') as Hr'.
  change (Zdigits2 m + - k) with (Zdigits2 m - k) in *.
  change (Zdigits2 m' + - k') with (Zdigits2 m' - k') in *. rewrite <-Hf in *.
  set (e1 := fexp prec emax (Zdigits2 m - k)) in *. rewrite Z.max_r in Hr, Hr', Hse, Hse' by lia.
  unfold binary_round_aux.
  destruct (shr_fexp prec emax m (- k) l) as [r e], (shr_fexp prec emax m' (- k') l') as [r' e'].
  cbn [fst snd] in *. assert (e = e') as -> by lia.
  assert (0 < 2 ^ (e1 - - k)) by (apply Z.pow_pos_nonneg; lia).
  assert (0 < 2 ^ (e1 - - k')) by (apply Z.pow_pos_nonneg; lia).
  assert (shr_m r = shr_m r' ∧ loc_of_shr_record r = loc_of_shr_record r') as [-> ->]; [|done].
  eapply located_unique; [| |exact Hr|exact Hr'|]; [nia|nia|].
  transitivity (N * D' * 2 ^ (k + (e1 - - k'))); [rewrite Z.pow_add_r by lia; ring|].
  rewrite Heq. replace (k + (e1 - - k')) with (k' + (e1 - - k)) by lia. rewrite Z.pow_add_r by lia. ring.
Qed.

Lemma of_decimal_times_ten s d x : 0 < d → of_decimal s (d * 10) x = of_decimal s d (x + 1).
Proof.
  intros Hd. destruct (of_decimal_prepared s (d * 10) x ltac:(lia)) as (m & k & l & -> & Hp).
  destruct (of_decimal_prepared s d (x + 1) Hd) as (m' & k' & l' & -> & Hp').
  apply (round_value _ _ _ _ _ _ _ _ _ _ _ Hp Hp').
  destruct (decide (0 <= x)).
  - rewrite (Z.max_r 0 x), (Z.max_r 0 (x + 1)), (Z.max_l 0 (- x)), (Z.max_l 0 (- (x + 1))) by lia.
    rewrite Z.pow_add_r by lia. ring.
  - rewrite (Z.max_l 0 x), (Z.max_l 0 (x + 1)), (Z.max_r 0 (- x)), (Z.max_r 0 (- (x + 1))) by lia.
    replace (- x) with (- (x + 1) + 1) by lia.
    rewrite (Z.pow_add_r 10 (- (x + 1))) by lia. ring.
Qed.

Lemma of_decimal_sign d x : 0 < d → of_decimal true d x = SFopp (of_decimal false d x).
Proof.
  intros Hd. unfold of_decimal, binary_round. rewrite (proj2 (Z.eqb_neq d 0)) by lia.
  assert (∀ m e l, binary_round_aux prec emax true m e l
                   = SFopp (binary_round_aux prec emax false m e l)) as Haux.
  { intros m e l. unfold binary_round_aux. destruct (shr_fexp prec emax m e l) as [r e1].
    destruct (shr_fexp prec emax _ e1 loc_Exact) as [r2 e2]. destruct (shr_m r2); [done| |done].
    by case_match. }
  case_match; [destruct (shl_align _ _ _)|destruct (SFdiv_core_binary _ _ _ _ _ _) as [[??]?]];
    apply Haux.
Qed.

(** ** What is read is a valid float *)

Lemma digits_quot m k : 0 <= m → 0 <= k → 0 < m / 2 ^ k → Zdigits2 (m / 2 ^ k) = Zdigits2 m - k.
Proof.
  intros Hm Hk Hpos. assert (0 < 2 ^ k) by (apply Z.pow_pos_nonneg; lia).
  assert (2 ^ k <= m) as Hle.
  { apply Z.nlt_ge. intros Hlt. rewrite Z.div_small in Hpos; lia. }
  apply Z.log2_le_pow2 in Hle as Hlog; [|lia]. rewrite !Zdigits_log2 by lia.
  rewrite <-Z.shiftr_div_pow2, Z.log2_shiftr by lia. lia.
Qed.

Lemma round_aux_valid s m e l :
  0 <= m → e <= fexp prec emax (Zdigits2 m + e) → valid (binary_round_aux prec emax s m e l).
Proof.
  intros Hm He.
  destruct (binary_round_aux_spec s m e l Hm) as (k1 & m2 & k2 & Hk1 & Hm2 & Hk2 & ->).
  assert (0 <= m / 2 ^ k1) by (apply Z.div_pos; [lia|apply Z.pow_pos_nonneg; lia]).
  destruct (m2 / 2 ^ k2) as [|p|p] eqn:Hp; [done| |done].
  destruct (Z.leb_spec (e + k1 + k2) (emax - prec)) as [Hmax|]; [|done].
  unfold valid, valid_binary, bounded, canonical_mantissa. apply andb_true_iff.
  split; [apply Z.eqb_eq|by apply Z.leb_le].
  change (Z.pos (digits2_pos p)) with (Zdigits2 (Z.pos p)). rewrite <-Hp.
  rewrite digits_quot by lia. replace (Zdigits2 m2 - k2 + (e + k1 + k2)) with (Zdigits2 m2 + (e + k1)) by lia.
  enough (e + k1 <= fexp prec emax (Zdigits2 m2 + (e + k1))) by lia.
  replace (e + k1) with (fexp prec emax (Zdigits2 m + e)) by lia.
  destruct (decide (m / 2 ^ k1 = 0)) as [Hz|Hnz].
  { apply Z.div_small_iff in Hz; [|apply Z.pow_nonzero; lia].
    enough (Zdigits2 m <= k1) by (unfold fexp, prec in *; lia).
    destruct (decide (m = 0)) as [->|]; [simpl; lia|]. rewrite Zdigits_log2 by lia.
    enough (Z.log2 m < k1) by lia. apply Z.log2_lt_pow2; [lia|]. destruct Hz; [lia|].
    pose proof (Z.pow_pos_nonneg 2 k1). lia. }
  pose proof (digits_quot m k1 Hm ltac:(lia) ltac:(lia)) as Hd1.
  assert (Zdigits2 (m / 2 ^ k1) <= Zdigits2 m2) as Hmono.
  { rewrite !Zdigits_log2 by lia. pose proof (Z.log2_le_mono (m / 2 ^ k1) m2). lia. }
  unfold fexp, prec in *. lia.
Qed.

Lemma binary_round_valid s p e : valid (binary_round prec emax s p e).
Proof.
  unfold binary_round.
  destruct (shl_align_spec p e (fexp prec emax (Z.pos (digits2_pos p) + e))) as (d & Hd & Hmz & Hez & Hal).
  destruct (shl_align p e _) as [mz ez]. cbn [fst snd] in *. subst ez.
  apply round_aux_valid; [lia|]. rewrite Hmz, Zdigits2_scaled by lia.
  change (Zdigits2 (Z.pos p)) with (Z.pos (digits2_pos p)).
  replace (Z.pos (digits2_pos p) + d + (e - d)) with (Z.pos (digits2_pos p) + e) by lia. lia.
Qed.

Lemma of_decimal_valid s d x : 0 <= d → valid (of_decimal s d x).
Proof.
  intros Hd. destruct (decide (d = 0)) as [->|]; [done|].
  destruct (of_decimal_prepared s d x ltac:(lia)) as (m & k & l & -> & Hp).
  destruct Hp as (Hm & _ & _ & _ & He). by apply round_aux_valid.
Qed.

(** ** Seventeen digits are enough *)

(** The estimate of the decimal exponent is not above it, for the exponents of floats. *)
Definition estimate (L : Z) : Z := L * 30103 / 100000 - 2.

Lemma pow_le_root a b n : 0 < n → 0 <= b → a ^ n <= b ^ n → a <= b.
Proof.
  intros Hn Hb Hle. apply Z.nlt_ge. intros Hlt.
  pose proof (Z.pow_lt_mono_l b a n Hn (conj Hb Hlt)). lia.
Qed.

(** 10^3 < 2^10 and 2^93 < 10^28 bound the logarithm closely enough. *)
Lemma estimate_nonneg L : 0 <= L < 1024 → 0 <= estimate L → 10 ^ estimate L <= 2 ^ L.
Proof.
  intros HL Hp. apply (pow_le_root _ _ 10); [lia|apply Z.pow_nonneg; lia|].
  rewrite <-!Z.pow_mul_r by lia.
  transitivity (10 ^ (3 * L)).
  - apply Z.pow_le_mono_r; [lia|]. unfold estimate in *. pose proof (Z.mul_div_le (L * 30103) 100000). lia.
  - rewrite (Z.mul_comm L), !Z.pow_mul_r by lia. apply Z.pow_le_mono_l. lia.
Qed.

Lemma estimate_neg L : -1074 <= L < 0 → 2 ^ (- L) <= 10 ^ (- estimate L).
Proof.
  intros HL. assert (28 * - L <= - estimate L * 93) as Hp
    by (unfold estimate in *; pose proof (Z.mul_div_le (L * 30103) 100000); lia).
  apply (pow_le_root _ _ 93); [lia|apply Z.pow_nonneg; lia|].
  rewrite <-!Z.pow_mul_r by lia.
  transitivity (10 ^ (28 * - L)); [|apply Z.pow_le_mono_r; lia].
  rewrite (Z.mul_comm (- L)), !Z.pow_mul_r by lia. apply Z.pow_le_mono_l. split; [lia|].
  apply Z.leb_le. vm_compute. reflexivity.
Qed.

Lemma estimate_sound L :
  -1074 <= L < 1024 →
  10 ^ Z.max 0 (estimate L) * 2 ^ Z.max 0 (- L) <= 2 ^ Z.max 0 L * 10 ^ Z.max 0 (- estimate L).
Proof.
  intros HL. destruct (Z.lt_ge_cases L 0) as [Hneg|Hpos].
  - assert (estimate L < 0) by (unfold estimate; pose proof (Z.mul_div_le (L * 30103) 100000); lia).
    rewrite (Z.max_l 0 (estimate L)), (Z.max_l 0 L), !Z.max_r, !Z.mul_1_l by lia.
    apply estimate_neg. lia.
  - rewrite (Z.max_l 0 (- L)), (Z.max_r 0 L), Z.mul_1_r by lia.
    destruct (Z.lt_ge_cases (estimate L) 0).
    + rewrite Z.max_l by lia. pose proof (Z.pow_pos_nonneg 2 L).
      pose proof (Z.pow_pos_nonneg 10 (Z.max 0 (- estimate L))). nia.
    + rewrite Z.max_r, Z.max_l, Z.mul_1_r by lia. apply estimate_nonneg; lia.
Qed.

(** The number is at least 10^p. *)
Definition at_least (m e p : Z) : Prop := snd (scaled m e p) <= fst (scaled m e p).

Lemma estimate_at_least mx ex :
  valid (S754_finite false mx ex) → at_least (Z.pos mx) ex (estimate (Z.log2 (Z.pos mx) + ex)).
Proof.
  intros Hv. pose proof (valid_mantissa mx ex Hv) as Hmx.
  apply valid_finite in Hv as (Hcan & Hmax & Hmin). unfold emin, prec, emax in *.
  pose proof (Z.log2_nonneg (Z.pos mx)) as Hl0.
  assert (Z.log2 (Z.pos mx) < 53) by (apply Z.log2_lt_pow2; lia).
  set (L := Z.log2 (Z.pos mx) + ex) in *.
  pose proof (estimate_sound L ltac:(lia)) as Hest.
  unfold at_least, scaled. cbn [fst snd]. set (p := estimate L) in *.
  pose proof (Z.log2_spec (Z.pos mx) ltac:(lia)) as [Hlow _].
  set (j := Z.max 0 (- ex) - Z.max 0 (- L)).
  assert (0 < 2 ^ j) by (apply Z.pow_pos_nonneg; lia).
  assert (0 < 10 ^ Z.max 0 (- p)) by (apply Z.pow_pos_nonneg; lia).
  assert (0 < 2 ^ Z.max 0 ex) by (apply Z.pow_pos_nonneg; lia).
  replace (Z.max 0 (- ex)) with (Z.max 0 (- L) + j) by lia.
  assert (2 ^ Z.max 0 L * 2 ^ j = 2 ^ Z.log2 (Z.pos mx) * 2 ^ Z.max 0 ex) as Hj
    by (rewrite <-!Z.pow_add_r by lia; f_equal; lia).
  rewrite (Z.pow_add_r 2 (Z.max 0 (- L))) by lia.
  apply (Z.mul_le_mono_nonneg_r _ _ (2 ^ j)) in Hest; [|lia].
  assert (2 ^ Z.log2 (Z.pos mx) * (2 ^ Z.max 0 ex * 10 ^ Z.max 0 (- p))
          <= Z.pos mx * (2 ^ Z.max 0 ex * 10 ^ Z.max 0 (- p))) by (apply Z.mul_le_mono_nonneg_r; nia).
  assert (2 ^ Z.max 0 L * 10 ^ Z.max 0 (- p) * 2 ^ j
          = 2 ^ Z.log2 (Z.pos mx) * (2 ^ Z.max 0 ex * 10 ^ Z.max 0 (- p)))
    by (transitivity (2 ^ Z.max 0 L * 2 ^ j * 10 ^ Z.max 0 (- p)); [ring|rewrite Hj; ring]).
  lia.
Qed.

Lemma raise_at_least fuel m e p : at_least m e p → at_least m e (raise fuel m e p).
Proof.
  revert p. induction fuel as [|fuel IH]; intros p Hp; [exact Hp|]. cbn [raise].
  destruct (scaled m e (p + 1)) as [num den] eqn:E. destruct (Z.leb_spec den num); [|exact Hp].
  apply IH. unfold at_least. by rewrite E.
Qed.

Lemma decimal_exponent_at_least mx ex :
  valid (S754_finite false mx ex) → at_least (Z.pos mx) ex (decimal_exponent (Z.pos mx) ex).
Proof. intros Hv. apply raise_at_least. by apply estimate_at_least. Qed.

(** k more digits. *)
Lemma at_least_digits m e p k :
  0 <= k → at_least m e p → 10 ^ k * snd (scaled m e (p - k)) <= fst (scaled m e (p - k)).
Proof.
  intros Hk Hp. unfold at_least, scaled in *. cbn [fst snd] in *.
  set (b := Z.max 0 (- (p - k)) - Z.max 0 (- p)).
  apply (Z.mul_le_mono_nonneg_r _ _ (10 ^ b)) in Hp; [|apply Z.pow_nonneg; lia].
  replace (Z.max 0 (- (p - k))) with (Z.max 0 (- p) + b) by lia.
  rewrite (Z.pow_add_r 10 (Z.max 0 (- p))) by lia.
  rewrite <-(Z.mul_assoc _ _ (10 ^ b)), <-(Z.mul_assoc _ _ (10 ^ b)) in Hp.
  rewrite <-(Z.pow_add_r 10 (Z.max 0 p)) in Hp by lia.
  replace (Z.max 0 p + b) with (k + Z.max 0 (p - k)) in Hp by lia.
  rewrite Z.pow_add_r in Hp by lia. lia.
Qed.

Lemma scaled_pos mx ex x : 0 <= fst (scaled (Z.pos mx) ex x) ∧ 0 < snd (scaled (Z.pos mx) ex x).
Proof.
  unfold scaled. cbn [fst snd].
  assert (0 < 2 ^ Z.max 0 ex) by (apply Z.pow_pos_nonneg; lia).
  assert (0 < 10 ^ Z.max 0 (- x)) by (apply Z.pow_pos_nonneg; lia).
  assert (0 < 2 ^ Z.max 0 (- ex)) by (apply Z.pow_pos_nonneg; lia).
  assert (0 < 10 ^ Z.max 0 x) by (apply Z.pow_pos_nonneg; lia). nia.
Qed.

(** One of the two neighbours with seventeen digits reads back. *)
Lemma seventeen_digits mx ex p :
  valid (S754_finite false mx ex) → at_least (Z.pos mx) ex p →
  let '(num, den) := scaled (Z.pos mx) ex (p - 16) in
  of_decimal false (num / den) (p - 16) = S754_finite false mx ex
  ∨ of_decimal false (num / den + 1) (p - 16) = S754_finite false mx ex.
Proof.
  intros Hv Hp. pose proof (at_least_digits _ _ _ 16 ltac:(lia) Hp) as Hdig.
  pose proof (scaled_pos mx ex (p - 16)) as [_ Hden].
  pose proof (λ d, of_decimal_close false d (p - 16) mx ex Hv) as Hclose.
  destruct (scaled (Z.pos mx) ex (p - 16)) as [num den]. cbn [fst snd] in *.
  pose proof (Z_div_mod_eq_full num den) as Hdm. pose proof (Z.mod_pos_bound num den Hden) as Hmod.
  set (q := num / den) in *. set (r := num mod den) in *.
  assert (0 < q) by (change (10 ^ 16) with 10000000000000000 in *; nia).
  unfold close in Hclose.
  destruct (Z.le_gt_cases (2 * r) den); [left|right]; (apply Hclose; [lia|]).
  - replace (q * den - num) with (- r) by lia. rewrite Z.abs_opp, Z.abs_eq by lia. lia.
  - replace ((q + 1) * den - num) with (den - r) by lia. rewrite Z.abs_eq by lia. lia.
Qed.

Lemma of_decimal_finite_pos d x mx ex : 0 <= d → of_decimal false d x = S754_finite false mx ex → 0 < d.
Proof. intros Hd Heq. destruct (decide (d = 0)) as [->|]; [done|lia]. Qed.

Lemma shortest_from_reads fuel mx ex p n :
  valid (S754_finite false mx ex) → at_least (Z.pos mx) ex p → n + Z.of_nat fuel = 17 →
  let '(d, x) := shortest_from fuel (S754_finite false mx ex) (Z.pos mx) ex p n in
  0 < d ∧ of_decimal false d x = S754_finite false mx ex.
Proof.
  intros Hv Hp. revert n. induction fuel as [|fuel IH]; intros n Hn; cbn [shortest_from];
    pose proof (scaled_pos mx ex (p - n + 1)) as [Hnum Hden];
    pose proof (seventeen_digits mx ex p Hv Hp) as H17.
  - replace (p - 16) with (p - n + 1) in H17 by lia.
    destruct (scaled (Z.pos mx) ex (p - n + 1)) as [num den]. cbn [fst snd] in *.
    assert (0 <= num / den) by (by apply Z.div_pos).
    repeat case_bool_decide; simpl; repeat case_match; simplify_eq;
      (split; [eapply of_decimal_finite_pos; [|eassumption]; lia|done]) || naive_solver.
  - clear H17. destruct (scaled (Z.pos mx) ex (p - n + 1)) as [num den]. cbn [fst snd] in *.
    assert (0 <= num / den) by (by apply Z.div_pos).
    repeat case_bool_decide; cbn [andb]; [| | |apply IH; lia]; repeat case_match; simplify_eq;
      (split; [eapply of_decimal_finite_pos; [|eassumption]; lia|done]).
Qed.

Lemma strip_zeros_reads fuel s d x :
  0 < d → let '(d', x') := strip_zeros fuel d x in 0 < d' ∧ of_decimal s d' x' = of_decimal s d x.
Proof.
  revert d x. induction fuel as [|fuel IH]; intros d x Hd; [done|]. cbn [strip_zeros].
  destruct (Z.eqb_spec (d mod 10) 0) as [Hz|]; [|done].
  pose proof (Z_div_mod_eq_full d 10) as Hdm. specialize (IH (d / 10) (x + 1) ltac:(lia)).
  destruct (strip_zeros fuel (d / 10) (x + 1)) as [d' x']. destruct IH as [? ->]. split; [done|].
  rewrite <-of_decimal_times_ten by lia. f_equal. lia.
Qed.

(** The shortest text of a valid finite float reads back as that float. *)
Theorem float_text_reads_back f : valid f → finite f → float_ok f.
Proof.
  destruct f as [s| | |s mx ex]; [done|done|done|]. intros Hv _.
  assert (valid (S754_finite false mx ex)) as Hv' by exact Hv.
  pose proof (shortest_from_reads 16 mx ex _ 1 Hv' (decimal_exponent_at_least mx ex Hv') eq_refl) as Hs.
  unfold float_ok, shortest. destruct (shortest_from _ _ _ _ _ _) as [d x]. destruct Hs as [Hd Hs].
  pose proof (strip_zeros_reads 20 s d x Hd) as Hz. destruct (strip_zeros 20 d x) as [d' x'].
  destruct Hz as [Hd' ->]. split; [done|].
  destruct s; [by rewrite of_decimal_sign, Hs|done].
Qed.

(** A number that was read is written so that it reads back. *)
Lemma ParseFloat_reads_back l f : ParseFloat l = Some f → float_ok f.
Proof.
  intros Hf. apply float_text_reads_back; [|by eapply ParseFloat_finite].
  unfold ParseFloat in Hf.
  assert (valid (of_decimal (lit_neg l) (dec (lit_int l +:+ lit_frac l))
             (lit_exponent l - Z.of_nat (String.length (lit_frac l))))) as Hv.
  { apply of_decimal_valid. unfold dec.
    destruct (dec_value _ 0) as [z|] eqn:Hz; simpl; [|lia]. by eapply dec_value_nonneg; [|exact Hz]. }
  by destruct (of_decimal _ _ _); simplify_eq.
Qed.
