(* ===== verification/Strconv.v ===== *)
(** * strconv on arbitrary text

    [strconv.ParseBool] and [strconv.ParseFloat], which read environment variables, and
    [strconv.Quote], which the verb %q prints with.
    ParseFloat takes decimal and hexadecimal mantissas, an exponent, underscores between
    digits, and the names of infinities and NaN; a value out of range is an error. *)

From S2P Require Import Prelude GoInt GoStrings Float64 Utf8 JsonNumber FloatText.
From Stdlib Require Import SpecFloat.

Local Open Scope Z_scope.

Definition ParseBool (s : string) : option bool :=
  if bool_decide (s ∈ ["1"; "t"; "T"; "true"; "TRUE"; "True"]) then Some true
  else if bool_decide (s ∈ ["0"; "f"; "F"; "false"; "FALSE"; "False"]) then Some false
  else None.

(** ** Underscores *)

(** What was last seen: the start, a digit (or a base prefix), an underscore, another
    character. *)
Inductive seen := SeenStart | SeenDigit | SeenUnderscore | SeenOther.

Definition mantissa_digit (hex : bool) (c : ascii) : option Z :=
  if hex then hex_digit c else char_digit c.

Fixpoint underscore_scan (hex : bool) (i : seen) (s : string) : bool :=
  match s with
  | EmptyString => match i with SeenUnderscore => false | _ => true end
  | String c s =>
      match mantissa_digit hex c with
      | Some _ => underscore_scan hex SeenDigit s
      | None =>
          if bool_decide (c = "_"%char) then
            match i with SeenDigit => underscore_scan hex SeenUnderscore s | _ => false end
          else match i with SeenUnderscore => false | _ => underscore_scan hex SeenOther s end
      end
  end.

(** After an optional sign: a base prefix counts as a digit. *)
Definition underscoreOK (s : string) : bool :=
  match s with
  | String "0" (String p t) =>
      if bool_decide (lower_char p = "x"%char) then underscore_scan true SeenDigit t
      else if bool_decide (lower_char p = "b"%char) || bool_decide (lower_char p = "o"%char)
      then underscore_scan false SeenDigit t
      else underscore_scan false SeenStart s
  | _ => underscore_scan false SeenStart s
  end.

(** ** The parts of a number *)

(** The mantissa as an integer, the number of its digits after the point, whether a point
    and a digit were seen. *)
Record mantissa := mkMantissa {
  mant_value : Z;
  mant_frac : Z;
  mant_dot : bool;
  mant_digits : bool
}.

Fixpoint read_mantissa (hex : bool) (m : mantissa) (s : string) : mantissa * string :=
  match s with
  | EmptyString => (m, s)
  | String c s' =>
      if bool_decide (c = "_"%char) then read_mantissa hex m s'
      else if bool_decide (c = "."%char) then
        if mant_dot m then (m, s)
        else read_mantissa hex (mkMantissa (mant_value m) (mant_frac m) true (mant_digits m)) s'
      else match mantissa_digit hex c with
           | Some d =>
               read_mantissa hex
                 (mkMantissa ((if hex then 16 else 10) * mant_value m + d)
                    (if mant_dot m then mant_frac m + 1 else mant_frac m) (mant_dot m) true) s'
           | None => (m, s)
           end
  end.

(** The digits of the exponent; beyond 10000 they are read but not added. *)
Fixpoint read_exponent (e : Z) (s : string) : Z * string :=
  match s with
  | EmptyString => (e, s)
  | String c s' =>
      if bool_decide (c = "_"%char) then read_exponent e s'
      else match char_digit c with
           | Some d => read_exponent (if e <? 10000 then 10 * e + d else e) s'
           | None => (e, s)
           end
  end.

(** The exponent part: its sign and at least one digit; only a decimal number may be
    without one. *)
Definition exponent_part (hex : bool) (s : string) : option (Z * string) :=
  match s with
  | String c s' =>
      if bool_decide (lower_char c = (if hex then "p" else "e")%char) then
        let '(neg, s'') := scan_exp_sign s' in
        match s'' with
        | String d _ =>
            if is_digit d then
              let '(e, r) := read_exponent 0 s'' in Some (if neg then - e else e, r)
            else None
        | EmptyString => None
        end
      else if hex then None else Some (0, s)
  | EmptyString => if hex then None else Some (0, s)
  end.

(** The float nearest to m * 2^e. *)
Definition of_binary (s : bool) (m e : Z) : float64 :=
  match m with
  | Z.pos p => binary_round prec emax s p e
  | _ => S754_zero s
  end.

(** [readFloat] and the conversion, on the text after the sign; [hex] when there is a 0x
    prefix with something after it. *)
Definition read_number (neg hex : bool) (s : string) : option float64 :=
  let '(m, r) := read_mantissa hex (mkMantissa 0 0 false false) s in
  if negb (mant_digits m) then None
  else match exponent_part hex r with
       | Some (e, EmptyString) =>
           Some (if hex then of_binary neg (mant_value m) (e - 4 * mant_frac m)
                 else of_decimal neg (mant_value m) (e - mant_frac m))
       | _ => None
       end.

Definition float_sign (s : string) : bool * string :=
  match s with
  | String "+" s => (false, s)
  | String "-" s => (true, s)
  | s => (false, s)
  end.

Definition hex_prefix (s : string) : option string :=
  match s with
  | String "0" (String x (String c t)) =>
      if bool_decide (lower_char x = "x"%char) then Some (String c t) else None
  | _ => None
  end.

(** [special]: infinity and NaN by name, the latter without a sign. *)
Definition special (s : string) : option float64 :=
  let '(neg, t) := float_sign s in
  if bool_decide (ToLower t = "inf") || bool_decide (ToLower t = "infinity")
  then Some (S754_infinity neg)
  else if bool_decide (ToLower s = "nan") then Some S754_nan
  else None.

Definition ParseFloat64 (s : string) : option float64 :=
  match special s with
  | Some f => Some f
  | None =>
      let '(neg, t) := float_sign s in
      if Contains t "_" && negb (underscoreOK t) then None
      else
        match (match hex_prefix t with
               | Some u => read_number neg true u
               | None => read_number neg false t
               end) with
        | Some (S754_infinity _) => None
        | r => r
        end
  end.

Example parse_float_texts :
  map ParseFloat64 ["0.8"; "8e-1"; "+.5"; "5."; "0x1p-2"; "0X1.8p1"; "1_0"; "-Inf"; "infinity"; "nan"]
  = [Some (of_decimal false 8 (-1)); Some (of_decimal false 8 (-1)); Some (of_decimal false 5 (-1));
     Some (of_int 5); Some (of_decimal false 25 (-2)); Some (of_int 3); Some (of_int 10);
     Some (S754_infinity true); Some (S754_infinity false); Some S754_nan].
Proof. vm_compute. reflexivity. Qed.

Example parse_float_refused :
  map ParseFloat64 [""; "+"; "."; "0x1"; "1e"; "1e400"; "0.8 "; "1__0"; "_1"; "+nan"; "infi"; "0x"]
  = repeat None 12.
Proof. vm_compute. reflexivity. Qed.

(** ** ParseFloat on the literals of JSON *)

(** Digits do not look like anything else. *)
Lemma is_digit_other c x : is_digit c = true → is_digit x = false → c ≠ x.
Proof. intros Hc Hx ->. congruence. Qed.

Lemma read_mantissa_digits d v f dot dg rest v' :
  dec_value d v = Some v' →
  read_mantissa false (mkMantissa v f dot dg) (d +:+ rest)
  = read_mantissa false
      (mkMantissa v' (if dot then f + Z.of_nat (String.length d) else f) dot
         (dg || negb (bool_decide (d = "")))) rest.
Proof.
  revert v f dg. induction d as [|c d IH]; intros v f dg Hv.
  { simpl in Hv. simplify_eq. rewrite append_nil_l, bool_decide_true by done.
    rewrite orb_false_r. do 2 f_equal. destruct dot; simpl; lia. }
  simpl in Hv. destruct (char_digit c) as [k|] eqn:Hk; [|done].
  assert (is_digit c = true) as Hc by (unfold is_digit; by rewrite Hk).
  rewrite append_cons. cbn [read_mantissa].
  rewrite (bool_decide_false (c = "_"%char)) by (by apply is_digit_other).
  rewrite (bool_decide_false (c = "."%char)) by (by apply is_digit_other).
  cbn [mantissa_digit mant_value mant_frac mant_dot mant_digits]. rewrite Hk.
  rewrite (IH _ _ _ Hv), orb_true_l, orb_true_r. do 2 f_equal.
  destruct dot; cbn [String.length]; lia.
Qed.

Lemma dec_value_mono d v v' : 0 <= v → dec_value d v = Some v' → v <= v'.
Proof.
  revert v. induction d as [|c d IH]; intros v Hv; simpl; [intros [= <-]; lia|].
  destruct (char_digit c) as [k|] eqn:Hk; [|done]. intros Hd.
  assert (0 <= k) by (unfold char_digit in Hk; case_match eqn:E; simplify_eq; to_prop; lia).
  apply IH in Hd; lia.
Qed.

Lemma read_exponent_digits d v v' :
  0 <= v → dec_value d v = Some v' → v' < 10000 → read_exponent v d = (v', "").
Proof.
  revert v. induction d as [|c d IH]; intros v H0 Hv Hlt; simpl in *; [by simplify_eq|].
  destruct (char_digit c) as [k|] eqn:Hk; [|done].
  assert (is_digit c = true) as Hc by (unfold is_digit; by rewrite Hk).
  rewrite bool_decide_false by (by apply is_digit_other).
  assert (0 <= k) by (unfold char_digit in Hk; case_match eqn:E; simplify_eq; to_prop; lia).
  pose proof (dec_value_mono d (10 * v + k) v' ltac:(lia) Hv).
  rewrite (proj2 (Z.ltb_lt _ _)) by lia. apply IH; [lia|done|done].
Qed.

Lemma all_digits_dec d v : all_digits d → ∃ v', dec_value d v = Some v'.
Proof.
  unfold all_digits. revert v. induction d as [|c d IH]; intros v; simpl; [by eexists|].
  intros [Hc Hd]%andb_true_iff. unfold is_digit in Hc. destruct (char_digit c); [|done]. by apply IH.
Qed.

(** The exponent is written with fewer than five digits' worth. *)
Definition exponent_small (l : literal) : Prop := Z.abs (lit_exponent l) < 10000.

Lemma exponent_part_text (e : option (bool * string)) :
  match e with None => True | Some (_, d) => d ≠ "" ∧ all_digits d end →
  match e with None => True | Some (_, d) => dec d < 10000 end →
  exponent_part false (exp_text e)
  = Some (match e with None => 0 | Some (neg, d) => if neg then - dec d else dec d end, "").
Proof.
  destruct e as [[neg d]|]; [|done]. intros [Hne Hd] Hs. unfold exp_text, exponent_part.
  rewrite bool_decide_true by done.
  assert (scan_exp_sign (String (if neg then "-"%char else "+"%char) d) = (neg, d)) as ->
    by (by destruct neg).
  destruct (all_digits_dec d 0 Hd) as [v Hv]. unfold dec in *. rewrite Hv in *. simpl in Hs.
  destruct d as [|c d]; [done|].
  assert (is_digit c = true) as -> by (unfold all_digits in Hd; simpl in Hd; by apply andb_true_iff in Hd as [? _]).
  by rewrite (read_exponent_digits _ 0 v).
Qed.

(** After the mantissa nothing more of it follows. *)
Lemma read_mantissa_stop m e :
  read_mantissa false m (exp_text e) = (m, exp_text e).
Proof. by destruct e as [[[] d]|]. Qed.

Lemma read_number_text neg i f e :
  wf_literal (mkLiteral neg i f e) → exponent_small (mkLiteral neg i f e) →
  read_number neg false (i +:+ frac_text f +:+ exp_text e)
  = Some (of_decimal neg (dec (i +:+ f)) (lit_exponent (mkLiteral neg i f e)
                                          - Z.of_nat (String.length f))).
Proof.
  intros [Hi Hf He] Hs. simpl in *. unfold read_number.
  destruct (wf_int_head i Hi) as (c & t & Hit & Hc).
  assert (all_digits i) as Hdi by (destruct Hi as [->|(? & ? & -> & _ & ?)]; done).
  destruct (all_digits_dec i 0 Hdi) as [vi Hvi].
  rewrite (read_mantissa_digits i 0 0 false false _ vi Hvi).
  destruct (all_digits_dec f vi Hf) as [vf Hvf].
  assert (dec (i +:+ f) = vf) as -> by (unfold dec; by rewrite dec_value_app, Hvi; simpl; rewrite Hvf).
  rewrite (bool_decide_false (i = "")) by (by rewrite Hit). cbn [orb negb].
  assert (exponent_part false (exp_text e) = Some (lit_exponent (mkLiteral neg i f e), "")) as Hexp.
  { unfold exponent_small, lit_exponent in *. simpl in *. rewrite exponent_part_text; [done|done|].
    destruct e as [[[] d]|]; [lia|lia|done]. }
  destruct f as [|x f].
  - simpl in Hvf. simplify_eq. unfold frac_text. rewrite append_nil_l, read_mantissa_stop.
    cbn [mant_digits negb]. by rewrite Hexp.
  - unfold frac_text. rewrite append_cons. cbn [read_mantissa].
    rewrite (bool_decide_false ("."%char = "_"%char)) by done. rewrite bool_decide_true by done.
    cbn [mant_dot mant_value mant_frac mant_digits].
    rewrite (read_mantissa_digits (String x f) vi 0 true true _ vf Hvf), read_mantissa_stop.
    cbn [mant_digits negb orb]. by rewrite Hexp.
Qed.

Lemma digits_no_underscore d : all_digits d → lacks "_" d = true.
Proof.
  intros Hd. unfold lacks. eapply str_all_impl; [|exact Hd]. intros c Hc. simpl.
  rewrite bool_decide_false; [done|]. by apply is_digit_other.
Qed.

Lemma lacks_Contains b s : lacks b s = true → Contains s (String b "") = false.
Proof.
  intros Hl. destruct (Contains s (String b "")) eqn:Hc; [|done].
  apply Contains_spec in Hc as (a & t & ->). unfold lacks in Hl. rewrite str_all_app in Hl.
  apply andb_true_iff in Hl as [_ Hl]. simpl in Hl. by rewrite bool_decide_true in Hl.
Qed.

Lemma lower_digit c : is_digit c = true → lower_char c = c.
Proof. by destruct c as [[] [] [] [] [] [] [] []]. Qed.

(** A literal of JSON (with an exponent below 10000) is read as encoding/json reads it. *)
Theorem ParseFloat64_literal l :
  wf_literal l → exponent_small l → ParseFloat64 (literal_text l) = ParseFloat l.
Proof.
  intros Hwf Hs. pose proof (read_number_text (lit_neg l) (lit_int l) (lit_frac l) (lit_exp l)) as Hn.
  destruct l as [neg i f e]. simpl in Hn. specialize (Hn Hwf Hs).
  pose proof Hwf as [Hi Hf He]. simpl in *.
  destruct (wf_int_head i Hi) as (c & t & Hit & Hc).
  set (body := i +:+ frac_text f +:+ exp_text e) in *.
  assert (∃ u, body = String c u) as [u Hu] by (subst body; rewrite Hit, append_cons; by eexists).
  assert (float_sign (literal_text (mkLiteral neg i f e)) = (neg, body)) as Hsign.
  { unfold literal_text. simpl. fold body. destruct neg; [done|]. rewrite append_nil_l, Hu.
    unfold float_sign. pose proof (is_digit_other c "+" Hc eq_refl).
    pose proof (is_digit_other c "-" Hc eq_refl). destruct c as [[] [] [] [] [] [] [] []]; done. }
  assert (lacks "_" body = true) as Hlack.
  { subst body. unfold lacks. rewrite !str_all_app. fold (lacks "_" i).
    assert (all_digits i) as Hdi by (destruct Hi as [->|(? & ? & -> & _ & ?)]; done).
    rewrite (digits_no_underscore i Hdi). simpl. apply andb_true_iff. split.
    - destruct f as [|x f]; [done|]. exact (digits_no_underscore _ Hf).
    - destruct e as [[neg' d]|]; [|done]. simpl. destruct He as [_ He].
      pose proof (digits_no_underscore d He) as Hd. unfold lacks in Hd. rewrite Hd. by destruct neg'. }
  assert (hex_prefix body = None) as Hhex.
  { subst body. destruct Hi as [->|(c' & t' & -> & Hz & _)].
    - destruct f; [|done]. destruct e as [[]|]; done.
    - rewrite append_cons in *. unfold hex_prefix.
      destruct c' as [[] [] [] [] [] [] [] []]; done. }
  assert (special (literal_text (mkLiteral neg i f e)) = None) as Hsp.
  { unfold special. rewrite Hsign, Hu. cbn [ToLower]. rewrite (lower_digit c Hc).
    rewrite !bool_decide_false; [done| |by intros [= ->]|by intros [= ->]].
    unfold literal_text. simpl. fold body. rewrite Hu. destruct neg; [done|].
    rewrite append_nil_l. cbn [ToLower]. rewrite (lower_digit c Hc). by intros [= ->]. }
  unfold ParseFloat64. rewrite Hsp, Hsign, (lacks_Contains _ _ Hlack), Hhex, Hn. simpl.
  unfold ParseFloat. simpl. by destruct (of_decimal _ _ _).
Qed.

(** ** [strconv.Quote], the verb %q *)

(** The tables behind [strconv.IsPrint] for runes beyond Latin-1. *)
Class PrintTable := { table_IsPrint : Z → bool }.

Definition decode2 (c d : ascii) : Z := 64 * (ord c - 192) + (ord d - 128).
Definition decode3 (c d e : ascii) : Z := 4096 * (ord c - 224) + 64 * (ord d - 128) + (ord e - 128).
Definition decode4 (c d e f : ascii) : Z :=
  262144 * (ord c - 240) + 4096 * (ord d - 128) + 64 * (ord e - 128) + (ord f - 128).

Section quote.
Context `{PrintTable}.

Definition IsPrint (r : Z) : bool :=
  if r <=? 255
  then ((32 <=? r) && (r <? 127)) || ((161 <=? r) && negb (r =? 173))
  else table_IsPrint r.

(** The [n] low hexadecimal digits. *)
Fixpoint hex_digits (n : nat) (r : Z) : string :=
  match n with
  | O => ""
  | S n => String (hex_char ((r / 16 ^ Z.of_nat n) mod 16)) (hex_digits n r)
  end.

(** [appendEscapedRune] of the rune [r] with encoding [enc]. *)
Definition quote_rune (enc : string) (r : Z) : string :=
  let escaped (t : string) := String backslash t in
  if (r =? 34) || (r =? 92) then escaped enc
  else if IsPrint r then enc
  else if r =? 7 then escaped "a"
  else if r =? 8 then escaped "b"
  else if r =? 12 then escaped "f"
  else if r =? 10 then escaped "n"
  else if r =? 13 then escaped "r"
  else if r =? 9 then escaped "t"
  else if r =? 11 then escaped "v"
  else if (r <? 32) || (r =? 127) then escaped ("x" +:+ hex_digits 2 r)
  else if r <? 65536 then escaped ("u" +:+ hex_digits 4 r)
  else escaped ("U" +:+ hex_digits 8 r).

(** A byte that starts no encoding is written in hexadecimal. *)
Fixpoint quote_runes (s : string) : string :=
  match s with
  | EmptyString => ""
  | String c s1 =>
      match utf8_len s, s1 with
      | 1%nat, _ => quote_rune (String c "") (ord c) +:+ quote_runes s1
      | 2%nat, String d s2 => quote_rune (String c (String d "")) (decode2 c d) +:+ quote_runes s2
      | 3%nat, String d (String e s3) =>
          quote_rune (String c (String d (String e ""))) (decode3 c d e) +:+ quote_runes s3
      | 4%nat, String d (String e (String f s4)) =>
          quote_rune (String c (String d (String e (String f "")))) (decode4 c d e f) +:+ quote_runes s4
      | _, _ => String backslash ("x" +:+ hex_digits 2 (ord c)) +:+ quote_runes s1
      end
  end.

Definition Quote (s : string) : string := String quote (quote_runes s +:+ String quote "").
End quote.

(** A table with no printable rune beyond Latin-1. *)
Definition latin1_only : PrintTable := {| table_IsPrint _ := false |}.

(** A quote, a tab, an accented letter, a lone byte, a rune beyond Latin-1. *)
Example quote_examples :
  Quote (H := latin1_only) ("a" +:+ bytes [34; 9; 195; 169; 255; 226; 130; 172]%nat)
  = String quote ("a" +:+ String backslash (String quote (String backslash ("t" +:+ bytes [195; 169]%nat
      +:+ String backslash ("xff" +:+ String backslash ("u20ac" +:+ String quote "")))))).
Proof. reflexivity. Qed.
