(* ===== verification/Json.v ===== *)
(** * encoding/json

    What the program uses of the package: [json.Unmarshal] into a
    [map[string]interface{}], into a [string] and into small structs of integers,
    and [json.Marshal] of a [map[string]interface{}].  Unmarshalling first checks
    the whole text (a syntax error changes nothing), then stores values one by one;
    a value of the wrong type is skipped and reported at the end.  The wording of
    the package's error messages is not modelled. *)

From S2P Require Import Prelude GoInt GoStrings Float64 Utf8 JsonNumber.

Local Open Scope Z_scope.

(** ** Texts *)

(** A checked text; numbers are kept as literals, members in their order. *)
Inductive json : Type :=
  | JNull
  | JBool (b : bool)
  | JNum (l : literal)
  | JStr (s : string)
  | JArr (l : list json)
  | JObj (l : list (string * json)).

Inductive json_error := SyntaxError | UnmarshalTypeError | UnsupportedValueError.

Definition is_space (c : ascii) : bool :=
  bool_decide (c = " "%char) || bool_decide (c = chr 9)
  || bool_decide (c = CR) || bool_decide (c = LF).

Fixpoint skip_ws (s : string) : string :=
  match s with
  | String c s' => if is_space c then skip_ws s' else s
  | EmptyString => ""
  end.

(** A literal name of the grammar. *)
Definition keyword (s : string) : option (json * string) :=
  if HasPrefix s "true" then Some (JBool true, str_drop 4 s)
  else if HasPrefix s "false" then Some (JBool false, str_drop 5 s)
  else if HasPrefix s "null" then Some (JNull, str_drop 4 s)
  else None.

(** The scanner refuses a text nested deeper than this. *)
Definition maxNestingDepth : Z := 10000.

(** One value and what follows it.  [depth] is the nesting still allowed; every
    two steps of recursion consume a byte, so twice the length is enough fuel. *)
Fixpoint parse_value (fuel : nat) (depth : Z) (s : string) : option (json * string) :=
  match fuel with
  | O => None
  | S fuel =>
      match skip_ws s with
      | EmptyString => None
      | String c t =>
          if bool_decide (c = "{"%char) then
            if depth <=? 0 then None
            else match skip_ws t with
                 | EmptyString => None
                 | String d u =>
                     if bool_decide (d = "}"%char) then Some (JObj [], u)
                     else match parse_members fuel (depth - 1) (String d u) with
                          | Some (l, r) => Some (JObj l, r)
                          | None => None
                          end
                 end
          else if bool_decide (c = "["%char) then
            if depth <=? 0 then None
            else match skip_ws t with
                 | EmptyString => None
                 | String d u =>
                     if bool_decide (d = "]"%char) then Some (JArr [], u)
                     else match parse_elements fuel (depth - 1) (String d u) with
                          | Some (l, r) => Some (JArr l, r)
                          | None => None
                          end
                 end
          else if bool_decide (c = quote) then
            match unquote t with
            | Some (x, r) => Some (JStr x, r)
            | None => None
            end
          else if number_start c then
            match scan_number (String c t) with
            | Some (l, r) => Some (JNum l, r)
            | None => None
            end
          else keyword (String c t)
      end
  end
with parse_elements (fuel : nat) (depth : Z) (s : string) : option (list json * string) :=
  match fuel with
  | O => None
  | S fuel =>
      match parse_value fuel depth s with
      | None => None
      | Some (j, r) =>
          match skip_ws r with
          | EmptyString => None
          | String c t =>
              if bool_decide (c = "]"%char) then Some ([j], t)
              else if bool_decide (c = ","%char) then
                match parse_elements fuel depth t with
                | Some (l, r) => Some (j :: l, r)
                | None => None
                end
              else None
          end
      end
  end
with parse_members (fuel : nat) (depth : Z) (s : string) : option (list (string * json) * string) :=
  match fuel with
  | O => None
  | S fuel =>
      match skip_ws s with
      | EmptyString => None
      | String q t =>
          if negb (bool_decide (q = quote)) then None
          else match unquote t with
               | None => None
               | Some (key, r) =>
                   match skip_ws r with
                   | EmptyString => None
                   | String colon r =>
                       if negb (bool_decide (colon = ":"%char)) then None
                       else match parse_value fuel depth r with
                            | None => None
                            | Some (j, r) =>
                                match skip_ws r with
                                | EmptyString => None
                                | String c t =>
                                    if bool_decide (c = "}"%char) then Some ([(key, j)], t)
                                    else if bool_decide (c = ","%char) then
                                      match parse_members fuel depth t with
                                      | Some (l, r) => Some ((key, j) :: l, r)
                                      | None => None
                                      end
                                    else None
                                end
                            end
                   end
               end
      end
  end.

Definition parse_fuel (s : string) : nat := (2 * String.length s + 2)%nat.

(** [checkValid]: one value and nothing but white space after it. *)
Definition parse (s : string) : option json :=
  match parse_value (parse_fuel s) maxNestingDepth s with
  | Some (j, r) => match skip_ws r with EmptyString => Some j | _ => None end
  | None => None
  end.

(** ** Values of type [interface{}]

    What unmarshalling stores, and the [[]string] one caller builds.  A map is
    kept as its entries in increasing order of keys, the order in which
    [json.Marshal] writes them. *)
Inductive value : Type :=
  | VNil
  | VBool (b : bool)
  | VFloat (f : float64)
  | VString (s : string)
  | VArray (l : list value)
  | VStrings (l : list string)
  | VMap (m : list (string * value)).

Abbreviation fields := (list (string * value)).

Fixpoint field (k : string) (m : fields) : option value :=
  match m with
  | [] => None
  | (k', v) :: m => if bool_decide (k = k') then Some v else field k m
  end.

Fixpoint set_field (k : string) (v : value) (m : fields) : fields :=
  match m with
  | [] => [(k, v)]
  | (k', v') :: m' =>
      match String.compare k k' with
      | Lt => (k, v) :: m
      | Eq => (k, v) :: m'
      | Gt => (k', v') :: set_field k v m'
      end
  end.

(** Storing a checked text in an [interface{}]: the value, and whether a number
    was out of range (it is stored as nil and reported). *)
Fixpoint any (j : json) : value * bool :=
  match j with
  | JNull => (VNil, false)
  | JBool b => (VBool b, false)
  | JNum l => match ParseFloat l with Some f => (VFloat f, false) | None => (VNil, true) end
  | JStr s => (VString s, false)
  | JArr l =>
      let r := map any l in
      (VArray r.*1, existsb snd r)
  | JObj l =>
      let fix members (l : list (string * json)) (m : fields) : fields * bool :=
        match l with
        | [] => (m, false)
        | (k, j) :: l =>
            let '(v, e) := any j in
            let '(m, e') := members l (set_field k v m) in
            (m, e || e')
        end in
      let '(m, e) := members l [] in (VMap m, e)
  end.

(** The members of an object, stored into a map that may have entries already. *)
Fixpoint members (l : list (string * json)) (m : fields) : fields * bool :=
  match l with
  | [] => (m, false)
  | (k, j) :: l =>
      let '(v, e) := any j in
      let '(m, e') := members l (set_field k v m) in
      (m, e || e')
  end.

(** [json.Unmarshal(body, &m)] for [m map[string]interface{}]; nil is [None]. *)
Definition UnmarshalMap (body : string) (m : option fields) : option fields * option json_error :=
  match parse body with
  | None => (m, Some SyntaxError)
  | Some JNull => (None, None)
  | Some (JObj l) =>
      let '(m', e) := members l (default [] m) in
      (Some m', if e then Some UnmarshalTypeError else None)
  | Some _ => (m, Some UnmarshalTypeError)
  end.

(** [json.Unmarshal(body, &s)] for [s string]. *)
Definition UnmarshalString (body : string) (s : string) : string * option json_error :=
  match parse body with
  | None => (s, Some SyntaxError)
  | Some JNull => (s, None)
  | Some (JStr t) => (t, None)
  | Some _ => (s, Some UnmarshalTypeError)
  end.

(** ** Structs *)

(** [foldName]: the ASCII letters and the two other characters that fold to one
    of them, U+017F and U+212A. *)
Fixpoint fold_name (s : string) : string :=
  match s with
  | EmptyString => ""
  | String c s1 =>
      match s1 with
      | String d s2 =>
          if bool_decide (c = chr 197) && bool_decide (d = chr 191) then String "S" (fold_name s2)
          else match s2 with
               | String e s3 =>
                   if bool_decide (c = chr 226) && bool_decide (d = chr 132)
                      && bool_decide (e = chr 170)
                   then String "K" (fold_name s3)
                   else String (if between 97 122 c then byte (ord c - 32) else c) (fold_name s1)
               | EmptyString =>
                   String (if between 97 122 c then byte (ord c - 32) else c) (fold_name s1)
               end
      | EmptyString => String (if between 97 122 c then byte (ord c - 32) else c) (fold_name s1)
      end
  end.

Definition same_name (k name : string) : bool := bool_decide (fold_name k = fold_name name).

(** Storing into an [int] field: null keeps it, and so does a value that is no
    64-bit integer, which is reported. *)
Definition store_int (j : json) (z : Z) : Z * bool :=
  match j with
  | JNull => (z, false)
  | JNum l => match ParseInt l with Some z' => (z', false) | None => (z, true) end
  | _ => (z, true)
  end.

(** ** [json.Marshal] *)

(** Elements separated by commas. *)
Fixpoint commas (ps : list string) : string :=
  match ps with
  | [] => ""
  | [p] => p
  | p :: ps => p +:+ String "," (commas ps)
  end.

Fixpoint print (v : value) : string :=
  match v with
  | VNil => "null"
  | VBool b => if b then "true" else "false"
  | VFloat f => float_text f
  | VString s => quote_string s
  | VArray l => String "[" (commas (map print l) +:+ "]")
  | VStrings l => String "[" (commas (map quote_string l) +:+ "]")
  | VMap m => String "{" (commas (map (λ kv, quote_string kv.1 +:+ String ":" (print kv.2)) m) +:+ "}")
  end.

(** Every float of the value is finite. *)
Fixpoint supported (v : value) : bool :=
  match v with
  | VFloat f => bool_decide (finite f)
  | VArray l => forallb supported l
  | VMap m => forallb (λ kv, supported kv.2) m
  | _ => true
  end.

(** [json.Marshal(m)]: nil is written [null]; NaN and infinities are refused. *)
Definition MarshalMap (m : option fields) : string + json_error :=
  match m with
  | None => inl "null"
  | Some m => if supported (VMap m) then inl (print (VMap m)) else inr UnsupportedValueError
  end.

Example unmarshal_example :
  UnmarshalMap (" { " +:+ quote_string "b" +:+ " : [1, -2.5e1, true,null ] ,"
                +:+ quote_string "a" +:+ ":{}, " +:+ quote_string "b" +:+ ":" +:+ quote_string "x" +:+ "} ") None
  = (Some [("a", VMap []); ("b", VString "x")], None).
Proof. vm_compute. reflexivity. Qed.
