(* ===== verification/JsonProofs.v ===== *)
(** * Round trip of encoding/json

    What [json.Marshal] writes, [json.Unmarshal] reads back: [parse_print] for
    the text, [any_to_json] for the values, and their combination for maps. *)

From S2P Require Import Prelude GoInt GoStrings Float64 Utf8 JsonNumber FloatText Json.
From Stdlib Require Import OrderedTypeEx Sorted.

Local Open Scope Z_scope.

(** Induction on values, through the lists. *)
Section value_ind.
Variable P : value → Prop.
Hypothesis Hnil : P VNil.
Hypothesis Hbool : ∀ b, P (VBool b).
Hypothesis Hfloat : ∀ f, P (VFloat f).
Hypothesis Hstring : ∀ s, P (VString s).
Hypothesis Harray : ∀ l, Forall P l → P (VArray l).
Hypothesis Hstrings : ∀ l, P (VStrings l).
Hypothesis Hmap : ∀ m, Forall (λ kv, P kv.2) m → P (VMap m).

Fixpoint value_induction (v : value) : P v :=
  match v with
  | VNil => Hnil
  | VBool b => Hbool b
  | VFloat f => Hfloat f
  | VString s => Hstring s
  | VArray l =>
      Harray l ((fix go (l : list value) : Forall P l :=
                   match l with
                   | [] => @List.Forall_nil _ P
                   | v :: l => @List.Forall_cons _ P v l (value_induction v) (go l)
                   end) l)
  | VStrings l => Hstrings l
  | VMap m =>
      Hmap m ((fix go (m : fields) : Forall (λ kv : string * value, P kv.2) m :=
                 match m with
                 | [] => @List.Forall_nil _ _
                 | kv :: m => @List.Forall_cons _ (λ kv, P kv.2) kv m (value_induction kv.2) (go m)
                 end) m)
  end.
End value_ind.

(** The text a value is written as, parsed. *)
Fixpoint to_json (v : value) : json :=
  match v with
  | VNil => JNull
  | VBool b => JBool b
  | VFloat f => JNum (float_literal f)
  | VString s => JStr (sanitize s)
  | VArray l => JArr (map to_json l)
  | VStrings l => JArr (map (λ s, JStr (sanitize s)) l)
  | VMap m => JObj (map (λ kv, (sanitize kv.1, to_json kv.2)) m)
  end.

(** Every float reads back from its shortest text. *)
Fixpoint floats_ok (v : value) : Prop :=
  match v with
  | VFloat f => float_ok f
  | VArray l => foldr and True (map floats_ok l)
  | VMap m => foldr and True (map (λ kv, floats_ok kv.2) m)
  | _ => True
  end.

Fixpoint height (v : value) : Z :=
  match v with
  | VArray l => 1 + foldr Z.max 0 (map height l)
  | VStrings _ => 1
  | VMap m => 1 + foldr Z.max 0 (map (λ kv, height kv.2) m)
  | _ => 0
  end.

Lemma foldr_and {A} (P : A → Prop) l : foldr and True (map P l) ↔ Forall P l.
Proof. induction l; simpl; [by rewrite Forall_nil|by rewrite Forall_cons, IHl]. Qed.

Lemma height_nonneg v : 0 <= height v.
Proof. destruct v; simpl; try lia; induction (map _ _); simpl; lia. Qed.

(** ** Parsing one printed piece *)

Definition plain_start (c : ascii) : Prop :=
  is_space c = false ∧ c ≠ "]"%char ∧ c ≠ "}"%char.

(** The text [p] parses to [j] wherever a value may stand. *)
Record reads_as (p : string) (j : json) (h : Z) : Prop := {
  reads_start : ∃ c t, p = String c t ∧ plain_start c;
  reads_value : ∀ fuel depth rest,
    (2 * String.length p <= fuel)%nat → h <= depth → delimited rest →
    parse_value fuel depth (p +:+ rest) = Some (j, rest)
}.

Lemma skip_ws_start c t : is_space c = false → skip_ws (String c t) = String c t.
Proof. intros Hc. simpl. by rewrite Hc. Qed.

Lemma reads_skip p j h rest : reads_as p j h → skip_ws (p +:+ rest) = p +:+ rest.
Proof. intros [(c & t & -> & Hc & _) _]. rewrite append_cons. by apply skip_ws_start. Qed.

Lemma quote_string_length s : (2 <= String.length (quote_string s))%nat.
Proof. unfold quote_string. simpl. rewrite length_append. simpl. lia. Qed.

Lemma reads_string s : reads_as (quote_string s) (JStr (sanitize s)) 0.
Proof.
  split; [by eexists _, _|]. intros fuel depth rest Hf _ _.
  pose proof (quote_string_length s). destruct fuel as [|fuel]; [lia|].
  destruct (unquote_quote_string s rest) as (t & -> & Ht). cbn [parse_value].
  rewrite skip_ws_start by done. by rewrite Ht.
Qed.

Lemma reads_number l : wf_literal l → reads_as (literal_text l) (JNum l) 0.
Proof.
  intros Hl. destruct (literal_text_head l Hl) as (c & t & Heq & Hc).
  assert (is_space c = false ∧ c ≠ "]"%char ∧ c ≠ "}"%char
          ∧ c ≠ "{"%char ∧ c ≠ "["%char ∧ c ≠ quote) as (H1 & H2 & H3 & H4 & H5 & H6).
  { revert Hc. clear. destruct c as [[] [] [] [] [] [] [] []]; intros Hc;
      first [by vm_compute in Hc | by repeat split]. }
  split; [by eexists _, _|]. intros fuel depth rest Hf _ Hr.
  pose proof (scan_literal_text l rest Hl Hr) as Hscan.
  rewrite Heq in *. simpl in Hf. destruct fuel as [|fuel]; [lia|].
  rewrite append_cons in *. cbn [parse_value]. rewrite skip_ws_start by done.
  by rewrite !bool_decide_false, Hc, Hscan by done.
Qed.

Lemma reads_keyword p j :
  (p = "true" ∧ j = JBool true) ∨ (p = "false" ∧ j = JBool false) ∨ (p = "null" ∧ j = JNull) →
  reads_as p j 0.
Proof.
  intros Hp. split.
  - destruct Hp as [[-> _]|[[-> _]|[-> _]]]; by eexists _, _.
  - intros fuel depth rest Hf _ _.
    destruct Hp as [[-> ->]|[[-> ->]|[-> ->]]]; simpl in Hf; (destruct fuel; [lia|]); by destruct rest.
Qed.

(** ** Elements and members *)

Lemma commas_cons p ps : ps ≠ [] → commas (p :: ps) = p +:+ String "," (commas ps).
Proof. by destruct ps. Qed.

Definition items_read (items : list (string * json)) (h : Z) : Prop :=
  Forall (λ pj, reads_as pj.1 pj.2 h) items.

Lemma parse_elements_commas items h fuel depth rest :
  items ≠ [] → items_read items h →
  (2 * String.length (commas items.*1) + 1 <= fuel)%nat → h <= depth →
  parse_elements fuel depth (commas items.*1 +:+ String "]" rest) = Some (items.*2, rest).
Proof.
  intros Hne Hall. revert fuel Hne.
  induction Hall as [|[p j] items [Hst Hp] Hall IH]; intros fuel Hne Hf Hd; [done|].
  simpl in Hf. destruct fuel as [|fuel]; [lia|]. cbn [parse_elements].
  destruct items as [|pj items].
  - simpl in *. rewrite Hp; [|lia|done|done]. simpl. done.
  - rewrite fmap_cons, commas_cons in * by done. cbn [fst] in *.
    rewrite append_assoc, append_cons. rewrite length_append in Hf. simpl String.length in Hf.
    rewrite Hp; [|lia|done|done].
    rewrite skip_ws_start by done. cbn. rewrite IH; [done|done| |done]. simpl in *. lia.
Qed.

Definition member_text (km : string * (string * json)) : string :=
  quote_string km.1 +:+ String ":" km.2.1.

Lemma parse_members_commas (ms : list (string * (string * json))) h fuel depth rest :
  ms ≠ [] → Forall (λ km, reads_as km.2.1 km.2.2 h) ms →
  (2 * String.length (commas (member_text <$> ms)) + 1 <= fuel)%nat → h <= depth →
  parse_members fuel depth (commas (member_text <$> ms) +:+ String "}" rest)
  = Some ((λ km, (sanitize km.1, km.2.2)) <$> ms, rest).
Proof.
  intros Hne Hall. revert fuel Hne.
  induction Hall as [|[k [p j]] ms [Hst Hp] Hall IH]; intros fuel Hne Hf Hd; [done|].
  cbn [fst snd] in Hst, Hp. destruct fuel as [|fuel]; [lia|].
  assert (∀ more, (2 * String.length p <= fuel)%nat → delimited more →
    parse_members (S fuel) depth (member_text (k, (p, j)) +:+ more)
    = match skip_ws more with
      | EmptyString => None
      | String c t =>
          if bool_decide (c = "}"%char) then Some ([(sanitize k, j)], t)
          else if bool_decide (c = ","%char) then
            match parse_members fuel depth t with
            | Some (l, r) => Some ((sanitize k, j) :: l, r)
            | None => None
            end
          else None
      end) as Hone.
  { intros more Hlen Hdel. unfold member_text. cbn [fst snd]. rewrite append_assoc, append_cons.
    destruct (unquote_quote_string k (String ":" (p +:+ more))) as (t & -> & Ht).
    cbn [parse_members]. rewrite skip_ws_start, bool_decide_true, Ht by done.
    cbn [negb]. rewrite skip_ws_start, bool_decide_true by done. cbn [negb]. by rewrite Hp. }
  assert (String.length p <= String.length (member_text (k, (p, j))))%nat as Hmt.
  { unfold member_text. rewrite length_append. simpl. lia. }
  destruct ms as [|km ms].
  - rewrite list_fmap_singleton in *. cbn [commas] in *. rewrite Hone; [done|lia|done].
  - rewrite fmap_cons, commas_cons in * by done. rewrite length_append in Hf.
    cbn [String.length] in Hf. rewrite append_assoc, append_cons, Hone; [|lia|done].
    rewrite skip_ws_start, bool_decide_false, bool_decide_true by done.
    rewrite IH; [done|done| |done]. rewrite <-fmap_cons. lia.
Qed.

(** ** Whole values *)

Lemma foldr_max_le {A} (g : A → Z) l x : x ∈ l → g x <= foldr Z.max 0 (map g l).
Proof.
  induction l as [|y l IH]; [by intros ?%elem_of_nil|]. simpl.
  intros [->|Hx]%elem_of_cons; [lia|]. specialize (IH Hx). lia.
Qed.

Lemma reads_weaken p j h h' : h <= h' → reads_as p j h → reads_as p j h'.
Proof. intros Hh [Hs Hv]. split; [done|]. intros. apply Hv; [done|lia|done]. Qed.

(** A bracketed list of readable items. *)
Lemma reads_array items h :
  0 <= h → items_read items h →
  reads_as (String "[" (commas items.*1 +:+ "]")) (JArr items.*2) (1 + h).
Proof.
  intros Hh Hall. split; [by eexists _, _|]. intros fuel depth rest Hf Hd _.
  simpl in Hf. rewrite length_append in Hf. simpl in Hf.
  destruct fuel as [|fuel]; [lia|]. rewrite append_cons, append_assoc. cbn [parse_value].
  rewrite skip_ws_start, bool_decide_false, bool_decide_true by done.
  rewrite (proj2 (Z.leb_gt _ _)) by lia.
  destruct items as [|[p j] items]; [done|].
  pose proof Hall as Hall'. apply Forall_cons in Hall' as [[(c & t & Hp & Hc & Hb & _) _] _].
  simpl in Hp. change ("]" +:+ rest) with (String "]" rest). set (s := commas _ +:+ _).
  assert (∃ t', s = String c t') as [t' Hs].
  { subst s. destruct items as [|pj items]; simpl; rewrite Hp.
    - by eexists.
    - rewrite append_assoc, append_cons. by eexists. }
  rewrite Hs, skip_ws_start, bool_decide_false by done. rewrite <-Hs. subst s.
  by rewrite (parse_elements_commas _ h); [|done..|lia|lia].
Qed.

Lemma reads_object ms h :
  0 <= h → Forall (λ km : string * (string * json), reads_as km.2.1 km.2.2 h) ms →
  reads_as (String "{" (commas (member_text <$> ms) +:+ "}"))
    (JObj ((λ km, (sanitize km.1, km.2.2)) <$> ms)) (1 + h).
Proof.
  intros Hh Hall. split; [by eexists _, _|]. intros fuel depth rest Hf Hd _.
  simpl in Hf. rewrite length_append in Hf. simpl in Hf.
  destruct fuel as [|fuel]; [lia|]. rewrite append_cons, append_assoc. cbn [parse_value].
  rewrite skip_ws_start, bool_decide_true by done.
  rewrite (proj2 (Z.leb_gt _ _)) by lia.
  destruct ms as [|km ms]; [done|]. change ("}" +:+ rest) with (String "}" rest).
  set (s := commas _ +:+ _).
  assert (∃ t', s = String quote t') as [t' Hs].
  { subst s. destruct ms as [|km' ms]; simpl; unfold member_text at 1, quote_string;
      rewrite !append_assoc, append_cons; by eexists. }
  rewrite Hs, skip_ws_start, bool_decide_false by done. rewrite <-Hs. subst s.
  by rewrite (parse_members_commas _ h); [|done..|lia|lia].
Qed.

Lemma reads_print v : floats_ok v → reads_as (print v) (to_json v) (height v).
Proof.
  induction v as [|b|f|s|l IH|l|m IH] using value_induction; simpl; intros Hok.
  - apply reads_keyword. auto.
  - apply reads_keyword. destruct b; auto.
  - by apply reads_number, float_literal_wf.
  - apply reads_string.
  - rewrite foldr_and in Hok. set (h := foldr Z.max 0 (map height l)).
    pose proof (reads_array ((λ v, (print v, to_json v)) <$> l) h) as Ha.
    rewrite <-!list_fmap_compose in Ha. apply Ha; clear Ha.
    + subst h. clear. induction l as [|v l IHl]; simpl; [lia|]. lia.
    + apply Forall_fmap, Forall_forall. intros v Hv. simpl.
      rewrite Forall_forall in IH, Hok. eapply reads_weaken, IH; auto.
      by apply foldr_max_le.
  - pose proof (reads_array ((λ s, (quote_string s, JStr (sanitize s))) <$> l) 0) as Ha.
    rewrite <-!list_fmap_compose in Ha. apply Ha; [lia|].
    apply Forall_fmap, Forall_forall. intros s _. apply reads_string.
  - rewrite foldr_and in Hok. set (h := foldr Z.max 0 (map (λ kv, height kv.2) m)).
    pose proof (reads_object ((λ kv, (kv.1, (print kv.2, to_json kv.2))) <$> m) h) as Ha.
    rewrite <-!list_fmap_compose in Ha. apply Ha; clear Ha.
    + subst h. clear. induction m as [|v m IHm]; simpl; [lia|]. lia.
    + apply Forall_fmap, Forall_forall. intros kv Hv. simpl.
      rewrite Forall_forall in IH, Hok. eapply reads_weaken, (IH kv); auto.
      by apply (foldr_max_le (λ kv, height kv.2)).
Qed.

(** Parsing inverts printing. *)
Lemma parse_print v : floats_ok v → height v <= maxNestingDepth → parse (print v) = Some (to_json v).
Proof.
  intros Hok Hh. unfold parse, parse_fuel. destruct (reads_print v Hok) as [_ Hv].
  rewrite <-(append_nil_r (print v)) at 2. rewrite Hv; [done|lia|done|done].
Qed.

(** ** Maps as sorted entries *)

Definition key_lt (k k' : string) : Prop := String.compare k k' = Lt.

Lemma key_lt_iff k k' : key_lt k k' ↔ String_as_OT.lt k k'.
Proof. apply String_as_OT.cmp_lt. Qed.

Lemma key_lt_trans k1 k2 k3 : key_lt k1 k2 → key_lt k2 k3 → key_lt k1 k3.
Proof. rewrite !key_lt_iff. apply String_as_OT.lt_trans. Qed.

Lemma compare_refl k : String.compare k k = Eq.
Proof. by apply (proj2 (String_as_OT.cmp_eq k k)). Qed.

Lemma compare_eq k k' : String.compare k k' = Eq → k = k'.
Proof. apply String.compare_eq_iff. Qed.

Lemma key_gt k k' : String.compare k k' = Gt → key_lt k' k.
Proof. intros Hc. unfold key_lt. rewrite String.compare_antisym, Hc. done. Qed.

Definition sorted_keys (m : fields) : Prop := StronglySorted key_lt m.*1.

Lemma set_field_keys k v m x : x ∈ (set_field k v m).*1 → x = k ∨ x ∈ m.*1.
Proof.
  induction m as [|[k' v'] m IH]; simpl.
  - rewrite elem_of_cons, elem_of_nil. tauto.
  - case_match; simpl; rewrite !elem_of_cons; try tauto; intros [->|?%IH]; tauto.
Qed.

Lemma set_field_sorted k v m : sorted_keys m → sorted_keys (set_field k v m).
Proof.
  unfold sorted_keys. induction m as [|[k' v'] m IH]; simpl; intros Hs.
  { repeat constructor. }
  apply StronglySorted_inv in Hs as [Hs Hall]. case_match eqn:Hc; simpl.
  - apply compare_eq in Hc as ->. by constructor.
  - constructor; [by constructor|]. constructor; [done|].
    eapply Forall_impl; [done|]. intros x. by apply key_lt_trans.
  - constructor; [by apply IH|]. apply Forall_forall. intros x [->|Hx]%set_field_keys.
    + by apply key_gt.
    + rewrite Forall_forall in Hall. auto.
Qed.

Lemma field_set_eq k v m : field k (set_field k v m) = Some v.
Proof.
  induction m as [|[k' v'] m IH]; simpl; [by rewrite bool_decide_true|].
  case_match eqn:Hc; simpl; try (by rewrite bool_decide_true).
  rewrite bool_decide_false; [done|]. intros ->. by rewrite compare_refl in Hc.
Qed.

Lemma field_set_ne k k' v m : k ≠ k' → field k (set_field k' v m) = field k m.
Proof.
  intros Hne. induction m as [|[k2 v2] m IH]; simpl; [by rewrite bool_decide_false|].
  case_match eqn:Hc; simpl.
  - apply compare_eq in Hc as ->. by rewrite !bool_decide_false.
  - by rewrite (bool_decide_false (k = k')).
  - by rewrite IH.
Qed.

(** Storing a largest key appends it. *)
Lemma set_field_last k v m :
  Forall (λ x, key_lt x k) m.*1 → set_field k v m = m ++ [(k, v)].
Proof.
  induction m as [|[k' v'] m IH]; simpl; intros Hall; [done|].
  apply Forall_cons in Hall as [Hk Hall]. unfold key_lt in Hk.
  by rewrite String.compare_antisym, Hk, IH.
Qed.

(** ** Values read back *)

(** What unmarshalling produces: valid strings, sorted maps, no [[]string]. *)
Fixpoint clean (v : value) : Prop :=
  match v with
  | VString s => valid_utf8 s
  | VArray l => foldr and True (map clean l)
  | VStrings _ => False
  | VMap m => sorted_keys m ∧ Forall valid_utf8 m.*1 ∧ foldr and True (map (λ kv, clean kv.2) m)
  | _ => True
  end.

Lemma any_obj l : any (JObj l) = let '(m, e) := members l [] in (VMap m, e).
Proof. reflexivity. Qed.

Lemma StronglySorted_app_lt l k r :
  StronglySorted key_lt (l ++ k :: r) → Forall (λ x, key_lt x k) l.
Proof.
  induction l as [|x l IH]; simpl; intros Hs; [constructor|].
  apply StronglySorted_inv in Hs as [Hs Hall]. constructor; [|by apply IH].
  rewrite Forall_forall in Hall. apply Hall, elem_of_app. right. left.
Qed.

Lemma members_sorted (m acc : fields) :
  sorted_keys (acc ++ m) → Forall valid_utf8 m.*1 →
  Forall (λ kv, any (to_json kv.2) = (kv.2, false)) m →
  members (map (λ kv, (sanitize kv.1, to_json kv.2)) m) acc = (acc ++ m, false).
Proof.
  revert acc. induction m as [|[k v] m IH]; intros acc Hs Hval Hany; simpl.
  { by rewrite (right_id_L [] (++)). }
  apply Forall_cons in Hval as [Hk Hval]. apply Forall_cons in Hany as [Hv Hany].
  simpl in Hv. rewrite Hv. rewrite Hk. unfold sorted_keys in Hs. rewrite fmap_app in Hs.
  rewrite set_field_last by (by eapply StronglySorted_app_lt).
  rewrite IH; [by rewrite <-(assoc_L (++))| |done|done].
  unfold sorted_keys. rewrite !fmap_app, <-(assoc_L (++)). done.
Qed.

Lemma any_to_json v : clean v → floats_ok v → any (to_json v) = (v, false).
Proof.
  induction v as [|b|f|s|l IH|l|m IH] using value_induction; intros Hc Hok; try done.
  - simpl in *. by rewrite ParseFloat_float_literal.
  - simpl in *. by rewrite Hc.
  - cbn [clean floats_ok] in *. rewrite foldr_and in Hc, Hok.
    assert (map any (map to_json l) = map (λ v, (v, false)) l) as Hm.
    { rewrite map_map. apply map_ext_in. intros v Hv%list_elem_of_In.
      rewrite Forall_forall in IH, Hc, Hok. auto. }
    cbn [to_json any]. rewrite Hm. f_equal.
    + f_equal. clear. induction l as [|v l IHl]; [done|]. cbn. f_equal. apply IHl.
    + clear. by induction l.
  - cbn [clean floats_ok] in *. destruct Hc as (Hs & Hval & Hc). rewrite foldr_and in Hc, Hok.
    cbn [to_json]. rewrite any_obj, (members_sorted m []); try done.
    apply Forall_forall. intros kv Hkv. rewrite Forall_forall in IH, Hc, Hok. auto.
Qed.

(** ** What parsing produces *)

Section json_ind.
Variable P : json → Prop.
Hypothesis Hnull : P JNull.
Hypothesis Hbool : ∀ b, P (JBool b).
Hypothesis Hnum : ∀ l, P (JNum l).
Hypothesis Hstr : ∀ s, P (JStr s).
Hypothesis Harr : ∀ l, Forall P l → P (JArr l).
Hypothesis Hobj : ∀ l, Forall (λ kj, P kj.2) l → P (JObj l).

Fixpoint json_induction (j : json) : P j :=
  match j with
  | JNull => Hnull
  | JBool b => Hbool b
  | JNum l => Hnum l
  | JStr s => Hstr s
  | JArr l =>
      Harr l ((fix go (l : list json) : Forall P l :=
                 match l with
                 | [] => @List.Forall_nil _ P
                 | j :: l => @List.Forall_cons _ P j l (json_induction j) (go l)
                 end) l)
  | JObj l =>
      Hobj l ((fix go (l : list (string * json)) : Forall (λ kj : string * json, P kj.2) l :=
                 match l with
                 | [] => @List.Forall_nil _ _
                 | kj :: l => @List.Forall_cons _ (λ kj, P kj.2) kj l (json_induction kj.2) (go l)
                 end) l)
  end.
End json_ind.

(** Strings are valid and the nesting is at most [d]. *)
Fixpoint json_ok (d : Z) (j : json) : Prop :=
  match j with
  | JStr s => valid_utf8 s
  | JArr l => 0 < d ∧ foldr and True (map (json_ok (d - 1)) l)
  | JObj l => 0 < d ∧ Forall valid_utf8 l.*1 ∧ foldr and True (map (λ kj, json_ok (d - 1) kj.2) l)
  | _ => True
  end.

Definition member_ok (d : Z) (kj : string * json) : Prop := valid_utf8 kj.1 ∧ json_ok d kj.2.

Lemma members_ok d l :
  Forall (member_ok d) l ↔ Forall valid_utf8 l.*1 ∧ foldr and True (map (λ kj, json_ok d kj.2) l).
Proof.
  rewrite foldr_and, Forall_fmap. unfold member_ok. rewrite <-Forall_and. done.
Qed.

(** The outcomes of the three mutually recursive parsers. *)
Definition parses_ok (fuel : nat) : Prop :=
  (∀ d s j r, parse_value fuel d s = Some (j, r) → json_ok d j)
  ∧ (∀ d s l r, parse_elements fuel d s = Some (l, r) → Forall (json_ok d) l)
  ∧ (∀ d s l r, parse_members fuel d s = Some (l, r) → Forall (member_ok d) l).

Lemma keyword_ok d s j r : keyword s = Some (j, r) → json_ok d j.
Proof. unfold keyword. intros Hk. repeat case_match; by simplify_eq. Qed.

Lemma parse_value_ok fuel d s j r :
  parses_ok fuel → parse_value (S fuel) d s = Some (j, r) → json_ok d j.
Proof.
  intros (_ & He & Hm). cbn [parse_value]. destruct (skip_ws s) as [|c t]; [done|].
  case_bool_decide.
  { destruct (Z.leb_spec d 0); [done|]. destruct (skip_ws t) as [|x u]; [done|].
    case_bool_decide; [intros [= <- <-]; by repeat split|].
    destruct (parse_members fuel (d - 1) _) as [[l r']|] eqn:Hp; [|done].
    intros [= <- <-]. apply Hm, members_ok in Hp. simpl. tauto. }
  case_bool_decide.
  { destruct (Z.leb_spec d 0); [done|]. destruct (skip_ws t) as [|x u]; [done|].
    case_bool_decide; [intros [= <- <-]; by repeat split|].
    destruct (parse_elements fuel (d - 1) _) as [[l r']|] eqn:Hp; [|done].
    intros [= <- <-]. apply He in Hp. simpl. by rewrite foldr_and. }
  case_bool_decide.
  { destruct (unquote t) as [[x r']|] eqn:Hu; [|done]. intros [= <- <-]. by eapply unquote_valid. }
  case_match.
  { destruct (scan_number _) as [[l r']|]; [|done]. by intros [= <- <-]. }
  apply keyword_ok.
Qed.

Lemma parse_ok fuel : parses_ok fuel.
Proof.
  induction fuel as [|fuel IH]; [by repeat split|].
  split; [by intros; eapply parse_value_ok|]. pose proof IH as (Hv & He & Hm). split.
  - intros d s l r. cbn [parse_elements].
    destruct (parse_value fuel d s) as [[j r1]|] eqn:Hp; [|done]. apply Hv in Hp.
    destruct (skip_ws r1) as [|c t]; [done|].
    case_bool_decide; [intros [= <- <-]; by repeat constructor|]. case_bool_decide; [|done].
    destruct (parse_elements fuel d t) as [[l' r2]|] eqn:Hp2; [|done]. intros [= <- <-].
    constructor; [done|]. by eapply He.
  - intros d s l r. cbn [parse_members]. destruct (skip_ws s) as [|q t]; [done|].
    destruct (negb _); [done|]. destruct (unquote t) as [[key r1]|] eqn:Hu; [|done].
    apply unquote_valid in Hu. destruct (skip_ws r1) as [|colon r2]; [done|].
    destruct (negb _); [done|]. destruct (parse_value fuel d r2) as [[j r3]|] eqn:Hp; [|done].
    apply Hv in Hp. destruct (skip_ws r3) as [|c t3]; [done|].
    case_bool_decide; [intros [= <- <-]; by repeat constructor|]. case_bool_decide; [|done].
    destruct (parse_members fuel d t3) as [[l' r4]|] eqn:Hp2; [|done]. intros [= <- <-].
    constructor; [done|]. by eapply Hm.
Qed.

Lemma parse_json_ok s j : parse s = Some j → json_ok maxNestingDepth j.
Proof.
  unfold parse. intros Hp. repeat case_match; simplify_eq. by eapply (parse_ok (parse_fuel s)).
Qed.

(** Entries of a map that unmarshalling built. *)
Definition fields_ok (h : Z) (m : fields) : Prop :=
  sorted_keys m ∧ Forall (λ kv, valid_utf8 kv.1 ∧ clean kv.2 ∧ height kv.2 <= h) m.

Lemma fields_ok_clean h m : 0 <= h → fields_ok h m → clean (VMap m) ∧ height (VMap m) <= 1 + h.
Proof.
  intros Hh [Hs Hall]. simpl. rewrite foldr_and, Forall_fmap. split; [split; [done|split]|].
  - eapply Forall_impl; [exact Hall|]. by intros ? (? & ? & ?).
  - eapply Forall_impl; [exact Hall|]. by intros ? (? & ? & ?).
  - clear Hs. induction Hall as [|kv m (_ & _ & Hle) Hall IH]; simpl in *; lia.
Qed.

Lemma fields_clean_ok m h : clean (VMap m) → height (VMap m) <= 1 + h → fields_ok h m.
Proof.
  intros (Hs & Hval & Hc) Hh. split; [done|]. rewrite foldr_and in Hc.
  rewrite Forall_fmap in Hval. rewrite !Forall_forall in *. intros kv Hkv.
  split; [by apply Hval|]. split; [by apply Hc|].
  pose proof (foldr_max_le (λ kv, height kv.2) m kv Hkv). simpl in *. lia.
Qed.

Lemma set_field_ok h k v m :
  valid_utf8 k → clean v → height v <= h → fields_ok h m → fields_ok h (set_field k v m).
Proof.
  intros Hk Hv Hh [Hs Hall]. split; [by apply set_field_sorted|]. clear Hs.
  induction Hall as [|[k' v'] m Hkv Hall IH]; simpl; [by repeat constructor|].
  case_match; repeat constructor; simpl in *; tauto || done || naive_solver.
Qed.

Lemma members_fields_ok h l m :
  Forall (λ kj : string * json, valid_utf8 kj.1 ∧ clean (any kj.2).1 ∧ height (any kj.2).1 <= h) l →
  fields_ok h m → fields_ok h (members l m).1.
Proof.
  intros Hall. revert m. induction Hall as [|[k j] l (Hk & Hc & Hh) Hall IH]; intros m Hm; [done|].
  cbn [members]. simpl in Hc, Hh. destruct (any j) as [v e]. simpl in *.
  specialize (IH (set_field k v m)). destruct (members l (set_field k v m)) as [m' e'].
  apply IH. by apply set_field_ok.
Qed.

Lemma any_clean d j : json_ok d j → clean (any j).1 ∧ height (any j).1 <= Z.max 0 d.
Proof.
  revert d. induction j as [|b|l|s|l IH|l IH] using json_induction; intros d Hj;
    try (simpl; split; [done|lia]).
  - simpl. destruct (ParseFloat l); simpl; (split; [done|lia]).
  - cbn [json_ok] in Hj. rewrite foldr_and in Hj. destruct Hj as [Hd Hall]. cbn. rewrite foldr_and.
    rewrite Forall_forall in IH, Hall.
    assert (Forall (λ v, clean v ∧ height v <= Z.max 0 (d - 1)) (map any l).*1) as Hv.
    { apply Forall_fmap, Forall_fmap, Forall_forall. intros j Hj. by apply IH, Hall. }
    split; [eapply Forall_impl; [exact Hv|]; by intros ? [? ?]|].
    induction Hv as [|v vs [_ Hle] _ IHv]; simpl in *; lia.
  - cbn [json_ok] in Hj. destruct Hj as (Hd & Hval & Hall). rewrite any_obj.
    rewrite foldr_and in Hall. rewrite Forall_fmap in Hval. rewrite !Forall_forall in *.
    pose proof (members_fields_ok (Z.max 0 (d - 1)) l []) as Hm.
    destruct (members l []) as [m e]. simpl in *.
    destruct (fields_ok_clean (Z.max 0 (d - 1)) m) as [Hc Hh]; [lia| |].
    { apply Hm; [|by repeat constructor]. apply Forall_forall. intros kj Hkj.
      split; [by apply Hval|]. by apply IH, Hall. }
    split; [done|]. simpl in Hh. lia.
Qed.

(** Whatever [json.Unmarshal] stores in a nil map is clean and not too deep. *)
Lemma unmarshal_fields_ok body m e :
  UnmarshalMap body None = (Some m, e) → fields_ok (maxNestingDepth - 1) m.
Proof.
  unfold UnmarshalMap. destruct (parse body) as [[]|] eqn:Hp; intros; simplify_eq.
  apply parse_json_ok in Hp as (_ & Hval & Hall).
  destruct (members l (default [] None)) as [m' e'] eqn:Hm. simplify_eq.
  change m with (m, e').1. rewrite <-Hm. apply members_fields_ok; [|by repeat constructor].
  rewrite foldr_and in Hall. rewrite Forall_fmap in Hval. rewrite !Forall_forall in *.
  intros kj Hkj. split; [by apply Hval|].
  apply (any_clean (maxNestingDepth - 1)). by apply Hall.
Qed.

(** Unmarshalling what was marshalled gives the map back. *)
Lemma unmarshal_marshal m :
  fields_ok (maxNestingDepth - 1) m → floats_ok (VMap m) →
  UnmarshalMap (print (VMap m)) None = (Some m, None).
Proof.
  intros Hm Hok. destruct (fields_ok_clean (maxNestingDepth - 1) m) as [Hc Hh]; [done..|].
  unfold UnmarshalMap. rewrite parse_print; [|done|simpl in *; lia].
  pose proof (any_to_json (VMap m) Hc Hok) as Ha. cbn [to_json] in *. rewrite any_obj in Ha.
  simpl default. destruct (members _ []) as [m' e]. by simplify_eq.
Qed.

Lemma floats_ok_supported v : floats_ok v → supported v = true.
Proof.
  induction v as [|b|f|s|l IH|l|m IH] using value_induction; simpl; intros Hok; try done.
  - apply bool_decide_eq_true. by destruct f.
  - rewrite foldr_and in Hok. apply forallb_forall. intros v Hv%list_elem_of_In.
    rewrite Forall_forall in IH, Hok. auto.
  - rewrite foldr_and in Hok. apply forallb_forall. intros v Hv%list_elem_of_In.
    rewrite Forall_forall in IH, Hok. auto.
Qed.

(** The floats of what was unmarshalled read back from their text, so that all of it
    can be marshalled and read again. *)
Lemma set_field_floats k v m :
  floats_ok v → floats_ok (VMap m) → floats_ok (VMap (set_field k v m)).
Proof.
  intros Hv. simpl. induction m as [|[k' v'] m IH]; simpl; [done|].
  intros [Hv' Hm]. case_match; simpl; auto.
Qed.

Lemma members_floats l m :
  Forall (λ kj : string * json, floats_ok (any kj.2).1) l →
  floats_ok (VMap m) → floats_ok (VMap (members l m).1).
Proof.
  intros Hall. revert m. induction Hall as [|[k j] l Hj Hall IH]; intros m Hm; [done|].
  cbn [members]. simpl in Hj. destruct (any j) as [v e]. simpl in Hj.
  specialize (IH (set_field k v m)). destruct (members l (set_field k v m)) as [m' e'].
  apply IH. by apply set_field_floats.
Qed.

Lemma any_floats j : floats_ok (any j).1.
Proof.
  induction j as [|b|l|s|l IH|l IH] using json_induction; try done.
  - simpl. destruct (ParseFloat l) as [f|] eqn:Hf; [|done]. by eapply ParseFloat_reads_back.
  - simpl. rewrite foldr_and. apply Forall_fmap, Forall_fmap. exact IH.
  - rewrite any_obj. pose proof (members_floats l [] IH I) as Hm. by destruct (members l []).
Qed.

Lemma unmarshal_floats body m e : UnmarshalMap body None = (Some m, e) → floats_ok (VMap m).
Proof.
  unfold UnmarshalMap. destruct (parse body) as [[]|]; intros; simplify_eq.
  destruct (members l (default [] None)) as [m' e'] eqn:Hm. simplify_eq.
  change m with (m, e').1. rewrite <-Hm. apply members_floats; [|done].
  apply Forall_forall. intros kj _. apply any_floats.
Qed.

Lemma unmarshal_supported body m e :
  UnmarshalMap body None = (Some m, e) → supported (VMap m) = true.
Proof. intros Hu. by eapply floats_ok_supported, unmarshal_floats. Qed.

(** ** Enough fuel

    Every part of the scanner consumes what it reads, so beyond twice the length of
    the text the result does not depend on the fuel: the parser never fails for lack
    of it. *)

Definition shorter {A} (s : string) (r : option (A * string)) : Prop :=
  match r with Some (_, rest) => (String.length rest < String.length s)%nat | None => True end.

Lemma skip_ws_length s : (String.length (skip_ws s) <= String.length s)%nat.
Proof. induction s as [|c s IH]; simpl; [done|]. case_match; simpl; lia. Qed.

Lemma shorter_prepend p s r : shorter s r → shorter s (prepend p r).
Proof. by destruct r as [[]|]. Qed.

Lemma shorter_mono {A} s t (r : option (A * string)) :
  (String.length t <= String.length s)%nat → shorter t r → shorter s r.
Proof. destruct r as [[]|]; simpl; lia. Qed.

Lemma unquote_shorter s : shorter s (unquote s).
Proof.
  assert (∀ n s, (String.length s <= n)%nat → shorter s (unquote s)) as H; [|by eapply H].
  clear s. induction n as [|n IH]; intros [|c s1] Hn; try done; simpl in Hn; [lia|].
  assert (∀ p t, (String.length t <= String.length s1)%nat →
                 shorter (String c s1) (prepend p (unquote t))) as Hrec.
  { intros p t Ht. apply shorter_prepend. apply (shorter_mono _ t); [simpl; lia|]. apply IH. lia. }
  cbn [unquote]. repeat case_match; try done; try (apply Hrec; simpl; lia); simpl; lia.
Qed.

Lemma take_digits_length s : (String.length (take_digits s).2 <= String.length s)%nat.
Proof.
  induction s as [|c s IH]; simpl; [done|]. destruct (is_digit c); [|simpl; lia].
  destruct (take_digits s) as [d r]. simpl in *. lia.
Qed.

Lemma digits1_shorter s : shorter s (digits1 s).
Proof.
  unfold digits1. destruct s as [|c s]; [done|]. simpl. destruct (is_digit c); [|done].
  pose proof (take_digits_length s). destruct (take_digits s) as [d r]. simpl in *. lia.
Qed.

Lemma scan_number_shorter s : shorter s (scan_number s).
Proof.
  unfold scan_number. destruct (scan_sign s) as [neg s0] eqn:Hs.
  assert (String.length s0 <= String.length s)%nat as H0.
  { unfold scan_sign in Hs. repeat case_match; simplify_eq; simpl; lia. }
  assert (shorter s0 (scan_int s0)) as H1.
  { unfold scan_int. destruct s0 as [|c s']; [done|]. case_bool_decide; [simpl; lia|].
    apply digits1_shorter. }
  destruct (scan_int s0) as [[i s1]|]; [|done].
  assert (∀ f s2, scan_frac s1 = Some (f, s2) → (String.length s2 <= String.length s1)%nat) as H2.
  { intros f s2. unfold scan_frac. destruct s1 as [|c s']; [by intros [= <- <-]|].
    case_bool_decide; [|by intros [= <- <-]]. pose proof (digits1_shorter s') as Hd. intros Hf.
    rewrite Hf in Hd. simpl in *. lia. }
  destruct (scan_frac s1) as [[f s2]|]; [|done]. specialize (H2 f s2 eq_refl).
  assert (∀ e s3, scan_exp s2 = Some (e, s3) → (String.length s3 <= String.length s2)%nat) as H3.
  { intros e s3. unfold scan_exp. destruct s2 as [|c s']; [by intros [= <- <-]|].
    case_match; [|by intros [= <- <-]]. destruct (scan_exp_sign s') as [n s''] eqn:Hsg.
    assert (String.length s'' <= String.length s')%nat.
    { unfold scan_exp_sign in Hsg. repeat case_match; simplify_eq; simpl; lia. }
    pose proof (digits1_shorter s'') as Hd. destruct (digits1 s'') as [[d r]|]; [|done].
    intros [= <- <-]. simpl in *. lia. }
  destruct (scan_exp s2) as [[e s3]|]; [|done]. specialize (H3 e s3 eq_refl). simpl in *. lia.
Qed.

Lemma str_drop_length n s : (String.length (str_drop n s) = String.length s - n)%nat.
Proof. revert s. induction n as [|n IH]; intros [|c s]; simpl; auto with lia. Qed.

Lemma keyword_shorter s : shorter s (keyword s).
Proof.
  unfold keyword. destruct s as [|c s]; [done|].
  repeat case_match; try done; unfold shorter; rewrite str_drop_length; simpl; lia.
Qed.

(** The three parsers on a given fuel. *)
Definition parses_shorter (fuel : nat) : Prop :=
  (∀ d s, shorter s (parse_value fuel d s)) ∧ (∀ d s, shorter s (parse_elements fuel d s))
  ∧ (∀ d s, shorter s (parse_members fuel d s)).

Lemma skip_ws_cons s c t : skip_ws s = String c t → (S (String.length t) <= String.length s)%nat.
Proof. intros Hs. pose proof (skip_ws_length s) as Hl. by rewrite Hs in Hl. Qed.

Lemma parse_shorter fuel : parses_shorter fuel.
Proof.
  induction fuel as [|fuel (Hv & He & Hm)]; [by repeat split|]. split; [|split]; intros d s.
  - cbn [parse_value]. destruct (skip_ws s) as [|c t] eqn:Hs; [done|]. apply skip_ws_cons in Hs.
    case_bool_decide.
    { case_match; [done|]. destruct (skip_ws t) as [|x u] eqn:Ht; [done|]. apply skip_ws_cons in Ht.
      case_bool_decide; [simpl; lia|]. specialize (Hm (d - 1) (String x u)).
      destruct (parse_members _ _ _) as [[]|]; simpl in *; lia. }
    case_bool_decide.
    { case_match; [done|]. destruct (skip_ws t) as [|x u] eqn:Ht; [done|]. apply skip_ws_cons in Ht.
      case_bool_decide; [simpl; lia|]. specialize (He (d - 1) (String x u)).
      destruct (parse_elements _ _ _) as [[]|]; simpl in *; lia. }
    case_bool_decide.
    { pose proof (unquote_shorter t). destruct (unquote t) as [[]|]; simpl in *; lia. }
    case_match.
    { pose proof (scan_number_shorter (String c t)).
      destruct (scan_number (String c t)) as [[]|]; simpl in *; lia. }
    apply (shorter_mono _ (String c t)); [simpl; lia|apply keyword_shorter].
  - cbn [parse_elements]. specialize (Hv d s). destruct (parse_value fuel d s) as [[j r]|]; [|done].
    destruct (skip_ws r) as [|c t] eqn:Hr; [done|]. apply skip_ws_cons in Hr. simpl in Hv.
    case_bool_decide; [simpl; lia|]. case_bool_decide; [|done]. specialize (He d t).
    destruct (parse_elements fuel d t) as [[]|]; simpl in *; lia.
  - cbn [parse_members]. destruct (skip_ws s) as [|q t] eqn:Hs; [done|]. apply skip_ws_cons in Hs.
    case_match; [done|]. pose proof (unquote_shorter t) as Hu.
    destruct (unquote t) as [[k r]|]; [|done]. destruct (skip_ws r) as [|c r1] eqn:Hr; [done|].
    apply skip_ws_cons in Hr. simpl in Hu. case_match; [done|]. specialize (Hv d r1).
    destruct (parse_value fuel d r1) as [[j r2]|]; [|done]. simpl in Hv.
    destruct (skip_ws r2) as [|e r3] eqn:Hr2; [done|]. apply skip_ws_cons in Hr2.
    destruct (bool_decide (e = "}"%char)); [simpl; lia|].
    destruct (bool_decide (e = ","%char)); [|done]. specialize (Hm d r3).
    destruct (parse_members fuel d r3) as [[]|]; simpl in *; lia.
Qed.

(** Beyond the length of its text a parser gives the same result on more fuel. *)
Definition fuel_irrelevant (fuel : nat) : Prop := ∀ fuel' d s,
  ((2 * String.length s + 1 <= fuel)%nat → (fuel <= fuel')%nat →
     parse_value fuel' d s = parse_value fuel d s)
  ∧ ((2 * String.length s + 2 <= fuel)%nat → (fuel <= fuel')%nat →
     parse_elements fuel' d s = parse_elements fuel d s
     ∧ parse_members fuel' d s = parse_members fuel d s).

Lemma parse_fuel_step fuel : fuel_irrelevant fuel → fuel_irrelevant (S fuel).
Proof.
  intros IH [|fuel'] d s; [split; intros; lia|]. split; intros Hl Hf; [|split].
  - cbn [parse_value]. destruct (skip_ws s) as [|c t] eqn:Hs; [done|]. apply skip_ws_cons in Hs.
    destruct (skip_ws t) as [|x u] eqn:Ht; [done|]. apply skip_ws_cons in Ht.
    destruct (IH fuel' (d - 1) (String x u)) as [_ [He Hm]]; [simpl; lia|lia|]. by rewrite He, Hm.
  - cbn [parse_elements]. destruct (IH fuel' d s) as [Hv _]. rewrite Hv by lia.
    destruct (parse_shorter fuel) as (Hsh & _). specialize (Hsh d s).
    destruct (parse_value fuel d s) as [[j r]|]; [|done].
    destruct (skip_ws r) as [|c t] eqn:Hr; [done|]. apply skip_ws_cons in Hr. simpl in Hsh.
    destruct (IH fuel' d t) as [_ [He _]]; [lia|lia|]. by rewrite He.
  - cbn [parse_members].
    destruct (skip_ws s) as [|q t] eqn:Hs; [done|]. apply skip_ws_cons in Hs.
    case_match; [done|]. pose proof (unquote_shorter t) as Hu.
    destruct (unquote t) as [[k r]|]; [|done]. destruct (skip_ws r) as [|c r1] eqn:Hr; [done|].
    apply skip_ws_cons in Hr. simpl in Hu. case_match; [done|].
    destruct (IH fuel' d r1) as [Hv _]. rewrite Hv by lia.
    destruct (parse_shorter fuel) as (Hsh & _). specialize (Hsh d r1).
    destruct (parse_value fuel d r1) as [[j r2]|]; [|done]. simpl in Hsh.
    destruct (skip_ws r2) as [|e r3] eqn:Hr2; [done|]. apply skip_ws_cons in Hr2.
    destruct (IH fuel' d r3) as [_ [_ Hm]]; [lia|lia|]. by rewrite Hm.
Qed.

Lemma parse_fuel_irrelevant fuel : fuel_irrelevant fuel.
Proof.
  induction fuel as [|fuel IH]; [intros fuel' d s; split; intros; lia|]. by apply parse_fuel_step.
Qed.

(** [parse] is what every larger fuel gives: a text is rejected by the grammar only. *)
Lemma parse_any_fuel s fuel :
  (parse_fuel s <= fuel)%nat →
  parse s = match parse_value fuel maxNestingDepth s with
            | Some (j, r) => match skip_ws r with EmptyString => Some j | _ => None end
            | None => None
            end.
Proof.
  intros Hf. unfold parse. unfold parse_fuel in *.
  destruct (parse_fuel_irrelevant (2 * String.length s + 2) fuel maxNestingDepth s)
    as [Heq _]. by rewrite Heq by lia.
Qed.
