(* ===== verification/Api.v ===== *)
(** * api/v1alpha2: the InferencePool and InferenceModel resources

    The records keep the fields the controllers, the datastore and the handlers
    read; the resource status and the kubebuilder markers (validation that the
    API server runs) are not part of the program's behaviour.  The validation the
    CRD markers ask for is stated as predicates, so that a theorem can say
    precisely which of it the code relies on. *)

From S2P Require Import Prelude GoInt.

Local Open Scope Z_scope.

(** [metav1.Time]: nanoseconds since the zero time, so [IsZero] is [t = 0]. *)
Definition Time : Type := Z.

Definition Time_IsZero (t : Time) : bool := t =? 0.

(** [(t *Time) IsZero()] on a possibly nil pointer. *)
Definition Time_ptr_IsZero (t : option Time) : bool :=
  match t with None => true | Some t => Time_IsZero t end.

(** [(t *Time) Before(u *Time)] on two non-nil pointers. *)
Definition Time_Before (t u : Time) : bool := t <? u.

(** [types.NamespacedName]. *)
Record NamespacedName := mkNamespacedName {
  nn_Namespace : string;
  nn_Name : string
}.

Global Instance NamespacedName_eq_dec : EqDecision NamespacedName.
Proof. solve_decision. Defined.

Global Program Instance NamespacedName_countable : Countable NamespacedName :=
  inj_countable' (λ n, (nn_Namespace n, nn_Name n))
                 (λ p, mkNamespacedName p.1 p.2) _.
Next Obligation. by intros []. Qed.

(** [NamespacedName.String()]: "namespace/name". *)
Definition NamespacedName_String (n : NamespacedName) : string :=
  nn_Namespace n +:+ "/" +:+ nn_Name n.

(** The fields of [metav1.ObjectMeta] the program reads. *)
Record ObjectMeta := mkObjectMeta {
  om_Name : string;
  om_Namespace : string;
  om_Labels : gmap string string;
  om_CreationTimestamp : Time;
  om_DeletionTimestamp : option Time
}.

Definition om_key (m : ObjectMeta) : NamespacedName :=
  mkNamespacedName (om_Namespace m) (om_Name m).

(** ** InferenceModel *)

Definition Criticality : Type := string.
Definition Critical : Criticality := "Critical".
Definition Standard : Criticality := "Standard".
Definition Sheddable : Criticality := "Sheddable".

Record TargetModel := mkTargetModel {
  tm_Name : string;
  tm_Weight : option Z
}.

Record PoolObjectReference := mkPoolObjectReference {
  por_Group : string;
  por_Kind : string;
  por_Name : string
}.

Record InferenceModelSpec := mkInferenceModelSpec {
  ModelName : string;
  im_Criticality : option Criticality;
  TargetModels : list TargetModel;
  PoolRef : PoolObjectReference
}.

Record InferenceModel := mkInferenceModel {
  im_ObjectMeta : ObjectMeta;
  im_Spec : InferenceModelSpec
}.

(** The object's key, which the reconciler's requests carry. *)
Definition im_key (m : InferenceModel) : NamespacedName := om_key (im_ObjectMeta m).
Definition im_ModelName (m : InferenceModel) : string := ModelName (im_Spec m).
Definition im_created (m : InferenceModel) : Time := om_CreationTimestamp (im_ObjectMeta m).

(** CRD validation of [TargetModels]: all weights are set or none is, each in
    1..1000000, at most ten entries. *)
Definition weights_all_or_none (tms : list TargetModel) : Prop :=
  Forall (λ t, is_Some (tm_Weight t)) tms ∨ Forall (λ t, tm_Weight t = None) tms.

Definition weight_in_bounds (t : TargetModel) : Prop :=
  match tm_Weight t with None => True | Some w => 1 <= w <= 1000000 end.

Definition valid_target_models (tms : list TargetModel) : Prop :=
  weights_all_or_none tms ∧ Forall weight_in_bounds tms ∧ (length tms <= 10)%nat.

(** ** InferencePool *)

Definition LabelKey : Type := string.
Definition LabelValue : Type := string.
Definition Group : Type := string.
Definition Kind : Type := string.
Definition ObjectName : Type := string.
Definition PortNumber : Type := Z.

Inductive ExtensionFailureMode := FailOpen | FailClose.

Record ExtensionReference := mkExtensionReference {
  er_Group : option Group;
  er_Kind : option Kind;
  er_Name : ObjectName;
  er_PortNumber : option PortNumber
}.

Record ExtensionConnection := mkExtensionConnection {
  FailureMode : option ExtensionFailureMode
}.

Record Extension := mkExtension {
  ext_Reference : ExtensionReference;
  ext_Connection : ExtensionConnection
}.

Record EndpointPickerConfig := mkEndpointPickerConfig {
  ExtensionRef : option Extension
}.

(** The selector is a Go map, nil or not. *)
Record InferencePoolSpec := mkInferencePoolSpec {
  ips_Selector : option (gmap LabelKey LabelValue);
  TargetPortNumber : Z;
  ip_EndpointPickerConfig : EndpointPickerConfig
}.

(** What a program reads in the selector: a nil map reads as an empty one. *)
Definition Selector (s : InferencePoolSpec) : gmap LabelKey LabelValue := default ∅ (ips_Selector s).

Record InferencePool := mkInferencePool {
  ip_ObjectMeta : ObjectMeta;
  ip_Spec : InferencePoolSpec
}.

Definition ip_Name (p : InferencePool) : string := om_Name (ip_ObjectMeta p).
Definition ip_Namespace (p : InferencePool) : string := om_Namespace (ip_ObjectMeta p).

(** ** The part of corev1.Pod the controllers read *)

Record PodCondition := mkPodCondition {
  pc_Type : string;
  pc_Status : string
}.

Definition PodReady : string := "Ready".
Definition ConditionTrue : string := "True".

Record CorePod := mkCorePod {
  pod_ObjectMeta : ObjectMeta;
  pod_PodIP : string;
  pod_Conditions : list PodCondition
}.

Definition pod_key (p : CorePod) : NamespacedName := om_key (pod_ObjectMeta p).

(** ** Conditions *)

Definition InferenceModelConditionType : Type := string.
Definition InferenceModelConditionReason : Type := string.

Definition ModelConditionAccepted : InferenceModelConditionType := "Accepted".
Definition ModelReasonAccepted : InferenceModelConditionReason := "Accepted".
Definition ModelReasonNameInUse : InferenceModelConditionReason := "ModelNameInUse".
Definition ModelReasonPending : InferenceModelConditionReason := "Pending".

Definition InferencePoolConditionType : Type := string.
Definition InferencePoolReason : Type := string.

Definition InferencePoolConditionAccepted : InferencePoolConditionType := "Accepted".
Definition InferencePoolReasonAccepted : InferencePoolReason := "Accepted".
Definition InferencePoolReasonNotSupportedByGateway : InferencePoolReason := "NotSupportedByGateway".
Definition InferencePoolReasonPending : InferencePoolReason := "Pending".
Definition InferencePoolConditionResolvedRefs : InferencePoolConditionType := "ResolvedRefs".
Definition InferencePoolReasonResolvedRefs : InferencePoolReason := "ResolvedRefs".
Definition InferencePoolReasonInvalidExtensionRef : InferencePoolReason := "InvalidExtensionRef".

(** The condition the API server fills in: type, status, reason, message. *)
Record default_condition := mkDefaultCondition {
  dc_type : string;
  dc_status : string;
  dc_reason : string;
  dc_message : string
}.

Definition model_default_condition : default_condition :=
  mkDefaultCondition "Ready" "Unknown" "Pending" "Waiting for controller".
Definition pool_default_condition : default_condition :=
  mkDefaultCondition "Accepted" "Unknown" "Pending" "Waiting for controller".

(** A pool starts with a known condition type, a model does not. *)
Lemma default_condition_types :
  dc_type pool_default_condition = InferencePoolConditionAccepted
  ∧ dc_type model_default_condition ≠ ModelConditionAccepted
  ∧ dc_reason pool_default_condition = InferencePoolReasonPending
  ∧ dc_reason model_default_condition = ModelReasonPending.
Proof. done. Qed.

(** ** Registration (zz_generated.register.go) *)

Definition GroupName : string := "inference.networking.x-k8s.io".

(** [GroupVersion] and [SchemeGroupVersion]: group and version. *)
Definition GroupVersion : string * string := (GroupName, "v1alpha2").
Definition SchemeGroupVersion : string * string := (GroupName, "v1alpha2").

(** [Resource]: group and resource. *)
Definition Resource (resource : string) : string * string := (SchemeGroupVersion.1, resource).

(** [addKnownTypes]: the types registered under a group and version.  The second call,
    of the meta package, adds types of its own. *)
Definition addKnownTypes (add_to_group_version : list ((string * string) * string))
    (scheme : list ((string * string) * string)) : list ((string * string) * string) :=
  scheme ++ (pair SchemeGroupVersion <$>
    ["InferenceModel"; "InferenceModelList"; "InferencePool"; "InferencePoolList"])
  ++ add_to_group_version.
