(* ===== verification/Objects.v ===== *)
(** * api/v1alpha2 as Go holds it in memory

    The resources with their pointers, slices and maps as references into a heap.  Each
    struct is a record over a constructor [ref]: at [hp] a reference is nil or an address,
    at [option] it is the referenced value itself, so that the same record
    describes an object in the heap and the tree of values it stands for.  [Readable]
    says which tree that is and which addresses it takes to read it. *)

From S2P Require Import Prelude GoInt Api.

(** ** Heap and references *)

Definition loc : Type := positive.

(** A pointer, slice or map: nil, or the address of what it refers to. *)
Inductive hp (A : Type) : Type :=
  | Nil
  | Addr (l : loc).
Arguments Nil {A}.
Arguments Addr {A} l.

(** ** The structs *)

(** What the repository takes from apimachinery and does not look into: [ObjectMeta],
    [ListMeta] and [Condition] hold references of their own, to cells of type [kube_cell];
    [corev1.ObjectReference] holds none. *)
Class KubeTypes := {
  ObjectMetaT : (Type → Type) → Type;
  ListMetaT : (Type → Type) → Type;
  ConditionT : (Type → Type) → Type;
  ObjectReference : Type;
  kube_cell : Type
}.

Record TypeMeta := mkTypeMeta {
  tym_Kind : string;
  tym_APIVersion : string
}.

Local Set Implicit Arguments.
Local Unset Strict Implicit.

Section structs.
Context `{KubeTypes} (ref : Type → Type).

Record TargetModel := mkTargetModel {
  TargetModel_Name : string;
  TargetModel_Weight : ref Z
}.

Record PoolObjectReference := mkPoolObjectReference {
  PoolObjectReference_Group : Group;
  PoolObjectReference_Kind : Kind;
  PoolObjectReference_Name : ObjectName
}.

Record InferenceModelSpec := mkInferenceModelSpec {
  InferenceModelSpec_ModelName : string;
  InferenceModelSpec_Criticality : ref Criticality;
  InferenceModelSpec_TargetModels : ref (list TargetModel);
  InferenceModelSpec_PoolRef : PoolObjectReference
}.

Record InferenceModelStatus := mkInferenceModelStatus {
  InferenceModelStatus_Conditions : ref (list (ConditionT ref))
}.

Record InferenceModel := mkInferenceModel {
  InferenceModel_TypeMeta : TypeMeta;
  InferenceModel_ObjectMeta : ObjectMetaT ref;
  InferenceModel_Spec : InferenceModelSpec;
  InferenceModel_Status : InferenceModelStatus
}.

Record InferenceModelList := mkInferenceModelList {
  InferenceModelList_TypeMeta : TypeMeta;
  InferenceModelList_ListMeta : ListMetaT ref;
  InferenceModelList_Items : ref (list InferenceModel)
}.

Record ExtensionReference := mkExtensionReference {
  ExtensionReference_Group : ref Group;
  ExtensionReference_Kind : ref Kind;
  ExtensionReference_Name : ObjectName;
  ExtensionReference_PortNumber : ref PortNumber
}.

(** [ExtensionFailureMode] is a string type. *)
Record ExtensionConnection := mkExtensionConnection {
  ExtensionConnection_FailureMode : ref string
}.

Record Extension := mkExtension {
  Extension_ExtensionReference : ExtensionReference;
  Extension_ExtensionConnection : ExtensionConnection
}.

Record EndpointPickerConfig := mkEndpointPickerConfig {
  EndpointPickerConfig_ExtensionRef : ref Extension
}.

Record InferencePoolSpec := mkInferencePoolSpec {
  InferencePoolSpec_Selector : ref (gmap LabelKey LabelValue);
  InferencePoolSpec_TargetPortNumber : Z;
  InferencePoolSpec_EndpointPickerConfig : EndpointPickerConfig
}.

Record PoolStatus := mkPoolStatus {
  PoolStatus_GatewayRef : ObjectReference;
  PoolStatus_Conditions : ref (list (ConditionT ref))
}.

Record InferencePoolStatus := mkInferencePoolStatus {
  InferencePoolStatus_Parents : ref (list PoolStatus)
}.

Record InferencePool := mkInferencePool {
  InferencePool_TypeMeta : TypeMeta;
  InferencePool_ObjectMeta : ObjectMetaT ref;
  InferencePool_Spec : InferencePoolSpec;
  InferencePool_Status : InferencePoolStatus
}.

Record InferencePoolList := mkInferencePoolList {
  InferencePoolList_TypeMeta : TypeMeta;
  InferencePoolList_ListMeta : ListMetaT ref;
  InferencePoolList_Items : ref (list InferencePool)
}.
End structs.

Local Unset Implicit Arguments.
Local Set Strict Implicit.

(** ** What an address can hold *)

Inductive cell `{KubeTypes} : Type :=
  | CString (a : string)
  | CInt (a : Z)
  | CSelector (a : gmap LabelKey LabelValue)
  | CTargetModels (a : list (TargetModel hp))
  | CConditions (a : list (ConditionT hp))
  | CParents (a : list (PoolStatus hp))
  | CModels (a : list (InferenceModel hp))
  | CPools (a : list (InferencePool hp))
  | CTargetModel (a : TargetModel hp)
  | CInferenceModelSpec (a : InferenceModelSpec hp)
  | CInferenceModelStatus (a : InferenceModelStatus hp)
  | CInferenceModel (a : InferenceModel hp)
  | CInferenceModelList (a : InferenceModelList hp)
  | CExtensionReference (a : ExtensionReference hp)
  | CExtensionConnection (a : ExtensionConnection hp)
  | CExtension (a : Extension hp)
  | CEndpointPickerConfig (a : EndpointPickerConfig hp)
  | CInferencePoolSpec (a : InferencePoolSpec hp)
  | CPoolStatus (a : PoolStatus hp)
  | CInferencePoolStatus (a : InferencePoolStatus hp)
  | CInferencePool (a : InferencePool hp)
  | CInferencePoolList (a : InferencePoolList hp)
  | CPoolObjectReference (a : PoolObjectReference)
  | CKube (a : kube_cell).

(** Values that are stored in cells of their own. *)
Class Stored `{KubeTypes} (A : Type) := {
  inj : A → cell;
  prj : cell → option A;
  prj_inj : ∀ a, prj (inj a) = Some a
}.

Section stored.
Context `{KubeTypes}.

#[global] Instance stored_String : Stored (string) :=
  {| inj := CString; prj := λ c, match c with CString a => Some a | _ => None end; prj_inj := λ a, eq_refl |}.
#[global] Instance stored_Int : Stored (Z) :=
  {| inj := CInt; prj := λ c, match c with CInt a => Some a | _ => None end; prj_inj := λ a, eq_refl |}.
#[global] Instance stored_Selector : Stored (gmap LabelKey LabelValue) :=
  {| inj := CSelector; prj := λ c, match c with CSelector a => Some a | _ => None end; prj_inj := λ a, eq_refl |}.
#[global] Instance stored_TargetModels : Stored (list (TargetModel hp)) :=
  {| inj := CTargetModels; prj := λ c, match c with CTargetModels a => Some a | _ => None end; prj_inj := λ a, eq_refl |}.
#[global] Instance stored_Conditions : Stored (list (ConditionT hp)) :=
  {| inj := CConditions; prj := λ c, match c with CConditions a => Some a | _ => None end; prj_inj := λ a, eq_refl |}.
#[global] Instance stored_Parents : Stored (list (PoolStatus hp)) :=
  {| inj := CParents; prj := λ c, match c with CParents a => Some a | _ => None end; prj_inj := λ a, eq_refl |}.
#[global] Instance stored_Models : Stored (list (InferenceModel hp)) :=
  {| inj := CModels; prj := λ c, match c with CModels a => Some a | _ => None end; prj_inj := λ a, eq_refl |}.
#[global] Instance stored_Pools : Stored (list (InferencePool hp)) :=
  {| inj := CPools; prj := λ c, match c with CPools a => Some a | _ => None end; prj_inj := λ a, eq_refl |}.
#[global] Instance stored_TargetModel : Stored (TargetModel hp) :=
  {| inj := CTargetModel; prj := λ c, match c with CTargetModel a => Some a | _ => None end; prj_inj := λ a, eq_refl |}.
#[global] Instance stored_InferenceModelSpec : Stored (InferenceModelSpec hp) :=
  {| inj := CInferenceModelSpec; prj := λ c, match c with CInferenceModelSpec a => Some a | _ => None end; prj_inj := λ a, eq_refl |}.
#[global] Instance stored_InferenceModelStatus : Stored (InferenceModelStatus hp) :=
  {| inj := CInferenceModelStatus; prj := λ c, match c with CInferenceModelStatus a => Some a | _ => None end; prj_inj := λ a, eq_refl |}.
#[global] Instance stored_InferenceModel : Stored (InferenceModel hp) :=
  {| inj := CInferenceModel; prj := λ c, match c with CInferenceModel a => Some a | _ => None end; prj_inj := λ a, eq_refl |}.
#[global] Instance stored_InferenceModelList : Stored (InferenceModelList hp) :=
  {| inj := CInferenceModelList; prj := λ c, match c with CInferenceModelList a => Some a | _ => None end; prj_inj := λ a, eq_refl |}.
#[global] Instance stored_ExtensionReference : Stored (ExtensionReference hp) :=
  {| inj := CExtensionReference; prj := λ c, match c with CExtensionReference a => Some a | _ => None end; prj_inj := λ a, eq_refl |}.
#[global] Instance stored_ExtensionConnection : Stored (ExtensionConnection hp) :=
  {| inj := CExtensionConnection; prj := λ c, match c with CExtensionConnection a => Some a | _ => None end; prj_inj := λ a, eq_refl |}.
#[global] Instance stored_Extension : Stored (Extension hp) :=
  {| inj := CExtension; prj := λ c, match c with CExtension a => Some a | _ => None end; prj_inj := λ a, eq_refl |}.
#[global] Instance stored_EndpointPickerConfig : Stored (EndpointPickerConfig hp) :=
  {| inj := CEndpointPickerConfig; prj := λ c, match c with CEndpointPickerConfig a => Some a | _ => None end; prj_inj := λ a, eq_refl |}.
#[global] Instance stored_InferencePoolSpec : Stored (InferencePoolSpec hp) :=
  {| inj := CInferencePoolSpec; prj := λ c, match c with CInferencePoolSpec a => Some a | _ => None end; prj_inj := λ a, eq_refl |}.
#[global] Instance stored_PoolStatus : Stored (PoolStatus hp) :=
  {| inj := CPoolStatus; prj := λ c, match c with CPoolStatus a => Some a | _ => None end; prj_inj := λ a, eq_refl |}.
#[global] Instance stored_InferencePoolStatus : Stored (InferencePoolStatus hp) :=
  {| inj := CInferencePoolStatus; prj := λ c, match c with CInferencePoolStatus a => Some a | _ => None end; prj_inj := λ a, eq_refl |}.
#[global] Instance stored_InferencePool : Stored (InferencePool hp) :=
  {| inj := CInferencePool; prj := λ c, match c with CInferencePool a => Some a | _ => None end; prj_inj := λ a, eq_refl |}.
#[global] Instance stored_InferencePoolList : Stored (InferencePoolList hp) :=
  {| inj := CInferencePoolList; prj := λ c, match c with CInferencePoolList a => Some a | _ => None end; prj_inj := λ a, eq_refl |}.
#[global] Instance stored_PoolObjectReference : Stored (PoolObjectReference) :=
  {| inj := CPoolObjectReference; prj := λ c, match c with CPoolObjectReference a => Some a | _ => None end; prj_inj := λ a, eq_refl |}.
#[global] Instance stored_Kube : Stored (kube_cell) :=
  {| inj := CKube; prj := λ c, match c with CKube a => Some a | _ => None end; prj_inj := λ a, eq_refl |}.
End stored.

Abbreviation heap := (gmap loc cell).

(** ** Reading an object

    [read h a] is the tree of values the heap value [a] stands for, when all its
    references lead to cells of the right type; [foot h a] are the addresses visited. *)
Class Readable `{KubeTypes} (A V : Type) := {
  read : heap → A → option V;
  foot : heap → A → gset loc;
  read_closed : ∀ h a v, read h a = Some v → foot h a ⊆ dom h;
  read_local : ∀ h h' a v, read h a = Some v → (∀ l, l ∈ foot h a → h' !! l = h !! l) →
    read h' a = Some v ∧ foot h' a = foot h a
}.

Section readable.
Context `{KubeTypes}.

(** Values without references. *)
Program Definition readable_plain (A : Type) : Readable A A :=
  {| read := λ _ a, Some a; foot := λ _ _, ∅ |}.
Next Obligation. set_solver. Qed.
Next Obligation. done. Qed.

#[global] Instance readable_string : Readable string string := readable_plain string.
#[global] Instance readable_int : Readable Z Z := readable_plain Z.
#[global] Instance readable_selector :
  Readable (gmap LabelKey LabelValue) (gmap LabelKey LabelValue) := readable_plain _.
#[global] Instance readable_TypeMeta : Readable TypeMeta TypeMeta := readable_plain _.
#[global] Instance readable_PoolObjectReference :
  Readable PoolObjectReference PoolObjectReference := readable_plain _.
#[global] Instance readable_ObjectReference :
  Readable ObjectReference ObjectReference := readable_plain _.

#[global] Program Instance readable_pair {A B V W} `{!Readable A V, !Readable B W} :
  Readable (A * B) (V * W) := {|
    read := λ h p, v ← read h p.1; w ← read h p.2; Some (v, w);
    foot := λ h p, foot h p.1 ∪ foot h p.2
  |}.
Next Obligation.
  intros A B V W ? ? h [a b] v Hr. simpl in *. simplify_option_eq.
  repeat match goal with Hr : read _ _ = Some _ |- _ => apply read_closed in Hr end. set_solver.
Qed.
Next Obligation.
  intros A B V W ? ? h h' [a b] v Hr Hl. simpl in *.
  destruct (read h a) as [va|] eqn:Ha; [|done]. destruct (read h b) as [vb|] eqn:Hb; [|done].
  destruct (read_local h h' a va Ha) as [-> ->]; [set_solver|].
  destruct (read_local h h' b vb Hb) as [-> ->]; [set_solver|]. done.
Qed.

#[global] Program Instance readable_list {A V} `{!Readable A V} : Readable (list A) (list V) := {|
    read := λ h l, mapM (read h) l;
    foot := λ h l, ⋃ (foot h <$> l)
  |}.
Next Obligation.
  intros A V ? h l v Hr%mapM_Some. induction Hr as [|a v l vs Ha _ IH]; simpl; [set_solver|].
  apply read_closed in Ha. set_solver.
Qed.
Next Obligation.
  intros A V ? h h' l v Hr%mapM_Some Hl. rewrite mapM_Some.
  induction Hr as [|a v l vs Ha _ IH]; simpl in *; [split; [constructor|done]|].
  destruct (read_local h h' a v Ha) as [Ha' ->]; [set_solver|].
  destruct IH as [Hl' Hf]; [set_solver|]. split; [by constructor|]. f_equal. exact Hf.
Qed.

#[global] Program Instance readable_hp {A V} `{!Stored A, !Readable A V} :
  Readable (hp A) (option V) := {|
    read := λ h p,
      match p with
      | Nil => Some None
      | Addr l => a ← (h !! l ≫= prj : option A); v ← read h a; Some (Some v)
      end;
    foot := λ h p,
      match p with
      | Nil => ∅
      | Addr l =>
          match (h !! l ≫= prj : option A) with
          | Some a => {[l]} ∪ foot h a
          | None => ∅
          end
      end
  |}.
Next Obligation.
  intros A V ? ? h [|l] v Hr; simpl in *; [set_solver|].
  destruct (h !! l) as [c|] eqn:Hc; [|done]. simpl in *.
  destruct (prj c) as [a|]; [|done]. simpl in *.
  destruct (read h a) as [va|] eqn:Ha; [|done]. apply read_closed in Ha.
  apply elem_of_dom_2 in Hc. set_solver.
Qed.
Next Obligation.
  intros A V ? ? h h' [|l] v Hr Hl; simpl in *; [done|].
  destruct (h !! l) as [c|] eqn:Hc; [|done]. simpl in *.
  destruct (prj c) as [a|] eqn:Hp; [|done]. simpl in *.
  destruct (read h a) as [va|] eqn:Ha; [|done].
  rewrite (Hl l), Hc by set_solver. simpl. rewrite Hp. simpl.
  destruct (read_local h h' a va Ha) as [-> ->]; [set_solver|]. done.
Qed.

(** A struct is read as the tuple of its fields. *)
Program Definition readable_as {A B V W} `{!Readable B W} (fields : A → B) (make : W → V) :
  Readable A V := {|
    read := λ h a, make <$> read h (fields a);
    foot := λ h a, foot h (fields a)
  |}.
Next Obligation. intros * Hr. simpl in *. simplify_option_eq. by eapply read_closed. Qed.
Next Obligation.
  intros A B V W ? fields make h h' a v Hr Hl. simpl in *.
  destruct (read h (fields a)) as [w|] eqn:Hw; [|done].
  by destruct (read_local h h' _ w Hw Hl) as [-> ->].
Qed.

(** A heap that keeps what was there reads the same. *)
Lemma read_mono {A V} `{!Readable A V} h h' (a : A) (v : V) :
  read h a = Some v → h ⊆ h' → read h' a = Some v ∧ foot h' a = foot h a.
Proof.
  intros Hr Hsub. apply read_local; [done|]. intros l Hl.
  apply (read_closed h a v Hr), elem_of_dom in Hl as [c Hc]. rewrite Hc.
  by eapply lookup_weaken.
Qed.
End readable.
