(* ===== verification/DeepCopy.v ===== *)
(** * Deep copies (api/v1alpha2/zz_generated.deepcopy.go)

    Every DeepCopyInto, DeepCopy and DeepCopyObject, on the heap of [Objects].  A
    DeepCopyInto is given the struct its receiver points to and returns what it leaves in
    the struct [out] points to; arrays and structs are filled before they get their
    address, which nothing can observe.

    [Copies] is what a copying function promises: the copy reads as the same tree, nothing
    that was there changed, and the copy shares no address with what was there.  The
    deep copies of apimachinery types are operations of the class [KubeCopy], with this
    promise as the law they are documented to satisfy. *)

From S2P Require Import Prelude GoInt Api Objects.

(** ** Code on the heap *)

Definition heapM `{KubeTypes} (A : Type) : Type := heap → outcome (A * heap).

Section monad.
Context `{KubeTypes}.

#[global] Instance heapM_ret : MRet heapM := λ A a h, Val (a, h).
#[global] Instance heapM_bind : MBind heapM := λ A B f m h,
  match m h with Val (a, h') => f a h' | Panic p => Panic p end.

(** Reading through a reference panics when it is nil (an address that holds no [A]
    cannot occur in Go). *)
Definition load {A} `{!Stored A} (p : hp A) : heapM A := λ h,
  match p with
  | Nil => Panic NilDereference
  | Addr l => match h !! l ≫= prj with Some a => Val (a, h) | None => Panic NilDereference end
  end.

(** [new] and [make]: a reference to a fresh cell. *)
Definition alloc {A} `{!Stored A} (a : A) : heapM (hp A) := λ h,
  let l := fresh (dom h) in Val (Addr l, <[l := inj a]> h).

(** The copy of a field that is a pointer, a slice or a map: nil stays nil. *)
Definition copy_ref {A} `{!Stored A} (copy : A → heapM A) (p : hp A) : heapM (hp A) :=
  match p with
  | Nil => mret Nil
  | Addr _ => a ← load p; a' ← copy a; alloc a'
  end.

(** [for i := range *in]. *)
Fixpoint copy_each {A} (copy : A → heapM A) (l : list A) : heapM (list A) :=
  match l with
  | [] => mret []
  | a :: l => a' ← copy a; l' ← copy_each copy l; mret (a' :: l')
  end.
End monad.

(** ** The deep copies of apimachinery *)

Class KubeCopy `{KubeTypes} := {
  ObjectMeta_DeepCopyInto : ObjectMetaT hp → heapM (ObjectMetaT hp);
  ListMeta_DeepCopyInto : ListMetaT hp → heapM (ListMetaT hp);
  Condition_DeepCopyInto : ConditionT hp → heapM (ConditionT hp)
}.

(** ** DeepCopyInto *)

Section copies.
Context `{KubeCopy} `{MapOrder}.

Definition TargetModel_DeepCopyInto (in_ : TargetModel hp) : heapM (TargetModel hp) :=
  weight ← copy_ref mret (TargetModel_Weight in_);
  mret (mkTargetModel (TargetModel_Name in_) weight).

Definition PoolObjectReference_DeepCopyInto (in_ : PoolObjectReference)
  : heapM PoolObjectReference := mret in_.

Definition InferenceModelSpec_DeepCopyInto (in_ : InferenceModelSpec hp)
  : heapM (InferenceModelSpec hp) :=
  criticality ← copy_ref mret (InferenceModelSpec_Criticality in_);
  targets ← copy_ref (copy_each TargetModel_DeepCopyInto) (InferenceModelSpec_TargetModels in_);
  mret (mkInferenceModelSpec (InferenceModelSpec_ModelName in_) criticality targets
          (InferenceModelSpec_PoolRef in_)).

Definition InferenceModelStatus_DeepCopyInto (in_ : InferenceModelStatus hp)
  : heapM (InferenceModelStatus hp) :=
  conditions ← copy_ref (copy_each Condition_DeepCopyInto) (InferenceModelStatus_Conditions in_);
  mret (mkInferenceModelStatus conditions).

Definition InferenceModel_DeepCopyInto (in_ : InferenceModel hp) : heapM (InferenceModel hp) :=
  meta ← ObjectMeta_DeepCopyInto (InferenceModel_ObjectMeta in_);
  spec ← InferenceModelSpec_DeepCopyInto (InferenceModel_Spec in_);
  status ← InferenceModelStatus_DeepCopyInto (InferenceModel_Status in_);
  mret (mkInferenceModel (InferenceModel_TypeMeta in_) meta spec status).

Definition InferenceModelList_DeepCopyInto (in_ : InferenceModelList hp)
  : heapM (InferenceModelList hp) :=
  meta ← ListMeta_DeepCopyInto (InferenceModelList_ListMeta in_);
  items ← copy_ref (copy_each InferenceModel_DeepCopyInto) (InferenceModelList_Items in_);
  mret (mkInferenceModelList (InferenceModelList_TypeMeta in_) meta items).

Definition ExtensionReference_DeepCopyInto (in_ : ExtensionReference hp)
  : heapM (ExtensionReference hp) :=
  group ← copy_ref mret (ExtensionReference_Group in_);
  kind ← copy_ref mret (ExtensionReference_Kind in_);
  port ← copy_ref mret (ExtensionReference_PortNumber in_);
  mret (mkExtensionReference group kind (ExtensionReference_Name in_) port).

Definition ExtensionConnection_DeepCopyInto (in_ : ExtensionConnection hp)
  : heapM (ExtensionConnection hp) :=
  mode ← copy_ref mret (ExtensionConnection_FailureMode in_);
  mret (mkExtensionConnection mode).

Definition Extension_DeepCopyInto (in_ : Extension hp) : heapM (Extension hp) :=
  reference ← ExtensionReference_DeepCopyInto (Extension_ExtensionReference in_);
  connection ← ExtensionConnection_DeepCopyInto (Extension_ExtensionConnection in_);
  mret (mkExtension reference connection).

Definition EndpointPickerConfig_DeepCopyInto (in_ : EndpointPickerConfig hp)
  : heapM (EndpointPickerConfig hp) :=
  extension ← copy_ref Extension_DeepCopyInto (EndpointPickerConfig_ExtensionRef in_);
  mret (mkEndpointPickerConfig extension).

(** The entries of the selector, inserted one by one. *)
Definition copy_map (m : gmap LabelKey LabelValue) : heapM (gmap LabelKey LabelValue) :=
  mret (foldl (λ out kv, <[kv.1 := kv.2]> out) ∅ (map_range m)).

Definition InferencePoolSpec_DeepCopyInto (in_ : InferencePoolSpec hp)
  : heapM (InferencePoolSpec hp) :=
  selector ← copy_ref copy_map (InferencePoolSpec_Selector in_);
  config ← EndpointPickerConfig_DeepCopyInto (InferencePoolSpec_EndpointPickerConfig in_);
  mret (mkInferencePoolSpec selector (InferencePoolSpec_TargetPortNumber in_) config).

Definition PoolStatus_DeepCopyInto (in_ : PoolStatus hp) : heapM (PoolStatus hp) :=
  conditions ← copy_ref (copy_each Condition_DeepCopyInto) (PoolStatus_Conditions in_);
  mret (mkPoolStatus (PoolStatus_GatewayRef in_) conditions).

Definition InferencePoolStatus_DeepCopyInto (in_ : InferencePoolStatus hp)
  : heapM (InferencePoolStatus hp) :=
  parents ← copy_ref (copy_each PoolStatus_DeepCopyInto) (InferencePoolStatus_Parents in_);
  mret (mkInferencePoolStatus parents).

Definition InferencePool_DeepCopyInto (in_ : InferencePool hp) : heapM (InferencePool hp) :=
  meta ← ObjectMeta_DeepCopyInto (InferencePool_ObjectMeta in_);
  spec ← InferencePoolSpec_DeepCopyInto (InferencePool_Spec in_);
  status ← InferencePoolStatus_DeepCopyInto (InferencePool_Status in_);
  mret (mkInferencePool (InferencePool_TypeMeta in_) meta spec status).

Definition InferencePoolList_DeepCopyInto (in_ : InferencePoolList hp)
  : heapM (InferencePoolList hp) :=
  meta ← ListMeta_DeepCopyInto (InferencePoolList_ListMeta in_);
  items ← copy_ref (copy_each InferencePool_DeepCopyInto) (InferencePoolList_Items in_);
  mret (mkInferencePoolList (InferencePoolList_TypeMeta in_) meta items).

(** ** DeepCopy: nil for nil, else a pointer to a copy *)

Definition EndpointPickerConfig_DeepCopy : hp (EndpointPickerConfig hp) → heapM (hp (EndpointPickerConfig hp)) :=
  copy_ref EndpointPickerConfig_DeepCopyInto.
Definition Extension_DeepCopy : hp (Extension hp) → heapM (hp (Extension hp)) :=
  copy_ref Extension_DeepCopyInto.
Definition ExtensionConnection_DeepCopy : hp (ExtensionConnection hp) → heapM (hp (ExtensionConnection hp)) :=
  copy_ref ExtensionConnection_DeepCopyInto.
Definition ExtensionReference_DeepCopy : hp (ExtensionReference hp) → heapM (hp (ExtensionReference hp)) :=
  copy_ref ExtensionReference_DeepCopyInto.
Definition InferenceModel_DeepCopy : hp (InferenceModel hp) → heapM (hp (InferenceModel hp)) :=
  copy_ref InferenceModel_DeepCopyInto.
Definition InferenceModelList_DeepCopy : hp (InferenceModelList hp) → heapM (hp (InferenceModelList hp)) :=
  copy_ref InferenceModelList_DeepCopyInto.
Definition InferenceModelSpec_DeepCopy : hp (InferenceModelSpec hp) → heapM (hp (InferenceModelSpec hp)) :=
  copy_ref InferenceModelSpec_DeepCopyInto.
Definition InferenceModelStatus_DeepCopy : hp (InferenceModelStatus hp) → heapM (hp (InferenceModelStatus hp)) :=
  copy_ref InferenceModelStatus_DeepCopyInto.
Definition InferencePool_DeepCopy : hp (InferencePool hp) → heapM (hp (InferencePool hp)) :=
  copy_ref InferencePool_DeepCopyInto.
Definition InferencePoolList_DeepCopy : hp (InferencePoolList hp) → heapM (hp (InferencePoolList hp)) :=
  copy_ref InferencePoolList_DeepCopyInto.
Definition InferencePoolSpec_DeepCopy : hp (InferencePoolSpec hp) → heapM (hp (InferencePoolSpec hp)) :=
  copy_ref InferencePoolSpec_DeepCopyInto.
Definition InferencePoolStatus_DeepCopy : hp (InferencePoolStatus hp) → heapM (hp (InferencePoolStatus hp)) :=
  copy_ref InferencePoolStatus_DeepCopyInto.
Definition PoolObjectReference_DeepCopy : hp PoolObjectReference → heapM (hp PoolObjectReference) :=
  copy_ref PoolObjectReference_DeepCopyInto.
Definition PoolStatus_DeepCopy : hp (PoolStatus hp) → heapM (hp (PoolStatus hp)) :=
  copy_ref PoolStatus_DeepCopyInto.
Definition TargetModel_DeepCopy : hp (TargetModel hp) → heapM (hp (TargetModel hp)) :=
  copy_ref TargetModel_DeepCopyInto.

(** ** DeepCopyObject *)

(** A [runtime.Object] of the API group: an interface that holds one of four pointers. *)
Inductive Object : Type :=
  | OInferenceModel (p : hp (InferenceModel hp))
  | OInferenceModelList (p : hp (InferenceModelList hp))
  | OInferencePool (p : hp (InferencePool hp))
  | OInferencePoolList (p : hp (InferencePoolList hp)).

(** [if c := in.DeepCopy(); c != nil { return c }; return nil]: a nil pointer gives the
    nil interface. *)
Definition as_object {A} (o : hp A → Object) (c : hp A) : option Object :=
  match c with Nil => None | Addr _ => Some (o c) end.

Definition InferenceModel_DeepCopyObject (p : hp (InferenceModel hp)) : heapM (option Object) :=
  c ← InferenceModel_DeepCopy p; mret (as_object OInferenceModel c).

Definition InferenceModelList_DeepCopyObject (p : hp (InferenceModelList hp)) : heapM (option Object) :=
  c ← InferenceModelList_DeepCopy p; mret (as_object OInferenceModelList c).

Definition InferencePool_DeepCopyObject (p : hp (InferencePool hp)) : heapM (option Object) :=
  c ← InferencePool_DeepCopy p; mret (as_object OInferencePool c).

Definition InferencePoolList_DeepCopyObject (p : hp (InferencePoolList hp)) : heapM (option Object) :=
  c ← InferencePoolList_DeepCopy p; mret (as_object OInferencePoolList c).

(** The method call on the interface. *)
Definition DeepCopyObject (in_ : Object) : heapM (option Object) :=
  match in_ with
  | OInferenceModel p => InferenceModel_DeepCopyObject p
  | OInferenceModelList p => InferenceModelList_DeepCopyObject p
  | OInferencePool p => InferencePool_DeepCopyObject p
  | OInferencePoolList p => InferencePoolList_DeepCopyObject p
  end.
End copies.

(** ** What a copy promises *)

Class Copies `{KubeTypes} {A V} `{!Readable A V} (copy : A → heapM A) : Prop :=
  copies : ∀ h a v, read h a = Some v →
    ∃ a' h', copy a h = Val (a', h') ∧ h ⊆ h' ∧ read h' a' = Some v ∧ foot h' a' ## dom h.

Section combinators.
Context `{KubeTypes}.

Lemma copies_plain A (copy : A → heapM A) :
  (∀ a, copy a = mret a) → @Copies _ A A (readable_plain A) copy.
Proof.
  intros Hc h a v Hr. rewrite Hc. exists a, h. split; [done|]. split; [done|].
  split; [done|]. apply disjoint_empty_l.
Qed.

Definition copy_pair {A B} (f : A → heapM A) (g : B → heapM B) (p : A * B) : heapM (A * B) :=
  a ← f p.1; b ← g p.2; mret (a, b).

#[global] Instance copies_pair {A B V W} `{!Readable A V, !Readable B W}
    (f : A → heapM A) (g : B → heapM B) :
  Copies (V := V) f → Copies (V := W) g → Copies (V := V * W) (copy_pair f g).
Proof.
  intros Hf Hg h [a b] v Hr. simpl in Hr.
  destruct (read h a) as [va|] eqn:Ha; [|done]. destruct (read h b) as [vb|] eqn:Hb; [|done].
  simplify_eq/=. destruct (Hf h a va Ha) as (a' & h1 & Hca & Hs1 & Ha' & Hd1).
  destruct (read_mono h h1 b vb Hb Hs1) as [Hb1 _].
  destruct (Hg h1 b vb Hb1) as (b' & h2 & Hcb & Hs2 & Hb' & Hd2).
  destruct (read_mono h1 h2 a' va Ha' Hs2) as [Ha2 Hf2].
  exists (a', b'), h2. unfold copy_pair, mbind, heapM_bind. simpl. rewrite Hca, Hcb.
  split; [done|]. split; [by etrans|]. simpl. rewrite Ha2, Hb', Hf2. split; [done|].
  apply subseteq_dom in Hs1. set_solver.
Qed.

#[global] Instance copies_each {A V} `{!Readable A V} (f : A → heapM A) :
  Copies (V := V) f → Copies (V := list V) (copy_each f).
Proof.
  intros Hf h l v Hr. simpl in *. apply mapM_Some in Hr. revert h v Hr.
  induction l as [|a l IH]; intros h v Hr; inversion Hr as [|? va ? vl Ha Hl]; subst.
  { exists [], h. split; [done|]. split; [done|]. split; [done|]. simpl. set_solver. }
  destruct (Hf h a va Ha) as (a' & h1 & Hca & Hs1 & Ha' & Hd1).
  destruct (IH h1 vl) as (l' & h2 & Hcl & Hs2 & Hl' & Hd2).
  { eapply Forall2_impl; [exact Hl|]. intros x vx Hx. exact (proj1 (read_mono _ _ _ _ Hx Hs1)). }
  destruct (read_mono h1 h2 a' va Ha' Hs2) as [Ha2 Hf2].
  exists (a' :: l'), h2. simpl. unfold mbind, heapM_bind. rewrite Hca, Hcl.
  split; [done|]. split; [by etrans|]. simpl in *. rewrite Ha2, Hf2. simpl.
  rewrite Hl'. split; [done|]. apply subseteq_dom in Hs1. set_solver.
Qed.

Lemma load_read {A V} `{!Stored A, !Readable A V} h l (v : option V) :
  read h (Addr l : hp A) = Some v →
  ∃ a va, load (Addr l : hp A) h = Val (a, h) ∧ read h a = Some va ∧ v = Some va.
Proof.
  simpl. destruct (h !! l ≫= prj) as [a|]; [|done]. simpl.
  destruct (read h a) as [va|] eqn:Ha; [|done]. intros [= <-]. by exists a, va.
Qed.

Lemma alloc_read {A V} `{!Stored A, !Readable A V} h (a : A) (v : V) :
  read h a = Some v →
  ∃ l, alloc a h = Val (Addr l, <[l := inj a]> h) ∧ l ∉ dom h ∧ h ⊆ <[l := inj a]> h
    ∧ read (<[l := inj a]> h) (Addr l : hp A) = Some (Some v)
    ∧ foot (<[l := inj a]> h) (Addr l : hp A) = {[l]} ∪ foot h a.
Proof.
  intros Ha. exists (fresh (dom h)). set (l := fresh (dom h)).
  assert (l ∉ dom h) as Hl by apply is_fresh.
  assert (h ⊆ <[l := inj a]> h) as Hs by (by apply insert_subseteq, not_elem_of_dom).
  split; [done|]. split; [done|]. split; [done|]. simpl. rewrite lookup_insert_eq. simpl.
  rewrite prj_inj. simpl. destruct (read_mono _ _ a v Ha Hs) as [-> ->]. done.
Qed.

#[global] Instance copies_ref {A V} `{!Stored A, !Readable A V} (f : A → heapM A) :
  Copies (V := V) f → Copies (V := option V) (copy_ref f).
Proof.
  intros Hf h [|l] v Hr; simpl copy_ref.
  { exists Nil, h. split; [done|]. split; [done|]. split; [done|]. simpl. set_solver. }
  destruct (load_read h l v Hr) as (a & va & Hl & Ha & ->).
  destruct (Hf h a va Ha) as (a' & h1 & Hc & Hs1 & Ha' & Hd1).
  destruct (alloc_read h1 a' va Ha') as (l' & Hal & Hl' & Hs2 & Hr' & Hft).
  exists (Addr l'), (<[l' := inj a']> h1). unfold mbind, heapM_bind. rewrite Hl, Hc, Hal.
  split; [done|]. split; [by etrans|]. split; [done|]. rewrite Hft.
  apply subseteq_dom in Hs1. set_solver.
Qed.

(** A struct whose fields are copied one after the other. *)
Lemma copies_as {A B V W} `{!Readable B W} (fields : A → B) (make : W → V) (build : B → A)
    (g : B → heapM B) (f : A → heapM A) :
  (∀ b, fields (build b) = b) → (∀ a h, f a h = (b ← g (fields a); mret (build b)) h) →
  Copies (V := W) g → @Copies _ A V (readable_as fields make) f.
Proof.
  intros Hb Hf Hg h a v Hr. simpl in *. destruct (read h (fields a)) as [w|] eqn:Hw; [|done].
  simplify_eq/=. destruct (Hg h _ w Hw) as (b & h1 & Hc & Hs & Hr & Hd).
  exists (build b), h1. rewrite Hf. unfold mbind, heapM_bind. rewrite Hc, Hb, Hr. done.
Qed.
End combinators.

(** ** The structs *)

Class KubeReads `{KubeTypes} := {
  ObjectMeta_readable :: Readable (ObjectMetaT hp) (ObjectMetaT option);
  ListMeta_readable :: Readable (ListMetaT hp) (ListMetaT option);
  Condition_readable :: Readable (ConditionT hp) (ConditionT option)
}.

Class KubeLaws `{KubeTypes, !KubeReads, !KubeCopy} : Prop := {
  ObjectMeta_copies :: Copies ObjectMeta_DeepCopyInto;
  ListMeta_copies :: Copies ListMeta_DeepCopyInto;
  Condition_copies :: Copies Condition_DeepCopyInto
}.

Section reads.
Context `{KubeTypes, !KubeReads}.

#[global] Instance readable_TargetModel : Readable (TargetModel hp) (TargetModel option) :=
  readable_as (λ a, (TargetModel_Name a, TargetModel_Weight a))
    (λ w, mkTargetModel w.1 w.2).
#[global] Instance readable_InferenceModelSpec : Readable (InferenceModelSpec hp) (InferenceModelSpec option) :=
  readable_as (λ a, (InferenceModelSpec_ModelName a, InferenceModelSpec_Criticality a, InferenceModelSpec_TargetModels a, InferenceModelSpec_PoolRef a))
    (λ w, mkInferenceModelSpec w.1.1.1 w.1.1.2 w.1.2 w.2).
#[global] Instance readable_InferenceModelStatus : Readable (InferenceModelStatus hp) (InferenceModelStatus option) :=
  readable_as (λ a, InferenceModelStatus_Conditions a)
    (λ w, mkInferenceModelStatus w).
#[global] Instance readable_InferenceModel : Readable (InferenceModel hp) (InferenceModel option) :=
  readable_as (λ a, (InferenceModel_TypeMeta a, InferenceModel_ObjectMeta a, InferenceModel_Spec a, InferenceModel_Status a))
    (λ w, mkInferenceModel w.1.1.1 w.1.1.2 w.1.2 w.2).
#[global] Instance readable_InferenceModelList : Readable (InferenceModelList hp) (InferenceModelList option) :=
  readable_as (λ a, (InferenceModelList_TypeMeta a, InferenceModelList_ListMeta a, InferenceModelList_Items a))
    (λ w, mkInferenceModelList w.1.1 w.1.2 w.2).
#[global] Instance readable_ExtensionReference : Readable (ExtensionReference hp) (ExtensionReference option) :=
  readable_as (λ a, (ExtensionReference_Group a, ExtensionReference_Kind a, ExtensionReference_Name a, ExtensionReference_PortNumber a))
    (λ w, mkExtensionReference w.1.1.1 w.1.1.2 w.1.2 w.2).
#[global] Instance readable_ExtensionConnection : Readable (ExtensionConnection hp) (ExtensionConnection option) :=
  readable_as (λ a, ExtensionConnection_FailureMode a)
    (λ w, mkExtensionConnection w).
#[global] Instance readable_Extension : Readable (Extension hp) (Extension option) :=
  readable_as (λ a, (Extension_ExtensionReference a, Extension_ExtensionConnection a))
    (λ w, mkExtension w.1 w.2).
#[global] Instance readable_EndpointPickerConfig : Readable (EndpointPickerConfig hp) (EndpointPickerConfig option) :=
  readable_as (λ a, EndpointPickerConfig_ExtensionRef a)
    (λ w, mkEndpointPickerConfig w).
#[global] Instance readable_InferencePoolSpec : Readable (InferencePoolSpec hp) (InferencePoolSpec option) :=
  readable_as (λ a, (InferencePoolSpec_Selector a, InferencePoolSpec_TargetPortNumber a, InferencePoolSpec_EndpointPickerConfig a))
    (λ w, mkInferencePoolSpec w.1.1 w.1.2 w.2).
#[global] Instance readable_PoolStatus : Readable (PoolStatus hp) (PoolStatus option) :=
  readable_as (λ a, (PoolStatus_GatewayRef a, PoolStatus_Conditions a))
    (λ w, mkPoolStatus w.1 w.2).
#[global] Instance readable_InferencePoolStatus : Readable (InferencePoolStatus hp) (InferencePoolStatus option) :=
  readable_as (λ a, InferencePoolStatus_Parents a)
    (λ w, mkInferencePoolStatus w).
#[global] Instance readable_InferencePool : Readable (InferencePool hp) (InferencePool option) :=
  readable_as (λ a, (InferencePool_TypeMeta a, InferencePool_ObjectMeta a, InferencePool_Spec a, InferencePool_Status a))
    (λ w, mkInferencePool w.1.1.1 w.1.1.2 w.1.2 w.2).
#[global] Instance readable_InferencePoolList : Readable (InferencePoolList hp) (InferencePoolList option) :=
  readable_as (λ a, (InferencePoolList_TypeMeta a, InferencePoolList_ListMeta a, InferencePoolList_Items a))
    (λ w, mkInferencePoolList w.1.1 w.1.2 w.2).
End reads.

(** A struct's copy is the copies of its fields in order: both sides run the same calls. *)
Ltac same_calls f :=
  intros [] ?; unfold f, copy_pair, mbind, heapM_bind, mret, heapM_ret; simpl;
  repeat (case_match; simplify_eq/=); done.

Ltac destruct_pairs := repeat match goal with p : _ * _ |- _ => destruct p end.

Tactic Notation "copy_struct" reference(f) uconstr(build) uconstr(calls) :=
  apply (copies_as _ _ build calls); [by intros; destruct_pairs | same_calls f | apply _].

Section laws.
Context `{KubeTypes, !KubeReads, !KubeCopy, !KubeLaws, !MapOrder}.

#[global] Instance copies_string : Copies (A := string) mret.
Proof. by apply copies_plain. Qed.
#[global] Instance copies_int : Copies (A := Z) mret.
Proof. by apply copies_plain. Qed.
#[global] Instance copies_TypeMeta : Copies (A := TypeMeta) mret.
Proof. by apply copies_plain. Qed.
#[global] Instance copies_PoolObjectReference : Copies (A := PoolObjectReference) mret.
Proof. by apply copies_plain. Qed.
#[global] Instance copies_ObjectReference : Copies (A := ObjectReference) mret.
Proof. by apply copies_plain. Qed.
#[global] Instance copies_selector : Copies copy_map.
Proof. apply copies_plain. intros m. unfold copy_map. by rewrite foldl_insert_range. Qed.

#[global] Instance copies_TargetModel : Copies TargetModel_DeepCopyInto.
Proof.
  copy_struct TargetModel_DeepCopyInto (λ b, mkTargetModel b.1 b.2 : TargetModel hp)
    (copy_pair mret (copy_ref mret)).
Qed.
#[global] Instance copies_InferenceModelSpec : Copies InferenceModelSpec_DeepCopyInto.
Proof.
  copy_struct InferenceModelSpec_DeepCopyInto (λ b, mkInferenceModelSpec b.1.1.1 b.1.1.2 b.1.2 b.2 : InferenceModelSpec hp)
    (copy_pair (copy_pair (copy_pair mret (copy_ref mret)) (copy_ref (copy_each TargetModel_DeepCopyInto))) mret).
Qed.
#[global] Instance copies_InferenceModelStatus : Copies InferenceModelStatus_DeepCopyInto.
Proof.
  copy_struct InferenceModelStatus_DeepCopyInto (λ b, mkInferenceModelStatus b : InferenceModelStatus hp)
    (copy_ref (copy_each Condition_DeepCopyInto)).
Qed.
#[global] Instance copies_InferenceModel : Copies InferenceModel_DeepCopyInto.
Proof.
  copy_struct InferenceModel_DeepCopyInto (λ b, mkInferenceModel b.1.1.1 b.1.1.2 b.1.2 b.2 : InferenceModel hp)
    (copy_pair (copy_pair (copy_pair mret ObjectMeta_DeepCopyInto) InferenceModelSpec_DeepCopyInto) InferenceModelStatus_DeepCopyInto).
Qed.
#[global] Instance copies_InferenceModelList : Copies InferenceModelList_DeepCopyInto.
Proof.
  copy_struct InferenceModelList_DeepCopyInto (λ b, mkInferenceModelList b.1.1 b.1.2 b.2 : InferenceModelList hp)
    (copy_pair (copy_pair mret ListMeta_DeepCopyInto) (copy_ref (copy_each InferenceModel_DeepCopyInto))).
Qed.
#[global] Instance copies_ExtensionReference : Copies ExtensionReference_DeepCopyInto.
Proof.
  copy_struct ExtensionReference_DeepCopyInto (λ b, mkExtensionReference b.1.1.1 b.1.1.2 b.1.2 b.2 : ExtensionReference hp)
    (copy_pair (copy_pair (copy_pair (copy_ref mret) (copy_ref mret)) mret) (copy_ref mret)).
Qed.
#[global] Instance copies_ExtensionConnection : Copies ExtensionConnection_DeepCopyInto.
Proof.
  copy_struct ExtensionConnection_DeepCopyInto (λ b, mkExtensionConnection b : ExtensionConnection hp)
    (copy_ref mret).
Qed.
#[global] Instance copies_Extension : Copies Extension_DeepCopyInto.
Proof.
  copy_struct Extension_DeepCopyInto (λ b, mkExtension b.1 b.2 : Extension hp)
    (copy_pair ExtensionReference_DeepCopyInto ExtensionConnection_DeepCopyInto).
Qed.
#[global] Instance copies_EndpointPickerConfig : Copies EndpointPickerConfig_DeepCopyInto.
Proof.
  copy_struct EndpointPickerConfig_DeepCopyInto (λ b, mkEndpointPickerConfig b : EndpointPickerConfig hp)
    (copy_ref Extension_DeepCopyInto).
Qed.
#[global] Instance copies_InferencePoolSpec : Copies InferencePoolSpec_DeepCopyInto.
Proof.
  copy_struct InferencePoolSpec_DeepCopyInto (λ b, mkInferencePoolSpec b.1.1 b.1.2 b.2 : InferencePoolSpec hp)
    (copy_pair (copy_pair (copy_ref copy_map) mret) EndpointPickerConfig_DeepCopyInto).
Qed.
#[global] Instance copies_PoolStatus : Copies PoolStatus_DeepCopyInto.
Proof.
  copy_struct PoolStatus_DeepCopyInto (λ b, mkPoolStatus b.1 b.2 : PoolStatus hp)
    (copy_pair mret (copy_ref (copy_each Condition_DeepCopyInto))).
Qed.
#[global] Instance copies_InferencePoolStatus : Copies InferencePoolStatus_DeepCopyInto.
Proof.
  copy_struct InferencePoolStatus_DeepCopyInto (λ b, mkInferencePoolStatus b : InferencePoolStatus hp)
    (copy_ref (copy_each PoolStatus_DeepCopyInto)).
Qed.
#[global] Instance copies_InferencePool : Copies InferencePool_DeepCopyInto.
Proof.
  copy_struct InferencePool_DeepCopyInto (λ b, mkInferencePool b.1.1.1 b.1.1.2 b.1.2 b.2 : InferencePool hp)
    (copy_pair (copy_pair (copy_pair mret ObjectMeta_DeepCopyInto) InferencePoolSpec_DeepCopyInto) InferencePoolStatus_DeepCopyInto).
Qed.
#[global] Instance copies_InferencePoolList : Copies InferencePoolList_DeepCopyInto.
Proof.
  copy_struct InferencePoolList_DeepCopyInto (λ b, mkInferencePoolList b.1.1 b.1.2 b.2 : InferencePoolList hp)
    (copy_pair (copy_pair mret ListMeta_DeepCopyInto) (copy_ref (copy_each InferencePool_DeepCopyInto))).
Qed.
End laws.

(** ** Objects *)

Section objects.
Context `{KubeTypes, !KubeReads, !KubeCopy, !KubeLaws, !MapOrder}.

(** The trees the four kinds of object stand for. *)
Inductive ObjectTree : Type :=
  | TInferenceModel (t : option (InferenceModel option))
  | TInferenceModelList (t : option (InferenceModelList option))
  | TInferencePool (t : option (InferencePool option))
  | TInferencePoolList (t : option (InferencePoolList option)).

Definition object_read (h : heap) (o : Object) : option ObjectTree :=
  match o with
  | OInferenceModel p => TInferenceModel <$> read h p
  | OInferenceModelList p => TInferenceModelList <$> read h p
  | OInferencePool p => TInferencePool <$> read h p
  | OInferencePoolList p => TInferencePoolList <$> read h p
  end.

Definition is_nil {A} (p : hp A) : bool := match p with Nil => true | Addr _ => false end.

Definition object_nil (o : Object) : bool :=
  match o with
  | OInferenceModel p => is_nil p
  | OInferenceModelList p => is_nil p
  | OInferencePool p => is_nil p
  | OInferencePoolList p => is_nil p
  end.

(** Writes to what existed at [h] do not reach the copy, and writes to what was allocated
    since do not reach the original. *)
Lemma copy_isolated {A V} `{!Stored A, !Readable A V} (f : A → heapM A) `{!Copies (V := V) f}
    h l (t : option V) :
  read h (Addr l : hp A) = Some t →
  ∃ l' h', copy_ref f (Addr l) h = Val (Addr l', h') ∧ h ⊆ h'
    ∧ (∀ h'', (∀ k, k ∉ dom h → h'' !! k = h' !! k) → read h'' (Addr l' : hp A) = Some t)
    ∧ (∀ h'', (∀ k, k ∈ dom h → h'' !! k = h' !! k) → read h'' (Addr l : hp A) = Some t).
Proof.
  intros Hr. destruct (copies (copy := copy_ref f) h (Addr l) t Hr) as (p & h' & Hc & Hs & Hr' & Hd).
  assert (∃ l', p = Addr l') as [l' ->].
  { destruct p as [|l']; [|by eexists]. exfalso. simpl in Hr'.
    destruct (load_read h l t Hr) as (a & va & _ & _ & ->). done. }
  exists l', h'. split; [done|]. split; [done|]. split.
  - intros h'' Hag. apply (read_local h' h'' (Addr l' : hp A) t Hr'). intros k Hk.
    apply Hag. set_solver.
  - intros h'' Hag. destruct (read_mono h h' (Addr l : hp A) t Hr Hs) as [Hr2 Hf].
    apply (read_local h' h'' (Addr l : hp A) t Hr2). intros k Hk. apply Hag.
    rewrite Hf in Hk. by apply (read_closed h (Addr l : hp A) t Hr).
Qed.

(** C36: a deep copy is equal to the original and independent of it.  For every object of the
    API group whose references are sound, DeepCopyObject returns an object that reads as
    the same tree; nothing that existed was changed; whatever is then written to memory
    that existed before leaves the copy as it is, and whatever is written to the memory
    of the copy leaves the original as it is.  (The deep copies of the apimachinery types
    within are assumed to be deep copies.) *)
Theorem deep_copy_isolated h o t :
  object_read h o = Some t → object_nil o = false →
  ∃ o' h', DeepCopyObject o h = Val (Some o', h') ∧ h ⊆ h'
    ∧ (∀ h'', (∀ l, l ∉ dom h → h'' !! l = h' !! l) → object_read h'' o' = Some t)
    ∧ (∀ h'', (∀ l, l ∈ dom h → h'' !! l = h' !! l) → object_read h'' o = Some t).
Proof.
  destruct o as [[|l]|[|l]|[|l]|[|l]]; intros Hr Hn; try done; cbn [object_read] in Hr;
    apply fmap_Some in Hr as (v & Hr & ->);
    [destruct (copy_isolated InferenceModel_DeepCopyInto h l v Hr) as (l' & h' & Hc & Hs & H1' & H2')
    |destruct (copy_isolated InferenceModelList_DeepCopyInto h l v Hr) as (l' & h' & Hc & Hs & H1' & H2')
    |destruct (copy_isolated InferencePool_DeepCopyInto h l v Hr) as (l' & h' & Hc & Hs & H1' & H2')
    |destruct (copy_isolated InferencePoolList_DeepCopyInto h l v Hr) as (l' & h' & Hc & Hs & H1' & H2')];
    (eexists _, h'; split;
     [cbn [DeepCopyObject]; unfold InferenceModel_DeepCopyObject, InferenceModelList_DeepCopyObject,
        InferencePool_DeepCopyObject, InferencePoolList_DeepCopyObject, mbind, heapM_bind, InferenceModel_DeepCopy,
        InferenceModelList_DeepCopy, InferencePool_DeepCopy, InferencePoolList_DeepCopy;
      rewrite Hc; reflexivity|]);
    (split; [done|]; split; intros h'' Hag; cbn [object_read];
     [by rewrite (H1' h'' Hag)|by rewrite (H2' h'' Hag)]).
Qed.

(** A nil object is copied to the nil interface. *)
Lemma deep_copy_nil h o : object_nil o = true → DeepCopyObject o h = Val (None, h).
Proof. by destruct o as [[]|[]|[]|[]]. Qed.
End objects.

(** * Witness *)

(** Metadata with a name and a map of labels, in place of apimachinery's. *)
Definition example_types : KubeTypes := {|
  ObjectMetaT := λ ref, (string * ref (gmap LabelKey LabelValue))%type;
  ListMetaT := λ _, string;
  ConditionT := λ _, string;
  ObjectReference := string;
  kube_cell := unit
|}.

#[local] Existing Instance example_types.

Definition example_copy : KubeCopy := {|
  ObjectMeta_DeepCopyInto := copy_pair (A := string) mret (copy_ref copy_map);
  ListMeta_DeepCopyInto := mret;
  Condition_DeepCopyInto := mret
|}.

#[local] Existing Instance example_copy.

Definition example_reads : KubeReads := {|
  ObjectMeta_readable := readable_pair (A := string) (B := hp (gmap LabelKey LabelValue))
    (V := string) (W := option (gmap LabelKey LabelValue));
  ListMeta_readable := readable_string;
  Condition_readable := readable_string
|}.

#[local] Existing Instance example_reads.

#[local] Instance example_laws : KubeLaws.
Proof.
  split.
  - apply copies_pair; [by apply copies_plain|]. apply copies_ref, copies_selector.
  - by apply copies_plain.
  - by apply copies_plain.
Qed.

Definition example_model : InferenceModel hp :=
  mkInferenceModel (mkTypeMeta "InferenceModel" "inference.networking.x-k8s.io/v1alpha2")
    ("chat", Addr 5%positive)
    (mkInferenceModelSpec "chat" (Addr 2%positive) (Addr 3%positive)
       (mkPoolObjectReference "inference.networking.x-k8s.io" "InferencePool" "pool"))
    (mkInferenceModelStatus Nil).

Definition example_heap : heap :=
  {[ 1%positive := CInferenceModel example_model;
     2%positive := CString "Critical";
     3%positive := CTargetModels [mkTargetModel "chat-v1" (Addr 4%positive);
                                                 mkTargetModel "chat-v2" Nil];
     4%positive := CInt 100;
     5%positive := CSelector {[ "app" := "chat" ]} ]}.

(** The example is read, copied to fresh addresses, and the copy survives the loss of
    everything that was there. *)
Lemma deep_copy_isolated_witness :
  ∃ o' h', DeepCopyObject
             (OInferenceModel (Addr 1%positive)) example_heap = Val (Some o', h')
    ∧ object_read (filter (λ c, c.1 ∉ dom example_heap) h') o'
      = object_read example_heap
          (OInferenceModel (Addr 1%positive)).
Proof.
  assert (∃ t, object_read example_heap
                 (OInferenceModel (Addr 1%positive)) = Some t) as [t Ht]
    by (vm_compute; by eexists).
  destruct (deep_copy_isolated example_heap (OInferenceModel (Addr 1%positive)) t Ht eq_refl)
    as (o' & h' & Hc & _ & Hcopy & _).
  exists o', h'. split; [exact Hc|]. rewrite Ht. apply Hcopy. intros l Hl.
  apply option_eq. intros c. rewrite map_lookup_filter_Some. simpl. naive_solver.
Defined.
