(* ===== verification/ApplyConfig.v ===== *)
(** * client-go/applyconfiguration: declarative configurations

    The apply configurations of the two resources with their builders.  A builder mutates
    its receiver and returns it, so a configuration is a cell of a heap and a builder a
    state transformer; a nil among the values of a builder panics after the values before
    it were appended.  A nested configuration given by WithSpec, WithStatus, WithPoolRef or
    WithExtensionRef is kept as the pointer that was passed, elements of lists and entries
    of maps are copied.  Scalar fields point to fresh variables nothing else writes, so
    they are options; the metadata struct is allocated by the first builder that needs it
    and reached through its owner only, so it is part of it. *)

From S2P Require Import Prelude GoInt Api.

Local Open Scope Z_scope.

(** The address of a configuration. *)
Definition cfg_loc : Type := positive.

(** ** The configurations *)

Section configurations.
(** [metav1] conditions, owner references, and [corev1.ObjectReference]: not looked into. *)
Context {Condition OwnerReference ObjectReference : Type}.

Record TargetModelApplyConfiguration := mkTargetModelApplyConfiguration {
  TMAC_Name : option string;
  TMAC_Weight : option Z
}.

Record PoolObjectReferenceApplyConfiguration := mkPoolObjectReferenceApplyConfiguration {
  PORAC_Group : option Group;
  PORAC_Kind : option Kind;
  PORAC_Name : option ObjectName
}.

Record InferenceModelSpecApplyConfiguration := mkInferenceModelSpecApplyConfiguration {
  IMSAC_ModelName : option string;
  IMSAC_Criticality : option Criticality;
  IMSAC_TargetModels : list TargetModelApplyConfiguration;
  IMSAC_PoolRef : option cfg_loc
}.

Record InferenceModelStatusApplyConfiguration := mkInferenceModelStatusApplyConfiguration {
  IMStAC_Conditions : list Condition
}.

Record ExtensionReferenceApplyConfiguration := mkExtensionReferenceApplyConfiguration {
  ERAC_Group : option Group;
  ERAC_Kind : option Kind;
  ERAC_Name : option ObjectName;
  ERAC_PortNumber : option PortNumber
}.

Record ExtensionConnectionApplyConfiguration := mkExtensionConnectionApplyConfiguration {
  ECAC_FailureMode : option string
}.

Record ExtensionApplyConfiguration := mkExtensionApplyConfiguration {
  EAC_ExtensionReference : ExtensionReferenceApplyConfiguration;
  EAC_ExtensionConnection : ExtensionConnectionApplyConfiguration
}.

Record EndpointPickerConfigApplyConfiguration := mkEndpointPickerConfigApplyConfiguration {
  EPCAC_ExtensionRef : option cfg_loc
}.

Record InferencePoolSpecApplyConfiguration := mkInferencePoolSpecApplyConfiguration {
  IPSAC_Selector : option (gmap LabelKey LabelValue);
  IPSAC_TargetPortNumber : option Z;
  IPSAC_EndpointPickerConfig : EndpointPickerConfigApplyConfiguration
}.

Record PoolStatusApplyConfiguration := mkPoolStatusApplyConfiguration {
  PSAC_GatewayRef : option ObjectReference;
  PSAC_Conditions : list Condition
}.

Record InferencePoolStatusApplyConfiguration := mkInferencePoolStatusApplyConfiguration {
  IPStAC_Parents : list PoolStatusApplyConfiguration
}.

Record TypeMetaApplyConfiguration := mkTypeMetaApplyConfiguration {
  TyMAC_Kind : option string;
  TyMAC_APIVersion : option string
}.

Record ObjectMetaApplyConfiguration := mkObjectMetaApplyConfiguration {
  OMAC_Name : option string;
  OMAC_GenerateName : option string;
  OMAC_Namespace : option string;
  OMAC_UID : option string;
  OMAC_ResourceVersion : option string;
  OMAC_Generation : option Z;
  OMAC_CreationTimestamp : option Time;
  OMAC_DeletionTimestamp : option Time;
  OMAC_DeletionGracePeriodSeconds : option Z;
  OMAC_Labels : option (gmap string string);
  OMAC_Annotations : option (gmap string string);
  OMAC_OwnerReferences : list OwnerReference;
  OMAC_Finalizers : list string
}.

Record InferenceModelApplyConfiguration := mkInferenceModelApplyConfiguration {
  IMAC_TypeMeta : TypeMetaApplyConfiguration;
  IMAC_ObjectMeta : option ObjectMetaApplyConfiguration;
  IMAC_Spec : option cfg_loc;
  IMAC_Status : option cfg_loc
}.

Record InferencePoolApplyConfiguration := mkInferencePoolApplyConfiguration {
  IPAC_TypeMeta : TypeMetaApplyConfiguration;
  IPAC_ObjectMeta : option ObjectMetaApplyConfiguration;
  IPAC_Spec : option cfg_loc;
  IPAC_Status : option cfg_loc
}.

(** The zero values, [&T{}]. *)
Definition empty_TargetModel : TargetModelApplyConfiguration := mkTargetModelApplyConfiguration None
    None.
Definition empty_PoolObjectReference : PoolObjectReferenceApplyConfiguration :=
    mkPoolObjectReferenceApplyConfiguration None None None.
Definition empty_InferenceModelSpec : InferenceModelSpecApplyConfiguration :=
    mkInferenceModelSpecApplyConfiguration None None [] None.
Definition empty_InferenceModelStatus : InferenceModelStatusApplyConfiguration :=
    mkInferenceModelStatusApplyConfiguration [].
Definition empty_ExtensionReference : ExtensionReferenceApplyConfiguration :=
    mkExtensionReferenceApplyConfiguration None None None None.
Definition empty_ExtensionConnection : ExtensionConnectionApplyConfiguration :=
    mkExtensionConnectionApplyConfiguration None.
Definition empty_Extension : ExtensionApplyConfiguration := mkExtensionApplyConfiguration
    empty_ExtensionReference empty_ExtensionConnection.
Definition empty_EndpointPickerConfig : EndpointPickerConfigApplyConfiguration :=
    mkEndpointPickerConfigApplyConfiguration None.
Definition empty_InferencePoolSpec : InferencePoolSpecApplyConfiguration :=
    mkInferencePoolSpecApplyConfiguration None None empty_EndpointPickerConfig.
Definition empty_PoolStatus : PoolStatusApplyConfiguration := mkPoolStatusApplyConfiguration None
    [].
Definition empty_InferencePoolStatus : InferencePoolStatusApplyConfiguration :=
    mkInferencePoolStatusApplyConfiguration [].
Definition empty_TypeMeta : TypeMetaApplyConfiguration := mkTypeMetaApplyConfiguration None None.
Definition empty_ObjectMeta : ObjectMetaApplyConfiguration := mkObjectMetaApplyConfiguration None
    None None None None None None None None None None [] [].
Definition empty_InferenceModel : InferenceModelApplyConfiguration :=
    mkInferenceModelApplyConfiguration empty_TypeMeta None None None.
Definition empty_InferencePool : InferencePoolApplyConfiguration :=
    mkInferencePoolApplyConfiguration empty_TypeMeta None None None.

(** Assignments to a field. *)
Definition set_TMAC_Name (v : option string) (b : TargetModelApplyConfiguration) :=
  mkTargetModelApplyConfiguration v (TMAC_Weight b).
Definition set_TMAC_Weight (v : option Z) (b : TargetModelApplyConfiguration) :=
  mkTargetModelApplyConfiguration (TMAC_Name b) v.
Definition set_PORAC_Group (v : option Group) (b : PoolObjectReferenceApplyConfiguration) :=
  mkPoolObjectReferenceApplyConfiguration v (PORAC_Kind b) (PORAC_Name b).
Definition set_PORAC_Kind (v : option Kind) (b : PoolObjectReferenceApplyConfiguration) :=
  mkPoolObjectReferenceApplyConfiguration (PORAC_Group b) v (PORAC_Name b).
Definition set_PORAC_Name (v : option ObjectName) (b : PoolObjectReferenceApplyConfiguration) :=
  mkPoolObjectReferenceApplyConfiguration (PORAC_Group b) (PORAC_Kind b) v.
Definition set_IMSAC_ModelName (v : option string) (b : InferenceModelSpecApplyConfiguration) :=
  mkInferenceModelSpecApplyConfiguration v (IMSAC_Criticality b) (IMSAC_TargetModels b)
    (IMSAC_PoolRef b).
Definition set_IMSAC_Criticality (v : option Criticality) (b : InferenceModelSpecApplyConfiguration)
    :=
  mkInferenceModelSpecApplyConfiguration (IMSAC_ModelName b) v (IMSAC_TargetModels b) (IMSAC_PoolRef
    b).
Definition set_IMSAC_TargetModels (v : list TargetModelApplyConfiguration) (b :
    InferenceModelSpecApplyConfiguration) :=
  mkInferenceModelSpecApplyConfiguration (IMSAC_ModelName b) (IMSAC_Criticality b) v (IMSAC_PoolRef
    b).
Definition set_IMSAC_PoolRef (v : option cfg_loc) (b : InferenceModelSpecApplyConfiguration) :=
  mkInferenceModelSpecApplyConfiguration (IMSAC_ModelName b) (IMSAC_Criticality b)
    (IMSAC_TargetModels b) v.
Definition set_IMStAC_Conditions (v : list Condition) (b : InferenceModelStatusApplyConfiguration)
    :=
  mkInferenceModelStatusApplyConfiguration v.
Definition set_ERAC_Group (v : option Group) (b : ExtensionReferenceApplyConfiguration) :=
  mkExtensionReferenceApplyConfiguration v (ERAC_Kind b) (ERAC_Name b) (ERAC_PortNumber b).
Definition set_ERAC_Kind (v : option Kind) (b : ExtensionReferenceApplyConfiguration) :=
  mkExtensionReferenceApplyConfiguration (ERAC_Group b) v (ERAC_Name b) (ERAC_PortNumber b).
Definition set_ERAC_Name (v : option ObjectName) (b : ExtensionReferenceApplyConfiguration) :=
  mkExtensionReferenceApplyConfiguration (ERAC_Group b) (ERAC_Kind b) v (ERAC_PortNumber b).
Definition set_ERAC_PortNumber (v : option PortNumber) (b : ExtensionReferenceApplyConfiguration) :=
  mkExtensionReferenceApplyConfiguration (ERAC_Group b) (ERAC_Kind b) (ERAC_Name b) v.
Definition set_ECAC_FailureMode (v : option string) (b : ExtensionConnectionApplyConfiguration) :=
  mkExtensionConnectionApplyConfiguration v.
Definition set_EAC_ExtensionReference (v : ExtensionReferenceApplyConfiguration) (b :
    ExtensionApplyConfiguration) :=
  mkExtensionApplyConfiguration v (EAC_ExtensionConnection b).
Definition set_EAC_ExtensionConnection (v : ExtensionConnectionApplyConfiguration) (b :
    ExtensionApplyConfiguration) :=
  mkExtensionApplyConfiguration (EAC_ExtensionReference b) v.
Definition set_EPCAC_ExtensionRef (v : option cfg_loc) (b : EndpointPickerConfigApplyConfiguration)
    :=
  mkEndpointPickerConfigApplyConfiguration v.
Definition set_IPSAC_Selector (v : option (gmap LabelKey LabelValue)) (b :
    InferencePoolSpecApplyConfiguration) :=
  mkInferencePoolSpecApplyConfiguration v (IPSAC_TargetPortNumber b) (IPSAC_EndpointPickerConfig b).
Definition set_IPSAC_TargetPortNumber (v : option Z) (b : InferencePoolSpecApplyConfiguration) :=
  mkInferencePoolSpecApplyConfiguration (IPSAC_Selector b) v (IPSAC_EndpointPickerConfig b).
Definition set_IPSAC_EndpointPickerConfig (v : EndpointPickerConfigApplyConfiguration) (b :
    InferencePoolSpecApplyConfiguration) :=
  mkInferencePoolSpecApplyConfiguration (IPSAC_Selector b) (IPSAC_TargetPortNumber b) v.
Definition set_PSAC_GatewayRef (v : option ObjectReference) (b : PoolStatusApplyConfiguration) :=
  mkPoolStatusApplyConfiguration v (PSAC_Conditions b).
Definition set_PSAC_Conditions (v : list Condition) (b : PoolStatusApplyConfiguration) :=
  mkPoolStatusApplyConfiguration (PSAC_GatewayRef b) v.
Definition set_IPStAC_Parents (v : list PoolStatusApplyConfiguration) (b :
    InferencePoolStatusApplyConfiguration) :=
  mkInferencePoolStatusApplyConfiguration v.
Definition set_TyMAC_Kind (v : option string) (b : TypeMetaApplyConfiguration) :=
  mkTypeMetaApplyConfiguration v (TyMAC_APIVersion b).
Definition set_TyMAC_APIVersion (v : option string) (b : TypeMetaApplyConfiguration) :=
  mkTypeMetaApplyConfiguration (TyMAC_Kind b) v.
Definition set_OMAC_Name (v : option string) (b : ObjectMetaApplyConfiguration) :=
  mkObjectMetaApplyConfiguration v (OMAC_GenerateName b) (OMAC_Namespace b) (OMAC_UID b)
    (OMAC_ResourceVersion b) (OMAC_Generation b) (OMAC_CreationTimestamp b) (OMAC_DeletionTimestamp
    b) (OMAC_DeletionGracePeriodSeconds b) (OMAC_Labels b) (OMAC_Annotations b)
    (OMAC_OwnerReferences b) (OMAC_Finalizers b).
Definition set_OMAC_GenerateName (v : option string) (b : ObjectMetaApplyConfiguration) :=
  mkObjectMetaApplyConfiguration (OMAC_Name b) v (OMAC_Namespace b) (OMAC_UID b)
    (OMAC_ResourceVersion b) (OMAC_Generation b) (OMAC_CreationTimestamp b) (OMAC_DeletionTimestamp
    b) (OMAC_DeletionGracePeriodSeconds b) (OMAC_Labels b) (OMAC_Annotations b)
    (OMAC_OwnerReferences b) (OMAC_Finalizers b).
Definition set_OMAC_Namespace (v : option string) (b : ObjectMetaApplyConfiguration) :=
  mkObjectMetaApplyConfiguration (OMAC_Name b) (OMAC_GenerateName b) v (OMAC_UID b)
    (OMAC_ResourceVersion b) (OMAC_Generation b) (OMAC_CreationTimestamp b) (OMAC_DeletionTimestamp
    b) (OMAC_DeletionGracePeriodSeconds b) (OMAC_Labels b) (OMAC_Annotations b)
    (OMAC_OwnerReferences b) (OMAC_Finalizers b).
Definition set_OMAC_UID (v : option string) (b : ObjectMetaApplyConfiguration) :=
  mkObjectMetaApplyConfiguration (OMAC_Name b) (OMAC_GenerateName b) (OMAC_Namespace b) v
    (OMAC_ResourceVersion b) (OMAC_Generation b) (OMAC_CreationTimestamp b) (OMAC_DeletionTimestamp
    b) (OMAC_DeletionGracePeriodSeconds b) (OMAC_Labels b) (OMAC_Annotations b)
    (OMAC_OwnerReferences b) (OMAC_Finalizers b).
Definition set_OMAC_ResourceVersion (v : option string) (b : ObjectMetaApplyConfiguration) :=
  mkObjectMetaApplyConfiguration (OMAC_Name b) (OMAC_GenerateName b) (OMAC_Namespace b) (OMAC_UID b)
    v (OMAC_Generation b) (OMAC_CreationTimestamp b) (OMAC_DeletionTimestamp b)
    (OMAC_DeletionGracePeriodSeconds b) (OMAC_Labels b) (OMAC_Annotations b) (OMAC_OwnerReferences
    b) (OMAC_Finalizers b).
Definition set_OMAC_Generation (v : option Z) (b : ObjectMetaApplyConfiguration) :=
  mkObjectMetaApplyConfiguration (OMAC_Name b) (OMAC_GenerateName b) (OMAC_Namespace b) (OMAC_UID b)
    (OMAC_ResourceVersion b) v (OMAC_CreationTimestamp b) (OMAC_DeletionTimestamp b)
    (OMAC_DeletionGracePeriodSeconds b) (OMAC_Labels b) (OMAC_Annotations b) (OMAC_OwnerReferences
    b) (OMAC_Finalizers b).
Definition set_OMAC_CreationTimestamp (v : option Time) (b : ObjectMetaApplyConfiguration) :=
  mkObjectMetaApplyConfiguration (OMAC_Name b) (OMAC_GenerateName b) (OMAC_Namespace b) (OMAC_UID b)
    (OMAC_ResourceVersion b) (OMAC_Generation b) v (OMAC_DeletionTimestamp b)
    (OMAC_DeletionGracePeriodSeconds b) (OMAC_Labels b) (OMAC_Annotations b) (OMAC_OwnerReferences
    b) (OMAC_Finalizers b).
Definition set_OMAC_DeletionTimestamp (v : option Time) (b : ObjectMetaApplyConfiguration) :=
  mkObjectMetaApplyConfiguration (OMAC_Name b) (OMAC_GenerateName b) (OMAC_Namespace b) (OMAC_UID b)
    (OMAC_ResourceVersion b) (OMAC_Generation b) (OMAC_CreationTimestamp b) v
    (OMAC_DeletionGracePeriodSeconds b) (OMAC_Labels b) (OMAC_Annotations b) (OMAC_OwnerReferences
    b) (OMAC_Finalizers b).
Definition set_OMAC_DeletionGracePeriodSeconds (v : option Z) (b : ObjectMetaApplyConfiguration) :=
  mkObjectMetaApplyConfiguration (OMAC_Name b) (OMAC_GenerateName b) (OMAC_Namespace b) (OMAC_UID b)
    (OMAC_ResourceVersion b) (OMAC_Generation b) (OMAC_CreationTimestamp b) (OMAC_DeletionTimestamp
    b) v (OMAC_Labels b) (OMAC_Annotations b) (OMAC_OwnerReferences b) (OMAC_Finalizers b).
Definition set_OMAC_Labels (v : option (gmap string string)) (b : ObjectMetaApplyConfiguration) :=
  mkObjectMetaApplyConfiguration (OMAC_Name b) (OMAC_GenerateName b) (OMAC_Namespace b) (OMAC_UID b)
    (OMAC_ResourceVersion b) (OMAC_Generation b) (OMAC_CreationTimestamp b) (OMAC_DeletionTimestamp
    b) (OMAC_DeletionGracePeriodSeconds b) v (OMAC_Annotations b) (OMAC_OwnerReferences b)
    (OMAC_Finalizers b).
Definition set_OMAC_Annotations (v : option (gmap string string)) (b : ObjectMetaApplyConfiguration)
    :=
  mkObjectMetaApplyConfiguration (OMAC_Name b) (OMAC_GenerateName b) (OMAC_Namespace b) (OMAC_UID b)
    (OMAC_ResourceVersion b) (OMAC_Generation b) (OMAC_CreationTimestamp b) (OMAC_DeletionTimestamp
    b) (OMAC_DeletionGracePeriodSeconds b) (OMAC_Labels b) v (OMAC_OwnerReferences b)
    (OMAC_Finalizers b).
Definition set_OMAC_OwnerReferences (v : list OwnerReference) (b : ObjectMetaApplyConfiguration) :=
  mkObjectMetaApplyConfiguration (OMAC_Name b) (OMAC_GenerateName b) (OMAC_Namespace b) (OMAC_UID b)
    (OMAC_ResourceVersion b) (OMAC_Generation b) (OMAC_CreationTimestamp b) (OMAC_DeletionTimestamp
    b) (OMAC_DeletionGracePeriodSeconds b) (OMAC_Labels b) (OMAC_Annotations b) v (OMAC_Finalizers
    b).
Definition set_OMAC_Finalizers (v : list string) (b : ObjectMetaApplyConfiguration) :=
  mkObjectMetaApplyConfiguration (OMAC_Name b) (OMAC_GenerateName b) (OMAC_Namespace b) (OMAC_UID b)
    (OMAC_ResourceVersion b) (OMAC_Generation b) (OMAC_CreationTimestamp b) (OMAC_DeletionTimestamp
    b) (OMAC_DeletionGracePeriodSeconds b) (OMAC_Labels b) (OMAC_Annotations b)
    (OMAC_OwnerReferences b) v.
Definition set_IMAC_TypeMeta (v : TypeMetaApplyConfiguration) (b : InferenceModelApplyConfiguration)
    :=
  mkInferenceModelApplyConfiguration v (IMAC_ObjectMeta b) (IMAC_Spec b) (IMAC_Status b).
Definition set_IMAC_ObjectMeta (v : option ObjectMetaApplyConfiguration) (b :
    InferenceModelApplyConfiguration) :=
  mkInferenceModelApplyConfiguration (IMAC_TypeMeta b) v (IMAC_Spec b) (IMAC_Status b).
Definition set_IMAC_Spec (v : option cfg_loc) (b : InferenceModelApplyConfiguration) :=
  mkInferenceModelApplyConfiguration (IMAC_TypeMeta b) (IMAC_ObjectMeta b) v (IMAC_Status b).
Definition set_IMAC_Status (v : option cfg_loc) (b : InferenceModelApplyConfiguration) :=
  mkInferenceModelApplyConfiguration (IMAC_TypeMeta b) (IMAC_ObjectMeta b) (IMAC_Spec b) v.
Definition set_IPAC_TypeMeta (v : TypeMetaApplyConfiguration) (b : InferencePoolApplyConfiguration)
    :=
  mkInferencePoolApplyConfiguration v (IPAC_ObjectMeta b) (IPAC_Spec b) (IPAC_Status b).
Definition set_IPAC_ObjectMeta (v : option ObjectMetaApplyConfiguration) (b :
    InferencePoolApplyConfiguration) :=
  mkInferencePoolApplyConfiguration (IPAC_TypeMeta b) v (IPAC_Spec b) (IPAC_Status b).
Definition set_IPAC_Spec (v : option cfg_loc) (b : InferencePoolApplyConfiguration) :=
  mkInferencePoolApplyConfiguration (IPAC_TypeMeta b) (IPAC_ObjectMeta b) v (IPAC_Status b).
Definition set_IPAC_Status (v : option cfg_loc) (b : InferencePoolApplyConfiguration) :=
  mkInferencePoolApplyConfiguration (IPAC_TypeMeta b) (IPAC_ObjectMeta b) (IPAC_Spec b) v.

(** Assignments inside an embedded struct. *)
Definition in_EAC_ExtensionReference (g : ExtensionReferenceApplyConfiguration →
    ExtensionReferenceApplyConfiguration) (b : ExtensionApplyConfiguration) :=
  set_EAC_ExtensionReference (g (EAC_ExtensionReference b)) b.
Definition in_EAC_ExtensionConnection (g : ExtensionConnectionApplyConfiguration →
    ExtensionConnectionApplyConfiguration) (b : ExtensionApplyConfiguration) :=
  set_EAC_ExtensionConnection (g (EAC_ExtensionConnection b)) b.
Definition in_IPSAC_EndpointPickerConfig (g : EndpointPickerConfigApplyConfiguration →
    EndpointPickerConfigApplyConfiguration) (b : InferencePoolSpecApplyConfiguration) :=
  set_IPSAC_EndpointPickerConfig (g (IPSAC_EndpointPickerConfig b)) b.
Definition in_IMAC_TypeMeta (g : TypeMetaApplyConfiguration → TypeMetaApplyConfiguration) (b :
    InferenceModelApplyConfiguration) :=
  set_IMAC_TypeMeta (g (IMAC_TypeMeta b)) b.
Definition in_IPAC_TypeMeta (g : TypeMetaApplyConfiguration → TypeMetaApplyConfiguration) (b :
    InferencePoolApplyConfiguration) :=
  set_IPAC_TypeMeta (g (IPAC_TypeMeta b)) b.

(** ** The heap *)

Inductive config :=
  | CTargetModel (b : TargetModelApplyConfiguration)
  | CPoolObjectReference (b : PoolObjectReferenceApplyConfiguration)
  | CInferenceModelSpec (b : InferenceModelSpecApplyConfiguration)
  | CInferenceModelStatus (b : InferenceModelStatusApplyConfiguration)
  | CExtensionReference (b : ExtensionReferenceApplyConfiguration)
  | CExtensionConnection (b : ExtensionConnectionApplyConfiguration)
  | CExtension (b : ExtensionApplyConfiguration)
  | CEndpointPickerConfig (b : EndpointPickerConfigApplyConfiguration)
  | CInferencePoolSpec (b : InferencePoolSpecApplyConfiguration)
  | CPoolStatus (b : PoolStatusApplyConfiguration)
  | CInferencePoolStatus (b : InferencePoolStatusApplyConfiguration)
  | CInferenceModel (b : InferenceModelApplyConfiguration)
  | CInferencePool (b : InferencePoolApplyConfiguration).

Abbreviation config_heap := (gmap cfg_loc config).

(** The configurations a cell can hold. *)
Class Config (A : Type) := {
  put : A → config;
  get : config → option A;
  get_put : ∀ a, get (put a) = Some a
}.

#[global] Instance config_TargetModel : Config TargetModelApplyConfiguration :=
  {| put := CTargetModel; get := λ c, match c with CTargetModel b => Some b | _ => None end; get_put
    := λ b, eq_refl |}.
#[global] Instance config_PoolObjectReference : Config PoolObjectReferenceApplyConfiguration :=
  {| put := CPoolObjectReference; get := λ c, match c with CPoolObjectReference b => Some b | _ =>
    None end; get_put := λ b, eq_refl |}.
#[global] Instance config_InferenceModelSpec : Config InferenceModelSpecApplyConfiguration :=
  {| put := CInferenceModelSpec; get := λ c, match c with CInferenceModelSpec b => Some b | _ =>
    None end; get_put := λ b, eq_refl |}.
#[global] Instance config_InferenceModelStatus : Config InferenceModelStatusApplyConfiguration :=
  {| put := CInferenceModelStatus; get := λ c, match c with CInferenceModelStatus b => Some b | _ =>
    None end; get_put := λ b, eq_refl |}.
#[global] Instance config_ExtensionReference : Config ExtensionReferenceApplyConfiguration :=
  {| put := CExtensionReference; get := λ c, match c with CExtensionReference b => Some b | _ =>
    None end; get_put := λ b, eq_refl |}.
#[global] Instance config_ExtensionConnection : Config ExtensionConnectionApplyConfiguration :=
  {| put := CExtensionConnection; get := λ c, match c with CExtensionConnection b => Some b | _ =>
    None end; get_put := λ b, eq_refl |}.
#[global] Instance config_Extension : Config ExtensionApplyConfiguration :=
  {| put := CExtension; get := λ c, match c with CExtension b => Some b | _ => None end; get_put :=
    λ b, eq_refl |}.
#[global] Instance config_EndpointPickerConfig : Config EndpointPickerConfigApplyConfiguration :=
  {| put := CEndpointPickerConfig; get := λ c, match c with CEndpointPickerConfig b => Some b | _ =>
    None end; get_put := λ b, eq_refl |}.
#[global] Instance config_InferencePoolSpec : Config InferencePoolSpecApplyConfiguration :=
  {| put := CInferencePoolSpec; get := λ c, match c with CInferencePoolSpec b => Some b | _ => None
    end; get_put := λ b, eq_refl |}.
#[global] Instance config_PoolStatus : Config PoolStatusApplyConfiguration :=
  {| put := CPoolStatus; get := λ c, match c with CPoolStatus b => Some b | _ => None end; get_put
    := λ b, eq_refl |}.
#[global] Instance config_InferencePoolStatus : Config InferencePoolStatusApplyConfiguration :=
  {| put := CInferencePoolStatus; get := λ c, match c with CInferencePoolStatus b => Some b | _ =>
    None end; get_put := λ b, eq_refl |}.
#[global] Instance config_InferenceModel : Config InferenceModelApplyConfiguration :=
  {| put := CInferenceModel; get := λ c, match c with CInferenceModel b => Some b | _ => None end;
    get_put := λ b, eq_refl |}.
#[global] Instance config_InferencePool : Config InferencePoolApplyConfiguration :=
  {| put := CInferencePool; get := λ c, match c with CInferencePool b => Some b | _ => None end;
    get_put := λ b, eq_refl |}.

(** Code on the heap: a panic keeps what was written before it. *)
Definition applyM (A : Type) : Type := config_heap → outcome A * config_heap.

#[global] Instance applyM_ret : MRet applyM := λ A a h, (Val a, h).
#[global] Instance applyM_bind : MBind applyM := λ A B f m h,
  match m h with (Val a, h') => f a h' | (Panic p, h') => (Panic p, h') end.

(** A method that returns its receiver. *)
Definition builder : Type := cfg_loc → applyM cfg_loc.

Definition raise {A} (p : panic) : applyM A := λ h, (Panic p, h).

Definition load {A} `{!Config A} (l : cfg_loc) : applyM A := λ h,
  match h !! l ≫= get with Some a => (Val a, h) | None => (Panic NilDereference, h) end.

Definition store {A} `{!Config A} (l : cfg_loc) (a : A) : applyM () := λ h, (Val (), <[l := put a]>
    h).

(** [&T{}]. *)
Definition new {A} `{!Config A} (a : A) : applyM cfg_loc := λ h,
  let l := fresh (dom h) in (Val l, <[l := put a]> h).

(** A method that changes its receiver and returns it. *)
Definition update {A} `{!Config A} (f : A → outcome A) : builder := λ l,
  a ← load l;
  match f a with
  | Val a' => _ ← store l a'; mret l
  | Panic p => raise p
  end.

Definition modify {A} `{!Config A} (f : A → A) : builder := update (λ a, Val (f a)).

(** [for i := range values { if values[i] == nil { panic(msg) }; append *values[i] }]. *)
Fixpoint append_each {A V E} `{!Config A} (msg : string) (fetch : V → applyM E) (add : E → A → A)
    (values : list (option V)) : builder := λ l,
  match values with
  | [] => mret l
  | None :: _ => raise (ExplicitPanic msg)
  | Some v :: values =>
      e ← fetch v;
      _ ← modify (add e) l;
      append_each msg fetch add values l
  end.

(** [m[k] = v] for the entries: the map is made when there is none and something to put;
    assignment to a nil map panics. *)
Definition put_entries `{MapOrder} {K V} `{Countable K} (entries : gmap K V) (m : option (gmap K V))
  : outcome (option (gmap K V)) :=
  let m := match m with
           | None => if (0 <? size entries)%nat then Some ∅ else None
           | Some m => Some m
           end in
  foldl (λ acc kv,
           m ← acc;
           match m with
           | Some m => Val (Some (<[kv.1 := kv.2]> m))
           | None => Panic NilMapAssignment
           end) (Val m) (map_range entries).

(** ** Builders *)

(** *** targetmodel.go *)

Definition TargetModel : applyM cfg_loc := new empty_TargetModel.
Definition TargetModel_WithName (value : string) : builder :=
  modify (set_TMAC_Name (Some value)).
Definition TargetModel_WithWeight (value : Z) : builder :=
  modify (set_TMAC_Weight (Some value)).

(** *** poolobjectreference.go *)

Definition PoolObjectReference : applyM cfg_loc := new empty_PoolObjectReference.
Definition PoolObjectReference_WithGroup (value : Group) : builder :=
  modify (set_PORAC_Group (Some value)).
Definition PoolObjectReference_WithKind (value : Kind) : builder :=
  modify (set_PORAC_Kind (Some value)).
Definition PoolObjectReference_WithName (value : ObjectName) : builder :=
  modify (set_PORAC_Name (Some value)).

(** *** inferencemodelspec.go *)

Definition InferenceModelSpec : applyM cfg_loc := new empty_InferenceModelSpec.
Definition InferenceModelSpec_WithModelName (value : string) : builder :=
  modify (set_IMSAC_ModelName (Some value)).
Definition InferenceModelSpec_WithCriticality (value : Criticality) : builder :=
  modify (set_IMSAC_Criticality (Some value)).
Definition InferenceModelSpec_WithTargetModels (values : list (option cfg_loc)) : builder :=
  append_each "nil value passed to WithTargetModels" load
    (λ (t : TargetModelApplyConfiguration) b, set_IMSAC_TargetModels (IMSAC_TargetModels b ++ [t])
      b)
    values.
Definition InferenceModelSpec_WithPoolRef (value : option cfg_loc) : builder :=
  modify (set_IMSAC_PoolRef value).

(** *** inferencemodelstatus.go *)

Definition InferenceModelStatus : applyM cfg_loc := new empty_InferenceModelStatus.
Definition InferenceModelStatus_WithConditions (values : list (option Condition)) : builder :=
  append_each "nil value passed to WithConditions" mret
    (λ c b, set_IMStAC_Conditions (IMStAC_Conditions b ++ [c]) b) values.

(** *** extensionreference.go *)

Definition ExtensionReference : applyM cfg_loc := new empty_ExtensionReference.
Definition ExtensionReference_WithGroup (value : Group) : builder :=
  modify (set_ERAC_Group (Some value)).
Definition ExtensionReference_WithKind (value : Kind) : builder :=
  modify (set_ERAC_Kind (Some value)).
Definition ExtensionReference_WithName (value : ObjectName) : builder :=
  modify (set_ERAC_Name (Some value)).
Definition ExtensionReference_WithPortNumber (value : PortNumber) : builder :=
  modify (set_ERAC_PortNumber (Some value)).

(** *** extensionconnection.go *)

Definition ExtensionConnection : applyM cfg_loc := new empty_ExtensionConnection.
Definition ExtensionConnection_WithFailureMode (value : string) : builder :=
  modify (set_ECAC_FailureMode (Some value)).

(** *** extension.go *)

Definition Extension : applyM cfg_loc := new empty_Extension.
Definition Extension_WithGroup (value : Group) : builder :=
  modify (in_EAC_ExtensionReference (set_ERAC_Group (Some value))).
Definition Extension_WithKind (value : Kind) : builder :=
  modify (in_EAC_ExtensionReference (set_ERAC_Kind (Some value))).
Definition Extension_WithName (value : ObjectName) : builder :=
  modify (in_EAC_ExtensionReference (set_ERAC_Name (Some value))).
Definition Extension_WithPortNumber (value : PortNumber) : builder :=
  modify (in_EAC_ExtensionReference (set_ERAC_PortNumber (Some value))).
Definition Extension_WithFailureMode (value : string) : builder :=
  modify (in_EAC_ExtensionConnection (set_ECAC_FailureMode (Some value))).

(** *** endpointpickerconfig.go *)

Definition EndpointPickerConfig : applyM cfg_loc := new empty_EndpointPickerConfig.
Definition EndpointPickerConfig_WithExtensionRef (value : option cfg_loc) : builder :=
  modify (set_EPCAC_ExtensionRef value).

(** *** inferencepoolspec.go *)

Definition InferencePoolSpec : applyM cfg_loc := new empty_InferencePoolSpec.
Definition InferencePoolSpec_WithSelector `{MapOrder} (entries : gmap LabelKey LabelValue)
  : builder :=
  update (λ b, m ← put_entries entries (IPSAC_Selector b); Val (set_IPSAC_Selector m b)).
Definition InferencePoolSpec_WithTargetPortNumber (value : Z) : builder :=
  modify (set_IPSAC_TargetPortNumber (Some value)).
Definition InferencePoolSpec_WithExtensionRef (value : option cfg_loc) : builder :=
  modify (in_IPSAC_EndpointPickerConfig (set_EPCAC_ExtensionRef value)).

(** *** poolstatus.go *)

Definition PoolStatus : applyM cfg_loc := new empty_PoolStatus.
Definition PoolStatus_WithGatewayRef (value : ObjectReference) : builder :=
  modify (set_PSAC_GatewayRef (Some value)).
Definition PoolStatus_WithConditions (values : list (option Condition)) : builder :=
  append_each "nil value passed to WithConditions" mret
    (λ c b, set_PSAC_Conditions (PSAC_Conditions b ++ [c]) b) values.

(** *** inferencepoolstatus.go *)

Definition InferencePoolStatus : applyM cfg_loc := new empty_InferencePoolStatus.
Definition InferencePoolStatus_WithParents (values : list (option cfg_loc)) : builder :=
  append_each "nil value passed to WithParents" load
    (λ (s : PoolStatusApplyConfiguration) b, set_IPStAC_Parents (IPStAC_Parents b ++ [s]) b) values.

(** *** Metadata *)

(** [b.ObjectMetaApplyConfiguration] after [ensureObjectMetaApplyConfigurationExists]. *)
Definition ensured (m : option ObjectMetaApplyConfiguration) : ObjectMetaApplyConfiguration :=
  default empty_ObjectMeta m.

(** *** inferencemodel.go *)

Definition InferenceModel_ensureObjectMetaApplyConfigurationExists (b :
    InferenceModelApplyConfiguration) : InferenceModelApplyConfiguration :=
  set_IMAC_ObjectMeta (Some (ensured (IMAC_ObjectMeta b))) b.

Definition InferenceModel_with_meta (f : ObjectMetaApplyConfiguration → outcome
    ObjectMetaApplyConfiguration)
  : builder :=
  update (λ b, m ← f (ensured (IMAC_ObjectMeta b)); Val (set_IMAC_ObjectMeta (Some m) b)).

Definition InferenceModel_WithKind (value : string) : builder :=
  modify (in_IMAC_TypeMeta (set_TyMAC_Kind (Some value))).
Definition InferenceModel_WithAPIVersion (value : string) : builder :=
  modify (in_IMAC_TypeMeta (set_TyMAC_APIVersion (Some value))).
Definition InferenceModel_WithName (value : string) : builder :=
  InferenceModel_with_meta (λ m, Val (set_OMAC_Name (Some value) m)).
Definition InferenceModel_WithGenerateName (value : string) : builder :=
  InferenceModel_with_meta (λ m, Val (set_OMAC_GenerateName (Some value) m)).
Definition InferenceModel_WithNamespace (value : string) : builder :=
  InferenceModel_with_meta (λ m, Val (set_OMAC_Namespace (Some value) m)).
Definition InferenceModel_WithUID (value : string) : builder :=
  InferenceModel_with_meta (λ m, Val (set_OMAC_UID (Some value) m)).
Definition InferenceModel_WithResourceVersion (value : string) : builder :=
  InferenceModel_with_meta (λ m, Val (set_OMAC_ResourceVersion (Some value) m)).
Definition InferenceModel_WithGeneration (value : Z) : builder :=
  InferenceModel_with_meta (λ m, Val (set_OMAC_Generation (Some value) m)).
Definition InferenceModel_WithCreationTimestamp (value : Time) : builder :=
  InferenceModel_with_meta (λ m, Val (set_OMAC_CreationTimestamp (Some value) m)).
Definition InferenceModel_WithDeletionTimestamp (value : Time) : builder :=
  InferenceModel_with_meta (λ m, Val (set_OMAC_DeletionTimestamp (Some value) m)).
Definition InferenceModel_WithDeletionGracePeriodSeconds (value : Z) : builder :=
  InferenceModel_with_meta (λ m, Val (set_OMAC_DeletionGracePeriodSeconds (Some value) m)).
Definition InferenceModel_WithLabels `{MapOrder} (entries : gmap string string) : builder :=
  InferenceModel_with_meta (λ m, e ← put_entries entries (OMAC_Labels m);
    Val (set_OMAC_Labels e m)).
Definition InferenceModel_WithAnnotations `{MapOrder} (entries : gmap string string) : builder :=
  InferenceModel_with_meta (λ m, e ← put_entries entries (OMAC_Annotations m);
    Val (set_OMAC_Annotations e m)).
Definition InferenceModel_WithOwnerReferences (values : list (option OwnerReference)) : builder :=
  λ l, _ ← modify InferenceModel_ensureObjectMetaApplyConfigurationExists l;
  append_each "nil value passed to WithOwnerReferences" mret
    (λ r b, set_IMAC_ObjectMeta (Some (let m := ensured (IMAC_ObjectMeta b) in
      set_OMAC_OwnerReferences (OMAC_OwnerReferences m ++ [r]) m)) b)
    values l.
Definition InferenceModel_WithFinalizers (values : list string) : builder :=
  InferenceModel_with_meta (λ m, Val (set_OMAC_Finalizers (OMAC_Finalizers m ++ values) m)).
Definition InferenceModel_WithSpec (value : option cfg_loc) : builder :=
  modify (set_IMAC_Spec value).
Definition InferenceModel_WithStatus (value : option cfg_loc) : builder :=
  modify (set_IMAC_Status value).

(** [GetName] also makes the metadata exist. *)
Definition InferenceModel_GetName (l : cfg_loc) : applyM (option string) :=
  _ ← modify InferenceModel_ensureObjectMetaApplyConfigurationExists l;
  b ← load l;
  mret (IMAC_ObjectMeta b ≫= OMAC_Name).

Definition InferenceModel (name namespace : string) : applyM cfg_loc :=
  b ← new empty_InferenceModel;
  _ ← InferenceModel_WithName name b;
  _ ← InferenceModel_WithNamespace namespace b;
  _ ← InferenceModel_WithKind "InferenceModel" b;
  _ ← InferenceModel_WithAPIVersion "inference.networking.x-k8s.io/v1alpha2" b;
  mret b.

(** *** inferencepool.go *)

Definition InferencePool_ensureObjectMetaApplyConfigurationExists (b :
    InferencePoolApplyConfiguration) : InferencePoolApplyConfiguration :=
  set_IPAC_ObjectMeta (Some (ensured (IPAC_ObjectMeta b))) b.

Definition InferencePool_with_meta (f : ObjectMetaApplyConfiguration → outcome
    ObjectMetaApplyConfiguration)
  : builder :=
  update (λ b, m ← f (ensured (IPAC_ObjectMeta b)); Val (set_IPAC_ObjectMeta (Some m) b)).

Definition InferencePool_WithKind (value : string) : builder :=
  modify (in_IPAC_TypeMeta (set_TyMAC_Kind (Some value))).
Definition InferencePool_WithAPIVersion (value : string) : builder :=
  modify (in_IPAC_TypeMeta (set_TyMAC_APIVersion (Some value))).
Definition InferencePool_WithName (value : string) : builder :=
  InferencePool_with_meta (λ m, Val (set_OMAC_Name (Some value) m)).
Definition InferencePool_WithGenerateName (value : string) : builder :=
  InferencePool_with_meta (λ m, Val (set_OMAC_GenerateName (Some value) m)).
Definition InferencePool_WithNamespace (value : string) : builder :=
  InferencePool_with_meta (λ m, Val (set_OMAC_Namespace (Some value) m)).
Definition InferencePool_WithUID (value : string) : builder :=
  InferencePool_with_meta (λ m, Val (set_OMAC_UID (Some value) m)).
Definition InferencePool_WithResourceVersion (value : string) : builder :=
  InferencePool_with_meta (λ m, Val (set_OMAC_ResourceVersion (Some value) m)).
Definition InferencePool_WithGeneration (value : Z) : builder :=
  InferencePool_with_meta (λ m, Val (set_OMAC_Generation (Some value) m)).
Definition InferencePool_WithCreationTimestamp (value : Time) : builder :=
  InferencePool_with_meta (λ m, Val (set_OMAC_CreationTimestamp (Some value) m)).
Definition InferencePool_WithDeletionTimestamp (value : Time) : builder :=
  InferencePool_with_meta (λ m, Val (set_OMAC_DeletionTimestamp (Some value) m)).
Definition InferencePool_WithDeletionGracePeriodSeconds (value : Z) : builder :=
  InferencePool_with_meta (λ m, Val (set_OMAC_DeletionGracePeriodSeconds (Some value) m)).
Definition InferencePool_WithLabels `{MapOrder} (entries : gmap string string) : builder :=
  InferencePool_with_meta (λ m, e ← put_entries entries (OMAC_Labels m);
    Val (set_OMAC_Labels e m)).
Definition InferencePool_WithAnnotations `{MapOrder} (entries : gmap string string) : builder :=
  InferencePool_with_meta (λ m, e ← put_entries entries (OMAC_Annotations m);
    Val (set_OMAC_Annotations e m)).
Definition InferencePool_WithOwnerReferences (values : list (option OwnerReference)) : builder :=
  λ l, _ ← modify InferencePool_ensureObjectMetaApplyConfigurationExists l;
  append_each "nil value passed to WithOwnerReferences" mret
    (λ r b, set_IPAC_ObjectMeta (Some (let m := ensured (IPAC_ObjectMeta b) in
      set_OMAC_OwnerReferences (OMAC_OwnerReferences m ++ [r]) m)) b)
    values l.
Definition InferencePool_WithFinalizers (values : list string) : builder :=
  InferencePool_with_meta (λ m, Val (set_OMAC_Finalizers (OMAC_Finalizers m ++ values) m)).
Definition InferencePool_WithSpec (value : option cfg_loc) : builder :=
  modify (set_IPAC_Spec value).
Definition InferencePool_WithStatus (value : option cfg_loc) : builder :=
  modify (set_IPAC_Status value).

(** [GetName] also makes the metadata exist. *)
Definition InferencePool_GetName (l : cfg_loc) : applyM (option string) :=
  _ ← modify InferencePool_ensureObjectMetaApplyConfigurationExists l;
  b ← load l;
  mret (IPAC_ObjectMeta b ≫= OMAC_Name).

Definition InferencePool (name namespace : string) : applyM cfg_loc :=
  b ← new empty_InferencePool;
  _ ← InferencePool_WithName name b;
  _ ← InferencePool_WithNamespace namespace b;
  _ ← InferencePool_WithKind "InferencePool" b;
  _ ← InferencePool_WithAPIVersion "inference.networking.x-k8s.io/v1alpha2" b;
  mret b.

(** ** utils.go *)

Record GroupVersionKind := mkGVK { gvk_Group : string; gvk_Version : string; gvk_Kind : string }.

(** [v1alpha2.SchemeGroupVersion.WithKind]. *)
Definition v1alpha2_kind (kind : string) : GroupVersionKind :=
  mkGVK "inference.networking.x-k8s.io" "v1alpha2" kind.

#[global] Instance GroupVersionKind_eq_dec : EqDecision GroupVersionKind.
Proof. solve_decision. Defined.

(** The kinds with the configuration each stands for, in the order of the switch. *)
Definition kinds : list (GroupVersionKind * config) :=
  [(v1alpha2_kind "EndpointPickerConfig", CEndpointPickerConfig empty_EndpointPickerConfig);
   (v1alpha2_kind "Extension", CExtension empty_Extension);
   (v1alpha2_kind "ExtensionConnection", CExtensionConnection empty_ExtensionConnection);
   (v1alpha2_kind "ExtensionReference", CExtensionReference empty_ExtensionReference);
   (v1alpha2_kind "InferenceModel", CInferenceModel empty_InferenceModel);
   (v1alpha2_kind "InferenceModelSpec", CInferenceModelSpec empty_InferenceModelSpec);
   (v1alpha2_kind "InferenceModelStatus", CInferenceModelStatus empty_InferenceModelStatus);
   (v1alpha2_kind "InferencePool", CInferencePool empty_InferencePool);
   (v1alpha2_kind "InferencePoolSpec", CInferencePoolSpec empty_InferencePoolSpec);
   (v1alpha2_kind "InferencePoolStatus", CInferencePoolStatus empty_InferencePoolStatus);
   (v1alpha2_kind "PoolObjectReference", CPoolObjectReference empty_PoolObjectReference);
   (v1alpha2_kind "PoolStatus", CPoolStatus empty_PoolStatus);
   (v1alpha2_kind "TargetModel", CTargetModel empty_TargetModel)].

Fixpoint switch_kind (kind : GroupVersionKind) (cases : list (GroupVersionKind * config)) : option
    config :=
  match cases with
  | [] => None
  | (k, c) :: cases => if bool_decide (kind = k) then Some c else switch_kind kind cases
  end.

Definition ForKind (kind : GroupVersionKind) : option config := switch_kind kind kinds.
End configurations.
