(* ===== verification/ApplyConfigProofs.v ===== *)
(** * Theorems on apply configurations

    A chain of builder calls has the effect the comments of the builders promise: the
    last value of a field set by pointer, the concatenation of the values of a list, the
    union of the entries of a map with later calls winning; nothing but the receiver
    changes, and only a nil among list values panics.  Nested configurations are shared,
    list elements are not. *)

From S2P Require Import Prelude GoInt Api ApplyConfig.

Local Open Scope Z_scope.

Section proofs.
Context {Condition OwnerReference ObjectReference : Type}.

Abbreviation cfg := (@config Condition OwnerReference ObjectReference).
Abbreviation chp := (gmap cfg_loc cfg).
Implicit Types (h : chp) (l : cfg_loc).

(** ** Heap steps *)

Lemma update_spec {A} `{!@Config Condition OwnerReference ObjectReference A} (f : A → outcome A) l h a :
  h !! l ≫= get = Some a →
  update f l h = match f a with Val a' => (Val l, <[l := put a']> h) | Panic p => (Panic p, h) end.
Proof.
  intros Hl. unfold update, mbind, applyM_bind, load. rewrite Hl.
  by destruct (f a).
Qed.

Lemma modify_spec {A} `{!@Config Condition OwnerReference ObjectReference A} (f : A → A) l h a :
  h !! l ≫= get = Some a → modify f l h = (Val l, <[l := put (f a)]> h).
Proof. intros Hl. unfold modify. by rewrite (update_spec _ _ _ _ Hl). Qed.

(** The entries of a map: the union, later calls first. *)
Lemma put_entries_spec `{MapOrder} {K V} `{Countable K} (entries : gmap K V) (m : option (gmap K V)) :
  put_entries entries m = Val (if decide (entries = ∅) then m else Some (entries ∪ default ∅ m)).
Proof.
  unfold put_entries.
  assert (∀ (es : list (K * V)) (m : gmap K V), foldl (λ acc kv,
      m ← acc; match m with Some m => Val (Some (<[kv.1 := kv.2]> m)) | None => Panic NilMapAssignment end)
      (Val (Some m)) es = Val (Some (foldl (λ m kv, <[kv.1 := kv.2]> m) m es))) as Hfold.
  { induction es as [|kv es IH]; intros m'; [done|]. simpl. apply IH. }
  assert (map_range entries = [] → entries = ∅) as Hnil by apply map_range_nil_inv.
  case_decide as He.
  - assert (map_range entries = []) as ->.
    { apply nil_length_inv. by rewrite map_range_length, He, map_size_empty. }
    rewrite He, map_size_empty. simpl. by destruct m.
  - assert (∃ m', match m with None => if (0 <? size entries)%nat then Some ∅ else None | Some m => Some m end
            = Some m' ∧ m' = default ∅ m) as (m' & -> & ->).
    { destruct m as [m|]; simpl; [eauto|]. exists ∅. split; [|done].
      rewrite <-map_size_empty_iff in He. destruct (Nat.ltb_spec 0 (size entries)); [done|lia]. }
    rewrite Hfold. do 2 f_equal. rewrite foldl_insert_union by apply map_range_NoDup. f_equal.
    rewrite <-(foldl_insert_range entries) at 2.
    rewrite foldl_insert_union, (right_id_L ∅ (∪)) by apply map_range_NoDup. done.
Qed.

(** ** Chains of calls on the spec of a model *)

Inductive spec_call :=
  | CallModelName (value : string)
  | CallCriticality (value : Criticality)
  | CallTargetModels (values : list (option cfg_loc))
  | CallPoolRef (value : option cfg_loc).

Definition spec_builder (c : spec_call) : @builder Condition OwnerReference ObjectReference :=
  match c with
  | CallModelName v => InferenceModelSpec_WithModelName v
  | CallCriticality v => InferenceModelSpec_WithCriticality v
  | CallTargetModels vs => InferenceModelSpec_WithTargetModels vs
  | CallPoolRef v => InferenceModelSpec_WithPoolRef v
  end.

Fixpoint chain (cs : list spec_call) : @builder Condition OwnerReference ObjectReference := λ l,
  match cs with
  | [] => mret l
  | c :: cs => l' ← spec_builder c l; chain cs l'
  end.

(** What a chain promises, field by field. *)
Definition last_value {A} (values : list A) (old : option A) : option A :=
  match last values with Some v => Some v | None => old end.

Definition model_names (cs : list spec_call) : list string :=
  omap (λ c, match c with CallModelName v => Some v | _ => None end) cs.
Definition criticalities (cs : list spec_call) : list Criticality :=
  omap (λ c, match c with CallCriticality v => Some v | _ => None end) cs.
Definition targets (cs : list spec_call) : list (option cfg_loc) :=
  cs ≫= (λ c, match c with CallTargetModels vs => vs | _ => [] end).
Definition pool_refs (cs : list spec_call) : list (option cfg_loc) :=
  omap (λ c, match c with CallPoolRef v => Some v | _ => None end) cs.

(** The target models that the pointers of a chain lead to. *)
Definition target_at h (p : option cfg_loc) : option TargetModelApplyConfiguration :=
  l ← p; c ← h !! l; get c.

Definition chained (s : InferenceModelSpecApplyConfiguration) (cs : list spec_call)
    (ts : list TargetModelApplyConfiguration) : InferenceModelSpecApplyConfiguration :=
  mkInferenceModelSpecApplyConfiguration
    (last_value (model_names cs) (IMSAC_ModelName s))
    (last_value (criticalities cs) (IMSAC_Criticality s))
    (IMSAC_TargetModels s ++ ts)
    (default (IMSAC_PoolRef s) (last (pool_refs cs))).

Lemma last_value_cons {A} (v : A) vs old : last_value (v :: vs) old = last_value vs (Some v).
Proof. unfold last_value. rewrite last_cons. by destruct (last vs). Qed.

Lemma last_default_cons {A} (v : A) vs old : default old (last (v :: vs)) = default v (last vs).
Proof. rewrite last_cons. by destruct (last vs). Qed.

(** A cell that holds a target model is not that of a spec. *)
Lemma target_at_insert h l (s s' : InferenceModelSpecApplyConfiguration) p :
  h !! l = Some (put s) → target_at (<[l := put s']> h) p = target_at h p.
Proof.
  intros Hl. destruct p as [lp|]; [|done]. cbn [target_at mbind option_bind].
  destruct (decide (lp = l)) as [->|Hne].
  - by rewrite lookup_insert_eq, Hl.
  - by rewrite lookup_insert_ne.
Qed.

Lemma mapM_target_insert h l (s s' : InferenceModelSpecApplyConfiguration) ps :
  h !! l = Some (put s) → mapM (target_at (<[l := put s']> h)) ps = mapM (target_at h) ps.
Proof.
  intros Hl. apply mapM_ext. intros p. by eapply target_at_insert.
Qed.

(** The pointers before the first nil are appended; then the builder panics. *)
Lemma WithTargetModels_spec vs l h s ts rest :
  h !! l = Some (put s) → mapM (target_at h) vs = Some ts → rest = [] ∨ head rest = Some None →
  InferenceModelSpec_WithTargetModels (vs ++ rest) l h
  = (match rest with [] => Val l | _ => Panic (ExplicitPanic "nil value passed to WithTargetModels") end,
     <[l := put (set_IMSAC_TargetModels (IMSAC_TargetModels s ++ ts) s)]> h).
Proof.
  intros Hl Hts Hrest. unfold InferenceModelSpec_WithTargetModels. revert h s ts Hl Hts.
  induction vs as [|v vs IH]; intros h s ts Hl Hts.
  { simplify_option_eq. rewrite app_nil_r.
    assert (set_IMSAC_TargetModels (IMSAC_TargetModels s) s = s) as -> by by destruct s.
    rewrite insert_id by done. destruct rest as [|[r|] rest]; [done| |done]. by destruct Hrest. }
  simpl in Hts. destruct (target_at h v) as [t|] eqn:Hv; [|done].
  destruct (mapM (target_at h) vs) as [ts'|] eqn:Hvs; [|done]. simplify_option_eq.
  destruct v as [lv|]; [|done]. simpl app. simpl append_each.
  unfold mbind at 1, applyM_bind at 1, load at 1.
  assert (h !! lv ≫= get = Some t) as -> by done.
  unfold mbind at 1, applyM_bind at 1. rewrite (modify_spec _ _ _ s) by (by rewrite Hl).
  erewrite IH; [|apply lookup_insert_eq|by rewrite (mapM_target_insert _ _ _ _ _ Hl)].
  rewrite insert_insert_eq. simpl. by rewrite <-(assoc_L (++)).
Qed.

Lemma mapM_app_Some {A B} (f : A → option B) xs ys ts :
  mapM f (xs ++ ys) = Some ts →
  ∃ ts1 ts2, mapM f xs = Some ts1 ∧ mapM f ys = Some ts2 ∧ ts = ts1 ++ ts2.
Proof.
  rewrite !mapM_Some. intros Hf. apply Forall2_app_inv_l in Hf as (ts1 & ts2 & H1 & H2 & ->).
  exists ts1, ts2. by rewrite !mapM_Some.
Qed.

(** One call, on a spec whose target pointers are good. *)
Lemma spec_builder_spec c l h s ts :
  h !! l = Some (put s) → mapM (target_at h) (targets [c]) = Some ts →
  spec_builder c l h = (Val l, <[l := put (chained s [c] ts)]> h).
Proof.
  intros Hl Hts. assert (h !! l ≫= get = Some s) as Hg by (by rewrite Hl).
  destruct c as [v|v|vs|v]; simpl in Hts |- *.
  3:{ rewrite app_nil_r in Hts. rewrite <-(app_nil_r vs).
      by rewrite (WithTargetModels_spec _ _ _ _ _ [] Hl Hts) by (by left). }
  all: injection Hts as <-; unfold chained; simpl; rewrite app_nil_r.
  all: unfold InferenceModelSpec_WithModelName, InferenceModelSpec_WithCriticality,
    InferenceModelSpec_WithPoolRef; by rewrite (modify_spec _ _ _ _ Hg).
Qed.

Lemma chained_cons s c cs ts1 ts2 :
  chained (chained s [c] ts1) cs ts2 = chained s (c :: cs) (ts1 ++ ts2).
Proof.
  unfold chained. destruct c; simpl; rewrite ?last_value_cons, ?last_default_cons, <-(assoc_L (++)); done.
Qed.

Lemma chain_spec cs l h s ts :
  h !! l = Some (put s) → mapM (target_at h) (targets cs) = Some ts →
  chain cs l h = (Val l, <[l := put (chained s cs ts)]> h).
Proof.
  revert h s ts. induction cs as [|c cs IH]; intros h s ts Hl Hts.
  { simpl in Hts. simplify_option_eq. unfold chained. simpl. rewrite app_nil_r, insert_id; [done|].
    rewrite Hl. by destruct s. }
  assert (targets (c :: cs) = targets [c] ++ targets cs) as Hcs by (simpl; by rewrite app_nil_r).
  rewrite Hcs in Hts. apply mapM_app_Some in Hts as (ts1 & ts2 & Hts1 & Hts2 & ->).
  simpl. unfold mbind, applyM_bind. rewrite (spec_builder_spec _ _ _ _ _ Hl Hts1).
  erewrite IH; [|apply lookup_insert_eq|by rewrite (mapM_target_insert _ _ _ _ _ Hl)].
  by rewrite insert_insert_eq, chained_cons.
Qed.

Lemma chain_app cs1 cs2 l h :
  chain (cs1 ++ cs2) l h
  = match chain cs1 l h with (Val l', h') => chain cs2 l' h' | (Panic p, h') => (Panic p, h') end.
Proof.
  revert l h. induction cs1 as [|c cs1 IH]; intros l h; [done|].
  simpl. unfold mbind, applyM_bind. destruct (spec_builder c l h) as [[l'|p] h']; [apply IH|done].
Qed.

(** The spec seen through a model configuration. *)
Definition model_spec h (m : cfg_loc) : option InferenceModelSpecApplyConfiguration :=
  b ← h !! m ≫= get; l ← IMAC_Spec b; h !! l ≫= get.

(** C40: chains of builder calls on the spec of a model.  The result has the last value of
    each field set by value or pointer and the target models of all calls in order, copied
    as they were, and nothing but the receiver changed.  A nil among the target models
    panics, after the values before it were appended.  A model configuration that was
    given the spec before the calls sees their result, since it holds the pointer. *)
Theorem builder_chain cs l h s ts :
  h !! l = Some (put s) → mapM (target_at h) (targets cs) = Some ts →
  chain cs l h = (Val l, <[l := put (chained s cs ts)]> h)
  ∧ (∀ vs rest cs' us, mapM (target_at h) vs = Some us →
     chain (cs ++ CallTargetModels (vs ++ None :: rest) :: cs') l h
     = (Panic (ExplicitPanic "nil value passed to WithTargetModels"),
        <[l := put (chained s cs (ts ++ us))]> h))
  ∧ (∀ m (b : InferenceModelApplyConfiguration), h !! m = Some (put b) →
     ∃ h', (_ ← InferenceModel_WithSpec (Some l) m; chain cs l) h = (Val l, h')
       ∧ model_spec h' m = Some (chained s cs ts)).
Proof.
  intros Hl Hts. split; [by apply chain_spec|]. split.
  - intros vs rest cs' us Hus. rewrite chain_app, (chain_spec _ _ _ _ _ Hl Hts).
    cbn [chain spec_builder]. unfold mbind, applyM_bind.
    rewrite (WithTargetModels_spec vs l _ (chained s cs ts) us (None :: rest));
      [by rewrite insert_insert_eq; simpl; rewrite <-(assoc_L (++))|apply lookup_insert_eq| |by right].
    by rewrite (mapM_target_insert _ _ _ _ _ Hl).
  - intros m b Hm. assert (m ≠ l) as Hne by (intros ->; simplify_eq/=).
    unfold InferenceModel_WithSpec, mbind, applyM_bind. rewrite (modify_spec _ _ _ b) by (by rewrite Hm).
    set (h1 := <[m := _]> h).
    assert (∀ p, target_at h1 p = target_at h p) as Htgt.
    { intros [lp|]; [|done]. unfold h1, target_at. cbn [mbind option_bind].
      destruct (decide (lp = m)) as [->|]; [by rewrite lookup_insert_eq, Hm|by rewrite lookup_insert_ne]. }
    rewrite (chain_spec cs l h1 s ts);
      [|unfold h1; by rewrite lookup_insert_ne|by rewrite (mapM_ext _ (target_at h) _ Htgt)].
    eexists. split; [done|]. unfold model_spec, h1. rewrite lookup_insert_ne by done.
    rewrite lookup_insert_eq. simpl. by rewrite lookup_insert_eq.
Qed.

(** ** Maps, constructors, kinds *)

(** Two calls of WithSelector: the union, the later entries winning. *)
Lemma selectors_union `{MapOrder} (e1 e2 : gmap LabelKey LabelValue) l h (s : InferencePoolSpecApplyConfiguration) :
  h !! l = Some (put s) → e2 ≠ ∅ →
  (l' ← InferencePoolSpec_WithSelector e1 l; InferencePoolSpec_WithSelector e2 l') h
  = (Val l, <[l := put (set_IPSAC_Selector (Some (e2 ∪ (e1 ∪ default ∅ (IPSAC_Selector s)))) s)]> h).
Proof.
  intros Hl He2. unfold InferencePoolSpec_WithSelector, mbind at 1, applyM_bind.
  rewrite (update_spec _ _ _ s) by (by rewrite Hl). rewrite put_entries_spec. run_outcome.
  erewrite update_spec by (by rewrite lookup_insert_eq). rewrite put_entries_spec. run_outcome.
  rewrite insert_insert_eq, (decide_False (P := e2 = ∅)) by done.
  case_decide as He1; simpl; [by rewrite He1, (left_id_L ∅ (∪))|done].
Qed.

(** A new configuration has its name, namespace, kind and version, and nothing else. *)
Lemma InferenceModel_new name namespace h :
  ∃ l, l ∉ dom h ∧
  InferenceModel name namespace h =
  (Val l, <[l := put (mkInferenceModelApplyConfiguration
      (mkTypeMetaApplyConfiguration (Some "InferenceModel") (Some "inference.networking.x-k8s.io/v1alpha2"))
      (Some (set_OMAC_Namespace (Some namespace) (set_OMAC_Name (Some name) empty_ObjectMeta))) None None)]> h).
Proof.
  exists (fresh (dom h)). split; [apply is_fresh|].
  unfold InferenceModel, new, InferenceModel_WithName, InferenceModel_WithNamespace,
    InferenceModel_WithKind, InferenceModel_WithAPIVersion, InferenceModel_with_meta, modify.
  unfold mbind at 1, applyM_bind at 1.
  repeat (unfold mbind at 1, applyM_bind at 1; erewrite update_spec by (by rewrite lookup_insert_eq);
          run_outcome).
  by rewrite !insert_insert_eq.
Qed.

(** The kinds of the group and version, and no others, have a configuration. *)
Lemma ForKind_spec kind c :
  @ForKind Condition OwnerReference ObjectReference kind = Some c → (kind, c) ∈ kinds.
Proof.
  unfold ForKind. generalize (@kinds Condition OwnerReference ObjectReference) as ks.
  induction ks as [|[k c'] ks IH]; simpl; [done|].
  case_bool_decide as Hk; [intros [= <-]; subst; by left|]. intros Hc. right. by apply IH.
Qed.
End proofs.

(** ** A witness: a model given its spec before the spec gets a name and a target. *)

Definition demo_heap : gmap cfg_loc (@config () () ()) :=
  <[1%positive := put empty_InferenceModel]> (<[2%positive := put empty_InferenceModelSpec]>
    (<[3%positive := put (mkTargetModelApplyConfiguration (Some "llama-v2") (Some 10))]> ∅)).

Lemma builder_chain_witness :
  demo_heap !! 2%positive = Some (put empty_InferenceModelSpec)
  ∧ ∃ h', (_ ← InferenceModel_WithSpec (Some 2%positive) 1%positive;
           chain [CallModelName "llama"; CallTargetModels [Some 3%positive]; CallModelName "tweet"] 2%positive)
            demo_heap = (Val 2%positive, h')
    ∧ model_spec h' 1%positive = Some (mkInferenceModelSpecApplyConfiguration (Some "tweet") None
        [mkTargetModelApplyConfiguration (Some "llama-v2") (Some 10)] None).
Proof.
  split; [reflexivity|].
  exact (proj2 (proj2 (builder_chain
    [CallModelName "llama"; CallTargetModels [Some 3%positive]; CallModelName "tweet"] 2%positive demo_heap
    empty_InferenceModelSpec [mkTargetModelApplyConfiguration (Some "llama-v2") (Some 10)]
    eq_refl eq_refl)) 1%positive empty_InferenceModel eq_refl).
Defined.
