(* ===== verification/Errors.v ===== *)
(** * pkg/epp/util/error and the Go error values the program builds

    An [error] is one of: the package's own [errutil.Error] struct, an opaque
    error made by [errors.New] or [fmt.Errorf], an error that wraps another with
    [%w], a gRPC status error, or an error handed over by a library. *)

From S2P Require Import Prelude.

(** error.go: the canonical codes. *)
Definition Unknown : string := "Unknown".
Definition BadRequest : string := "BadRequest".
Definition Internal : string := "Internal".
Definition ModelServerError : string := "ModelServerError".
Definition BadConfiguration : string := "BadConfiguration".
Definition InferencePoolResourceExhausted : string := "InferencePoolResourceExhausted".

(** gRPC status codes the handlers use. *)
Inductive grpc_code := CodeUnknown | CodeCanceled | CodeUnimplemented | CodeOther (name : string).

Inductive error : Type :=
  | EppError (Code Msg : string)
  | PlainError (msg : string)
  | WrapError (prefix : string) (inner : error)
  | StatusError (code : grpc_code) (msg : string)
  | LibraryError (msg : string).

Global Instance grpc_code_eq_dec : EqDecision grpc_code.
Proof. solve_decision. Defined.
Global Instance error_eq_dec : EqDecision error.
Proof. solve_decision. Defined.

(** [Error.Error]. *)
Definition Error_Error (code msg : string) : string :=
  "inference gateway: " +:+ code +:+ " - " +:+ msg.

Definition code_text (c : grpc_code) : string :=
  match c with
  | CodeUnknown => "Unknown"
  | CodeCanceled => "Canceled"
  | CodeUnimplemented => "Unimplemented"
  | CodeOther name => name
  end.

(** The text an error prints; [fmt.Errorf] with a trailing [%w] appends the text
    of the wrapped error. *)
Fixpoint error_text (e : error) : string :=
  match e with
  | EppError c m => Error_Error c m
  | PlainError m => m
  | WrapError p e => p +:+ error_text e
  | StatusError c m => "rpc error: code = " +:+ code_text c +:+ " desc = " +:+ m
  | LibraryError m => m
  end.

(** [CanonicalCode]: a type assertion, which does not unwrap. *)
Definition CanonicalCode (e : error) : string :=
  match e with
  | EppError c _ => c
  | _ => Unknown
  end.

(** [status.Code]: the code of a gRPC status error anywhere in the chain,
    [codes.Unknown] for every other error. *)
Fixpoint status_Code (e : error) : grpc_code :=
  match e with
  | StatusError c _ => c
  | WrapError _ e => status_Code e
  | _ => CodeUnknown
  end.
