(* ===== verification/BackendMetrics.v ===== *)
(** * pkg/epp/backend/metrics: pods, their metrics and how they are scraped

    [types.go], [metrics_spec.go] (the textual metric specifications of the
    command line) and [metrics.go] (from Prometheus families to [Metrics]).
    The HTTP exchange and the Prometheus text parser are parameters. *)

From S2P Require Import Prelude GoInt GoStrings Float64 Strconv Api Errors.

Local Open Scope Z_scope.

(** ** types.go *)

Record Pod := mkPod {
  Pod_NamespacedName : NamespacedName;
  Address : string
}.

Record Metrics := mkMetrics {
  ActiveModels : gmap string Z;
  MaxActiveModels : Z;
  RunningQueueSize : Z;
  WaitingQueueSize : Z;
  KVCacheUsagePercent : float64;
  KvCacheMaxTokenCapacity : Z;
  UpdateTime : Time
}.

(** [newMetrics]: the zero value with an allocated map. *)
Definition newMetrics : Metrics := {|
  ActiveModels := ∅;
  MaxActiveModels := 0;
  RunningQueueSize := 0;
  WaitingQueueSize := 0;
  KVCacheUsagePercent := fzero;
  KvCacheMaxTokenCapacity := 0;
  UpdateTime := 0
|}.

(** [Clone] copies the map entry by entry and the scalar fields. *)
Definition Clone `{MapOrder} (m : Metrics) : Metrics := {|
  ActiveModels := foldl (λ cm kv, <[kv.1 := kv.2]> cm) ∅ (map_range (ActiveModels m));
  MaxActiveModels := MaxActiveModels m;
  RunningQueueSize := RunningQueueSize m;
  WaitingQueueSize := WaitingQueueSize m;
  KVCacheUsagePercent := KVCacheUsagePercent m;
  KvCacheMaxTokenCapacity := KvCacheMaxTokenCapacity m;
  UpdateTime := UpdateTime m
|}.

(** What the scheduler sees of a [PodMetrics] object: its two atomic pointers,
    read while no refresh intervenes. *)
Record PodMetrics := mkPodMetrics {
  GetPod : Pod;
  GetMetrics : Metrics
}.

Definition toInternalPod (p : CorePod) : Pod := {|
  Pod_NamespacedName := pod_key p;
  Address := pod_PodIP p
|}.

(** Field updates of [Metrics]. *)
Definition set_ActiveModels (a : gmap string Z) (m : Metrics) : Metrics :=
  mkMetrics a (MaxActiveModels m) (RunningQueueSize m) (WaitingQueueSize m)
    (KVCacheUsagePercent m) (KvCacheMaxTokenCapacity m) (UpdateTime m).
Definition set_MaxActiveModels (z : Z) (m : Metrics) : Metrics :=
  mkMetrics (ActiveModels m) z (RunningQueueSize m) (WaitingQueueSize m)
    (KVCacheUsagePercent m) (KvCacheMaxTokenCapacity m) (UpdateTime m).
Definition set_WaitingQueueSize (z : Z) (m : Metrics) : Metrics :=
  mkMetrics (ActiveModels m) (MaxActiveModels m) (RunningQueueSize m) z
    (KVCacheUsagePercent m) (KvCacheMaxTokenCapacity m) (UpdateTime m).
Definition set_KVCacheUsagePercent (f : float64) (m : Metrics) : Metrics :=
  mkMetrics (ActiveModels m) (MaxActiveModels m) (RunningQueueSize m) (WaitingQueueSize m)
    f (KvCacheMaxTokenCapacity m) (UpdateTime m).
Definition set_UpdateTime (t : Time) (m : Metrics) : Metrics :=
  mkMetrics (ActiveModels m) (MaxActiveModels m) (RunningQueueSize m) (WaitingQueueSize m)
    (KVCacheUsagePercent m) (KvCacheMaxTokenCapacity m) t.

(** ** metrics_spec.go *)

Record MetricSpec := mkMetricSpec {
  MetricName : string;
  spec_Labels : gmap string string
}.

Record MetricMapping := mkMetricMapping {
  TotalQueuedRequests : option MetricSpec;
  KVCacheUtilization : option MetricSpec;
  LoraRequestInfo : option MetricSpec
}.

Section metric_spec.
Context `{PrintTable}.

(** One [label=value] pair of the label block. *)
Definition parse_pair (specStr pair : string) : (string * string) + error :=
  let pair := TrimSpace pair in
  match Split pair "="%char with
  | [n; v] =>
      let labelName := TrimSpace n in
      let labelValue := TrimSpace v in
      if bool_decide (labelName = "") || bool_decide (labelValue = "")
      then inr (PlainError ("empty label name or value in pair: " +:+ Quote pair
                           +:+ " in metric spec: " +:+ Quote specStr))
      else inl (labelName, labelValue)
  | _ => inr (PlainError ("invalid label pair: " +:+ Quote pair +:+ " in metric spec: " +:+ Quote specStr))
  end.

Fixpoint parse_pairs (specStr : string) (pairs : list string) (labels : gmap string string)
  : gmap string string + error :=
  match pairs with
  | [] => inl labels
  | p :: ps =>
      match parse_pair specStr p with
      | inr e => inr e
      | inl (n, v) => parse_pairs specStr ps (<[n := v]> labels)
      end
  end.

(** [stringToMetricSpec]: an empty string stands for no metric. *)
Definition stringToMetricSpec (specStr : string) : option MetricSpec + error :=
  if bool_decide (specStr = "") then inl None else
  let specStr := TrimSpace specStr in
  let start := IndexByte specStr "{"%char in
  let end_ := IndexByte specStr "}"%char in
  let finish (metricName : string) (labels : gmap string string) :=
    if bool_decide (metricName = "")
    then inr (PlainError ("empty metric name in spec: " +:+ Quote specStr))
    else inl (Some (mkMetricSpec metricName labels)) in
  let malformed := inr (PlainError ("invalid metric spec string: " +:+ Quote specStr
                                    +:+ ", missing or malformed label block")) in
  match start, end_ with
  | None, None => finish specStr ∅
  | Some st, Some en =>
      if (en <=? st + 1)%nat
      then malformed
      else
        let metricName := TrimSpace (str_take st specStr) in
        let labelStr := str_take (en - (st + 1)) (str_drop (st + 1) specStr) in
        match parse_pairs specStr (Split labelStr ","%char) ∅ with
        | inr e => inr e
        | inl labels =>
            if bool_decide (en ≠ String.length specStr - 1)%nat
            then inr (PlainError ("invalid characters after label section in: " +:+ Quote specStr))
            else finish metricName labels
        end
  | _, _ => malformed
  end.

Definition NewMetricMapping (queuedStr kvUsageStr loraReqInfoStr : string)
  : MetricMapping + error :=
  match stringToMetricSpec queuedStr with
  | inr e => inr (WrapError "error parsing WaitingRequests: " e)
  | inl queuedSpec =>
      match stringToMetricSpec kvUsageStr with
      | inr e => inr (WrapError "error parsing KVCacheUsage: " e)
      | inl kvUsageSpec =>
          match stringToMetricSpec loraReqInfoStr with
          | inr e => inr (WrapError "error parsing loraReqInfoStr: " e)
          | inl loraReqInfoSpec =>
              inl (mkMetricMapping queuedSpec kvUsageSpec loraReqInfoSpec)
          end
      end
  end.

End metric_spec.

(** ** metrics.go *)

Definition LoraInfoRunningAdaptersMetricName : string := "running_lora_adapters".
Definition LoraInfoWaitingAdaptersMetricName : string := "waiting_lora_adapters".
Definition LoraInfoMaxAdaptersMetricName : string := "max_lora".

(** A Prometheus sample through its getters, which return zero values for
    absent fields. *)
Record PromMetric := mkPromMetric {
  GetLabel : list (string * string);
  GetGaugeValue : float64;
  GetTimestampMs : Z
}.

Definition MetricFamilies : Type := gmap string (list PromMetric).

(** [labelsMatch] *)
Definition labelsMatch `{MapOrder} (metricLabels : list (string * string))
    (specLabels : gmap string string) : bool :=
  if bool_decide (size specLabels = 0%nat) then true
  else forallb (λ s : string * string,
         existsb (λ l : string * string,
           bool_decide (l.1 = s.1) && bool_decide (l.2 = s.2)) metricLabels)
       (map_range specLabels).

(** [getLatestMetric]: among the samples whose labels match, the first with the
    largest timestamp above -1. *)
Definition latest_step `{MapOrder} (spec : MetricSpec)
    (acc : option PromMetric * Z) (m : PromMetric) : option PromMetric * Z :=
  if labelsMatch (GetLabel m) (spec_Labels spec) && (acc.2 <? GetTimestampMs m)
  then (Some m, GetTimestampMs m) else acc.

Definition getLatestMetric `{MapOrder} (mf : list PromMetric) (spec : MetricSpec)
  : PromMetric + error :=
  match (foldl (latest_step spec) (None, -1) mf).1 with
  | Some m => inl m
  | None => inr (PlainError ("no matching metric found for " +:+ MetricName spec))
  end.

Definition getMetric `{MapOrder} (families : MetricFamilies) (spec : MetricSpec)
  : PromMetric + error :=
  match families !! MetricName spec with
  | None => inr (PlainError ("metric family " +:+ MetricName spec +:+ " not found"))
  | Some [] => inr (PlainError ("no metrics available for " +:+ MetricName spec))
  | Some mf => getLatestMetric mf spec
  end.

(** The value the last label of that name has, "" when there is none. *)
Definition last_label (name : string) (ls : list (string * string)) : string :=
  foldl (λ acc l, if bool_decide (l.1 = name) then l.2 else acc) "" ls.

Definition has_lora_labels (m : PromMetric) : bool :=
  negb (bool_decide (last_label LoraInfoRunningAdaptersMetricName (GetLabel m) = "")
        && bool_decide (last_label LoraInfoWaitingAdaptersMetricName (GetLabel m) = "")).

(** [getLatestLoraMetric]: the sample with the largest gauge value above 0 among
    those with an adapter label. *)
Definition lora_step (acc : option PromMetric * float64) (m : PromMetric)
  : option PromMetric * float64 :=
  if has_lora_labels m && fgtb (GetGaugeValue m) acc.2
  then (Some m, GetGaugeValue m) else acc.

Definition getLatestLoraMetric (mapping : MetricMapping) (families : MetricFamilies)
  : option PromMetric * option error :=
  match LoraRequestInfo mapping with
  | None => (None, None)
  | Some spec =>
      match families !! MetricName spec with
      | None => (None, Some (PlainError ("metric family " +:+ MetricName spec +:+ " not found")))
      | Some samples => ((foldl lora_step (None, fzero) samples).1, None)
      end
  end.

(** [for _, adapter := range strings.Split(v, ",") { ActiveModels[adapter] = 0 }] *)
Definition add_adapters (v : string) (a : gmap string Z) : gmap string Z :=
  if bool_decide (v = "") then a
  else foldl (λ a adapter, <[adapter := 0]> a) a (Split v ","%char).

(** One label of the chosen LoRA sample. *)
Definition lora_label (acc : Metrics * list error) (l : string * string)
  : Metrics * list error :=
  let '(m, errs) := acc in
  if bool_decide (l.1 = LoraInfoRunningAdaptersMetricName)
     || bool_decide (l.1 = LoraInfoWaitingAdaptersMetricName)
  then (set_ActiveModels (add_adapters l.2 (ActiveModels m)) m, errs)
  else if bool_decide (l.1 = LoraInfoMaxAdaptersMetricName) && negb (bool_decide (l.2 = ""))
  then (set_MaxActiveModels (Atoi_value l.2) m,
        match Atoi l.2 with
        | Some _ => errs
        | None => errs ++ [PlainError ("strconv.Atoi: parsing " +:+ l.2)]
        end)
  else acc.

Section prom.
Context `{MapOrder} (ovf : float64 → Z).

(** [promToPodMetrics]: a clone of the existing metrics, updated with every
    metric that was found; the errors of those that were not are collected. *)
Definition update_queue (mapping : MetricMapping) (families : MetricFamilies)
    (acc : Metrics * list error) : Metrics * list error :=
  match TotalQueuedRequests mapping with
  | None => acc
  | Some spec =>
      match getMetric families spec with
      | inl q => (set_WaitingQueueSize (to_int ovf (GetGaugeValue q)) acc.1, acc.2)
      | inr e => (acc.1, acc.2 ++ [e])
      end
  end.

Definition update_kv (mapping : MetricMapping) (families : MetricFamilies)
    (acc : Metrics * list error) : Metrics * list error :=
  match KVCacheUtilization mapping with
  | None => acc
  | Some spec =>
      match getMetric families spec with
      | inl u => (set_KVCacheUsagePercent (GetGaugeValue u) acc.1, acc.2)
      | inr e => (acc.1, acc.2 ++ [e])
      end
  end.

Definition update_lora (mapping : MetricMapping) (families : MetricFamilies)
    (acc : Metrics * list error) : Metrics * list error :=
  match LoraRequestInfo mapping with
  | None => acc
  | Some _ =>
      let '(loraMetrics, err) := getLatestLoraMetric mapping families in
      let errs := acc.2 ++ option_list err in
      match loraMetrics with
      | None => (acc.1, errs)
      | Some s => foldl lora_label (set_ActiveModels ∅ acc.1, errs) (GetLabel s)
      end
  end.

Definition promToPodMetrics (mapping : MetricMapping) (families : MetricFamilies)
    (existing : Metrics) : Metrics * list error :=
  update_lora mapping families
    (update_kv mapping families
      (update_queue mapping families (Clone existing, []))).

(** The HTTP exchange with the model server. *)
Inductive scrape :=
  | RequestFailed (e : error)
  | DoFailed (e : error)
  | Responded (StatusCode : Z) (parsed : MetricFamilies + error).

Definition metrics_url (pod : Pod) (port : Z) : string :=
  "http://" +:+ Address pod +:+ ":" +:+ Itoa port +:+ "/metrics".

(** [FetchMetrics] *)
Definition FetchMetrics (http : string → scrape) (mapping : MetricMapping)
    (pod : Pod) (existing : Metrics) (port : Z) : option Metrics * list error :=
  match http (metrics_url pod port) with
  | RequestFailed e => (None, [PlainError ("failed to create request: " +:+ error_text e)])
  | DoFailed e =>
      (None, [WrapError ("failed to fetch metrics from "
                +:+ NamespacedName_String (Pod_NamespacedName pod) +:+ ": ") e])
  | Responded code parsed =>
      if negb (code =? 200)
      then (None, [PlainError ("unexpected status code from "
              +:+ NamespacedName_String (Pod_NamespacedName pod) +:+ ": " +:+ Itoa code)])
      else match parsed with
           | inr e => (None, [e])
           | inl families =>
               let '(m, errs) := promToPodMetrics mapping families existing in
               (Some m, errs)
           end
  end.
End prom.
