(* ===== verification/BackendMetricsProofs.v ===== *)
(** * Properties of metric specifications and of scraping *)

From S2P Require Import Prelude GoInt GoStrings Float64 Strconv Api Errors BackendMetrics.

Local Open Scope Z_scope.

(** ** Metric specifications *)

(** Characters of metric and label names and values: printable, and none of the
    characters that structure a specification. *)
Definition token_char (c : ascii) : bool :=
  printable c && negb (bool_decide (c ∈ ["{"; "}"; ","; "="]%char)).

Definition token (s : string) : Prop := s ≠ "" ∧ str_all token_char s = true.

Definition pair_text (nv : string * string) : string := nv.1 +:+ String "=" nv.2.

(** The text of a specification with at least one label. *)
Definition spec_text (name : string) (labels : list (string * string)) : string :=
  name +:+ String "{" (Join (pair_text <$> labels) "," +:+ "}").

Definition label_ok (nv : string * string) : Prop := token nv.1 ∧ token nv.2.

Lemma token_printable s : str_all token_char s = true → str_all printable s = true.
Proof. apply str_all_impl. intros c Hc. by apply andb_true_iff in Hc as [? _]. Qed.

Lemma token_lacks b s :
  b ∈ ["{"; "}"; ","; "="]%char → str_all token_char s = true → lacks b s = true.
Proof.
  intros Hb. apply str_all_impl. intros c [_ Hc]%andb_true_iff.
  apply negb_true_iff, bool_decide_eq_false in Hc.
  apply negb_true_iff, bool_decide_eq_false. by intros ->.
Qed.

Lemma lacks_app b s t : lacks b (s +:+ t) = lacks b s && lacks b t.
Proof. apply str_all_app. Qed.

Lemma pair_text_lacks b nv :
  label_ok nv → b ∈ ["{"; "}"; ","]%char → lacks b (pair_text nv) = true.
Proof.
  intros [[_ Hn] [_ Hv]] Hb. unfold pair_text. rewrite lacks_app.
  assert (b ∈ ["{"; "}"; ","; "="]%char) by set_solver.
  rewrite (token_lacks b nv.1) by done. simpl. unfold lacks. simpl.
  fold (lacks b nv.2). rewrite (token_lacks b nv.2) by done. rewrite andb_true_r.
  apply negb_true_iff, bool_decide_eq_false. intros <-.
  rewrite !elem_of_cons, elem_of_nil in Hb. by destruct Hb as [|[|[|]]].
Qed.

Lemma pair_text_printable nv : label_ok nv → str_all printable (pair_text nv) = true.
Proof.
  intros [[_ Hn] [_ Hv]]. unfold pair_text. rewrite str_all_app. simpl.
  by rewrite !token_printable.
Qed.

Lemma Join_all P ps sep :
  P sep = true → Forall (λ p, str_all P p = true) ps → str_all P (Join ps sep) = true.
Proof.
  intros Hsep. induction 1 as [|p ps Hp Hps IH]; [done|].
  destruct ps as [|q ps]; [done|].
  change (Join (p :: q :: ps) sep) with (p +:+ String sep (Join (q :: ps) sep)).
  rewrite str_all_app, Hp. simpl. by rewrite Hsep.
Qed.

Lemma parse_pair_text `{PrintTable} specStr nv : label_ok nv → parse_pair specStr (pair_text nv) = inl nv.
Proof.
  intros Hok. pose proof Hok as [[Hn0 Hn] [Hv0 Hv]].
  unfold parse_pair. rewrite TrimSpace_printable by (by apply pair_text_printable).
  unfold pair_text. rewrite Split_app by (by apply token_lacks; [set_solver|]).
  rewrite Split_lacks by (by apply token_lacks; [set_solver|]).
  rewrite !TrimSpace_printable by (by apply token_printable).
  rewrite !bool_decide_false by done. by destruct nv.
Qed.

Lemma parse_pairs_text `{PrintTable} specStr labels acc :
  Forall label_ok labels →
  parse_pairs specStr (pair_text <$> labels) acc
  = inl (foldl (λ m nv, <[nv.1 := nv.2]> m) acc labels).
Proof.
  intros Hall. revert acc. induction Hall as [|nv labels Hnv Hls IH]; intros acc; [done|].
  simpl. rewrite parse_pair_text by done. destruct nv. apply IH.
Qed.

Lemma str_take_app s t : str_take (String.length s) (s +:+ t) = s.
Proof. induction s as [|c s IH]; [by destruct t|]. rewrite append_cons. simpl. by rewrite IH. Qed.

(** Where the structure of a printed specification is. *)
Section spec_text.
Context (name : string) (labels : list (string * string)).
Hypothesis Hname : token name.
Hypothesis Hne : labels ≠ [].
Hypothesis Hok : Forall label_ok labels.

Definition block : string := Join (pair_text <$> labels) ",".

Lemma block_lacks b : b ∈ ["{"; "}"]%char → lacks b block = true.
Proof using Hok.
  clear Hname name Hne.
  intros Hb. apply Join_all.
  - apply negb_true_iff, bool_decide_eq_false. intros <-. set_solver.
  - apply Forall_fmap. eapply Forall_impl; [done|]. intros nv Hnv.
    apply pair_text_lacks; [done|set_solver].
Qed.

Lemma block_ne : block ≠ "".
Proof.
  unfold block. destruct labels as [|[[|c n] v] [|nv' ls]]; simpl; try done.
Qed.

Lemma spec_text_printable : str_all printable (spec_text name labels) = true.
Proof.
  unfold spec_text. rewrite str_all_app, token_printable by apply Hname. simpl.
  rewrite str_all_app. simpl. rewrite andb_true_r. apply Join_all; [done|].
  apply Forall_fmap. eapply Forall_impl; [done|]. apply pair_text_printable.
Qed.

Lemma spec_text_start : IndexByte (spec_text name labels) "{" = Some (String.length name).
Proof. apply IndexByte_app, token_lacks; [set_solver|apply Hname]. Qed.

Lemma spec_text_split : spec_text name labels = (name +:+ "{") +:+ (block +:+ "}").
Proof. unfold spec_text. rewrite append_assoc. by rewrite append_cons, append_nil_l. Qed.

Lemma spec_text_end :
  IndexByte (spec_text name labels) "}"
  = Some (String.length name + S (String.length block))%nat.
Proof.
  rewrite spec_text_split, <-append_assoc, IndexByte_app, !length_append.
  - simpl. f_equal. lia.
  - rewrite !lacks_app, token_lacks, block_lacks by (set_solver || apply Hname). done.
Qed.

Lemma spec_text_length :
  String.length (spec_text name labels) = S (String.length name + S (String.length block)).
Proof. rewrite spec_text_split, !length_append. simpl. lia. Qed.

Lemma spec_text_block :
  str_take (String.length name + S (String.length block) - (String.length name + 1))
    (str_drop (String.length name + 1) (spec_text name labels)) = block.
Proof.
  replace (String.length name + 1)%nat with (String.length (name +:+ "{"))
    by (rewrite length_append; done).
  rewrite spec_text_split, str_drop_app, length_append. simpl.
  replace (_ - _)%nat with (String.length block) by lia. apply str_take_app.
Qed.

Lemma block_pairs : Split block "," = pair_text <$> labels.
Proof using Hne Hok.
  clear Hname name.
  apply Split_Join; [by destruct labels|]. apply Forall_fmap.
  eapply Forall_impl; [done|]. intros nv Hnv. apply pair_text_lacks; [done|set_solver].
Qed.
End spec_text.

(** ** Samples *)

Section samples.
Context `{MapOrder}.

Lemma labelsMatch_iff ls spec :
  labelsMatch ls spec = true ↔ ∀ k v, spec !! k = Some v → (k, v) ∈ ls.
Proof.
  unfold labelsMatch. case_bool_decide as Hs.
  - apply map_size_empty_iff in Hs as ->. split; [|done].
    by intros _ k v ?%lookup_empty_Some.
  - rewrite forallb_forall. split.
    + intros Hall k v Hk. apply map_range_elem in Hk.
      specialize (Hall (k, v) (proj1 (list_elem_of_In _ _) Hk)).
      apply existsb_exists in Hall as ([k' v'] & Hin & Heq). simpl in Heq. to_prop.
      subst. by apply list_elem_of_In.
    + intros Hall [k v] Hk%list_elem_of_In%map_range_elem.
      apply existsb_exists. exists (k, v). split; [by apply list_elem_of_In, Hall|].
      by rewrite !bool_decide_true.
Qed.

Definition matches (spec : MetricSpec) (m : PromMetric) : Prop :=
  labelsMatch (GetLabel m) (spec_Labels spec) = true.

Lemma latest_fold spec mf acc :
  let r := foldl (latest_step spec) acc mf in
  acc.2 <= r.2 ∧ (∀ m, m ∈ mf → matches spec m → GetTimestampMs m <= r.2)
  ∧ (r = acc ∨ ∃ m, m ∈ mf ∧ matches spec m ∧ r = (Some m, GetTimestampMs m) ∧ acc.2 < r.2).
Proof.
  revert acc. induction mf as [|m mf IH]; intros acc; simpl.
  { split; [lia|]. split; [by intros ? ?%elem_of_nil|by left]. }
  destruct (IH (latest_step spec acc m)) as (Hle & Hall & Hor).
  assert (acc.2 <= (latest_step spec acc m).2) as Hmono.
  { unfold latest_step. case_match; simpl; [to_prop; lia|lia]. }
  assert (matches spec m → GetTimestampMs m <= (latest_step spec acc m).2) as Hm.
  { unfold matches, latest_step. intros ->. simpl.
    destruct (Z.ltb_spec acc.2 (GetTimestampMs m)); simpl; lia. }
  split; [lia|]. split.
  - intros m' [->|Hm']%elem_of_cons Hmt; [specialize (Hm Hmt); lia|by apply Hall].
  - destruct Hor as [Heq|(m' & Hin & Hmt & Heq & Hlt)].
    + rewrite Heq. unfold latest_step. case_match eqn:E; [right|by left].
      to_prop. exists m. split; [left|]. by repeat split.
    + right. exists m'. split; [by right|]. split; [done|]. split; [done|lia].
Qed.

Lemma getLatestMetric_cases mf spec :
  match getLatestMetric mf spec with
  | inl m => m ∈ mf ∧ matches spec m ∧ 0 <= GetTimestampMs m
             ∧ ∀ m', m' ∈ mf → matches spec m' → GetTimestampMs m' <= GetTimestampMs m
  | inr _ => ∀ m, m ∈ mf → matches spec m → GetTimestampMs m < 0
  end.
Proof.
  unfold getLatestMetric. destruct (latest_fold spec mf (None, -1)) as (_ & Hall & Hor).
  destruct Hor as [Heq|(m & Hin & Hmt & Heq & Hlt)]; rewrite Heq in *; simpl in *.
  - intros m Hm Hmt. specialize (Hall m Hm Hmt). lia.
  - do 2 (split; [done|]). split; [lia|done].
Qed.

Lemma Clone_id m : Clone m = m.
Proof. unfold Clone. rewrite foldl_insert_range. by destruct m. Qed.
End samples.

(** ** LoRA labels *)

Lemma add_adapters_dom v a k :
  k ∈ dom (add_adapters v a) ↔ k ∈ dom a ∨ v ≠ "" ∧ k ∈ Split v ",".
Proof.
  unfold add_adapters. case_bool_decide as Hv; [naive_solver|].
  assert (∀ l (a : gmap string Z), k ∈ dom (foldl (λ a adapter, <[adapter := 0]> a) a l) ↔ k ∈ dom a ∨ k ∈ l)
    as Hf.
  { induction l as [|x l IH]; intros a'; simpl; [set_solver|]. rewrite IH. set_solver. }
  rewrite Hf. naive_solver.
Qed.

Definition adapter_label (l : string * string) : Prop :=
  l.1 = LoraInfoRunningAdaptersMetricName ∨ l.1 = LoraInfoWaitingAdaptersMetricName.

(** The adapters a list of labels names. *)
Definition names_adapter (ls : list (string * string)) (k : string) : Prop :=
  ∃ l, l ∈ ls ∧ adapter_label l ∧ l.2 ≠ "" ∧ k ∈ Split l.2 ",".

Lemma lora_labels_fold ls acc :
  let r := foldl lora_label acc ls in
  RunningQueueSize r.1 = RunningQueueSize acc.1
  ∧ WaitingQueueSize r.1 = WaitingQueueSize acc.1
  ∧ KVCacheUsagePercent r.1 = KVCacheUsagePercent acc.1
  ∧ KvCacheMaxTokenCapacity r.1 = KvCacheMaxTokenCapacity acc.1
  ∧ ∀ k, k ∈ dom (ActiveModels r.1) ↔ k ∈ dom (ActiveModels acc.1) ∨ names_adapter ls k.
Proof.
  revert acc. induction ls as [|l ls IH]; intros acc; simpl.
  { do 4 (split; [done|]). intros k. split; [by left|].
    intros [?|(l & ?%elem_of_nil & _)]; done. }
  destruct (IH (lora_label acc l)) as (-> & -> & -> & -> & Hdom). clear IH.
  assert (lora_label acc l = acc ∧ ¬ adapter_label l
    ∨ (∃ z e, lora_label acc l = (set_MaxActiveModels z acc.1, e)) ∧ ¬ adapter_label l
    ∨ lora_label acc l = (set_ActiveModels (add_adapters l.2 (ActiveModels acc.1)) acc.1, acc.2)
      ∧ adapter_label l) as Hcase.
  { unfold lora_label, adapter_label. destruct acc as [m errs]. simpl.
    destruct (bool_decide_reflect (l.1 = LoraInfoRunningAdaptersMetricName)) as [H1|H1]; simpl;
      [right; right; by auto|].
    destruct (bool_decide_reflect (l.1 = LoraInfoWaitingAdaptersMetricName)) as [H2|H2]; simpl;
      [right; right; by auto|].
    assert (¬ adapter_label l) as Hn by (intros [?|?]; done).
    unfold adapter_label in Hn. case_match; [|by left]. case_match; right; left; eauto. }
  assert (∀ k, names_adapter (l :: ls) k ↔
    (adapter_label l ∧ l.2 ≠ "" ∧ k ∈ Split l.2 ",") ∨ names_adapter ls k) as Hcons.
  { intros k. unfold names_adapter. setoid_rewrite elem_of_cons. naive_solver. }
  setoid_rewrite Hdom. setoid_rewrite Hcons.
  destruct Hcase as [[-> Hn]|[[(z & e & ->) Hn]|[-> Hy]]]; simpl;
    do 4 (split; [done|]); intros k; [naive_solver..|].
  rewrite add_adapters_dom. naive_solver.
Qed.

Section updates.
Context `{MapOrder} (ovf : float64 → Z).

Lemma lora_fold_elem samples acc m :
  (foldl lora_step acc samples).1 = Some m → acc.1 = Some m ∨ m ∈ samples ∧ has_lora_labels m.
Proof.
  revert acc. induction samples as [|x samples IH]; intros acc; simpl; [by left|].
  intros [Hacc|[Hm Hl]]%IH; [|by right; split; [right|]].
  unfold lora_step in Hacc. case_match; [|by left]. simplify_eq/=. to_prop.
  right. split; [left|]. by apply Is_true_true.
Qed.

Lemma update_lora_frame mapping families acc :
  let r := update_lora mapping families acc in
  RunningQueueSize r.1 = RunningQueueSize acc.1
  ∧ WaitingQueueSize r.1 = WaitingQueueSize acc.1
  ∧ KVCacheUsagePercent r.1 = KVCacheUsagePercent acc.1
  ∧ KvCacheMaxTokenCapacity r.1 = KvCacheMaxTokenCapacity acc.1.
Proof.
  unfold update_lora. destruct (LoraRequestInfo mapping) as [spec|]; [|done].
  destruct (getLatestLoraMetric mapping families) as [[s|] err]; [|done].
  by destruct (lora_labels_fold (GetLabel s) (set_ActiveModels ∅ acc.1, acc.2 ++ option_list err))
    as (-> & -> & -> & -> & _).
Qed.

Lemma lora_errs_mono ls acc e : e ∈ acc.2 → e ∈ (foldl lora_label acc ls).2.
Proof.
  revert acc. induction ls as [|l ls IH]; intros acc He; simpl; [done|]. apply IH.
  unfold lora_label. destruct acc as [m errs]. simpl in *. repeat case_match; simpl;
    rewrite ?elem_of_app; auto.
Qed.

Lemma update_lora_errs mapping families acc e :
  e ∈ acc.2 → e ∈ (update_lora mapping families acc).2.
Proof.
  intros He. unfold update_lora. destruct (LoraRequestInfo mapping); [|done].
  destruct (getLatestLoraMetric mapping families) as [[s|] err].
  - apply lora_errs_mono. simpl. rewrite elem_of_app. auto.
  - simpl. rewrite elem_of_app. auto.
Qed.

Lemma update_lora_models mapping families acc :
  let r := update_lora mapping families acc in
  match (getLatestLoraMetric mapping families).1 with
  | None => ActiveModels r.1 = ActiveModels acc.1 ∧ MaxActiveModels r.1 = MaxActiveModels acc.1
  | Some s => ∀ a, a ∈ dom (ActiveModels r.1) ↔ names_adapter (GetLabel s) a
  end.
Proof.
  unfold update_lora. destruct (LoraRequestInfo mapping) as [spec|] eqn:E.
  2:{ unfold getLatestLoraMetric. by rewrite E. }
  destruct (getLatestLoraMetric mapping families) as [[s|] err]; simpl; [|done].
  intros a.
  destruct (lora_labels_fold (GetLabel s) (set_ActiveModels ∅ acc.1, acc.2 ++ option_list err))
    as (_ & _ & _ & _ & ->). simpl. rewrite dom_empty_L. set_solver.
Qed.

Lemma update_queue_cases mapping families acc :
  let r := update_queue ovf mapping families acc in
  RunningQueueSize r.1 = RunningQueueSize acc.1
  ∧ KVCacheUsagePercent r.1 = KVCacheUsagePercent acc.1
  ∧ KvCacheMaxTokenCapacity r.1 = KvCacheMaxTokenCapacity acc.1
  ∧ ActiveModels r.1 = ActiveModels acc.1 ∧ MaxActiveModels r.1 = MaxActiveModels acc.1
  ∧ match getMetric families <$> TotalQueuedRequests mapping with
    | None => WaitingQueueSize r.1 = WaitingQueueSize acc.1
    | Some (inl q) => WaitingQueueSize r.1 = to_int ovf (GetGaugeValue q)
    | Some (inr e) => WaitingQueueSize r.1 = WaitingQueueSize acc.1 ∧ e ∈ r.2
    end
  ∧ ∀ e, e ∈ acc.2 → e ∈ r.2.
Proof.
  unfold update_queue. destruct (TotalQueuedRequests mapping) as [spec|]; [|done]. simpl.
  destruct (getMetric families spec) as [q|e]; simpl; [done|].
  do 5 (split; [done|]). split; [split; [done|]|]; intros; rewrite elem_of_app; set_solver.
Qed.

Lemma update_kv_cases mapping families acc :
  let r := update_kv mapping families acc in
  RunningQueueSize r.1 = RunningQueueSize acc.1
  ∧ WaitingQueueSize r.1 = WaitingQueueSize acc.1
  ∧ KvCacheMaxTokenCapacity r.1 = KvCacheMaxTokenCapacity acc.1
  ∧ ActiveModels r.1 = ActiveModels acc.1 ∧ MaxActiveModels r.1 = MaxActiveModels acc.1
  ∧ match getMetric families <$> KVCacheUtilization mapping with
    | None => KVCacheUsagePercent r.1 = KVCacheUsagePercent acc.1
    | Some (inl q) => KVCacheUsagePercent r.1 = GetGaugeValue q
    | Some (inr e) => KVCacheUsagePercent r.1 = KVCacheUsagePercent acc.1 ∧ e ∈ r.2
    end
  ∧ ∀ e, e ∈ acc.2 → e ∈ r.2.
Proof.
  unfold update_kv. destruct (KVCacheUtilization mapping) as [spec|]; [|done]. simpl.
  destruct (getMetric families spec) as [q|e]; simpl; [done|].
  do 5 (split; [done|]). split; [split; [done|]|]; intros; rewrite elem_of_app; set_solver.
Qed.
End updates.

(** A sample of the specification's family that carries all its labels. *)
Definition candidate (families : MetricFamilies) (spec : MetricSpec) (m : PromMetric) : Prop :=
  m ∈ default [] (families !! MetricName spec)
  ∧ ∀ k v, spec_Labels spec !! k = Some v → (k, v) ∈ GetLabel m.

(** * Claims *)

(** C29: parsing inverts printing.  The text of any metric specification whose
    name and labels are made of ordinary characters parses back to that name and
    exactly those labels (a repeated label keeps its last value). *)
Theorem metric_spec_roundtrip `{PrintTable} name labels :
  token name → labels ≠ [] → Forall label_ok labels →
  stringToMetricSpec (spec_text name labels)
  = inl (Some (mkMetricSpec name (foldl (λ m nv, <[nv.1 := nv.2]> m) ∅ labels))).
Proof.
  intros Hname Hne Hok. unfold stringToMetricSpec.
  rewrite bool_decide_false by (by destruct name; destruct Hname).
  rewrite TrimSpace_printable by (by apply spec_text_printable).
  rewrite spec_text_start, spec_text_end by done.
  pose proof (block_ne labels Hne Hok) as Hbne.
  rewrite (proj2 (Nat.leb_gt _ _)) by (destruct (block labels); [done|simpl; lia]).
  rewrite spec_text_block, block_pairs, parse_pairs_text by done.
  rewrite spec_text_length by done. rewrite bool_decide_false by (simpl; lia).
  replace (str_take (String.length name) (spec_text name labels)) with name
    by (symmetry; apply str_take_app).
  destruct Hname as [Hn0 Hn]. rewrite TrimSpace_printable by (by apply token_printable).
  by rewrite bool_decide_false.
Qed.

Lemma metric_spec_roundtrip_witness :
  stringToMetricSpec (H := latin1_only) (spec_text "vllm:lora" [("a", "b"); ("c", "d")])
  = inl (Some (mkMetricSpec "vllm:lora" (<["c" := "d"]> (<["a" := "b"]> ∅)))).
Proof.
  apply (metric_spec_roundtrip (H := latin1_only) "vllm:lora" [("a", "b"); ("c", "d")]).
  - by split.
  - done.
  - by repeat constructor.
Defined.

(** The sample used for a metric is one of the family whose labels contain
    every label of the specification, and no other such sample is newer; an error
    is reported exactly when the family is absent, empty, or has no matching
    sample with a timestamp of 0 or later. *)
Theorem latest_metric_spec `{MapOrder} families spec :
  match getMetric families spec with
  | inl m => candidate families spec m ∧ 0 <= GetTimestampMs m
             ∧ ∀ m', candidate families spec m' → GetTimestampMs m' <= GetTimestampMs m
  | inr _ => ∀ m, candidate families spec m → GetTimestampMs m < 0
  end.
Proof.
  unfold getMetric, candidate. destruct (families !! MetricName spec) as [mf|]; simpl.
  2:{ intros m [?%elem_of_nil _]. done. }
  pose proof (getLatestMetric_cases mf spec) as Hc. unfold matches in Hc.
  destruct mf as [|m0 mf]; [intros m [?%elem_of_nil _]; done|].
  destruct (getLatestMetric (m0 :: mf) spec); setoid_rewrite labelsMatch_iff in Hc;
    naive_solver.
Qed.

(** One scrape updates a pod's metrics field by field.  The queue length and
    the cache usage become the sampled values; a metric that was not found leaves
    its field as it was and its error is among those reported; a LoRA sample makes
    the active adapters exactly those named by its running and waiting labels, and
    without such a sample they stay; no other field changes. *)
Theorem scrape_updates_fields `{MapOrder} ovf mapping families existing :
  let '(m, errs) := promToPodMetrics ovf mapping families existing in
  RunningQueueSize m = RunningQueueSize existing
  ∧ KvCacheMaxTokenCapacity m = KvCacheMaxTokenCapacity existing
  ∧ match getMetric families <$> TotalQueuedRequests mapping with
    | None => WaitingQueueSize m = WaitingQueueSize existing
    | Some (inl q) => WaitingQueueSize m = to_int ovf (GetGaugeValue q)
    | Some (inr e) => WaitingQueueSize m = WaitingQueueSize existing ∧ e ∈ errs
    end
  ∧ match getMetric families <$> KVCacheUtilization mapping with
    | None => KVCacheUsagePercent m = KVCacheUsagePercent existing
    | Some (inl u) => KVCacheUsagePercent m = GetGaugeValue u
    | Some (inr e) => KVCacheUsagePercent m = KVCacheUsagePercent existing ∧ e ∈ errs
    end
  ∧ match (getLatestLoraMetric mapping families).1 with
    | None => ActiveModels m = ActiveModels existing
              ∧ MaxActiveModels m = MaxActiveModels existing
    | Some s => ∀ a, a ∈ dom (ActiveModels m) ↔ names_adapter (GetLabel s) a
    end.
Proof.
  unfold promToPodMetrics. rewrite Clone_id.
  set (acc1 := update_queue ovf mapping families (existing, [])).
  set (acc2 := update_kv mapping families acc1).
  destruct (update_lora_frame mapping families acc2) as (HR & HW & HK & HC).
  pose proof (update_lora_errs mapping families acc2) as He.
  pose proof (update_lora_models mapping families acc2) as Hm.
  destruct (update_lora mapping families acc2) as [m errs]. simpl in *.
  rewrite HR, HW, HK, HC. clear HR HW HK HC.
  destruct (update_kv_cases mapping families acc1) as (HR2 & HW2 & HC2 & HA2 & HM2 & HK2 & HE2).
  destruct (update_queue_cases ovf mapping families (existing, []))
    as (HR1 & HK1 & HC1 & HA1 & HM1 & HW1 & HE1).
  fold acc1 in HR1, HK1, HC1, HA1, HM1, HW1, HE1. fold acc2 in HR2, HW2, HC2, HA2, HM2, HK2, HE2.
  rewrite HA2, HM2, HA1, HM1 in Hm.
  rewrite HR2, HC2, HR1, HC1, HW2. do 2 (split; [done|]).
  split; [|split; [|exact Hm]].
  - destruct (getMetric families <$> TotalQueuedRequests mapping) as [[q|e]|]; [done| |done].
    destruct HW1; auto.
  - simpl in HK1. rewrite <-HK1. destruct (getMetric families <$> KVCacheUtilization mapping) as [[q|e]|];
      [done| |done]. destruct HK2; auto.
Qed.
