(* ===== verification/Metrics.v ===== *)
(** * pkg/epp/metrics: the Prometheus instruments of the endpoint picker

    The registry is the state: a counter vector maps label values to a count, a
    gauge vector to a value, a histogram vector to the observations made, from
    which the bucket counts follow. *)

From S2P Require Import Prelude GoInt Float64 Api Errors BackendMetrics.

Local Open Scope Z_scope.

(** Label values: model name and target model name. *)
Abbreviation model_labels := (string * string)%type (only parsing).
Abbreviation histogram := (gmap (string * string) (list float64)) (only parsing).

Record registry := mkRegistry {
  requestCounter : gmap (string * string) Z;
  requestErrCounter : gmap (string * string * string) Z;
  requestLatencies : gmap (string * string) (list float64);
  requestSizes : gmap (string * string) (list float64);
  responseSizes : gmap (string * string) (list float64);
  inputTokens : gmap (string * string) (list float64);
  outputTokens : gmap (string * string) (list float64);
  runningRequests : gmap string Z;
  inferencePoolAvgKVCache : gmap string float64;
  inferencePoolAvgQueueSize : gmap string float64;
  inferencePoolReadyPods : gmap string float64
}.

Definition empty_registry : registry := mkRegistry ∅ ∅ ∅ ∅ ∅ ∅ ∅ ∅ ∅ ∅ ∅.

(** [WithLabelValues(...).Inc()], [.Dec()] and [.Observe(x)]: the child is created
    at zero the first time its labels are used. *)
Definition add_at {K} `{Countable K} (k : K) (d : Z) (m : gmap K Z) : gmap K Z :=
  <[k := default 0 (m !! k) + d]> m.

Definition observe_at (k : string * string) (x : float64)
    (m : gmap (string * string) (list float64)) : gmap (string * string) (list float64) :=
  <[k := default [] (m !! k) ++ [x]]> m.

Definition RecordRequestCounter (modelName targetModelName : string) (r : registry) : registry :=
  mkRegistry (add_at (modelName, targetModelName) 1 (requestCounter r))
    (requestErrCounter r) (requestLatencies r) (requestSizes r) (responseSizes r)
    (inputTokens r) (outputTokens r) (runningRequests r) (inferencePoolAvgKVCache r)
    (inferencePoolAvgQueueSize r) (inferencePoolReadyPods r).

Definition RecordRequestErrCounter (modelName targetModelName code : string) (r : registry)
  : registry :=
  if bool_decide (code = "") then r
  else mkRegistry (requestCounter r)
    (add_at (modelName, targetModelName, code) 1 (requestErrCounter r))
    (requestLatencies r) (requestSizes r) (responseSizes r)
    (inputTokens r) (outputTokens r) (runningRequests r) (inferencePoolAvgKVCache r)
    (inferencePoolAvgQueueSize r) (inferencePoolReadyPods r).

Definition RecordRequestSizes (modelName targetModelName : string) (reqSize : Z) (r : registry)
  : registry :=
  mkRegistry (requestCounter r) (requestErrCounter r) (requestLatencies r)
    (observe_at (modelName, targetModelName) (of_int reqSize) (requestSizes r))
    (responseSizes r) (inputTokens r) (outputTokens r) (runningRequests r)
    (inferencePoolAvgKVCache r) (inferencePoolAvgQueueSize r) (inferencePoolReadyPods r).

(** [complete.Sub(received).Seconds()]: the difference in nanoseconds saturates
    at 64 bits; whole seconds and the rest are converted apart. *)
Definition duration_seconds (d : Z) : float64 :=
  let d := Z.max MinInt (Z.min MaxInt d) in
  fadd (of_int (Z.quot d 1000000000)) (fdiv (of_int (Z.rem d 1000000000)) (of_int 1000000000)).

(** [RecordRequestLatencies]: an interval that is not positive is refused. *)
Definition RecordRequestLatencies (modelName targetModelName : string) (received complete : Time)
    (r : registry) : bool * registry :=
  if negb (received <? complete) then (false, r)
  else (true, mkRegistry (requestCounter r) (requestErrCounter r)
    (observe_at (modelName, targetModelName) (duration_seconds (complete - received))
       (requestLatencies r))
    (requestSizes r) (responseSizes r) (inputTokens r) (outputTokens r) (runningRequests r)
    (inferencePoolAvgKVCache r) (inferencePoolAvgQueueSize r) (inferencePoolReadyPods r)).

Definition RecordResponseSizes (modelName targetModelName : string) (size : Z) (r : registry)
  : registry :=
  mkRegistry (requestCounter r) (requestErrCounter r) (requestLatencies r) (requestSizes r)
    (observe_at (modelName, targetModelName) (of_int size) (responseSizes r))
    (inputTokens r) (outputTokens r) (runningRequests r)
    (inferencePoolAvgKVCache r) (inferencePoolAvgQueueSize r) (inferencePoolReadyPods r).

Definition RecordInputTokens (modelName targetModelName : string) (size : Z) (r : registry)
  : registry :=
  if 0 <? size then
    mkRegistry (requestCounter r) (requestErrCounter r) (requestLatencies r) (requestSizes r)
      (responseSizes r) (observe_at (modelName, targetModelName) (of_int size) (inputTokens r))
      (outputTokens r) (runningRequests r)
      (inferencePoolAvgKVCache r) (inferencePoolAvgQueueSize r) (inferencePoolReadyPods r)
  else r.

Definition RecordOutputTokens (modelName targetModelName : string) (size : Z) (r : registry)
  : registry :=
  if 0 <? size then
    mkRegistry (requestCounter r) (requestErrCounter r) (requestLatencies r) (requestSizes r)
      (responseSizes r) (inputTokens r)
      (observe_at (modelName, targetModelName) (of_int size) (outputTokens r))
      (runningRequests r)
      (inferencePoolAvgKVCache r) (inferencePoolAvgQueueSize r) (inferencePoolReadyPods r)
  else r.

Definition set_runningRequests (g : gmap string Z) (r : registry) : registry :=
  mkRegistry (requestCounter r) (requestErrCounter r) (requestLatencies r) (requestSizes r)
    (responseSizes r) (inputTokens r) (outputTokens r) g
    (inferencePoolAvgKVCache r) (inferencePoolAvgQueueSize r) (inferencePoolReadyPods r).

Definition IncRunningRequests (modelName : string) (r : registry) : registry :=
  if bool_decide (modelName = "") then r
  else set_runningRequests (add_at modelName 1 (runningRequests r)) r.

Definition DecRunningRequests (modelName : string) (r : registry) : registry :=
  if bool_decide (modelName = "") then r
  else set_runningRequests (add_at modelName (-1) (runningRequests r)) r.

Definition RecordInferencePoolAvgKVCache (name : string) (utilization : float64) (r : registry)
  : registry :=
  mkRegistry (requestCounter r) (requestErrCounter r) (requestLatencies r) (requestSizes r)
    (responseSizes r) (inputTokens r) (outputTokens r) (runningRequests r)
    (<[name := utilization]> (inferencePoolAvgKVCache r))
    (inferencePoolAvgQueueSize r) (inferencePoolReadyPods r).

Definition RecordInferencePoolAvgQueueSize (name : string) (queueSize : float64) (r : registry)
  : registry :=
  mkRegistry (requestCounter r) (requestErrCounter r) (requestLatencies r) (requestSizes r)
    (responseSizes r) (inputTokens r) (outputTokens r) (runningRequests r)
    (inferencePoolAvgKVCache r) (<[name := queueSize]> (inferencePoolAvgQueueSize r))
    (inferencePoolReadyPods r).

Definition RecordinferencePoolReadyPods (name : string) (runningPods : float64) (r : registry)
  : registry :=
  mkRegistry (requestCounter r) (requestErrCounter r) (requestLatencies r) (requestSizes r)
    (responseSizes r) (inputTokens r) (outputTokens r) (runningRequests r)
    (inferencePoolAvgKVCache r) (inferencePoolAvgQueueSize r)
    (<[name := runningPods]> (inferencePoolReadyPods r)).

(** ** Histogram buckets *)

(** The bounds, in thousandths for the latencies. *)
Definition latency_buckets_ms : list Z :=
  [5; 25; 50; 100; 200; 400; 600; 800; 1000; 1250; 1500; 2000; 3000;
   4000; 5000; 6000; 8000; 10000; 15000; 20000; 30000; 45000; 60000; 120000; 180000; 240000;
   300000; 360000; 480000; 600000; 900000; 1200000; 1800000; 2700000; 3600000].

Definition request_size_buckets : list Z :=
  [64; 128; 256; 512; 1024; 2048; 4096; 8192; 16384; 32768; 65536;
   131072; 262144; 524288; 1048576; 2097152; 4194304; 8388608;
   16777216; 33554432; 67108864; 134217728; 268435456; 536870912; 1073741824].

Definition response_size_buckets : list Z :=
  [1; 8; 16; 32; 64; 128; 256; 512; 1024; 2048; 4096; 8192; 16384; 32778; 65536].

Definition input_token_buckets : list Z :=
  [1; 8; 16; 32; 64; 128; 256; 512; 1024; 2048; 4096; 8192; 16384; 32778; 65536; 131072;
   262144; 524288; 1048576].

Definition output_token_buckets : list Z :=
  [1; 8; 16; 32; 64; 128; 256; 512; 1024; 2048; 4096; 8192].

(** The cumulative count of a bucket: the observations at most its bound. *)
Definition bucket_count (bound : float64) (obs : list float64) : nat :=
  length (filter (λ x, fleb x bound = true) obs).

(** ** backend/metrics/logger.go *)

Definition flushPrometheusMetricsOnce (pool : option string) (podMetrics : list PodMetrics)
    (r : registry) : registry :=
  match pool with
  | None => r
  | Some name =>
      let podTotalCount := Z.of_nat (length podMetrics) in
      if podTotalCount =? 0 then r
      else
        let kvCacheTotal :=
          foldl (λ t p, fadd t (KVCacheUsagePercent (GetMetrics p))) fzero podMetrics in
        let queueTotal :=
          foldl (λ t p, int_add t (WaitingQueueSize (GetMetrics p))) 0 podMetrics in
        RecordinferencePoolReadyPods name (of_int podTotalCount)
          (RecordInferencePoolAvgQueueSize name (of_int (int_quot queueTotal podTotalCount))
            (RecordInferencePoolAvgKVCache name (fdiv kvCacheTotal (of_int podTotalCount)) r))
  end.
