(* ===== verification/MetricsProofs.v ===== *)
(** * Properties of the pool gauges *)

From S2P Require Import Prelude GoInt Float64 Api BackendMetrics Metrics.

Local Open Scope Z_scope.

Definition queue_of (p : PodMetrics) : Z := WaitingQueueSize (GetMetrics p).

Definition queue_sum (pods : list PodMetrics) : Z := foldr (λ p t, queue_of p + t) 0 pods.

(** Queues are never negative, and their sum fits an int. *)
Definition queues_ok (pods : list PodMetrics) : Prop :=
  Forall (λ p, 0 <= queue_of p) pods ∧ queue_sum pods <= MaxInt.

Lemma queue_sum_nonneg pods : Forall (λ p, 0 <= queue_of p) pods → 0 <= queue_sum pods.
Proof. induction 1; simpl; lia. Qed.

Lemma queue_fold_exact pods acc :
  Forall (λ p, 0 <= queue_of p) pods → 0 <= acc → acc + queue_sum pods <= MaxInt →
  foldl (λ t p, int_add t (WaitingQueueSize (GetMetrics p))) acc pods = acc + queue_sum pods.
Proof.
  intros Hall. revert acc. induction Hall as [|p pods Hp Hall IH]; intros acc Hacc Hb; simpl; [lia|].
  simpl in Hb. pose proof (queue_sum_nonneg pods Hall). fold (queue_of p).
  unfold int_add. rewrite wrap64_id by (unfold MinInt; lia). rewrite IH by lia. lia.
Qed.

(** The average lies between two queues. *)
Lemma average_between pods avg :
  pods ≠ [] → avg = queue_sum pods / Z.of_nat (length pods) →
  (∃ p, p ∈ pods ∧ queue_of p <= avg) ∧ (∃ p, p ∈ pods ∧ avg <= queue_of p).
Proof.
  intros Hne Havg. set (n := Z.of_nat (length pods)) in *.
  assert (0 < n) as Hn by (subst n; destruct pods; [done|simpl length; lia]).
  pose proof (Z.div_mod (queue_sum pods) n ltac:(lia)) as Hdm.
  pose proof (Z.mod_pos_bound (queue_sum pods) n Hn) as Hm. rewrite <-Havg in Hdm. clear Havg.
  split.
  - destruct (decide (Exists (λ p, queue_of p <= avg) pods)) as [He|He].
    { by apply Exists_exists in He. }
    exfalso. apply not_Exists_Forall in He; [|intros ?; apply _].
    assert ((avg + 1) * n <= queue_sum pods); [|lia]. subst n. clear -He.
    induction He as [|p pods Hp He IH]; simpl length; cbn [queue_sum foldr]; [lia|].
    fold (queue_sum pods). cbn in Hp. lia.
  - destruct (decide (Exists (λ p, avg <= queue_of p) pods)) as [He|He].
    { by apply Exists_exists in He. }
    exfalso. apply not_Exists_Forall in He; [|intros ?; apply _].
    assert (queue_sum pods <= (avg - 1) * n); [|lia]. subst n. clear -He.
    induction He as [|p pods Hp He IH]; simpl length; cbn [queue_sum foldr]; [lia|].
    fold (queue_sum pods). cbn in Hp. lia.
Qed.

(** * Claims *)

(** What a flush publishes about a pool with pods.  The gauge of ready pods is their
    number and the queue gauge the exact average rounded down, which lies between the
    shortest and the longest queue; gauges of other pools and all request metrics stay.
    When the pods are gone, a flush changes nothing: the gauges keep their last values,
    so the number of ready pods does not drop to zero. *)
Theorem pool_gauges_spec name pods r :
  pods ≠ [] → queues_ok pods →
  let r' := flushPrometheusMetricsOnce (Some name) pods r in
  inferencePoolReadyPods r' !! name = Some (of_int (Z.of_nat (length pods)))
  ∧ (∃ avg, inferencePoolAvgQueueSize r' !! name = Some (of_int avg)
       ∧ avg = queue_sum pods / Z.of_nat (length pods)
       ∧ (∃ p, p ∈ pods ∧ queue_of p <= avg) ∧ (∃ p, p ∈ pods ∧ avg <= queue_of p))
  ∧ (∀ other, other ≠ name →
       inferencePoolReadyPods r' !! other = inferencePoolReadyPods r !! other
       ∧ inferencePoolAvgQueueSize r' !! other = inferencePoolAvgQueueSize r !! other
       ∧ inferencePoolAvgKVCache r' !! other = inferencePoolAvgKVCache r !! other)
  ∧ requestCounter r' = requestCounter r ∧ runningRequests r' = runningRequests r
  ∧ inferencePoolReadyPods (flushPrometheusMetricsOnce (Some name) [] r') !! name
    = Some (of_int (Z.of_nat (length pods))).
Proof.
  intros Hne [Hall Hb] r'. subst r'. cbn [flushPrometheusMetricsOnce].
  assert (0 < Z.of_nat (length pods)) as Hn by (destruct pods; [done|simpl length; lia]).
  rewrite (proj2 (Z.eqb_neq _ _)) by lia. rewrite queue_fold_exact by (done || lia).
  pose proof (queue_sum_nonneg pods Hall) as Hs.
  assert (Z.quot (queue_sum pods) (Z.of_nat (length pods)) = queue_sum pods / Z.of_nat (length pods)) as Hq
    by (apply Z.quot_div_nonneg; lia).
  assert (queue_sum pods / Z.of_nat (length pods) <= queue_sum pods) as Hle
    by (apply Z.div_le_upper_bound; nia).
  rewrite Z.add_0_l. unfold int_quot. rewrite Hq, wrap64_id
    by (pose proof (Z.div_pos (queue_sum pods) (Z.of_nat (length pods))); unfold MinInt; lia).
  split; [apply lookup_insert_eq|]. split; [|split; [|split; [done|split; [done|apply lookup_insert_eq]]]].
  - eexists. split; [apply lookup_insert_eq|]. split; [done|]. by apply average_between.
  - intros other Hother. simpl. rewrite !lookup_insert_ne by done. done.
Qed.

(** * Witnesses *)

Definition queued (q : Z) : PodMetrics :=
  mkPodMetrics (mkPod (mkNamespacedName "ns" "p") "") (mkMetrics ∅ 0 0 q fzero 0 0).

Lemma pool_gauges_spec_witness :
  inferencePoolAvgQueueSize (flushPrometheusMetricsOnce (Some "pool") [queued 2; queued 5] empty_registry)
    !! "pool" = Some (of_int 3)
  ∧ inferencePoolReadyPods
      (flushPrometheusMetricsOnce (Some "pool") []
         (flushPrometheusMetricsOnce (Some "pool") [queued 2; queued 5] empty_registry)) !! "pool"
    = Some (of_int 2).
Proof.
  split; [vm_compute; reflexivity|].
  apply (pool_gauges_spec "pool" [queued 2; queued 5] empty_registry); [done|].
  split; [|vm_compute; discriminate].
  apply Forall_forall. intros p [->|[->|[]%elem_of_nil]%elem_of_cons]%elem_of_cons; cbn; lia.
Defined.
