(* ===== verification/ExtProc.v ===== *)
(** * The ext-proc protocol and the request context

    The messages of Envoy's external-processing service that the handlers read
    and write, and [RequestContext] of handlers/server.go with its field
    assignments. *)

From S2P Require Import Prelude GoInt Float64 Api Errors.

Local Open Scope Z_scope.

(** ** Messages from Envoy *)

(** [HeaderValue]: key and raw value. *)
Definition Header : Type := string * string.

Record HttpHeaders := mkHttpHeaders {
  hh_Headers : list Header;
  hh_EndOfStream : bool
}.

Record HttpBody := mkHttpBody {
  hb_Body : string;
  hb_EndOfStream : bool
}.

(** The oneof [ProcessingRequest.Request]; [NoRequest] is an unset field. *)
Inductive ProcessingRequest : Type :=
  | RequestHeaders (h : HttpHeaders)
  | RequestBody (b : HttpBody)
  | RequestTrailers
  | ResponseHeaders (h : HttpHeaders)
  | ResponseBody (b : HttpBody)
  | ResponseTrailers
  | NoRequest.

(** ** Messages to Envoy *)

Inductive BodyMutation : Type :=
  | MutationBody (body : string)
  | StreamedResponse (body : string) (EndOfStream : bool).

Record CommonResponse := mkCommonResponse {
  cr_SetHeaders : option (list Header);
  cr_BodyMutation : option BodyMutation;
  cr_ClearRouteCache : bool
}.

Inductive Response_oneof : Type :=
  | RespRequestHeaders (c : CommonResponse)
  | RespRequestBody (c : CommonResponse)
  | RespResponseHeaders (c : CommonResponse)
  | RespResponseBody (c : CommonResponse)
  | RespRequestTrailers
  | RespResponseTrailers
  | RespImmediate (StatusCode : Z).

(** [structpb.Value] with the two kinds in use. *)
Inductive struct_value : Type :=
  | StringValue (s : string)
  | StructValue (fields : list (string * struct_value)).

Record ProcessingResponse := mkProcessingResponse {
  pr_Response : option Response_oneof;
  pr_DynamicMetadata : option (list (string * struct_value))
}.

(** A nil message encodes as one with no field set. *)
Definition nil_response : ProcessingResponse := mkProcessingResponse None None.

(** [GetBodyMutation().GetStreamedResponse().GetEndOfStream()]. *)
Definition GetEndOfStream (c : CommonResponse) : bool :=
  match cr_BodyMutation c with Some (StreamedResponse _ eos) => eos | _ => false end.

(** HTTP status codes of immediate responses. *)
Definition StatusBadRequest : Z := 400.
Definition StatusNotFound : Z := 404.
Definition StatusTooManyRequests : Z := 429.
Definition StatusInternalServerError : Z := 500.

(** ** server.go: the request context *)

Record Usage := mkUsage {
  PromptTokens : Z;
  CompletionTokens : Z;
  TotalTokens : Z
}.
Definition zero_usage : Usage := mkUsage 0 0 0.

Inductive StreamRequestState :=
  | RequestReceived
  | HeaderRequestResponseComplete
  | BodyRequestResponsesComplete
  | TrailerRequestResponsesComplete
  | ResponseRecieved
  | HeaderResponseResponseComplete
  | BodyResponseResponsesComplete
  | TrailerResponseResponsesComplete.

Global Instance StreamRequestState_eq_dec : EqDecision StreamRequestState.
Proof. solve_decision. Defined.

Record RequestContext := mkRequestContext {
  rc_TargetPod : string;
  rc_TargetEndpoint : string;
  rc_Model : string;
  rc_ResolvedTargetModel : string;
  rc_RequestReceivedTimestamp : Time;
  rc_ResponseCompleteTimestamp : Time;
  rc_RequestSize : Z;
  rc_Usage : Usage;
  rc_ResponseSize : Z;
  rc_ResponseComplete : bool;
  rc_ResponseStatusCode : string;
  rc_RequestRunning : bool;
  rc_RequestState : StreamRequestState;
  rc_modelServerStreaming : bool;
  rc_reqHeaderResp : option ProcessingResponse;
  rc_reqBodyResp : option ProcessingResponse;
  rc_reqTrailerResp : option ProcessingResponse;
  rc_respHeaderResp : option ProcessingResponse;
  rc_respBodyResp : option ProcessingResponse;
  rc_respTrailerResp : option ProcessingResponse;
  rc_WorkerInstanceID : string
}.

(** [&RequestContext{}]. *)
Definition zero_context : RequestContext := {|
  rc_TargetPod := "";
  rc_TargetEndpoint := "";
  rc_Model := "";
  rc_ResolvedTargetModel := "";
  rc_RequestReceivedTimestamp := 0;
  rc_ResponseCompleteTimestamp := 0;
  rc_RequestSize := 0;
  rc_Usage := zero_usage;
  rc_ResponseSize := 0;
  rc_ResponseComplete := false;
  rc_ResponseStatusCode := "";
  rc_RequestRunning := false;
  rc_RequestState := RequestReceived;
  rc_modelServerStreaming := false;
  rc_reqHeaderResp := None;
  rc_reqBodyResp := None;
  rc_reqTrailerResp := None;
  rc_respHeaderResp := None;
  rc_respBodyResp := None;
  rc_respTrailerResp := None;
  rc_WorkerInstanceID := ""
|}.

(** Assignments to one field. *)
Definition set_TargetPod (x : string) (c : RequestContext) : RequestContext :=
  mkRequestContext x (rc_TargetEndpoint c) (rc_Model c) (rc_ResolvedTargetModel c)
    (rc_RequestReceivedTimestamp c) (rc_ResponseCompleteTimestamp c) (rc_RequestSize c)
    (rc_Usage c) (rc_ResponseSize c) (rc_ResponseComplete c) (rc_ResponseStatusCode c)
    (rc_RequestRunning c) (rc_RequestState c) (rc_modelServerStreaming c) (rc_reqHeaderResp c)
    (rc_reqBodyResp c) (rc_reqTrailerResp c) (rc_respHeaderResp c) (rc_respBodyResp c)
    (rc_respTrailerResp c) (rc_WorkerInstanceID c).
Definition set_TargetEndpoint (x : string) (c : RequestContext) : RequestContext :=
  mkRequestContext (rc_TargetPod c) x (rc_Model c) (rc_ResolvedTargetModel c)
    (rc_RequestReceivedTimestamp c) (rc_ResponseCompleteTimestamp c) (rc_RequestSize c)
    (rc_Usage c) (rc_ResponseSize c) (rc_ResponseComplete c) (rc_ResponseStatusCode c)
    (rc_RequestRunning c) (rc_RequestState c) (rc_modelServerStreaming c) (rc_reqHeaderResp c)
    (rc_reqBodyResp c) (rc_reqTrailerResp c) (rc_respHeaderResp c) (rc_respBodyResp c)
    (rc_respTrailerResp c) (rc_WorkerInstanceID c).
Definition set_Model (x : string) (c : RequestContext) : RequestContext :=
  mkRequestContext (rc_TargetPod c) (rc_TargetEndpoint c) x (rc_ResolvedTargetModel c)
    (rc_RequestReceivedTimestamp c) (rc_ResponseCompleteTimestamp c) (rc_RequestSize c)
    (rc_Usage c) (rc_ResponseSize c) (rc_ResponseComplete c) (rc_ResponseStatusCode c)
    (rc_RequestRunning c) (rc_RequestState c) (rc_modelServerStreaming c) (rc_reqHeaderResp c)
    (rc_reqBodyResp c) (rc_reqTrailerResp c) (rc_respHeaderResp c) (rc_respBodyResp c)
    (rc_respTrailerResp c) (rc_WorkerInstanceID c).
Definition set_ResolvedTargetModel (x : string) (c : RequestContext) : RequestContext :=
  mkRequestContext (rc_TargetPod c) (rc_TargetEndpoint c) (rc_Model c) x
    (rc_RequestReceivedTimestamp c) (rc_ResponseCompleteTimestamp c) (rc_RequestSize c)
    (rc_Usage c) (rc_ResponseSize c) (rc_ResponseComplete c) (rc_ResponseStatusCode c)
    (rc_RequestRunning c) (rc_RequestState c) (rc_modelServerStreaming c) (rc_reqHeaderResp c)
    (rc_reqBodyResp c) (rc_reqTrailerResp c) (rc_respHeaderResp c) (rc_respBodyResp c)
    (rc_respTrailerResp c) (rc_WorkerInstanceID c).
Definition set_RequestReceivedTimestamp (x : Time) (c : RequestContext) : RequestContext :=
  mkRequestContext (rc_TargetPod c) (rc_TargetEndpoint c) (rc_Model c) (rc_ResolvedTargetModel c)
    x (rc_ResponseCompleteTimestamp c) (rc_RequestSize c) (rc_Usage c) (rc_ResponseSize c)
    (rc_ResponseComplete c) (rc_ResponseStatusCode c) (rc_RequestRunning c) (rc_RequestState c)
    (rc_modelServerStreaming c) (rc_reqHeaderResp c) (rc_reqBodyResp c) (rc_reqTrailerResp c)
    (rc_respHeaderResp c) (rc_respBodyResp c) (rc_respTrailerResp c) (rc_WorkerInstanceID c).
Definition set_ResponseCompleteTimestamp (x : Time) (c : RequestContext) : RequestContext :=
  mkRequestContext (rc_TargetPod c) (rc_TargetEndpoint c) (rc_Model c) (rc_ResolvedTargetModel c)
    (rc_RequestReceivedTimestamp c) x (rc_RequestSize c) (rc_Usage c) (rc_ResponseSize c)
    (rc_ResponseComplete c) (rc_ResponseStatusCode c) (rc_RequestRunning c) (rc_RequestState c)
    (rc_modelServerStreaming c) (rc_reqHeaderResp c) (rc_reqBodyResp c) (rc_reqTrailerResp c)
    (rc_respHeaderResp c) (rc_respBodyResp c) (rc_respTrailerResp c) (rc_WorkerInstanceID c).
Definition set_RequestSize (x : Z) (c : RequestContext) : RequestContext :=
  mkRequestContext (rc_TargetPod c) (rc_TargetEndpoint c) (rc_Model c) (rc_ResolvedTargetModel c)
    (rc_RequestReceivedTimestamp c) (rc_ResponseCompleteTimestamp c) x (rc_Usage c)
    (rc_ResponseSize c) (rc_ResponseComplete c) (rc_ResponseStatusCode c) (rc_RequestRunning c)
    (rc_RequestState c) (rc_modelServerStreaming c) (rc_reqHeaderResp c) (rc_reqBodyResp c)
    (rc_reqTrailerResp c) (rc_respHeaderResp c) (rc_respBodyResp c) (rc_respTrailerResp c)
    (rc_WorkerInstanceID c).
Definition set_Usage (x : Usage) (c : RequestContext) : RequestContext :=
  mkRequestContext (rc_TargetPod c) (rc_TargetEndpoint c) (rc_Model c) (rc_ResolvedTargetModel c)
    (rc_RequestReceivedTimestamp c) (rc_ResponseCompleteTimestamp c) (rc_RequestSize c) x
    (rc_ResponseSize c) (rc_ResponseComplete c) (rc_ResponseStatusCode c) (rc_RequestRunning c)
    (rc_RequestState c) (rc_modelServerStreaming c) (rc_reqHeaderResp c) (rc_reqBodyResp c)
    (rc_reqTrailerResp c) (rc_respHeaderResp c) (rc_respBodyResp c) (rc_respTrailerResp c)
    (rc_WorkerInstanceID c).
Definition set_ResponseSize (x : Z) (c : RequestContext) : RequestContext :=
  mkRequestContext (rc_TargetPod c) (rc_TargetEndpoint c) (rc_Model c) (rc_ResolvedTargetModel c)
    (rc_RequestReceivedTimestamp c) (rc_ResponseCompleteTimestamp c) (rc_RequestSize c)
    (rc_Usage c) x (rc_ResponseComplete c) (rc_ResponseStatusCode c) (rc_RequestRunning c)
    (rc_RequestState c) (rc_modelServerStreaming c) (rc_reqHeaderResp c) (rc_reqBodyResp c)
    (rc_reqTrailerResp c) (rc_respHeaderResp c) (rc_respBodyResp c) (rc_respTrailerResp c)
    (rc_WorkerInstanceID c).
Definition set_ResponseComplete (x : bool) (c : RequestContext) : RequestContext :=
  mkRequestContext (rc_TargetPod c) (rc_TargetEndpoint c) (rc_Model c) (rc_ResolvedTargetModel c)
    (rc_RequestReceivedTimestamp c) (rc_ResponseCompleteTimestamp c) (rc_RequestSize c)
    (rc_Usage c) (rc_ResponseSize c) x (rc_ResponseStatusCode c) (rc_RequestRunning c)
    (rc_RequestState c) (rc_modelServerStreaming c) (rc_reqHeaderResp c) (rc_reqBodyResp c)
    (rc_reqTrailerResp c) (rc_respHeaderResp c) (rc_respBodyResp c) (rc_respTrailerResp c)
    (rc_WorkerInstanceID c).
Definition set_ResponseStatusCode (x : string) (c : RequestContext) : RequestContext :=
  mkRequestContext (rc_TargetPod c) (rc_TargetEndpoint c) (rc_Model c) (rc_ResolvedTargetModel c)
    (rc_RequestReceivedTimestamp c) (rc_ResponseCompleteTimestamp c) (rc_RequestSize c)
    (rc_Usage c) (rc_ResponseSize c) (rc_ResponseComplete c) x (rc_RequestRunning c)
    (rc_RequestState c) (rc_modelServerStreaming c) (rc_reqHeaderResp c) (rc_reqBodyResp c)
    (rc_reqTrailerResp c) (rc_respHeaderResp c) (rc_respBodyResp c) (rc_respTrailerResp c)
    (rc_WorkerInstanceID c).
Definition set_RequestRunning (x : bool) (c : RequestContext) : RequestContext :=
  mkRequestContext (rc_TargetPod c) (rc_TargetEndpoint c) (rc_Model c) (rc_ResolvedTargetModel c)
    (rc_RequestReceivedTimestamp c) (rc_ResponseCompleteTimestamp c) (rc_RequestSize c)
    (rc_Usage c) (rc_ResponseSize c) (rc_ResponseComplete c) (rc_ResponseStatusCode c) x
    (rc_RequestState c) (rc_modelServerStreaming c) (rc_reqHeaderResp c) (rc_reqBodyResp c)
    (rc_reqTrailerResp c) (rc_respHeaderResp c) (rc_respBodyResp c) (rc_respTrailerResp c)
    (rc_WorkerInstanceID c).
Definition set_RequestState (x : StreamRequestState) (c : RequestContext) : RequestContext :=
  mkRequestContext (rc_TargetPod c) (rc_TargetEndpoint c) (rc_Model c) (rc_ResolvedTargetModel c)
    (rc_RequestReceivedTimestamp c) (rc_ResponseCompleteTimestamp c) (rc_RequestSize c)
    (rc_Usage c) (rc_ResponseSize c) (rc_ResponseComplete c) (rc_ResponseStatusCode c)
    (rc_RequestRunning c) x (rc_modelServerStreaming c) (rc_reqHeaderResp c) (rc_reqBodyResp c)
    (rc_reqTrailerResp c) (rc_respHeaderResp c) (rc_respBodyResp c) (rc_respTrailerResp c)
    (rc_WorkerInstanceID c).
Definition set_modelServerStreaming (x : bool) (c : RequestContext) : RequestContext :=
  mkRequestContext (rc_TargetPod c) (rc_TargetEndpoint c) (rc_Model c) (rc_ResolvedTargetModel c)
    (rc_RequestReceivedTimestamp c) (rc_ResponseCompleteTimestamp c) (rc_RequestSize c)
    (rc_Usage c) (rc_ResponseSize c) (rc_ResponseComplete c) (rc_ResponseStatusCode c)
    (rc_RequestRunning c) (rc_RequestState c) x (rc_reqHeaderResp c) (rc_reqBodyResp c)
    (rc_reqTrailerResp c) (rc_respHeaderResp c) (rc_respBodyResp c) (rc_respTrailerResp c)
    (rc_WorkerInstanceID c).
Definition set_reqHeaderResp (x : option ProcessingResponse) (c : RequestContext) : RequestContext :=
  mkRequestContext (rc_TargetPod c) (rc_TargetEndpoint c) (rc_Model c) (rc_ResolvedTargetModel c)
    (rc_RequestReceivedTimestamp c) (rc_ResponseCompleteTimestamp c) (rc_RequestSize c)
    (rc_Usage c) (rc_ResponseSize c) (rc_ResponseComplete c) (rc_ResponseStatusCode c)
    (rc_RequestRunning c) (rc_RequestState c) (rc_modelServerStreaming c) x (rc_reqBodyResp c)
    (rc_reqTrailerResp c) (rc_respHeaderResp c) (rc_respBodyResp c) (rc_respTrailerResp c)
    (rc_WorkerInstanceID c).
Definition set_reqBodyResp (x : option ProcessingResponse) (c : RequestContext) : RequestContext :=
  mkRequestContext (rc_TargetPod c) (rc_TargetEndpoint c) (rc_Model c) (rc_ResolvedTargetModel c)
    (rc_RequestReceivedTimestamp c) (rc_ResponseCompleteTimestamp c) (rc_RequestSize c)
    (rc_Usage c) (rc_ResponseSize c) (rc_ResponseComplete c) (rc_ResponseStatusCode c)
    (rc_RequestRunning c) (rc_RequestState c) (rc_modelServerStreaming c) (rc_reqHeaderResp c) x
    (rc_reqTrailerResp c) (rc_respHeaderResp c) (rc_respBodyResp c) (rc_respTrailerResp c)
    (rc_WorkerInstanceID c).
Definition set_reqTrailerResp (x : option ProcessingResponse) (c : RequestContext) : RequestContext :=
  mkRequestContext (rc_TargetPod c) (rc_TargetEndpoint c) (rc_Model c) (rc_ResolvedTargetModel c)
    (rc_RequestReceivedTimestamp c) (rc_ResponseCompleteTimestamp c) (rc_RequestSize c)
    (rc_Usage c) (rc_ResponseSize c) (rc_ResponseComplete c) (rc_ResponseStatusCode c)
    (rc_RequestRunning c) (rc_RequestState c) (rc_modelServerStreaming c) (rc_reqHeaderResp c)
    (rc_reqBodyResp c) x (rc_respHeaderResp c) (rc_respBodyResp c) (rc_respTrailerResp c)
    (rc_WorkerInstanceID c).
Definition set_respHeaderResp (x : option ProcessingResponse) (c : RequestContext) : RequestContext :=
  mkRequestContext (rc_TargetPod c) (rc_TargetEndpoint c) (rc_Model c) (rc_ResolvedTargetModel c)
    (rc_RequestReceivedTimestamp c) (rc_ResponseCompleteTimestamp c) (rc_RequestSize c)
    (rc_Usage c) (rc_ResponseSize c) (rc_ResponseComplete c) (rc_ResponseStatusCode c)
    (rc_RequestRunning c) (rc_RequestState c) (rc_modelServerStreaming c) (rc_reqHeaderResp c)
    (rc_reqBodyResp c) (rc_reqTrailerResp c) x (rc_respBodyResp c) (rc_respTrailerResp c)
    (rc_WorkerInstanceID c).
Definition set_respBodyResp (x : option ProcessingResponse) (c : RequestContext) : RequestContext :=
  mkRequestContext (rc_TargetPod c) (rc_TargetEndpoint c) (rc_Model c) (rc_ResolvedTargetModel c)
    (rc_RequestReceivedTimestamp c) (rc_ResponseCompleteTimestamp c) (rc_RequestSize c)
    (rc_Usage c) (rc_ResponseSize c) (rc_ResponseComplete c) (rc_ResponseStatusCode c)
    (rc_RequestRunning c) (rc_RequestState c) (rc_modelServerStreaming c) (rc_reqHeaderResp c)
    (rc_reqBodyResp c) (rc_reqTrailerResp c) (rc_respHeaderResp c) x (rc_respTrailerResp c)
    (rc_WorkerInstanceID c).
Definition set_respTrailerResp (x : option ProcessingResponse) (c : RequestContext) : RequestContext :=
  mkRequestContext (rc_TargetPod c) (rc_TargetEndpoint c) (rc_Model c) (rc_ResolvedTargetModel c)
    (rc_RequestReceivedTimestamp c) (rc_ResponseCompleteTimestamp c) (rc_RequestSize c)
    (rc_Usage c) (rc_ResponseSize c) (rc_ResponseComplete c) (rc_ResponseStatusCode c)
    (rc_RequestRunning c) (rc_RequestState c) (rc_modelServerStreaming c) (rc_reqHeaderResp c)
    (rc_reqBodyResp c) (rc_reqTrailerResp c) (rc_respHeaderResp c) (rc_respBodyResp c) x
    (rc_WorkerInstanceID c).
Definition set_WorkerInstanceID (x : string) (c : RequestContext) : RequestContext :=
  mkRequestContext (rc_TargetPod c) (rc_TargetEndpoint c) (rc_Model c) (rc_ResolvedTargetModel c)
    (rc_RequestReceivedTimestamp c) (rc_ResponseCompleteTimestamp c) (rc_RequestSize c)
    (rc_Usage c) (rc_ResponseSize c) (rc_ResponseComplete c) (rc_ResponseStatusCode c)
    (rc_RequestRunning c) (rc_RequestState c) (rc_modelServerStreaming c) (rc_reqHeaderResp c)
    (rc_reqBodyResp c) (rc_reqTrailerResp c) (rc_respHeaderResp c) (rc_respBodyResp c)
    (rc_respTrailerResp c) x.
