(* ===== verification/Frontend.v ===== *)
(** * handlers/streamingserver.go: asking the Dynamo front end for a worker

    [callFrontEndForWorker]: the request body sent to the front end, and the
    parser of the server-sent events that come back.  The HTTP exchange is a
    parameter: the request cannot be built, the call fails, or a response
    arrives, whose body ends or breaks off. *)

From S2P Require Import Prelude GoInt GoStrings Float64 Utf8 JsonNumber Json Errors.

Local Open Scope Z_scope.

Inductive fe_result : Type :=
  | FeBuildFailed (e : error)
  | FePostFailed (e : error)
  | FeResponse (StatusCode : Z) (ContentType : string) (body : string) (readErr : option error).

(** ** The request *)

Definition needQueryInstanceID : string := "query_instance_id".

(** The annotations already there, those of them that are strings. *)
Definition annotations (nvext : fields) : list string :=
  match field "annotations" nvext with
  | Some (VStrings v) => v
  | Some (VArray v) => omap (λ x, match x with VString s => Some s | _ => None end) v
  | _ => []
  end.

Definition with_query (anns : list string) : list string :=
  if existsb (λ a, bool_decide (a = needQueryInstanceID)) anns then anns
  else anns ++ [needQueryInstanceID].

(** The value of [nvext] that is sent. *)
Definition fe_nvext (originalBody : fields) : fields :=
  let nvext := match field "nvext" originalBody with Some (VMap m) => m | _ => [] end in
  set_field "annotations" (VStrings (with_query (annotations nvext))) nvext.

(** The body that is sent: a copy of the request body, streaming unless it says
    otherwise, asking for the worker id. *)
Definition fe_body (originalBody : fields) : fields :=
  let feBody :=
    match field "stream" originalBody with
    | Some _ => originalBody
    | None => set_field "stream" (VBool true) originalBody
    end in
  set_field "nvext" (VMap (fe_nvext originalBody)) feBody.

(** The copy is shallow: when the request body has an [nvext] map, the map that
    is written to is the one of the request body. *)
Definition fe_aliased (originalBody : fields) : fields :=
  match field "nvext" originalBody with
  | Some (VMap _) => set_field "nvext" (VMap (fe_nvext originalBody)) originalBody
  | _ => originalBody
  end.

(** ** The event stream *)

Record sse := mkSse {
  eventName : string;
  dataBuf : string;
  commentBuf : string
}.

Definition sse_start : sse := mkSse "" "" "".

Definition nonempty_string (v : option value) : option string :=
  match v with
  | Some (VString s) => if bool_decide (s = "") then None else Some s
  | _ => None
  end.

(** The id of the event named [worker_instance_id]: a JSON string, or raw text
    with its quotes stripped. *)
Definition named_id (candidate : string) : option string :=
  if bool_decide (candidate = "") then None
  else
    let raw :=
      let clean := Trim candidate (λ c, bool_decide (c = quote)) in
      if negb (bool_decide (clean = "")) && negb (bool_decide (clean = "[DONE]"))
      then Some clean else None in
    match UnmarshalString candidate "" with
    | (s, None) => if negb (bool_decide (s = "")) then Some s else raw
    | _ => raw
    end.

(** The id in a JSON object: at the top, or in its annotations. *)
Definition object_id (data : string) : option string :=
  if bool_decide (data = "") then None
  else match UnmarshalMap data None with
       | (msg, None) =>
           let msg := default [] msg in
           match nonempty_string (field "worker_instance_id" msg) with
           | Some wid => Some wid
           | None =>
               match field "annotations" msg with
               | Some (VMap ann) => nonempty_string (field "worker_instance_id" ann)
               | _ => None
               end
           end
       | _ => None
       end.

(** [flushEvent]: the id found (or ""), whether the stream is done, and the
    buffers reset. *)
Definition flushEvent (st : sse) : string * bool * sse :=
  let data := TrimSpace (dataBuf st) in
  let comment := TrimSpace (commentBuf st) in
  let st' := mkSse (eventName st) "" "" in
  if bool_decide (data = "[DONE]") || bool_decide (comment = "[DONE]") then ("", true, st')
  else
    let named :=
      if bool_decide (eventName st = "worker_instance_id")
      then named_id (if bool_decide (data = "") then comment else data) else None in
    match named with
    | Some wid => (wid, false, st')
    | None =>
        match object_id data with
        | Some wid => (wid, false, st')
        | None => ("", false, st')
        end
    end.

Definition before_done : error := PlainError "Dynamo worker_instance_id not found before DONE".
Definition eof_error : error := PlainError "worker_instance_id not found in SSE stream (EOF)".

(** A buffer with one more line. *)
Definition add_line (buf line : string) : string :=
  if bool_decide (buf = "") then line else buf +:+ String LF line.

Definition is_eol (c : ascii) : bool := bool_decide (c = CR) || bool_decide (c = LF).

(** One complete line: the result of the call, or the state to go on with. *)
Definition sse_line (line : string) (st : sse) : (string + error) + sse :=
  let l := TrimRight line is_eol in
  if bool_decide (l = "") then
    let '(wid, done, st') := flushEvent st in
    if negb (bool_decide (wid = "")) then inl (inl wid)
    else if done : bool then inl (inr before_done)
    else inr (mkSse "" (dataBuf st') (commentBuf st'))
  else if HasPrefix l ":" then
    inr (mkSse (eventName st) (dataBuf st) (add_line (commentBuf st) (TrimSpace (str_drop 1 l))))
  else
    match IndexByte l ":"%char with
    | None => inr st
    | Some idx =>
        let name := str_take idx l in
        let val := TrimSpace (str_drop (idx + 1) l) in
        if bool_decide (name = "event") then inr (mkSse val (dataBuf st) (commentBuf st))
        else if bool_decide (name = "data") then
          inr (mkSse (eventName st) (add_line (dataBuf st) val) (commentBuf st))
        else inr st
    end.

(** The end of the body: a pending event is processed. *)
Definition sse_end (readErr : option error) (st : sse) : string + error :=
  match readErr with
  | Some e => inr (WrapError "sse read error: " e)
  | None =>
      let '(wid, done, _) := flushEvent st in
      if negb (bool_decide (wid = "")) then inl wid
      else if done : bool then inr before_done
      else inr eof_error
  end.

Fixpoint sse_lines (lines : list string) (readErr : option error) (st : sse) : string + error :=
  match lines with
  | [] => sse_end readErr st
  | line :: lines =>
      match sse_line line st with
      | inl r => r
      | inr st => sse_lines lines readErr st
      end
  end.

(** [ReadString('\n')] hands out complete lines; what follows the last newline
    comes with the error that ends the loop, and is dropped. *)
Definition complete_lines (body : string) : list string :=
  let parts := Split body LF in take (length parts - 1) parts.

Definition read_events (body : string) (readErr : option error) : string + error :=
  sse_lines (complete_lines body) readErr sse_start.

(** ** The call *)

Definition json_error_text (e : json_error) : string :=
  match e with
  | SyntaxError => "invalid JSON text"
  | UnmarshalTypeError => "cannot unmarshal value"
  | UnsupportedValueError => "unsupported value"
  end.

(** [callFrontEndForWorker]: the worker id or an error, next to the request body
    as the call leaves it. *)
Definition callFrontEndForWorker (http : string → fe_result) (originalBody : fields)
  : (string + error) * fields :=
  (match MarshalMap (Some (fe_body originalBody)) with
   | inr e => inr (WrapError "marshal FrontEnd body: " (LibraryError (json_error_text e)))
   | inl payload =>
       match http payload with
       | FeBuildFailed e => inr (WrapError "build FrontEnd request: " e)
       | FePostFailed e => inr (WrapError "FrontEnd POST failed: " e)
       | FeResponse code ct body readErr =>
           if (code <? 200) || (300 <=? code) then
             inr (PlainError ("Dynamo FrontEnd error: " +:+ Itoa code +:+ " body=" +:+ body))
           else if negb (Contains (ToLower ct) "text/event-stream") then
             inr (PlainError ("unexpected non-SSE response (Content-Type=" +:+ quote_string ct +:+ ")"))
           else read_events body readErr
       end
   end, fe_aliased originalBody).

(** The answer the comment in the code describes. *)
Example documented_answer :
  read_events ("event: worker_instance_id" +:+ String LF
               (": " +:+ quote_string "8303679623149182543" +:+ String LF
               (String LF ("data: [DONE]" +:+ String LF (String LF ""))))) None
  = inl "8303679623149182543".
Proof. vm_compute. reflexivity. Qed.
