(* ===== verification/Bbr.v ===== *)
(** * pkg/body-based-routing: the body-based router

    The ext-proc server that copies the model name of a request body into a header
    (handlers/server.go, request.go, response.go) and its counters
    (metrics/metrics.go).  [HeadersResponse{}], [BodyResponse{}] and the like, which
    carry no CommonResponse, are written with one that has no field set: both tell
    Envoy to continue and to change nothing. *)

From S2P Require Import Prelude GoInt GoStrings Float64 Utf8 JsonNumber Json Errors.
From S2P Require Import ExtProc Frontend.
From Stdlib Require Import SpecFloat.

Local Open Scope Z_scope.

(** ** Counters *)

Record bbr_metrics := mkBbrMetrics {
  successCounter : Z;
  modelNotInBodyCounter : Z;
  modelNotParsedCounter : Z
}.

Definition RecordSuccessCounter (r : bbr_metrics) : bbr_metrics :=
  mkBbrMetrics (successCounter r + 1) (modelNotInBodyCounter r) (modelNotParsedCounter r).

Definition RecordModelNotInBodyCounter (r : bbr_metrics) : bbr_metrics :=
  mkBbrMetrics (successCounter r) (modelNotInBodyCounter r + 1) (modelNotParsedCounter r).

Definition RecordModelNotParsedCounter (r : bbr_metrics) : bbr_metrics :=
  mkBbrMetrics (successCounter r) (modelNotInBodyCounter r) (modelNotParsedCounter r + 1).

(** ** [fmt]'s verb %v on a value of a body *)

(** A float: format 'g' with the shortest digits, an exponent of two digits or more
    when it is below -4 or at least 6. *)
Definition float_v (f : float64) : string :=
  match f with
  | S754_finite neg m e =>
      let '(d, x) := shortest m e in
      let p := x + Z.of_nat (String.length (nat_text d)) - 1 in
      if (p <? -4) || (6 <=? p) then
        let l := exp_literal neg d x in
        (if neg then "-" else "") +:+ lit_int l +:+ frac_text (lit_frac l)
        +:+ (if p <? 0 then "e-" else "e+")
        +:+ (if Z.abs p <? 10 then "0" else "") +:+ nat_text (Z.abs p)
      else literal_text (plain_literal neg d x)
  | S754_zero neg => if neg then "-0" else "0"
  | S754_infinity neg => if neg then "-Inf" else "+Inf"
  | S754_nan => "NaN"
  end.

Fixpoint words (ps : list string) : string :=
  match ps with
  | [] => ""
  | [p] => p
  | p :: ps => p +:+ String " " (words ps)
  end.

Fixpoint format_v (v : value) : string :=
  match v with
  | VNil => "<nil>"
  | VBool b => if b then "true" else "false"
  | VFloat f => float_v f
  | VString s => s
  | VArray l => "[" +:+ words (map format_v l) +:+ "]"
  | VStrings l => "[" +:+ words l +:+ "]"
  | VMap m => "map[" +:+ words (map (λ kv, kv.1 +:+ ":" +:+ format_v kv.2) m) +:+ "]"
  end.

(** ** request.go *)

Definition modelHeader : string := "X-Gateway-Model-Name".

Definition unchanged : CommonResponse := mkCommonResponse None None false.

Definition with_model_header (modelStr : string) : CommonResponse :=
  mkCommonResponse (Some [(modelHeader, modelStr)]) None true.

Definition reply (r : Response_oneof) : ProcessingResponse := mkProcessingResponse (Some r) None.

(** [addStreamedBodyResponse] *)
Definition addStreamedBodyResponse (responses : list ProcessingResponse) (requestBodyBytes : string)
  : list ProcessingResponse :=
  responses ++
  [reply (RespRequestBody (mkCommonResponse None (Some (StreamedResponse requestBodyBytes true)) false))].

(** [HandleRequestBody] *)
Definition HandleRequestBody (streaming : bool) (data : option fields) (r : bbr_metrics)
  : (list ProcessingResponse + error) * bbr_metrics :=
  match MarshalMap data with
  | inr e => (inr (LibraryError (json_error_text e)), r)
  | inl requestBodyBytes =>
      match field "model" (default [] data) with
      | None =>
          let r := RecordModelNotInBodyCounter r in
          if streaming
          then (inl (addStreamedBodyResponse [reply (RespRequestHeaders unchanged)] requestBodyBytes), r)
          else (inl [reply (RespRequestBody unchanged)], r)
      | Some (VString modelStr) =>
          let r := RecordSuccessCounter r in
          if streaming
          then (inl (addStreamedBodyResponse
                       [reply (RespRequestHeaders (with_model_header modelStr))] requestBodyBytes), r)
          else (inl [reply (RespRequestBody (with_model_header modelStr))], r)
      | Some modelVal =>
          (inr (PlainError ("the model parameter value " +:+ format_v modelVal +:+ " is not a string")),
           RecordModelNotParsedCounter r)
      end
  end.

(** [HandleRequestHeaders], [HandleRequestTrailers] *)
Definition HandleRequestHeaders (h : HttpHeaders) : list ProcessingResponse :=
  [reply (RespRequestHeaders unchanged)].
Definition HandleRequestTrailers : list ProcessingResponse := [reply RespRequestTrailers].

(** ** response.go *)

Definition HandleResponseHeaders (h : HttpHeaders) : list ProcessingResponse :=
  [reply (RespResponseHeaders unchanged)].
Definition HandleResponseBody (b : HttpBody) : list ProcessingResponse :=
  [reply (RespResponseBody unchanged)].
Definition HandleResponseTrailers : list ProcessingResponse := [reply RespResponseTrailers].

(** ** server.go *)

(** [processRequestBody]: the responses or the error, and the buffer of a streamed
    body as the call leaves it. *)
Definition processRequestBody (streaming : bool) (body : HttpBody) (streamedBody : string)
    (r : bbr_metrics) : (list ProcessingResponse + error) * string * bbr_metrics :=
  if streaming then
    if negb (hb_EndOfStream body) then (inl [], streamedBody +:+ hb_Body body, r)
    else
      let requestBody := (UnmarshalMap streamedBody None).1 in
      let '(res, r) := HandleRequestBody streaming requestBody r in
      (res, streamedBody, r)
  else
    match UnmarshalMap (hb_Body body) None with
    | (_, Some e) => (inr (LibraryError (json_error_text e)), streamedBody, r)
    | (requestBody, None) =>
        let '(res, r) := HandleRequestBody streaming requestBody r in
        (res, streamedBody, r)
    end.

(** A stream: the buffer, the counters, the messages sent. *)
Record bbr_state := mkBbrState {
  b_body : string;
  b_metrics : bbr_metrics;
  b_sent : list ProcessingResponse
}.

(** One turn: the context is done, [Recv] ends or fails ([RecvCanceled]: with an error
    that is context.Canceled), or a message arrives, with the outcome of each [Send]. *)
Inductive bbr_event : Type :=
  | BCtxDone (e : error)
  | BRecvEOF
  | BRecvCanceled
  | BRecvFailed (e : error)
  | BRecv (send : ProcessingResponse → option error) (req : ProcessingRequest).

(** The loop over the responses: the first failed [Send] ends it. *)
Fixpoint send_all (send : ProcessingResponse → option error) (responses : list ProcessingResponse)
    (st : bbr_state) : option error * bbr_state :=
  match responses with
  | [] => (None, st)
  | resp :: responses =>
      match send resp with
      | Some e =>
          (Some (StatusError CodeUnknown
             ("failed to send response back to Envoy: " +:+ error_text e)), st)
      | None => send_all send responses (mkBbrState (b_body st) (b_metrics st) (b_sent st ++ [resp]))
      end
  end.

(** The switch on the message: [None] for an unknown message. *)
Definition bbr_switch (streaming : bool) (req : ProcessingRequest) (st : bbr_state)
  : option ((list ProcessingResponse + error) * bbr_state) :=
  match req with
  | RequestHeaders h =>
      if streaming && negb (hh_EndOfStream h) then Some (inl [], st)
      else Some (inl (HandleRequestHeaders h), st)
  | RequestBody b =>
      let '(res, body, r) := processRequestBody streaming b (b_body st) (b_metrics st) in
      Some (res, mkBbrState body r (b_sent st))
  | RequestTrailers => Some (inl HandleRequestTrailers, st)
  | ResponseHeaders h => Some (inl (HandleResponseHeaders h), st)
  | ResponseBody b => Some (inl (HandleResponseBody b), st)
  | ResponseTrailers | NoRequest => None
  end.

(** One turn: [inl] the stream goes on, [inr] the value [Process] returns. *)
Definition bbr_turn (streaming : bool) (ev : bbr_event) (st : bbr_state)
  : (unit + option error) * bbr_state :=
  match ev with
  | BCtxDone e => (inr (Some e), st)
  | BRecvEOF | BRecvCanceled => (inr None, st)
  | BRecvFailed e =>
      (inr (Some (StatusError CodeUnknown ("cannot receive stream request: " +:+ error_text e))), st)
  | BRecv send req =>
      match bbr_switch streaming req st with
      | None => (inr (Some (StatusError CodeUnknown "unknown request type")), st)
      | Some (inr e, st) =>
          (inr (Some (StatusError (status_Code e) ("failed to handle request: " +:+ error_text e))), st)
      | Some (inl responses, st) =>
          match send_all send responses st with
          | (Some e, st) => (inr (Some e), st)
          | (None, st) => (inl tt, st)
          end
      end
  end.

(** [Process], on a sequence of turns. *)
Fixpoint bbr_loop (streaming : bool) (evs : list bbr_event) (st : bbr_state)
  : (unit + option error) * bbr_state :=
  match evs with
  | [] => (inl tt, st)
  | ev :: evs =>
      match bbr_turn streaming ev st with
      | (inl _, st) => bbr_loop streaming evs st
      | r => r
      end
  end.

Definition Process (streaming : bool) (evs : list bbr_event) (r : bbr_metrics)
  : (unit + option error) * bbr_state :=
  bbr_loop streaming evs (mkBbrState "" r []).

Example format_v_examples :
  map format_v [VNil; VBool true; VFloat (of_int 1000000); VFloat (of_decimal false 15 (-6));
                VArray [VFloat (of_decimal false 1 22); VString "x"]; VMap [("a", VNil); ("b", VFloat (of_int (-3)))]]
  = ["<nil>"; "true"; "1e+06"; "1.5e-05"; "[1e+22 x]"; "map[a:<nil> b:-3]"].
Proof. vm_compute. reflexivity. Qed.
