(* ===== verification/BbrProofs.v ===== *)
(** * Properties of the body-based router *)

From S2P Require Import Prelude GoInt GoStrings Float64 Utf8 JsonNumber Json JsonProofs.
From S2P Require Import Errors ExtProc Frontend Bbr.

Local Open Scope Z_scope.

(** ** Streams of body chunks *)

Definition body_event (send : ProcessingResponse → option error) (b : HttpBody) : bbr_event :=
  BRecv send (RequestBody b).

(** The text of a list of chunks. *)
Definition body_text (chunks : list HttpBody) : string :=
  foldl (λ s b, s +:+ hb_Body b) "" chunks.

Lemma loop_app streaming evs evs' st st' :
  bbr_loop streaming evs st = (inl tt, st') →
  bbr_loop streaming (evs ++ evs') st = bbr_loop streaming evs' st'.
Proof.
  revert st. induction evs as [|ev evs IH]; intros st; simpl; [by intros [= ->]|].
  destruct (bbr_turn streaming ev st) as [[[]|e] st1]; [apply IH|done].
Qed.

(** Chunks before the last are buffered, nothing else happens. *)
Lemma chunks_buffered send chunks st :
  Forall (λ b, hb_EndOfStream b = false) chunks →
  bbr_loop true (body_event send <$> chunks) st
  = (inl tt, mkBbrState (foldl (λ s b, s +:+ hb_Body b) (b_body st) chunks) (b_metrics st) (b_sent st)).
Proof.
  intros Hall. revert st. induction Hall as [|b chunks Hb Hall IH]; intros [body r sent]; [done|].
  rewrite fmap_cons. cbn [bbr_loop body_event bbr_turn bbr_switch]. unfold processRequestBody.
  rewrite Hb. cbn [negb]. cbn [send_all b_body b_metrics b_sent]. rewrite IH. done.
Qed.

(** A marshalled body whatever the text was. *)
Lemma data_marshals body :
  MarshalMap (UnmarshalMap body None).1
  = inl (match (UnmarshalMap body None).1 with None => "null" | Some m => print (VMap m) end).
Proof.
  destruct (UnmarshalMap body None) as [[m|] e] eqn:Hu; [|done].
  apply unmarshal_supported in Hu. unfold MarshalMap. cbn [fst]. by rewrite Hu.
Qed.

(** * Claims *)

(** C33: the router on a whole body.  A body that is a JSON object with a model string
    gets one answer, which sets the model header, clears the route cache and leaves the
    body alone; one without a model passes unchanged; a model of another type and a body
    that does not unmarshal end the stream with an error and no answer.  Exactly one
    counter counts each body that unmarshals, and none counts the others. *)
Theorem buffered_router_spec send body eos r :
  (∀ m, send m = None) →
  let run := Process false [body_event send (mkHttpBody body eos)] r in
  match UnmarshalMap body None with
  | (_, Some _) => ∃ e, run = (inr (Some e), mkBbrState "" r [])
  | (data, None) =>
      match field "model" (default [] data) with
      | None => run = (inl tt, mkBbrState "" (RecordModelNotInBodyCounter r)
                                 [reply (RespRequestBody (mkCommonResponse None None false))])
      | Some (VString model) =>
          run = (inl tt, mkBbrState "" (RecordSuccessCounter r)
                   [reply (RespRequestBody
                      (mkCommonResponse (Some [("X-Gateway-Model-Name", model)]) None true))])
      | Some _ => ∃ e, run = (inr (Some e), mkBbrState "" (RecordModelNotParsedCounter r) [])
      end
  end.
Proof.
  intros Hsend run. subst run. unfold Process, body_event.
  cbn [bbr_loop bbr_turn bbr_switch]. unfold processRequestBody. cbn [hb_Body b_body b_metrics b_sent].
  pose proof (data_marshals body) as Hm.
  destruct (UnmarshalMap body None) as [data [e|]]; [by eexists|]. cbn [fst] in Hm.
  unfold HandleRequestBody. rewrite Hm.
  destruct (field "model" (default [] data)) as [[]|]; try by eexists.
  all: cbn [send_all]; by rewrite Hsend.
Qed.

(** The text that is sent on for what a body unmarshalled to. *)
Definition resent (data : option fields) : string :=
  match data with None => "null" | Some m => print (VMap m) end.

Lemma resent_unmarshals body m e :
  UnmarshalMap body None = (Some m, e) → UnmarshalMap (resent (Some m)) None = (Some m, None).
Proof.
  intros Hu. apply unmarshal_marshal; [by eapply unmarshal_fields_ok|by eapply unmarshal_floats].
Qed.

(** C32: the router on a streamed body, on every branch.  The body it handles is the
    chunks before the last message put together, so the bytes of the last message are
    lost; a text that does not unmarshal counts as a body without fields.  With a model
    string it answers with the headers that carry the model and clear the route cache,
    then with one body; without a model with empty headers, then one body; with a model
    of another type it ends the stream with an error.  The body it sends unmarshals to
    what the chunks did, and exactly one counter goes up. *)
Theorem streamed_router_spec send chunks last r :
  (∀ m, send m = None) → Forall (λ b, hb_EndOfStream b = false) chunks →
  let data := (UnmarshalMap (body_text chunks) None).1 in
  let run := Process true (body_event send <$> (chunks ++ [mkHttpBody last true])) r in
  let body := reply (RespRequestBody (mkCommonResponse None (Some (StreamedResponse (resent data) true)) false)) in
  match field "model" (default [] data) with
  | None => run = (inl tt, mkBbrState (body_text chunks) (RecordModelNotInBodyCounter r)
                     [reply (RespRequestHeaders (mkCommonResponse None None false)); body])
  | Some (VString model) =>
      run = (inl tt, mkBbrState (body_text chunks) (RecordSuccessCounter r)
               [reply (RespRequestHeaders
                  (mkCommonResponse (Some [("X-Gateway-Model-Name", model)]) None true)); body])
  | Some _ => ∃ e, run = (inr (Some e), mkBbrState (body_text chunks) (RecordModelNotParsedCounter r) [])
  end
  ∧ ∀ m, data = Some m → UnmarshalMap (resent data) None = (Some m, None).
Proof.
  intros Hsend Hall. cbv zeta. split.
  2: { intros m Hm. rewrite Hm. destruct (UnmarshalMap (body_text chunks) None) as [d e] eqn:Hu.
       simpl in Hm. subst d. by eapply resent_unmarshals. }
  pose proof (data_marshals (body_text chunks)) as Hmar.
  unfold Process. rewrite fmap_app. erewrite loop_app by (by apply chunks_buffered).
  cbn [fmap list_fmap bbr_loop body_event bbr_turn bbr_switch b_body b_metrics b_sent].
  fold (body_text chunks). unfold processRequestBody. cbn [hb_EndOfStream negb].
  destruct (UnmarshalMap (body_text chunks) None) as [data e]. cbn [fst] in *.
  unfold HandleRequestBody. rewrite Hmar. unfold resent.
  destruct (field "model" (default [] data)) as [[]|]; try (by eexists);
    cbn [addStreamedBodyResponse app send_all]; by rewrite !Hsend.
Qed.

(** The bytes of the last message are lost.  In streaming mode the outcome does not
    depend on them; in particular a body that arrives in one message is replaced by the
    text null and forwarded without a model header. *)
Theorem streamed_last_chunk_lost send chunks last last' r :
  (∀ m, send m = None) → Forall (λ b, hb_EndOfStream b = false) chunks →
  Process true (body_event send <$> (chunks ++ [mkHttpBody last true])) r
  = Process true (body_event send <$> (chunks ++ [mkHttpBody last' true])) r
  ∧ Process true [body_event send (mkHttpBody last true)] r
    = (inl tt, mkBbrState "" (RecordModelNotInBodyCounter r)
         [reply (RespRequestHeaders (mkCommonResponse None None false));
          reply (RespRequestBody
            (mkCommonResponse None (Some (StreamedResponse "null" true)) false))]).
Proof.
  intros Hsend Hall. split.
  - unfold Process. rewrite !fmap_app. by rewrite !(loop_app _ _ _ _ _ (chunks_buffered send chunks _ Hall)).
  - unfold Process. cbn [bbr_loop body_event bbr_turn bbr_switch b_body b_metrics b_sent].
    unfold processRequestBody. cbn [hb_EndOfStream negb].
    change (UnmarshalMap "" None) with (@None fields, Some SyntaxError). cbn [fst].
    unfold HandleRequestBody. cbn [MarshalMap default from_option field addStreamedBodyResponse app send_all].
    by rewrite !Hsend.
Qed.

(** * Witnesses *)

Definition model_body : string :=
  "{" +:+ quote_string "model" +:+ ":" +:+ quote_string "m" +:+ "}".

Definition no_counts : bbr_metrics := mkBbrMetrics 0 0 0.

Lemma buffered_router_spec_witness :
  Process false [body_event (λ _, None) (mkHttpBody model_body true)] no_counts
  = (inl tt, mkBbrState "" (mkBbrMetrics 1 0 0)
       [reply (RespRequestBody (mkCommonResponse (Some [("X-Gateway-Model-Name", "m")]) None true))]).
Proof. apply (buffered_router_spec (λ _, None) model_body true no_counts). reflexivity. Defined.

(** The last message carries a byte that does not arrive. *)
Lemma streamed_router_spec_witness :
  Process true (body_event (λ _, None) <$> ([mkHttpBody model_body false] ++ [mkHttpBody " " true])) no_counts
  = (inl tt, mkBbrState model_body (mkBbrMetrics 1 0 0)
       [reply (RespRequestHeaders (mkCommonResponse (Some [("X-Gateway-Model-Name", "m")]) None true));
        reply (RespRequestBody (mkCommonResponse None (Some (StreamedResponse model_body true)) false))]).
Proof.
  apply (streamed_router_spec (λ _, None) [mkHttpBody model_body false] " " no_counts).
  - reflexivity.
  - repeat constructor.
Defined.

Lemma streamed_last_chunk_lost_witness :
  Process true (body_event (λ _, None) <$> ([] ++ [mkHttpBody model_body true])) no_counts
  = Process true (body_event (λ _, None) <$> ([] ++ [mkHttpBody "" true])) no_counts.
Proof.
  apply (streamed_last_chunk_lost (λ _, None) [] model_body "" no_counts); [reflexivity|constructor].
Defined.
