(* ===== verification/Scheduling.v ===== *)
(** * pkg/epp/scheduling: the filter tree and the scheduler

    [filter.go], [scheduler.go] and [types.go].  Randomness ([math/rand]) is a
    class: the k-th draw of the process is a function of k, so that a theorem
    quantified over the class holds for every outcome of every draw. *)

From S2P Require Import Prelude GoInt Float64 Api Errors BackendMetrics.

Local Open Scope Z_scope.

(** What [math/rand] documents of the two functions the package uses. *)
Class Rand := {
  Float64_draw : nat → float64;
  Intn_draw : nat → nat → nat;
  Float64_draw_range : ∀ k, fleb fzero (Float64_draw k) = true
                            ∧ fltb (Float64_draw k) (of_int 1) = true;
  Intn_draw_range : ∀ k n, (0 < n)%nat → (Intn_draw k n < n)%nat
}.

(** A generator that always draws the least value is one such source. *)
Program Definition least_draws : Rand := {|
  Float64_draw _ := fzero;
  Intn_draw _ _ := 0%nat
|}.
Next Obligation. by vm_compute. Qed.
Next Obligation. done. Qed.

(** types.go *)
Record LLMRequest := mkLLMRequest {
  Model : string;
  req_TargetModels : gmap string Z;
  ResolvedTargetModel : string;
  req_Critical : bool
}.

(** scheduler.go: configuration. *)
Record Config := mkConfig {
  KVCacheThreshold : float64;
  QueueThresholdCritical : Z;
  QueueingThresholdLoRA : Z;
  LoraAffinityThreshold : float64
}.

Definition defaultKVCacheThreshold : float64 := of_decimal false 8 (-1).
Definition defaultQueueThresholdCritical : Z := 5.
Definition defaultQueueingThresholdLoRA : Z := 128.
Definition defaultLoraAffinityThreshold : float64 := of_decimal false 999 (-3).

Definition defaultConfig : Config := {|
  KVCacheThreshold := defaultKVCacheThreshold;
  QueueThresholdCritical := defaultQueueThresholdCritical;
  QueueingThresholdLoRA := defaultQueueingThresholdLoRA;
  LoraAffinityThreshold := defaultLoraAffinityThreshold
|}.

(** ** filter.go *)

(** [([]PodMetrics, error)]; the number of draws made so far is threaded. *)
Definition filter_result : Type := list PodMetrics * option error.
Definition filterFunc : Type := LLMRequest → list PodMetrics → nat → filter_result * nat.
Definition podPredicate : Type := LLMRequest → PodMetrics → bool.

Inductive filter_node : Type :=
  mkFilter {
    f_name : string;
    f_filter : filterFunc;
    nextOnSuccess : option filter_node;
    nextOnFailure : option filter_node;
    nextOnSuccessOrFailure : option filter_node
  }.

(** [(f *filter) Name()], defined on the nil pointer too. *)
Definition filter_Name (f : option filter_node) : string :=
  match f with None => "nil" | Some f => f_name f end.

(** [err == nil && len(filtered) > 0] *)
Definition succeeded (r : filter_result) : bool :=
  match r with ((_ :: _)%list, None) => true | _ => false end.

(** [(f *filter) Filter]: on success the filtered pods go to the success
    branch, on failure the original pods go to the failure branch. *)
Fixpoint Filter (f : filter_node) (req : LLMRequest) (pods : list PodMetrics) (k : nat)
  : filter_result * nat :=
  match f with
  | mkFilter _ ff onSuccess onFailure onEither =>
      let '(r, k) := ff req pods k in
      if succeeded r then
        match onSuccess with
        | Some next => Filter next req (fst r) k
        | None =>
            match onEither with
            | Some next => Filter next req (fst r) k
            | None => (r, k)
            end
        end
      else
        match onFailure with
        | Some next => Filter next req pods k
        | None =>
            match onEither with
            | Some next => Filter next req pods k
            | None => (r, k)
            end
        end
  end.

(** [toFilterFunc] *)
Definition toFilterFunc (pp : podPredicate) : filterFunc := λ req pods k,
  match filter (λ p, pp req p = true) pods with
  | [] => (([], Some (PlainError "no pods left")), k)
  | filtered => ((filtered, None), k)
  end.

(** [leastQueuingFilterFunc]: the two loops. *)
Definition queue_step (acc : Z * Z) (pod : PodMetrics) : Z * Z :=
  let q := WaitingQueueSize (GetMetrics pod) in
  (if q <=? fst acc then q else fst acc, if snd acc <=? q then q else snd acc).

Definition queue_bounds (pods : list PodMetrics) : Z * Z :=
  foldl queue_step (MaxInt, 0) pods.

Definition queue_limit (mn mx : Z) (n : nat) : Z :=
  int_add mn (int_quot (int_sub mx mn) (Z.of_nat n)).

Definition leastQueuingFilterFunc : filterFunc := λ req pods k,
  let '(mn, mx) := queue_bounds pods in
  let keep (p : PodMetrics) :=
    (mn <=? WaitingQueueSize (GetMetrics p))
    && (WaitingQueueSize (GetMetrics p) <=? queue_limit mn mx (length pods)) in
  ((filter (λ p, keep p = true) pods, None), k).

(** [leastKVCacheFilterFunc] *)
Definition kv_step (acc : float64 * float64) (pod : PodMetrics) : float64 * float64 :=
  let u := KVCacheUsagePercent (GetMetrics pod) in
  (if fleb u (fst acc) then u else fst acc, if fgeb u (snd acc) then u else snd acc).

Definition kv_bounds (pods : list PodMetrics) : float64 * float64 :=
  foldl kv_step (MaxFloat64, fzero) pods.

Definition kv_limit (mn mx : float64) (n : nat) : float64 :=
  fadd mn (fdiv (fsub mx mn) (of_int (Z.of_nat n))).

Definition leastKVCacheFilterFunc : filterFunc := λ req pods k,
  let '(mn, mx) := kv_bounds pods in
  let keep (p : PodMetrics) :=
    fgeb (KVCacheUsagePercent (GetMetrics p)) mn
    && fleb (KVCacheUsagePercent (GetMetrics p)) (kv_limit mn mx (length pods)) in
  ((filter (λ p, keep p = true) pods, None), k).

(** Whether the requested adapter is loaded, and whether there is room for it. *)
Definition has_adapter (req : LLMRequest) (pod : PodMetrics) : bool :=
  bool_decide (is_Some (ActiveModels (GetMetrics pod) !! ResolvedTargetModel req)).

Definition has_room (pod : PodMetrics) : bool :=
  Z.of_nat (size (ActiveModels (GetMetrics pod))) <? MaxActiveModels (GetMetrics pod).

Definition lowLoRACostPredicate : podPredicate := λ req pod,
  has_adapter req pod || has_room pod.

Definition criticalRequestPredicate : podPredicate := λ req _, req_Critical req.

Definition noQueueAndLessThanKVCacheThresholdPredicate
    (queueThreshold : Z) (kvCacheThreshold : float64) : podPredicate := λ req pod,
  (WaitingQueueSize (GetMetrics pod) <=? queueThreshold)
  && fleb (KVCacheUsagePercent (GetMetrics pod)) kvCacheThreshold.

Section scheduler.
Context `{R : Rand} (config : Config).

Definition lowQueueingPodPredicate : podPredicate := λ _ pod,
  WaitingQueueSize (GetMetrics pod) <? QueueingThresholdLoRA config.

(** [loRASoftAffinityFilter]: a draw is only made when both groups have pods. *)
Definition loRASoftAffinityFilter : filterFunc := λ req pods k,
  let filtered_affinity := filter (λ p, has_adapter req p = true) pods in
  let filtered_available :=
    filter (λ p, negb (has_adapter req p) && has_room p = true) pods in
  match filtered_affinity, filtered_available with
  | _ :: _, _ :: _ =>
      if fltb (Float64_draw k) (LoraAffinityThreshold config)
      then ((filtered_affinity, None), S k)
      else ((filtered_available, None), S k)
  | _ :: _, [] => ((filtered_affinity, None), k)
  | [], _ => ((filtered_available, None), k)
  end.

(** ** scheduler.go: the tree *)

Definition leaf (name : string) (ff : filterFunc) : filter_node :=
  mkFilter name ff None None None.

Definition queueLoRAAndKVCacheFilter : filter_node :=
  mkFilter "least queuing" leastQueuingFilterFunc None None
    (Some (mkFilter "low cost LoRA" loRASoftAffinityFilter None None
      (Some (leaf "least KV cache percent" leastKVCacheFilterFunc)))).

Definition queueAndKVCacheFilter : filter_node :=
  mkFilter "least queuing" leastQueuingFilterFunc None None
    (Some (leaf "least KV cache percent" leastKVCacheFilterFunc)).

Definition lowLatencyFilter : filter_node :=
  mkFilter "low queueing filter" (toFilterFunc lowQueueingPodPredicate)
    (Some (mkFilter "affinity LoRA" loRASoftAffinityFilter None None
      (Some queueAndKVCacheFilter)))
    (Some queueLoRAAndKVCacheFilter)
    None.

Definition dropRequest : filterFunc := λ req pods k,
  (([], Some (EppError InferencePoolResourceExhausted
                "dropping request due to limited backend resources")), k).

Definition sheddableRequestFilter : filter_node :=
  mkFilter "has capacity for sheddable requests"
    (toFilterFunc (noQueueAndLessThanKVCacheThresholdPredicate
       (QueueThresholdCritical config) (KVCacheThreshold config)))
    (Some queueLoRAAndKVCacheFilter)
    (Some (leaf "drop request" dropRequest))
    None.

Definition defaultFilter : filter_node :=
  mkFilter "critical request" (toFilterFunc criticalRequestPredicate)
    (Some lowLatencyFilter)
    (Some sheddableRequestFilter)
    None.

(** [(s *Scheduler) Schedule] on the pods [s.datastore.PodGetAll()] returned.
    The error text names the number of pods and wraps the filter's error;
    wrapping a nil error wraps nothing. *)
Definition Schedule_error (n : nat) (err : option error) : error :=
  let prefix := "failed to apply filter, resulted " +:+ Itoa (Z.of_nat n)
                +:+ " pods, this should never happen: " in
  match err with
  | Some e => WrapError prefix e
  | None => PlainError (prefix +:+ "%!w(<nil>)")
  end.

(** [Scheduler], whose store is what [podMetrics] below comes from, and [NewScheduler]. *)
Record Scheduler_struct := mkScheduler { scheduler_filter : filter_node }.

Definition NewScheduler : Scheduler_struct := mkScheduler defaultFilter.

Definition Schedule (podMetrics : list PodMetrics) (req : LLMRequest) (k : nat)
  : outcome (PodMetrics + error) * nat :=
  let '((pods, err), k) := Filter (scheduler_filter NewScheduler) req podMetrics k in
  match err, pods with
  | None, _ :: _ => (inl <$> index pods (Intn_draw k (length pods)), S k)
  | _, _ => (Val (inr (Schedule_error (length pods) err)), k)
  end.
End scheduler.
