(* ===== verification/SchedulingProofs.v ===== *)
(** * Properties of the filter tree and of the scheduler *)

From S2P Require Import Prelude GoInt Float64 Api Errors BackendMetrics Scheduling.
From Stdlib Require Import SpecFloat.

Local Open Scope Z_scope.

(** ** Induction over filter trees *)

Section filter_ind.
Variable P : filter_node → Prop.
Definition on_next (o : option filter_node) : Prop :=
  match o with None => True | Some f => P f end.
Hypothesis Hnode : ∀ name ff s f e,
  on_next s → on_next f → on_next e → P (mkFilter name ff s f e).

Fixpoint filter_node_tree_ind (f : filter_node) : P f :=
  match f with
  | mkFilter name ff s fl e =>
      let go (o : option filter_node) : on_next o :=
        match o with None => I | Some f => filter_node_tree_ind f end in
      Hnode name ff s fl e (go s) (go fl) (go e)
  end.
End filter_ind.

(** Every filter function of a tree satisfies [Q]. *)
Fixpoint tree_all (Q : filterFunc → Prop) (f : filter_node) : Prop :=
  match f with
  | mkFilter _ ff s fl e =>
      Q ff
      ∧ (match s with None => True | Some f => tree_all Q f end)
      ∧ (match fl with None => True | Some f => tree_all Q f end)
      ∧ (match e with None => True | Some f => tree_all Q f end)
  end.

(** A filter function only ever selects among the pods it is given. *)
Definition selects (ff : filterFunc) : Prop :=
  ∀ req pods k, (ff req pods k).1.1 `sublist_of` pods.

Lemma Filter_selects f : tree_all selects f → selects (Filter f).
Proof.
  induction f as [name ff s fl e IHs IHf IHe] using filter_node_tree_ind.
  intros (Hff & Hs & Hf & He) req pods k. simpl.
  pose proof (Hff req pods k) as Hsub.
  destruct (ff req pods k) as [r k']. simpl in Hsub.
  destruct (succeeded r), s as [s|], fl as [fl|], e as [e|]; simpl in *; try done;
    first [ by apply IHf | by apply IHe
          | etrans; [by apply IHs|done] | etrans; [by apply IHe|done] ].
Qed.

(** ** The filter functions *)

Lemma toFilterFunc_fst pp req pods k :
  (toFilterFunc pp req pods k).1.1 = filter (λ p, pp req p = true) pods.
Proof. unfold toFilterFunc. by destruct (filter _ pods). Qed.

Lemma toFilterFunc_some pp req pods k p :
  p ∈ pods → pp req p = true →
  toFilterFunc pp req pods k = ((filter (λ p, pp req p = true) pods, None), k).
Proof.
  intros Hp Hpp. unfold toFilterFunc.
  pose proof (filter_ne_nil (λ p, pp req p = true) pods p Hp Hpp) as Hne.
  by destruct (filter _ pods).
Qed.

Lemma toFilterFunc_none pp req pods k :
  (∀ p, p ∈ pods → pp req p = false) →
  toFilterFunc pp req pods k = (([], Some (PlainError "no pods left")), k).
Proof.
  intros Hnone. unfold toFilterFunc.
  rewrite (proj2 (filter_nil_iff (λ p, pp req p = true) pods)); [done|].
  intros p Hp. by rewrite Hnone.
Qed.

Lemma toFilterFunc_selects pp : selects (toFilterFunc pp).
Proof. intros req pods k. rewrite toFilterFunc_fst. apply filter_sublist. Qed.

Lemma leastQueuing_selects : selects leastQueuingFilterFunc.
Proof.
  intros req pods k. unfold leastQueuingFilterFunc. destruct (queue_bounds pods).
  apply filter_sublist.
Qed.

Lemma leastKVCache_selects : selects leastKVCacheFilterFunc.
Proof.
  intros req pods k. unfold leastKVCacheFilterFunc. destruct (kv_bounds pods).
  apply filter_sublist.
Qed.

(** *** Least queuing *)

Definition queue (p : PodMetrics) : Z := WaitingQueueSize (GetMetrics p).
Definition kv (p : PodMetrics) : float64 := KVCacheUsagePercent (GetMetrics p).

(** Metrics as a model server reports them: a queue length that fits [int] and
    is not negative, and a cache usage that is a finite, non-negative float. *)
Definition sane_queue (p : PodMetrics) : Prop := 0 <= queue p <= MaxInt.
Definition sane_kv (p : PodMetrics) : Prop :=
  valid (kv p) ∧ finite (kv p) ∧ nonneg (kv p).
Definition sane (p : PodMetrics) : Prop := sane_queue p ∧ sane_kv p.

(** A slice length fits [int]. *)
Definition fits (pods : list PodMetrics) : Prop := Z.of_nat (length pods) <= MaxInt.

Lemma queue_fold_min pods acc :
  (foldl queue_step acc pods).1 <= acc.1
  ∧ (∀ p, p ∈ pods → (foldl queue_step acc pods).1 <= queue p)
  ∧ ((foldl queue_step acc pods).1 = acc.1
     ∨ ∃ p, p ∈ pods ∧ queue p = (foldl queue_step acc pods).1).
Proof.
  revert acc. induction pods as [|p pods IH]; intros acc; simpl.
  { split; [lia|]. split; [|by left]. by intros p ?%elem_of_nil. }
  destruct (IH (queue_step acc p)) as (H1 & H2 & H3). simpl in *. fold (queue p) in *.
  split; [case_match; lia|]. split.
  - intros q [->|Hq]%elem_of_cons; [|by apply H2]. destruct (Z.leb_spec (queue p) acc.1); lia.
  - destruct H3 as [->|(q & Hq & ?)]; [|right; exists q; by split; [right|]].
    case_match; [right; exists p; by split; [left|]|by left].
Qed.

Lemma queue_fold_max pods acc :
  acc.2 <= (foldl queue_step acc pods).2
  ∧ (∀ p, p ∈ pods → queue p <= (foldl queue_step acc pods).2)
  ∧ ((foldl queue_step acc pods).2 = acc.2
     ∨ ∃ p, p ∈ pods ∧ queue p = (foldl queue_step acc pods).2).
Proof.
  revert acc. induction pods as [|p pods IH]; intros acc; simpl.
  { split; [lia|]. split; [|by left]. by intros p ?%elem_of_nil. }
  destruct (IH (queue_step acc p)) as (H1 & H2 & H3). simpl in *. fold (queue p) in *.
  split; [case_match; lia|]. split.
  - intros q [->|Hq]%elem_of_cons; [|by apply H2]. destruct (Z.leb_spec acc.2 (queue p)); lia.
  - destruct H3 as [->|(q & Hq & ?)]; [|right; exists q; by split; [right|]].
    case_match; [right; exists p; by split; [left|]|by left].
Qed.

(** The minimum and maximum the first loop computes, when the queue lengths are
    sane: both are attained, except that the maximum starts at 0. *)
Lemma queue_bounds_spec pods mn mx :
  Forall sane_queue pods → pods ≠ [] → queue_bounds pods = (mn, mx) →
  (∃ p, p ∈ pods ∧ queue p = mn) ∧ (∀ p, p ∈ pods → mn <= queue p <= mx)
  ∧ 0 <= mn ∧ mx <= MaxInt ∧ (∃ p, p ∈ pods ∧ queue p = mx).
Proof.
  intros Hsane Hne Hb. rewrite Forall_forall in Hsane.
  destruct (queue_fold_min pods (MaxInt, 0)) as (_ & Hlo & Hmn).
  destruct (queue_fold_max pods (MaxInt, 0)) as (_ & Hhi & Hmx).
  fold (queue_bounds pods) in *. rewrite Hb in *. simpl in *.
  destruct (ne_nil_elem pods Hne) as [q Hq].
  pose proof (Hlo q Hq). pose proof (Hhi q Hq). destruct (Hsane q Hq).
  assert (∃ p, p ∈ pods ∧ queue p = mn) as (pn & Hpn & <-).
  { destruct Hmn as [->|?]; [exists q; split; [done|lia]|done]. }
  assert (∃ p, p ∈ pods ∧ queue p = mx) as (px & Hpx & <-).
  { destruct Hmx as [->|?]; [exists q; split; [done|lia]|done]. }
  destruct (Hsane pn Hpn), (Hsane px Hpx).
  split; [by exists pn|]. split; [by auto|]. split; [done|]. split; [done|]. by exists px.
Qed.

(** No overflow: the limit is the mathematical one. *)
Lemma queue_limit_exact mn mx n :
  0 <= mn <= mx → mx <= MaxInt → (0 < n)%nat → Z.of_nat n <= MaxInt →
  queue_limit mn mx n = mn + (mx - mn) / Z.of_nat n ∧ mn <= queue_limit mn mx n <= mx.
Proof.
  intros Hmn Hmx Hn Hfit. unfold queue_limit, int_add, int_quot, int_sub.
  assert (0 <= (mx - mn) / Z.of_nat n <= mx - mn).
  { split; [apply Z.div_pos; lia|]. apply Z.div_le_upper_bound; nia. }
  rewrite (wrap64_id (mx - mn)) by (unfold MinInt; lia).
  rewrite Z.quot_div_nonneg by lia.
  rewrite (wrap64_id ((mx - mn) / _)) by (unfold MinInt; lia).
  rewrite wrap64_id by (unfold MinInt; lia). lia.
Qed.

Lemma leastQueuing_elem req pods k p :
  Forall sane_queue pods → fits pods →
  p ∈ (leastQueuingFilterFunc req pods k).1.1 ↔
  p ∈ pods ∧ ∃ mn mx, queue_bounds pods = (mn, mx)
    ∧ queue p <= mn + (mx - mn) / Z.of_nat (length pods).
Proof.
  intros Hsane Hfit. unfold leastQueuingFilterFunc.
  destruct (queue_bounds pods) as [mn mx] eqn:Hb. simpl.
  rewrite list_elem_of_filter, andb_true_iff, !Z.leb_le. fold (queue p).
  split.
  - intros [[Hlo Hhi] Hp].
    assert (pods ≠ []) as Hne by (by intros ->; apply elem_of_nil in Hp).
    destruct (queue_bounds_spec pods mn mx Hsane Hne Hb) as ((q & Hq & <-) & Hall & H0 & Hmx & _).
    pose proof (Hall q Hq). split; [done|]. exists (queue q), mx. split; [done|].
    rewrite (proj1 (queue_limit_exact (queue q) mx (length pods) ltac:(lia) Hmx
      ltac:(destruct pods; [done|simpl; lia]) Hfit)) in Hhi. done.
  - intros [Hp (mn' & mx' & Heq & Hle)]. simplify_eq.
    assert (pods ≠ []) as Hne by (by intros ->; apply elem_of_nil in Hp).
    destruct (queue_bounds_spec pods mn' mx' Hsane Hne Hb) as (_ & Hall & H0 & Hmx & _).
    pose proof (Hall p Hp). split; [|done]. split; [lia|].
    rewrite (proj1 (queue_limit_exact mn' mx' (length pods) ltac:(lia) Hmx
      ltac:(destruct pods; [done|simpl; lia]) Hfit)). done.
Qed.

Lemma leastQueuing_ok req pods k :
  Forall sane_queue pods → fits pods → pods ≠ [] →
  succeeded (leastQueuingFilterFunc req pods k).1 = true
  ∧ (leastQueuingFilterFunc req pods k).2 = k.
Proof.
  intros Hsane Hfit Hne.
  destruct (queue_bounds pods) as [mn mx] eqn:Hb.
  destruct (queue_bounds_spec pods mn mx Hsane Hne Hb) as ((q & Hq & Hmn) & Hall & _).
  assert (q ∈ (leastQueuingFilterFunc req pods k).1.1) as Hin.
  { apply leastQueuing_elem; [done|done|]. split; [done|]. exists mn, mx. split; [done|].
    pose proof (Hall q Hq).
    assert (0 <= (mx - mn) / Z.of_nat (length pods)); [|lia].
    apply Z.div_pos; [lia|]. destruct pods; [done|simpl; lia]. }
  unfold leastQueuingFilterFunc in *. rewrite Hb in *. simpl in *.
  destruct (filter _ pods); [by apply elem_of_nil in Hin|done].
Qed.

(** *** Least KV cache *)

Definition ok_float (x : float64) : Prop := valid x ∧ finite x ∧ nonneg x.

Lemma ok_float_not_nan x : ok_float x → not_nan x.
Proof. intros (_ & _ & ?). by apply nonneg_not_nan. Qed.

(** One step of the loop keeps the accumulators ordinary floats, moves them
    outward and covers the pod just seen. *)
Lemma kv_step_spec acc p :
  sane_kv p → ok_float acc.1 → ok_float acc.2 →
  let acc' := kv_step acc p in
  ok_float acc'.1 ∧ ok_float acc'.2
  ∧ fleb acc'.1 acc.1 = true ∧ fleb acc.2 acc'.2 = true
  ∧ fleb acc'.1 (kv p) = true ∧ fleb (kv p) acc'.2 = true
  ∧ (acc'.1 = acc.1 ∨ acc'.1 = kv p).
Proof.
  intros Hp Ha Hb. unfold kv_step, fgeb. simpl. fold (kv p).
  pose proof (ok_float_not_nan _ Ha) as Hna. pose proof (ok_float_not_nan _ Hb) as Hnb.
  pose proof (ok_float_not_nan _ Hp) as Hn.
  pose proof (fleb_total (kv p) acc.1 Hn Hna) as T1.
  pose proof (fleb_total acc.2 (kv p) Hnb Hn) as T2.
  destruct (fleb (kv p) acc.1) eqn:E1, (fleb acc.2 (kv p)) eqn:E2;
    destruct T1, T2; try done; auto 10 using fleb_refl.
Qed.

Lemma kv_fold pods acc :
  Forall sane_kv pods → ok_float acc.1 → ok_float acc.2 →
  let acc' := foldl kv_step acc pods in
  ok_float acc'.1 ∧ ok_float acc'.2
  ∧ fleb acc'.1 acc.1 = true ∧ fleb acc.2 acc'.2 = true
  ∧ (∀ p, p ∈ pods → fleb acc'.1 (kv p) = true ∧ fleb (kv p) acc'.2 = true)
  ∧ (acc'.1 = acc.1 ∨ ∃ p, p ∈ pods ∧ kv p = acc'.1).
Proof.
  revert acc. induction pods as [|p pods IH]; intros acc Hall Ha Hb; simpl.
  { repeat (split; [by auto using fleb_refl, ok_float_not_nan|]).
    split; [|by left]. by intros p ?%elem_of_nil. }
  apply Forall_cons in Hall as [Hp Hall].
  destruct (kv_step_spec acc p Hp Ha Hb) as (Ha' & Hb' & L1 & L2 & L3 & L4 & Hor).
  destruct (IH (kv_step acc p) Hall Ha' Hb') as (Ha2 & Hb2 & M1 & M2 & M3 & Hor2).
  split; [done|]. split; [done|]. split; [by eapply fleb_trans|].
  split; [by eapply fleb_trans|]. split.
  - intros q [->|Hq]%elem_of_cons; [|by apply M3]. split; by eapply fleb_trans.
  - destruct Hor2 as [Heq|(q & Hq & <-)]; [rewrite Heq|right; exists q; by split; [right|]].
    destruct Hor as [-> | ->]; [by left|]. right. exists p. by split; [left|].
Qed.

Lemma kv_bounds_spec pods mn mx :
  Forall sane_kv pods → pods ≠ [] → kv_bounds pods = (mn, mx) →
  ok_float mn ∧ ok_float mx ∧ fleb mn mx = true
  ∧ (∀ p, p ∈ pods → fleb mn (kv p) = true ∧ fleb (kv p) mx = true)
  ∧ ∃ p, p ∈ pods ∧ fleb (kv p) mn = true.
Proof.
  intros Hsane Hne Hb.
  destruct (kv_fold pods (MaxFloat64, fzero) Hsane) as (Hmn & Hmx & _ & _ & Hin & Hor);
    [by repeat split|by repeat split|].
  fold (kv_bounds pods) in *. rewrite Hb in *. simpl in *.
  destruct (ne_nil_elem pods Hne) as [q Hq]. destruct (Hin q Hq) as [H1 H2].
  split; [done|]. split; [done|]. split; [by eapply fleb_trans|]. split; [done|].
  rewrite Forall_forall in Hsane.
  destruct Hor as [->|(p & Hp & <-)].
  - exists q. split; [done|]. destruct (Hsane q Hq) as (? & ? & ?). by apply le_MaxFloat64.
  - exists p. split; [done|]. apply fleb_refl, ok_float_not_nan. by apply Hsane.
Qed.

(** Rounding cannot push the limit below the minimum. *)
Lemma kv_limit_ge mn mx n :
  ok_float mn → ok_float mx → fleb mn mx = true → (0 < n)%nat → Z.of_nat n <= MaxInt →
  fleb mn (kv_limit mn mx n) = true.
Proof.
  intros (? & ? & ?) (? & ? & ?) Hle Hn Hfit. unfold kv_limit.
  apply fadd_ge; [done..|]. apply fdiv_nonneg.
  - by apply fsub_nonneg.
  - apply of_int_positive. lia.
  - apply of_int_finite; [|lia]. apply int64_ok_iff. unfold MinInt. lia.
Qed.

(** Every pod whose usage is least is kept. *)
Lemma leastKVCache_keeps_min req pods k p :
  Forall sane_kv pods → fits pods → p ∈ pods →
  (∀ q, q ∈ pods → fleb (kv p) (kv q) = true) →
  p ∈ (leastKVCacheFilterFunc req pods k).1.1.
Proof.
  intros Hsane Hfit Hp Hmin. unfold leastKVCacheFilterFunc.
  destruct (kv_bounds pods) as [mn mx] eqn:Hb. simpl.
  assert (pods ≠ []) as Hne by (by intros ->; apply elem_of_nil in Hp).
  destruct (kv_bounds_spec pods mn mx Hsane Hne Hb) as (Hmn & Hmx & Hle & Hin & q & Hq & Hqmn).
  apply list_elem_of_filter. split; [|done]. apply andb_true_iff. split.
  - apply (Hin p Hp).
  - eapply fleb_trans; [apply (Hmin q Hq)|]. eapply fleb_trans; [exact Hqmn|].
    apply kv_limit_ge; try done. destruct pods; [done|simpl; lia].
Qed.

Lemma leastKVCache_ok req pods k :
  Forall sane_kv pods → fits pods → pods ≠ [] →
  succeeded (leastKVCacheFilterFunc req pods k).1 = true
  ∧ (leastKVCacheFilterFunc req pods k).2 = k.
Proof.
  intros Hsane Hfit Hne. unfold leastKVCacheFilterFunc.
  destruct (kv_bounds pods) as [mn mx] eqn:Hb. simpl.
  destruct (kv_bounds_spec pods mn mx Hsane Hne Hb) as (Hmn & Hmx & Hle & Hin & q & Hq & Hqmn).
  assert (fleb (kv q) (kv_limit mn mx (length pods)) = true) as Hlim.
  { eapply fleb_trans; [exact Hqmn|]. apply kv_limit_ge; try done.
    destruct pods; [done|simpl; lia]. }
  destruct (Hin q Hq) as [Hlo _].
  pose proof (filter_ne_nil (λ p : PodMetrics, fgeb (KVCacheUsagePercent (GetMetrics p)) mn
     && fleb (KVCacheUsagePercent (GetMetrics p)) (kv_limit mn mx (length pods)) = true) pods q Hq)
    as Hfne.
  destruct (filter _ pods); [|done]. exfalso. apply Hfne; [|done].
  apply andb_true_iff. by split.
Qed.

(** *** LoRA affinity *)

Section lora.
Context `{R : Rand} (config : Config).

Definition affinity_group (req : LLMRequest) (pods : list PodMetrics) : list PodMetrics :=
  filter (λ p, has_adapter req p = true) pods.
Definition available_group (req : LLMRequest) (pods : list PodMetrics) : list PodMetrics :=
  filter (λ p, negb (has_adapter req p) && has_room p = true) pods.

(** The filter returns one of its two groups, and never an error. *)
Lemma loRA_cases req pods k :
  let r := loRASoftAffinityFilter config req pods k in
  r.1.2 = None ∧
  (r.1.1 = affinity_group req pods
     ∧ (available_group req pods ≠ [] → affinity_group req pods ≠ []
        → fltb (Float64_draw k) (LoraAffinityThreshold config) = true)
   ∨ r.1.1 = available_group req pods
     ∧ (affinity_group req pods ≠ [] → available_group req pods ≠ []
        → fltb (Float64_draw k) (LoraAffinityThreshold config) = false)).
Proof.
  unfold loRASoftAffinityFilter.
  fold (affinity_group req pods). fold (available_group req pods).
  destruct (affinity_group req pods), (available_group req pods); simpl;
    try destruct (fltb _ _); (split; [done|]); first [by left|by right|auto].
Qed.

Lemma loRA_selects : selects (loRASoftAffinityFilter config).
Proof.
  intros req pods k.
  destruct (loRA_cases req pods k) as (_ & [[-> _]|[-> _]]); apply filter_sublist.
Qed.

(** Every pod it returns serves the adapter or has room to load it. *)
Lemma loRA_low_cost req pods k p :
  p ∈ (loRASoftAffinityFilter config req pods k).1.1 → lowLoRACostPredicate req p = true.
Proof.
  unfold lowLoRACostPredicate.
  destruct (loRA_cases req pods k) as (_ & [[-> _]|[-> _]]);
    intros [Hk _]%list_elem_of_filter; to_prop; apply orb_true_iff; auto.
Qed.

(** It comes back empty only when no pod qualifies. *)
Lemma loRA_empty_iff req pods k :
  (loRASoftAffinityFilter config req pods k).1.1 = []
  ↔ ∀ p, p ∈ pods → lowLoRACostPredicate req p = false.
Proof.
  assert (affinity_group req pods = [] ∧ available_group req pods = []
          ↔ ∀ p, p ∈ pods → lowLoRACostPredicate req p = false) as <-.
  { unfold affinity_group, available_group, lowLoRACostPredicate.
    rewrite !filter_nil_iff. split.
    - intros [H1 H2] p Hp. specialize (H1 p Hp). specialize (H2 p Hp).
      destruct (has_adapter req p), (has_room p); done.
    - intros H. split; intros p Hp; specialize (H p Hp);
        destruct (has_adapter req p), (has_room p); done. }
  unfold loRASoftAffinityFilter.
  fold (affinity_group req pods). fold (available_group req pods).
  destruct (affinity_group req pods), (available_group req pods); simpl;
    try destruct (fltb _ _); simpl; (split; [intros ?|intros [? ?]]); by repeat split.
Qed.
End lora.

(** ** The tree *)

Definition good (pods : list PodMetrics) : Prop := Forall sane pods ∧ fits pods.

Lemma good_sublist l k : l `sublist_of` k → good k → good l.
Proof.
  intros Hsub [Hs Hf]. split; [by eapply Forall_sublist|].
  apply sublist_length in Hsub. unfold fits in *. lia.
Qed.

Lemma good_queue pods : good pods → Forall sane_queue pods.
Proof. intros [H _]. eapply Forall_impl; [done|]. by intros p []. Qed.

Lemma good_kv pods : good pods → Forall sane_kv pods.
Proof. intros [H _]. eapply Forall_impl; [done|]. by intros p []. Qed.

(** A tree that always comes back with at least one pod and no error, given a
    non-empty list of pods with ordinary metrics. *)
Definition picks (f : filter_node) : Prop :=
  ∀ req pods k, good pods → pods ≠ [] → succeeded (Filter f req pods k).1 = true.

Lemma succeeded_inv r : succeeded r = true → r.1 ≠ [] ∧ r.2 = None.
Proof. destruct r as [[|p l] [e|]]; done. Qed.

Lemma picks_leaf name ff :
  (∀ req pods k, good pods → pods ≠ [] → succeeded (ff req pods k).1 = true) →
  picks (leaf name ff).
Proof.
  intros H req pods k Hg Hne. specialize (H req pods k Hg Hne). unfold leaf. simpl.
  destruct (ff req pods k) as [r k']. simpl in *. by rewrite H.
Qed.

(** Whatever the first filter does, a next filter that picks gets pods to pick
    from: the selected ones, or the original ones. *)
Lemma picks_either name ff next :
  selects ff → picks next → picks (mkFilter name ff None None (Some next)).
Proof.
  intros Hsel Hnext req pods k Hg Hne. simpl.
  specialize (Hsel req pods k).
  destruct (ff req pods k) as [r k']. simpl in Hsel.
  destruct (succeeded r) eqn:Hr; [|by apply Hnext].
  apply succeeded_inv in Hr as [Hr _]. apply Hnext; [|done]. by eapply good_sublist.
Qed.

Lemma picks_branch name ff s f e :
  selects ff → picks s → picks f → picks (mkFilter name ff (Some s) (Some f) e).
Proof.
  intros Hsel Hs Hf req pods k Hg Hne. simpl.
  specialize (Hsel req pods k).
  destruct (ff req pods k) as [r k']. simpl in Hsel.
  destruct (succeeded r) eqn:Hr; [|by apply Hf].
  apply succeeded_inv in Hr as [Hr _]. apply Hs; [|done]. by eapply good_sublist.
Qed.

#[export] Hint Resolve toFilterFunc_selects leastQueuing_selects leastKVCache_selects
  loRA_selects good_queue good_kv : epp.

Section tree.
Context `{R : Rand} (config : Config).

Lemma leastKV_leaf_picks name : picks (leaf name leastKVCacheFilterFunc).
Proof.
  apply picks_leaf. intros req pods k Hg Hne.
  apply leastKVCache_ok; [by apply good_kv|apply Hg|done].
Qed.

Lemma queueAndKVCache_picks : picks queueAndKVCacheFilter.
Proof. apply picks_either; [auto with epp|apply leastKV_leaf_picks]. Qed.

Lemma queueLoRAAndKVCache_picks : picks (queueLoRAAndKVCacheFilter config).
Proof.
  apply picks_either; [auto with epp|].
  apply picks_either; [auto with epp|apply leastKV_leaf_picks].
Qed.

Lemma lowLatency_picks : picks (lowLatencyFilter config).
Proof.
  apply picks_branch; [auto with epp| |apply queueLoRAAndKVCache_picks].
  apply picks_either; [auto with epp|apply queueAndKVCache_picks].
Qed.

Lemma dropRequest_selects : selects dropRequest.
Proof. intros req pods k. apply sublist_nil_l. Qed.

Lemma queueLoRA_tree : tree_all selects (queueLoRAAndKVCacheFilter config).
Proof. repeat split; auto with epp. Qed.

Lemma lowLatency_tree : tree_all selects (lowLatencyFilter config).
Proof. repeat split; auto with epp. Qed.

Lemma defaultFilter_tree : tree_all selects (defaultFilter config).
Proof. repeat split; auto using dropRequest_selects with epp. Qed.

(** Dispatch on the criticality of the request. *)
Lemma default_critical req pods k :
  req_Critical req = true → pods ≠ [] →
  Filter (defaultFilter config) req pods k = Filter (lowLatencyFilter config) req pods k.
Proof.
  intros Hc Hne. unfold defaultFilter. cbn [Filter].
  destruct (ne_nil_elem pods Hne) as [p Hp].
  rewrite (toFilterFunc_some _ _ _ _ p) by done.
  rewrite filter_all; [by destruct pods|]. by intros q _.
Qed.

Lemma default_sheddable req pods k :
  req_Critical req = false →
  Filter (defaultFilter config) req pods k
  = Filter (sheddableRequestFilter config) req pods k.
Proof.
  intros Hc. unfold defaultFilter. cbn [Filter].
  by rewrite toFilterFunc_none by (intros; apply Hc).
Qed.

(** A branch whose test some pod passes continues on the pods that pass. *)
Lemma branch_taken name pp s f e req pods k p :
  p ∈ pods → pp req p = true →
  Filter (mkFilter name (toFilterFunc pp) (Some s) f e) req pods k
  = Filter s req (filter (λ p, pp req p = true) pods) k.
Proof.
  intros Hp Hpp. cbn [Filter]. rewrite (toFilterFunc_some _ _ _ _ p) by done.
  pose proof (filter_ne_nil (λ p, pp req p = true) pods p Hp Hpp) as Hne.
  by destruct (filter _ pods).
Qed.

Lemma branch_not_taken name pp s f e req pods k :
  (∀ p, p ∈ pods → pp req p = false) →
  Filter (mkFilter name (toFilterFunc pp) s (Some f) e) req pods k = Filter f req pods k.
Proof. intros Hnone. cbn [Filter]. by rewrite toFilterFunc_none. Qed.
End tree.

(** ** Schedule *)

Section schedule.
Context `{R : Rand} (config : Config).

(** The random choice is always in range. *)
Lemma Schedule_inv pods req k :
  let '((sel, err), k') := Filter (defaultFilter config) req pods k in
  (err = None ∧ sel ≠ [] ∧ ∃ p, p ∈ sel ∧ Schedule config pods req k = (Val (inl p), S k'))
  ∨ ((err ≠ None ∨ sel = [])
     ∧ Schedule config pods req k = (Val (inr (Schedule_error (length sel) err)), k')).
Proof.
  unfold Schedule. destruct (Filter _ req pods k) as [[sel err] k'] eqn:E.
  destruct err as [e|]; [right; split; [by left|done]|].
  destruct sel as [|p sel]; [right; split; [by right|done]|]. left.
  split; [done|]. split; [done|]. unfold index.
  destruct ((p :: sel) !! Intn_draw k' (length (p :: sel))) as [q|] eqn:Hl.
  - exists q. split; [by eapply list_elem_of_lookup_2|done].
  - apply lookup_ge_None in Hl.
    pose proof (Intn_draw_range k' (length (p :: sel)) ltac:(simpl; lia)). lia.
Qed.

Lemma Schedule_of_picks pods req k f :
  Filter (defaultFilter config) req pods k = Filter f req pods k →
  succeeded (Filter f req pods k).1 = true →
  ∃ p k', p ∈ (Filter f req pods k).1.1 ∧ Schedule config pods req k = (Val (inl p), k').
Proof.
  intros Heq Hs. pose proof (Schedule_inv pods req k) as Hinv. rewrite Heq in Hinv.
  destruct (Filter f req pods k) as [[sel err] k'].
  apply succeeded_inv in Hs as [Hne Herr]. simpl in *.
  destruct Hinv as [(_ & _ & p & Hp & ->)|[[?|?] _]]; [eauto|done|done].
Qed.
End schedule.

(** * Claims *)

Lemma Schedule_total `{R : Rand} config pods req k :
  ∃ r k', Schedule config pods req k = (Val r, k') ∧ (∀ p, r = inl p → p ∈ pods).
Proof.
  pose proof (Schedule_inv config pods req k) as Hinv.
  pose proof (Filter_selects _ (defaultFilter_tree config) req pods k) as Hsub.
  destruct (Filter _ req pods k) as [[sel err] k']. simpl in Hsub.
  destruct Hinv as [(_ & _ & p & Hp & ->)|[_ ->]]; eexists _, _; (split; [done|]).
  - intros ? [= <-]. by eapply elem_of_sublist.
  - done.
Qed.

(** C7: the scheduler never leaves the pool and never panics.  Whatever the
    metrics are (NaN, negative, overflowing) and whatever the random draws give,
    [Schedule] returns a value, and a pod it returns is one of the pods the
    datastore listed. *)
Theorem schedule_sound `{R : Rand} config pods req k :
  ∃ r k', Schedule config pods req k = (Val r, k')
          ∧ (∀ p, r = inl p → p ∈ pods).
Proof. apply Schedule_total. Qed.

(** *** Usages that are not numbers *)

Definition nan_kv (p : PodMetrics) : Prop := kv p = S754_nan.

(** A tree that comes back with no pod and no error when no usage is a number. *)
Definition loses (f : filter_node) : Prop :=
  ∀ req pods k, Forall nan_kv pods → (Filter f req pods k).1 = ([], None).

Lemma leastKV_loses name : loses (leaf name leastKVCacheFilterFunc).
Proof.
  intros req pods k Hn. unfold leaf. cbn [Filter]. unfold leastKVCacheFilterFunc.
  destruct (kv_bounds pods) as [mn mx].
  rewrite (proj2 (filter_nil_iff _ pods)); [done|]. intros p Hp.
  rewrite Forall_forall in Hn. specialize (Hn p Hp). unfold nan_kv, kv in Hn. rewrite Hn.
  by destruct mn as [|[]| |].
Qed.

Lemma loses_either name ff next :
  selects ff → loses next → loses (mkFilter name ff None None (Some next)).
Proof.
  intros Hsel Hnext req pods k Hn. cbn [Filter]. specialize (Hsel req pods k).
  destruct (ff req pods k) as [r k']. simpl in Hsel.
  destruct (succeeded r); apply Hnext; [by eapply Forall_sublist|done].
Qed.

Lemma loses_branch name ff s f e :
  selects ff → loses s → loses f → loses (mkFilter name ff (Some s) (Some f) e).
Proof.
  intros Hsel Hs Hf req pods k Hn. cbn [Filter]. specialize (Hsel req pods k).
  destruct (ff req pods k) as [r k']. simpl in Hsel.
  destruct (succeeded r); [apply Hs; by eapply Forall_sublist|by apply Hf].
Qed.

Lemma lowLatency_loses `{R : Rand} config : loses (lowLatencyFilter config).
Proof.
  apply loses_branch; [auto with epp| |]; apply loses_either; auto with epp;
    apply loses_either; auto using leastKV_loses with epp.
Qed.

Lemma nan_dropped `{R : Rand} config pods req k :
  pods ≠ [] → req_Critical req = true → Forall nan_kv pods →
  ∃ k', Schedule config pods req k = (Val (inr (Schedule_error 0 None)), k').
Proof.
  intros Hne Hc Hn. pose proof (lowLatency_loses config req pods k Hn) as Hl.
  pose proof (Schedule_inv config pods req k) as Hinv. rewrite default_critical in Hinv by done.
  destruct (Filter _ req pods k) as [r k']. simpl in Hl. subst r.
  destruct Hinv as [(_ & [] & _)|[_ ->]]; [done|by eexists].
Qed.

(** C8: when a critical request is scheduled.  With at least one pod and ordinary metrics
    (queue lengths that are not negative, cache usages that are finite and not negative),
    [Schedule] picks a pod for a critical request under every load, and if some pod's
    queue is below the LoRA queueing threshold the picked pod's queue is.  When no pod's
    cache usage is a number, the last filter keeps no pod and the critical request is
    refused. *)
Theorem critical_never_shed `{R : Rand} config pods req k :
  pods ≠ [] → req_Critical req = true →
  (good pods →
   ∃ p k', Schedule config pods req k = (Val (inl p), k') ∧ p ∈ pods
           ∧ ((∃ q, q ∈ pods ∧ queue q < QueueingThresholdLoRA config)
              → queue p < QueueingThresholdLoRA config))
  ∧ (Forall nan_kv pods → ∃ e k', Schedule config pods req k = (Val (inr e), k')).
Proof.
  intros Hne Hc. split; [intros Hg|].
  2: { intros Hn. destruct (nan_dropped config pods req k Hne Hc Hn) as [k' ->]. eauto. }
  destruct (Schedule_of_picks config pods req k (lowLatencyFilter config))
    as (p & k' & Hp & ->); [by apply default_critical|by apply lowLatency_picks|].
  exists p, k'. split; [done|]. split.
  - eapply elem_of_sublist; [|exact Hp]. apply Filter_selects, lowLatency_tree.
  - intros (q & Hq & Hlow). unfold lowLatencyFilter in Hp.
    rewrite (branch_taken _ _ _ _ _ _ _ _ q) in Hp; [|done|by apply Z.ltb_lt].
    assert (p ∈ filter (λ p, lowQueueingPodPredicate config req p = true) pods)
      as [Hpp _]%list_elem_of_filter.
    { eapply elem_of_sublist; [|exact Hp]. apply Filter_selects.
      repeat split; auto with epp. }
    by apply Z.ltb_lt in Hpp.
Qed.

(** Capacity for a sheddable request, as the configuration defines it. *)
Definition has_capacity (config : Config) (p : PodMetrics) : bool :=
  (queue p <=? QueueThresholdCritical config) && fleb (kv p) (KVCacheThreshold config).

Lemma no_capacity_dropped `{R : Rand} config pods req k :
  req_Critical req = false → (∀ q, q ∈ pods → has_capacity config q = false) →
  ∃ msg k', Schedule config pods req k
      = (Val (inr (WrapError msg (EppError InferencePoolResourceExhausted
                     "dropping request due to limited backend resources"))), k').
Proof.
  intros Hc Hnone.
  assert (Filter (defaultFilter config) req pods k
          = (([], Some (EppError InferencePoolResourceExhausted
                "dropping request due to limited backend resources")), k)) as Hd.
  { rewrite default_sheddable by done. unfold sheddableRequestFilter.
    by rewrite branch_not_taken. }
  unfold Schedule. cbn [NewScheduler scheduler_filter]. rewrite Hd. eauto.
Qed.


(** The least-queuing filter keeps exactly the pods whose queue is at most
    [min + (max - min) / n] in unbounded integer arithmetic: on ordinary queue
    lengths none of the machine operations overflows, every pod with the
    shortest queue is kept, and the bound is not above the longest queue. *)
Theorem least_queuing_exact req pods k :
  Forall sane_queue pods → fits pods → pods ≠ [] →
  ∃ mn mx, (∃ p, p ∈ pods ∧ queue p = mn) ∧ (∃ p, p ∈ pods ∧ queue p = mx)
    ∧ (∀ p, p ∈ pods → mn <= queue p <= mx)
    ∧ ∀ p, p ∈ (leastQueuingFilterFunc req pods k).1.1
           ↔ p ∈ pods ∧ queue p <= mn + (mx - mn) / Z.of_nat (length pods).
Proof.
  intros Hsane Hfit Hne. destruct (queue_bounds pods) as [mn mx] eqn:Hb.
  destruct (queue_bounds_spec pods mn mx Hsane Hne Hb) as (Hmn & Hall & _ & _ & Hmx).
  exists mn, mx. do 3 (split; [done|]). intros p.
  rewrite leastQueuing_elem by done. rewrite Hb. split.
  - intros [Hp (mn' & mx' & [= <- <-] & Hle)]. done.
  - intros [Hp Hle]. split; [done|]. by exists mn, mx.
Qed.

(** Floating-point rounding never empties the least-KV-cache filter: on
    ordinary usage values every pod with the smallest usage is kept. *)
Theorem least_kv_keeps_minimum req pods k p :
  Forall sane_kv pods → fits pods → p ∈ pods →
  (∀ q, q ∈ pods → fleb (kv p) (kv q) = true) →
  p ∈ (leastKVCacheFilterFunc req pods k).1.1.
Proof. apply leastKVCache_keeps_min. Qed.

(** The soft-affinity filter never returns an error, returns only pods
    that serve the adapter or have a free slot for it, and comes back empty only
    when no pod does either; and when both kinds of pods exist the affinity
    draw decides between the two groups. *)
Theorem lora_affinity_spec `{R : Rand} config req pods k :
  let r := loRASoftAffinityFilter config req pods k in
  r.1.2 = None
  ∧ (∀ p, p ∈ r.1.1 → p ∈ pods ∧ lowLoRACostPredicate req p = true)
  ∧ (r.1.1 = [] ↔ ∀ p, p ∈ pods → lowLoRACostPredicate req p = false)
  ∧ (affinity_group req pods ≠ [] → available_group req pods ≠ [] →
     r.1.1 = if fltb (Float64_draw k) (LoraAffinityThreshold config)
             then affinity_group req pods else available_group req pods).
Proof.
  simpl. split; [apply loRA_cases|]. split; [|split; [apply loRA_empty_iff|]].
  - intros p Hp. split; [|by eapply loRA_low_cost].
    eapply elem_of_sublist; [apply loRA_selects|done].
  - intros Ha Hb. destruct (loRA_cases config req pods k) as (_ & [[-> H]|[-> H]]);
      by rewrite H.
Qed.

(** * Witnesses *)

Definition example_pod (name : string) (q : Z) (usage : float64) : PodMetrics :=
  mkPodMetrics (mkPod (mkNamespacedName "ns" name) "10.0.0.1")
    (set_KVCacheUsagePercent usage (set_WaitingQueueSize q newMetrics)).

(** One idle pod and one loaded pod. *)
Definition example_pods : list PodMetrics :=
  [example_pod "idle" 2 (of_decimal false 5 (-1)); example_pod "loaded" 40 (of_decimal false 9 (-1))].

Definition example_request (critical : bool) : LLMRequest :=
  mkLLMRequest "m" ∅ "m-adapter" critical.

Lemma example_good : good example_pods.
Proof. split; [|by vm_compute]. repeat constructor; by vm_compute. Defined.

Lemma schedule_sound_witness :
  ∃ r k', Schedule (R:=least_draws) defaultConfig example_pods (example_request true) 0
          = (Val r, k') ∧ (∀ p, r = inl p → p ∈ example_pods).
Proof. apply (schedule_sound (R:=least_draws)). Defined.

Lemma critical_never_shed_witness :
  (∃ p k', Schedule (R:=least_draws) defaultConfig example_pods (example_request true) 0
           = (Val (inl p), k') ∧ p ∈ example_pods
           ∧ ((∃ q, q ∈ example_pods ∧ queue q < 128) → queue p < 128))
  ∧ ∃ e k', Schedule (R:=least_draws) defaultConfig [example_pod "idle" 0 S754_nan] (example_request true) 0
            = (Val (inr e), k').
Proof.
  split.
  - apply (critical_never_shed (R:=least_draws) defaultConfig example_pods (example_request true) 0).
    + done.
    + reflexivity.
    + apply example_good.
  - apply (critical_never_shed (R:=least_draws) defaultConfig [example_pod "idle" 0 S754_nan]
             (example_request true) 0).
    + done.
    + reflexivity.
    + by repeat constructor.
Defined.


(** A pool with no capacity sheds, so both sides of the admission happen. *)
Example sheddable_dropped :
  is_val (Schedule (R:=least_draws) defaultConfig [example_pod "loaded" 40 fzero]
            (example_request false) 0).1 = true
  ∧ has_capacity defaultConfig (example_pod "loaded" 40 fzero) = false.
Proof. by vm_compute. Qed.

Lemma least_queuing_exact_witness :
  ∃ mn mx, (∃ p, p ∈ example_pods ∧ queue p = mn) ∧ (∃ p, p ∈ example_pods ∧ queue p = mx)
    ∧ (∀ p, p ∈ example_pods → mn <= queue p <= mx)
    ∧ ∀ p, p ∈ (leastQueuingFilterFunc (example_request true) example_pods 0%nat).1.1
           ↔ p ∈ example_pods ∧ queue p <= mn + (mx - mn) / Z.of_nat (length example_pods).
Proof.
  apply (least_queuing_exact (example_request true) example_pods 0%nat).
  - repeat constructor; by vm_compute.
  - by vm_compute.
  - done.
Defined.

Lemma least_kv_keeps_minimum_witness :
  example_pod "idle" 2 (of_decimal false 5 (-1))
  ∈ (leastKVCacheFilterFunc (example_request true) example_pods 0%nat).1.1.
Proof.
  apply (least_kv_keeps_minimum (example_request true) example_pods 0%nat).
  - repeat constructor; by vm_compute.
  - by vm_compute.
  - left.
  - intros q. unfold example_pods. rewrite !elem_of_cons, elem_of_nil. intros [->|[->|[]]]; by vm_compute.
Defined.

Lemma lora_affinity_spec_witness :
  (loRASoftAffinityFilter (R:=least_draws) defaultConfig (example_request true) example_pods 0%nat).1.2
  = None.
Proof.
  apply (lora_affinity_spec (R:=least_draws) defaultConfig (example_request true) example_pods 0%nat).
Defined.
