(* ===== verification/LiveScheduling.v ===== *)
(** * pkg/epp/scheduling on live pods

    The pods the scheduler filters are references: the refresh goroutine of a pod may
    store new metrics between any two calls of [GetMetrics].  Here every such call of
    filter.go is a read of its own, and [live n p] is what the [n]-th read of the call
    finds on pod [p]; a theorem quantified over [live] holds for every way the metrics can
    change meanwhile.  [Scheduling] is the case in which they do not change. *)

From S2P Require Import Prelude GoInt Float64 Api Errors BackendMetrics Scheduling SchedulingProofs.

Local Open Scope Z_scope.

(** ** Reads and draws *)

Record clock := mkClock { c_reads : nat; c_draws : nat }.

Definition M (A : Type) : Type := clock → A * clock.

#[export] Instance M_ret : MRet M := λ A a c, (a, c).
#[export] Instance M_bind : MBind M := λ A B f m c, f (m c).1 (m c).2.

Section live.
Context {A : Type} (live : nat → A → Metrics) `{R : Rand} (config : Config).

(** [pod.GetMetrics()] *)
Definition read (pod : A) : M Metrics := λ c,
  (live (c_reads c) pod, mkClock (S (c_reads c)) (c_draws c)).

Definition rand_Float64 : M float64 := λ c,
  (Float64_draw (c_draws c), mkClock (c_reads c) (S (c_draws c))).

Definition rand_Intn (n : nat) : M nat := λ c,
  (Intn_draw (c_draws c) n, mkClock (c_reads c) (S (c_draws c))).

(** The loops over pods. *)
Fixpoint select (keep : A → M bool) (pods : list A) : M (list A) :=
  match pods with
  | [] => mret []
  | pod :: pods =>
      pass ← keep pod;
      rest ← select keep pods;
      mret (if pass : bool then pod :: rest else rest)
  end.

Fixpoint fold_pods {B} (step : B → A → M B) (acc : B) (pods : list A) : M B :=
  match pods with
  | [] => mret acc
  | pod :: pods => acc ← step acc pod; fold_pods step acc pods
  end.

(** ** filter.go *)

Definition live_result : Type := list A * option error.
Definition live_filterFunc : Type := LLMRequest → list A → M live_result.
Definition live_podPredicate : Type := LLMRequest → A → M bool.

Definition live_toFilterFunc (pp : live_podPredicate) : live_filterFunc := λ req pods,
  filtered ← select (pp req) pods;
  mret (match filtered with
        | [] => ([], Some (PlainError "no pods left"))
        | _ => (filtered, None)
        end).

(** [if get(pod.GetMetrics()) better acc { acc = get(pod.GetMetrics()) }] *)
Definition improve {B} (get : Metrics → B) (better : B → B → bool) (acc : B) (pod : A) : M B :=
  m ← read pod;
  if better (get m) acc then m ← read pod; mret (get m) else mret acc.

Definition improve_both {B} (get : Metrics → B) (le ge : B → B → bool) (acc : B * B) (pod : A) : M (B * B) :=
  mn ← improve get le acc.1 pod;
  mx ← improve get ge acc.2 pod;
  mret (mn, mx).

(** [get(pod.GetMetrics()) >= min && get(pod.GetMetrics()) <= limit] *)
Definition between {B} (get : Metrics → B) (le ge : B → B → bool) (mn limit : B) (pod : A) : M bool :=
  m ← read pod;
  if ge (get m) mn then m ← read pod; mret (le (get m) limit) else mret false.

Definition live_leastQueuing : live_filterFunc := λ req pods,
  '(mn, mx) ← fold_pods (improve_both WaitingQueueSize Z.leb Z.geb) (MaxInt, 0) pods;
  filtered ← select (between WaitingQueueSize Z.leb Z.geb mn (queue_limit mn mx (length pods))) pods;
  mret (filtered, None).

Definition live_leastKVCache : live_filterFunc := λ req pods,
  '(mn, mx) ← fold_pods (improve_both KVCacheUsagePercent fleb fgeb) (MaxFloat64, fzero) pods;
  filtered ← select (between KVCacheUsagePercent fleb fgeb mn (kv_limit mn mx (length pods))) pods;
  mret (filtered, None).

Definition live_lowQueueing : live_podPredicate := λ _ pod,
  m ← read pod;
  mret (WaitingQueueSize m <? QueueingThresholdLoRA config).

Definition live_critical : live_podPredicate := λ req _, mret (req_Critical req).

Definition live_noQueue (queueThreshold : Z) (kvCacheThreshold : float64) : live_podPredicate := λ _ pod,
  m ← read pod;
  if WaitingQueueSize m <=? queueThreshold
  then m ← read pod; mret (fleb (KVCacheUsagePercent m) kvCacheThreshold)
  else mret false.

(** [loRASoftAffinityFilter]: the loop that sorts the pods, then the choice. *)
Definition live_sort (req : LLMRequest) (acc : list A * list A) (pod : A) : M (list A * list A) :=
  m ← read pod;
  if bool_decide (is_Some (ActiveModels m !! ResolvedTargetModel req))
  then mret (acc.1 ++ [pod], acc.2)
  else
    m1 ← read pod;
    m2 ← read pod;
    mret (acc.1,
          if Z.of_nat (size (ActiveModels m1)) <? MaxActiveModels m2 then acc.2 ++ [pod] else acc.2).

Definition live_loRA : live_filterFunc := λ req pods,
  '(affinity, available) ← fold_pods (live_sort req) ([], []) pods;
  match affinity, available with
  | _ :: _, _ :: _ =>
      f ← rand_Float64;
      mret (if fltb f (LoraAffinityThreshold config) then (affinity, None) else (available, None))
  | _ :: _, [] => mret (affinity, None)
  | [], _ => mret (available, None)
  end.

Definition live_drop : live_filterFunc := λ _ _,
  mret ([], Some (EppError InferencePoolResourceExhausted
                    "dropping request due to limited backend resources")).

(** ** The tree *)

Inductive live_node : Type :=
  mkLive {
    l_filter : live_filterFunc;
    l_onSuccess : option live_node;
    l_onFailure : option live_node;
    l_onEither : option live_node
  }.

Definition live_succeeded (r : live_result) : bool :=
  match r with ((_ :: _)%list, None) => true | _ => false end.

Fixpoint live_Filter (f : live_node) (req : LLMRequest) (pods : list A) : M live_result :=
  match f with
  | mkLive ff onSuccess onFailure onEither =>
      r ← ff req pods;
      if live_succeeded r then
        match onSuccess, onEither with
        | Some next, _ | None, Some next => live_Filter next req r.1
        | None, None => mret r
        end
      else
        match onFailure, onEither with
        | Some next, _ | None, Some next => live_Filter next req pods
        | None, None => mret r
        end
  end.

Definition live_leaf (ff : live_filterFunc) : live_node := mkLive ff None None None.
Definition live_then (ff : live_filterFunc) (next : live_node) : live_node := mkLive ff None None (Some next).

Definition live_queueLoRAAndKVCache : live_node :=
  live_then live_leastQueuing (live_then live_loRA (live_leaf live_leastKVCache)).

Definition live_queueAndKVCache : live_node :=
  live_then live_leastQueuing (live_leaf live_leastKVCache).

Definition live_lowLatency : live_node :=
  mkLive (live_toFilterFunc live_lowQueueing)
    (Some (live_then live_loRA live_queueAndKVCache)) (Some live_queueLoRAAndKVCache) None.

Definition live_sheddable : live_node :=
  mkLive (live_toFilterFunc (live_noQueue (QueueThresholdCritical config) (KVCacheThreshold config)))
    (Some live_queueLoRAAndKVCache) (Some (live_leaf live_drop)) None.

Definition live_default : live_node :=
  mkLive (live_toFilterFunc live_critical) (Some live_lowLatency) (Some live_sheddable) None.

(** [Schedule] on the references [PodGetAll] returned. *)
Definition live_Schedule (podMetrics : list A) (req : LLMRequest) : M (outcome (A + error)) :=
  '(pods, err) ← live_Filter live_default req podMetrics;
  match err, pods with
  | None, _ :: _ => i ← rand_Intn (length pods); mret (inl <$> index pods i)
  | _, _ => mret (Val (inr (Schedule_error (length pods) err)))
  end.
End live.

(** ** The clock *)

Lemma bind_eq {A B} (m : M A) (f : A → M B) c : (x ← m; f x) c = f (m c).1 (m c).2.
Proof. done. Qed.

Lemma ret_eq {A} (a : A) c : (mret a : M A) c = (a, c).
Proof. done. Qed.

Section proofs.
Context {A : Type} (live : nat → A → Metrics) `{R : Rand} (config : Config).

(** Reads are numbered upwards. *)
Definition steady {B} (m : M B) : Prop := ∀ c, (c_reads c <= c_reads (m c).2)%nat.

Lemma steady_ret {B} (b : B) : steady (mret b).
Proof. by intros c. Qed.

Lemma steady_bind {B C} (m : M B) (f : B → M C) : steady m → (∀ b, steady (f b)) → steady (m ≫= f).
Proof. intros Hm Hf c. rewrite bind_eq. specialize (Hm c). specialize (Hf (m c).1 (m c).2). lia. Qed.

Lemma steady_read pod : steady (read live pod).
Proof. intros c. simpl. lia. Qed.

Lemma steady_float : steady rand_Float64.
Proof. intros c. done. Qed.

Lemma steady_intn n : steady (rand_Intn n).
Proof. intros c. done. Qed.

Lemma steady_select keep (pods : list A) : (∀ p, steady (keep p)) → steady (select keep pods).
Proof.
  intros Hk. induction pods as [|p pods IH]; [apply steady_ret|].
  apply steady_bind; [done|]. intros b. apply steady_bind; [done|]. intros rest. apply steady_ret.
Qed.

Lemma steady_fold {B} step (acc : B) (pods : list A) :
  (∀ acc p, steady (step acc p)) → steady (fold_pods step acc pods).
Proof.
  intros Hs. revert acc. induction pods as [|p pods IH]; intros acc; [apply steady_ret|].
  by apply steady_bind.
Qed.

Create HintDb live.
#[local] Hint Resolve steady_ret steady_bind steady_read steady_float steady_intn steady_select steady_fold : live.
#[local] Hint Extern 1 (steady (if ?b then _ else _)) => destruct b : live.
#[local] Hint Extern 1 (steady (let '(_, _) := ?b in _)) => destruct b : live.
#[local] Hint Extern 1 (steady (match ?b with [] => _ | _ => _ end)) => destruct b : live.

Lemma steady_improve {B} get better (acc : B) pod : steady (improve live get better acc pod).
Proof. unfold improve. auto 10 with live. Qed.
#[local] Hint Resolve steady_improve : live.

Lemma steady_between {B} get (le ge : B → B → bool) mn limit pod : steady (between live get le ge mn limit pod).
Proof. unfold between. auto 10 with live. Qed.
#[local] Hint Resolve steady_between : live.

(** *** Loops *)

(** What a loop keeps, it tested. *)
Lemma select_spec keep (pods : list A) c p :
  (∀ p, steady (keep p)) → p ∈ (select keep pods c).1 →
  p ∈ pods ∧ ∃ c', (c_reads c <= c_reads c')%nat ∧ (keep p c').1 = true
    ∧ (c_reads (keep p c').2 <= c_reads (select keep pods c).2)%nat.
Proof.
  intros Hk. revert c. induction pods as [|q pods IH]; intros c; cbn [select].
  { by intros ?%elem_of_nil. }
  rewrite !bind_eq, !ret_eq. cbn [fst snd]. pose proof (Hk q c) as Hq.
  pose proof (steady_select keep pods Hk (keep q c).2) as Hrest.
  assert (p ∈ (select keep pods (keep q c).2).1 ∨ p = q ∧ (keep q c).1 = true →
    p ∈ q :: pods ∧ ∃ c', (c_reads c <= c_reads c')%nat ∧ (keep p c').1 = true
      ∧ (c_reads (keep p c').2 <= c_reads (select keep pods (keep q c).2).2)%nat) as Hgoal.
  { intros [(Hp & c' & Hc & Hkeep & Hc2)%IH|[-> Hkeep]].
    - split; [by right|]. exists c'. split; [lia|done].
    - split; [by left|]. by exists c. }
  intros Hp. apply Hgoal. destruct (keep q c).1 eqn:Hkq; [|by left].
  apply elem_of_cons in Hp as [->|Hp]; [by right|by left].
Qed.

Lemma select_sublist keep (pods : list A) c : (select keep pods c).1 `sublist_of` pods.
Proof.
  revert c. induction pods as [|p pods IH]; intros c; [done|]. cbn [select]. rewrite !bind_eq, ret_eq. cbn [fst].
  case_match; [by apply sublist_skip|by apply sublist_cons].
Qed.

(** The pods with the adapter and the pods with room. *)
Lemma sort_spec req (pods : list A) acc c :
  ∃ l1 l2, (fold_pods (live_sort live req) acc pods c).1 = (acc.1 ++ l1, acc.2 ++ l2)
    ∧ l1 `sublist_of` pods ∧ l2 `sublist_of` pods.
Proof.
  revert acc c. induction pods as [|q pods IH]; intros acc c; cbn [fold_pods].
  { exists [], []. rewrite !app_nil_r. by destruct acc. }
  rewrite bind_eq. destruct (IH (live_sort live req acc q c).1 (live_sort live req acc q c).2)
    as (l1 & l2 & -> & H1 & H2).
  unfold live_sort. rewrite !bind_eq. cbv beta. case_bool_decide; rewrite ?bind_eq, ?ret_eq; cbn [fst snd].
  - exists (q :: l1), l2. rewrite <-(assoc_L (++)). split; [done|]. split; [by apply sublist_skip|by apply sublist_cons].
  - case_match.
    + exists l1, (q :: l2). rewrite <-(assoc_L (++)). split; [done|].
      split; [by apply sublist_cons|by apply sublist_skip].
    + exists l1, l2. split; [done|]. split; by apply sublist_cons.
Qed.

(** ** Filters select among the pods they are given *)

Definition l_selects (ff : live_filterFunc) : Prop :=
  (∀ req (pods : list A), steady (ff req pods)) ∧ ∀ req pods c, (ff req pods c).1.1 `sublist_of` pods.

Lemma toFilterFunc_selects_live pp : (∀ req p, steady (pp req p)) → l_selects (live_toFilterFunc pp).
Proof.
  intros Hpp. split; [intros req pods; unfold live_toFilterFunc; by auto with live|].
  intros req pods c. unfold live_toFilterFunc. rewrite bind_eq, ret_eq. cbn [fst].
  pose proof (select_sublist (pp req) pods c). by destruct (select (pp req) pods c).1.
Qed.

Lemma least_selects {B} get (le ge : B → B → bool) (start : B * B) (limit : B → B → nat → B) :
  l_selects (λ req pods,
    '(mn, mx) ← fold_pods (improve_both live get le ge) start pods;
    filtered ← select (between live get le ge mn (limit mn mx (length pods))) pods;
    mret (filtered, None)).
Proof.
  split.
  - intros req pods. apply steady_bind; [|by intros [mn mx]; auto with live].
    apply steady_fold. intros acc p. unfold improve_both. auto 10 with live.
  - intros req pods c. rewrite bind_eq. destruct (fold_pods _ _ _ c).1 as [mn mx].
    rewrite bind_eq, ret_eq. apply select_sublist.
Qed.

Lemma loRA_selects_live : l_selects (live_loRA live config).
Proof.
  split.
  - intros req pods. apply steady_bind.
    + apply steady_fold. intros acc p. unfold live_sort. auto 20 with live.
    + intros [[|a l] [|b l']]; auto with live.
  - intros req pods c. unfold live_loRA. rewrite bind_eq.
    destruct (sort_spec req pods ([], []) c) as (l1 & l2 & -> & H1 & H2). cbn [fst snd app].
    destruct l1, l2; rewrite ?bind_eq, ?ret_eq; cbn [fst snd]; by try case_match.
Qed.

Lemma drop_selects_live : l_selects live_drop.
Proof. split; [intros req pods; apply steady_ret|]. intros req pods c. apply sublist_nil_l. Qed.

Lemma leaf_selects ff : l_selects ff → l_selects (live_Filter (live_leaf ff)).
Proof.
  intros [Hst Hs]. split.
  - intros req pods. apply steady_bind; [done|]. intros r. destruct (live_succeeded r); apply steady_ret.
  - intros req pods c. cbn [live_Filter live_leaf]. rewrite bind_eq. destruct (live_succeeded _); apply Hs.
Qed.

Lemma branch_selects ff s f :
  l_selects ff → l_selects (live_Filter s) → l_selects (live_Filter f) →
  l_selects (live_Filter (mkLive ff (Some s) (Some f) None)).
Proof.
  intros [Hst Hs] [Hst1 Hs1] [Hst2 Hs2]. split.
  - intros req pods. apply steady_bind; [done|]. intros r. destruct (live_succeeded r); done.
  - intros req pods c. cbn [live_Filter]. rewrite bind_eq. destruct (live_succeeded _); [|apply Hs2].
    etrans; [apply Hs1|apply Hs].
Qed.

Lemma then_selects ff next :
  l_selects ff → l_selects (live_Filter next) → l_selects (live_Filter (live_then ff next)).
Proof.
  intros Hf Hn. destruct (branch_selects ff next next Hf Hn Hn) as [Hst Hs]. by split.
Qed.

#[local] Hint Resolve toFilterFunc_selects_live loRA_selects_live drop_selects_live leaf_selects
  branch_selects then_selects : live.

Lemma leastQueuing_selects_live : l_selects (live_leastQueuing live).
Proof. apply (least_selects WaitingQueueSize Z.leb Z.geb (MaxInt, 0) queue_limit). Qed.

Lemma leastKVCache_selects_live : l_selects (live_leastKVCache live).
Proof. apply (least_selects KVCacheUsagePercent fleb fgeb (MaxFloat64, fzero) kv_limit). Qed.

#[local] Hint Resolve leastQueuing_selects_live leastKVCache_selects_live : live.

Lemma predicates_steady req p q t :
  steady (live_lowQueueing live config req p) ∧ steady (live_critical req p)
  ∧ steady (live_noQueue live q t req p).
Proof.
  split; [unfold live_lowQueueing; by auto with live|]. split; [apply steady_ret|].
  unfold live_noQueue. auto 10 with live.
Qed.

Lemma queueLoRA_selects_live : l_selects (live_Filter (live_queueLoRAAndKVCache live config)).
Proof. unfold live_queueLoRAAndKVCache. auto 10 with live. Qed.

Lemma lowLatency_selects_live : l_selects (live_Filter (live_lowLatency live config)).
Proof.
  unfold live_lowLatency, live_queueAndKVCache.
  apply branch_selects; [|by auto 10 with live|apply queueLoRA_selects_live].
  apply toFilterFunc_selects_live. intros req p. by eapply (predicates_steady req p 0 fzero).
Qed.

Lemma default_selects_live : l_selects (live_Filter (live_default live config)).
Proof.
  apply branch_selects; [|apply lowLatency_selects_live|].
  - apply toFilterFunc_selects_live. intros req p. apply steady_ret.
  - apply branch_selects; [|apply queueLoRA_selects_live|by auto with live].
    apply toFilterFunc_selects_live. intros req p. by eapply predicates_steady.
Qed.

(** ** Metrics that do not change *)

(** A computation whose result does not depend on when it runs, and which draws nothing. *)
Definition settled {B} (m : M B) (b : B) : Prop := ∀ c, (m c).1 = b ∧ c_draws (m c).2 = c_draws c.

Lemma settled_ret {B} (b : B) : settled (mret b) b.
Proof. by intros c. Qed.

Lemma settled_bind {B C} (m : M B) b (f : B → M C) d : settled m b → settled (f b) d → settled (m ≫= f) d.
Proof.
  intros Hm Hf c. rewrite bind_eq. destruct (Hm c) as [-> Hd]. destruct (Hf (m c).2) as [-> ->]. done.
Qed.

Lemma settled_eq {B} (m : M B) b b' : settled m b → b = b' → settled m b'.
Proof. by intros ? <-. Qed.

Lemma settled_select keep (b : A → bool) (pods : list A) :
  (∀ p, p ∈ pods → settled (keep p) (b p)) → settled (select keep pods) (filter (λ p, b p = true) pods).
Proof.
  induction pods as [|p pods IH]; intros Hk; [apply settled_ret|].
  eapply settled_bind; [apply Hk; by left|]. eapply settled_bind; [apply IH; intros q Hq; apply Hk; by right|].
  eapply settled_eq; [apply settled_ret|]. rewrite filter_cons.
  destruct (b p); [by rewrite decide_True|by rewrite decide_False].
Qed.

Lemma settled_fold {B} step (f : B → A → B) acc (pods : list A) :
  (∀ acc p, p ∈ pods → settled (step acc p) (f acc p)) → settled (fold_pods step acc pods) (foldl f acc pods).
Proof.
  revert acc. induction pods as [|p pods IH]; intros acc Hs; [apply settled_ret|].
  eapply settled_bind; [apply Hs; by left|]. apply IH. intros acc' q Hq. apply Hs. by right.
Qed.

Section field.
Context {B : Type} (get : Metrics → B) (g : A → B) (le ge : B → B → bool).

(** The two loops of the least-queuing and least-KV-cache filters, when the field they
    compare does not change. *)
Lemma settled_improve better acc p :
  (∀ n, get (live n p) = g p) → settled (improve live get better acc p) (if better (g p) acc then g p else acc).
Proof.
  intros Hg c. unfold improve. rewrite bind_eq. cbn [read fst snd]. rewrite Hg.
  destruct (better (g p) acc); [|done]. rewrite bind_eq, ret_eq. cbn [read fst snd c_draws]. by rewrite Hg.
Qed.

Lemma settled_between mn limit p :
  (∀ n, get (live n p) = g p) → settled (between live get le ge mn limit p) (ge (g p) mn && le (g p) limit).
Proof.
  intros Hg c. unfold between. rewrite bind_eq. cbn [read fst snd]. rewrite Hg.
  destruct (ge (g p) mn); [|done]. rewrite bind_eq, ret_eq. cbn [read fst snd c_draws]. by rewrite Hg.
Qed.

Definition bounds_of (start : B * B) (pods : list A) : B * B :=
  foldl (λ acc p, (if le (g p) acc.1 then g p else acc.1, if ge (g p) acc.2 then g p else acc.2)) start pods.

Lemma settled_least start (limit : B → B → nat → B) pods :
  (∀ n p, p ∈ pods → get (live n p) = g p) →
  settled (pair ← fold_pods (improve_both live get le ge) start pods;
           let '(mn, mx) := pair in
           filtered ← select (between live get le ge mn (limit mn mx (length pods))) pods;
           mret (filtered, None))
    (let '(mn, mx) := bounds_of start pods in
     (filter (λ p, ge (g p) mn && le (g p) (limit mn mx (length pods)) = true) pods, @None error)).
Proof.
  intros Hg. eapply settled_bind.
  - apply settled_fold. intros acc p Hp. eapply settled_bind; [by apply settled_improve; auto|].
    eapply settled_bind; [by apply settled_improve; auto|]. apply settled_ret.
  - unfold bounds_of. destruct (foldl _ start pods) as [mn mx].
    eapply settled_bind; [|apply settled_ret]. apply settled_select. intros p Hp. apply settled_between. auto.
Qed.
End field.

(** *** The snapshot *)

Context (pod_of : A → Pod).

(** What a pod shows at the start of the call. *)
Definition view (p : A) : PodMetrics := mkPodMetrics (pod_of p) (live 0 p).

Lemma bounds_view {B} (get : Metrics → B) le ge start pods :
  bounds_of (λ p, get (live 0 p)) le ge start pods
  = foldl (λ acc p, (if le (get (GetMetrics p)) acc.1 then get (GetMetrics p) else acc.1,
                     if ge (get (GetMetrics p)) acc.2 then get (GetMetrics p) else acc.2))
      start (view <$> pods).
Proof. revert start. induction pods as [|p pods IH]; intros start; [done|]. apply IH. Qed.

Lemma filter_view (P : PodMetrics → bool) (pods : list A) :
  view <$> filter (λ p, P (view p) = true) pods = filter (λ p, P p = true) (view <$> pods).
Proof.
  induction pods as [|p pods IH]; [done|]. rewrite fmap_cons, !filter_cons.
  destruct (P (view p)); [rewrite !decide_True by done|rewrite !decide_False by done]; [|done].
  by rewrite fmap_cons, IH.
Qed.

Lemma settled_leastKVCache req pods k :
  (∀ n p, p ∈ pods → KVCacheUsagePercent (live n p) = KVCacheUsagePercent (live 0 p)) →
  ∃ r, settled (live_leastKVCache live req pods) (r, None)
    ∧ leastKVCacheFilterFunc req (view <$> pods) k = ((view <$> r, None), k).
Proof.
  intros Hkv. exists (let '(mn, mx) := kv_bounds (view <$> pods) in
    filter (λ p, fgeb (KVCacheUsagePercent (live 0 p)) mn
                 && fleb (KVCacheUsagePercent (live 0 p)) (kv_limit mn mx (length pods)) = true) pods). split.
  - eapply settled_eq; [by apply (settled_least _ (λ p, KVCacheUsagePercent (live 0 p)) fleb fgeb
      (MaxFloat64, fzero) kv_limit)|].
    rewrite bounds_view. by unfold kv_bounds, kv_step; destruct (foldl _ _ (view <$> pods)).
  - unfold leastKVCacheFilterFunc. destruct (kv_bounds (view <$> pods)) as [mn mx]. rewrite length_fmap.
    by rewrite <-(filter_view (λ p, fgeb (KVCacheUsagePercent (GetMetrics p)) mn
      && fleb (KVCacheUsagePercent (GetMetrics p)) (kv_limit mn mx (length pods)))).
Qed.

(** ** Critical requests *)

(** The cache usages are ordinary numbers and do not change during the call. *)
Record usage_stable (pods : list A) : Prop := {
  us_stable : ∀ n p, p ∈ pods → KVCacheUsagePercent (live n p) = KVCacheUsagePercent (live 0 p);
  us_sane : ∀ p, p ∈ pods → ok_float (KVCacheUsagePercent (live 0 p));
  us_fits : Z.of_nat (length pods) <= MaxInt
}.

(** From some of these pods, the filter keeps one. *)
Definition delivers (f : live_node) (pods : list A) : Prop :=
  ∀ req l c, l ≠ [] → l `sublist_of` pods → live_succeeded (live_Filter f req l c).1 = true.

Lemma live_succeeded_inv (r : @live_result A) : live_succeeded r = true → r.1 ≠ [] ∧ r.2 = None.
Proof. by destruct r as [[|p l] [e|]]. Qed.

Lemma leastKVCache_delivers pods : usage_stable pods → delivers (live_leaf (live_leastKVCache live)) pods.
Proof.
  intros [Hst Hsane Hfit] req l c Hne Hsub.
  assert (∀ p, p ∈ l → p ∈ pods) as Hin by (intros p Hp; by eapply elem_of_sublist).
  destruct (settled_leastKVCache req l 0) as (r & Hr & Hview); [auto|].
  assert (r ≠ []) as Hr0.
  { destruct (leastKVCache_ok req (view <$> l) 0) as [Hok _].
    - apply Forall_fmap, Forall_forall. intros p Hp. by apply Hsane, Hin.
    - unfold fits. rewrite length_fmap. apply sublist_length in Hsub. lia.
    - by destruct l.
    - rewrite Hview in Hok. by destruct r. }
  destruct (Hr c) as [Hr1 _]. cbn [live_Filter live_leaf]. rewrite bind_eq, Hr1. by destruct r.
Qed.

Lemma branch_delivers ff s f pods :
  l_selects ff → delivers s pods → delivers f pods → delivers (mkLive ff (Some s) (Some f) None) pods.
Proof.
  intros [_ Hff] Hs Hf req l c Hne Hsub. cbn [live_Filter]. rewrite bind_eq.
  destruct (live_succeeded (ff req l c).1) eqn:Hok; [|by apply Hf].
  apply live_succeeded_inv in Hok as [Hne' _]. apply Hs; [done|]. by etrans; [apply Hff|].
Qed.

Lemma then_delivers ff next pods : l_selects ff → delivers next pods → delivers (live_then ff next) pods.
Proof. intros Hff Hn. apply (branch_delivers ff next next pods Hff Hn Hn). Qed.

Lemma queueLoRA_delivers pods :
  usage_stable pods → delivers (live_queueLoRAAndKVCache live config) pods.
Proof. intros Hus. repeat (apply then_delivers; [by auto with live|]). by apply leastKVCache_delivers. Qed.

Lemma lowLatency_delivers pods : usage_stable pods → delivers (live_lowLatency live config) pods.
Proof.
  intros Hus. apply branch_delivers; [|repeat (apply then_delivers; [by auto with live|]);
    by apply leastKVCache_delivers|by apply queueLoRA_delivers].
  apply toFilterFunc_selects_live. intros req p. by eapply (predicates_steady req p 0 fzero).
Qed.

(** The critical branch. *)
Lemma select_all (pods : list A) c (b : bool) :
  (select (λ _, mret b) pods c) = (if b then pods else [], c).
Proof.
  induction pods as [|p pods IH]; cbn [select]; [by destruct b|].
  rewrite !bind_eq, !ret_eq. cbn [fst snd]. rewrite IH. by destruct b.
Qed.

Lemma live_default_branch req pods c :
  pods ≠ [] ∨ req_Critical req = false →
  live_Filter (live_default live config) req pods c
  = live_Filter (if req_Critical req then live_lowLatency live config else live_sheddable live config) req pods c.
Proof.
  intros Hne. unfold live_default. cbn [live_Filter]. unfold live_toFilterFunc, live_critical.
  rewrite !bind_eq, !ret_eq, select_all. destruct (req_Critical req); [|done].
  destruct Hne; [by destruct pods|done].
Qed.

(** ** [Schedule] *)

Lemma live_Schedule_spec pods req c :
  let r := live_Filter (live_default live config) req pods c in
  (c_reads r.2 <= c_reads (live_Schedule live config pods req c).2)%nat
  ∧ if live_succeeded r.1 then ∃ p, p ∈ r.1.1 ∧ (live_Schedule live config pods req c).1 = Val (inl p)
    else (live_Schedule live config pods req c).1 = Val (inr (Schedule_error (length r.1.1) r.1.2)).
Proof.
  cbv zeta. unfold live_Schedule. rewrite bind_eq.
  destruct (live_Filter _ _ _ c) as [[l e] c'] eqn:Hr. cbn [fst snd].
  destruct e as [e|], l as [|p l]; cbn [live_succeeded]; [by split..|].
  rewrite bind_eq, ret_eq. split; [done|]. cbn [rand_Intn fst snd].
  destruct (lookup_lt_is_Some_2 (p :: l) (Intn_draw (c_draws c') (length (p :: l)))) as [q Hq].
  { apply Intn_draw_range. simpl. lia. }
  exists q. split; [by eapply list_elem_of_lookup_2|]. unfold index. by rewrite Hq.
Qed.

(** A pod showed capacity for a sheddable request, at two reads of the call. *)
Definition showed_capacity (p : A) (first last : nat) : Prop :=
  ∃ n, (first <= n)%nat ∧ (S n < last)%nat ∧ WaitingQueueSize (live n p) <= QueueThresholdCritical config
    ∧ fleb (KVCacheUsagePercent (live (S n) p)) (KVCacheThreshold config) = true.

Lemma noQueue_spec req p c :
  (live_noQueue live (QueueThresholdCritical config) (KVCacheThreshold config) req p c).1 = true →
  showed_capacity p (c_reads c)
    (c_reads (live_noQueue live (QueueThresholdCritical config) (KVCacheThreshold config) req p c).2).
Proof.
  unfold live_noQueue. rewrite bind_eq. cbn [read fst snd].
  destruct (Z.leb_spec (WaitingQueueSize (live (c_reads c) p)) (QueueThresholdCritical config)); [|done].
  rewrite bind_eq, ret_eq. cbn [read fst snd c_reads]. intros Hkv. exists (c_reads c). split; [done|].
  split; [lia|done].
Qed.

Lemma sheddable_capacity req pods c p :
  let r := live_Filter (live_sheddable live config) req pods c in
  live_succeeded r.1 = true → p ∈ r.1.1 → showed_capacity p (c_reads c) (c_reads r.2).
Proof.
  cbv zeta. unfold live_sheddable. cbn [live_Filter]. rewrite bind_eq.
  set (m := live_toFilterFunc _ req pods c). destruct (live_succeeded m.1) eqn:Hm; [|done].
  intros _ Hp. destruct queueLoRA_selects_live as [Hst Hsub].
  specialize (Hst req m.1.1 m.2). eapply elem_of_sublist in Hp; [|apply Hsub]. revert Hp Hst Hm. subst m.
  unfold live_toFilterFunc. rewrite bind_eq, ret_eq. cbn [fst snd].
  destruct (select _ pods c).1 eqn:Hsel; [done|]. cbn [fst]. rewrite <-Hsel. intros Hp Hst _.
  apply select_spec in Hp as (_ & c' & Hc & Hk & Hc2).
  - apply noQueue_spec in Hk as (n & H1 & H2 & H3 & H4). exists n. split; [lia|]. split; [lia|done].
  - intros q. by eapply predicates_steady.
Qed.

(** ** [Scheduling] as the case of metrics that do not change *)

Section frozen.
Hypothesis frozen : ∀ n p, live n p = live 0 p.

(** The live filter gives what the filter gives on the snapshot. *)
Definition same_result (m : M live_result) (pods : list A) (r : nat → filter_result * nat) : Prop :=
  ∀ c, r (c_draws c) = ((view <$> (m c).1.1, (m c).1.2), c_draws (m c).2).

Definition agrees (ffl : live_filterFunc) (ff : filterFunc) : Prop :=
  ∀ req pods, same_result (ffl req pods) pods (ff req (view <$> pods)).

Lemma settled_read p : settled (read live p) (live 0 p).
Proof. intros c. cbn. by rewrite frozen. Qed.

Lemma toFilterFunc_agrees ppl (pp : podPredicate) :
  (∀ req p, settled (ppl req p) (pp req (view p))) → agrees (live_toFilterFunc ppl) (toFilterFunc pp).
Proof.
  intros Hpp req pods c. unfold live_toFilterFunc, toFilterFunc. rewrite bind_eq, ret_eq. cbn [fst snd].
  destruct (settled_select (ppl req) (λ p, pp req (view p)) pods (λ p _, Hpp req p) c) as [Hs Hd].
  rewrite Hs, Hd, <-(filter_view (pp req)). by destruct (filter _ pods).
Qed.

Lemma leastKVCache_agrees : agrees (live_leastKVCache live) leastKVCacheFilterFunc.
Proof.
  intros req pods c. destruct (settled_leastKVCache req pods (c_draws c)) as (r & Hr & ->);
    [by intros n p _; rewrite frozen|]. by destruct (Hr c) as [-> ->].
Qed.

Lemma leastQueuing_agrees : agrees (live_leastQueuing live) leastQueuingFilterFunc.
Proof.
  intros req pods c.
  assert (settled (live_leastQueuing live req pods)
    (let '(mn, mx) := bounds_of (λ p, WaitingQueueSize (live 0 p)) Z.leb Z.geb (MaxInt, 0) pods in
     (filter (λ p, (WaitingQueueSize (live 0 p) >=? mn)
        && (WaitingQueueSize (live 0 p) <=? queue_limit mn mx (length pods)) = true) pods, None))) as Hset.
  { apply (settled_least WaitingQueueSize (λ p, WaitingQueueSize (live 0 p)) Z.leb Z.geb (MaxInt, 0) queue_limit).
    by intros n p _; rewrite frozen. }
  destruct (Hset c) as [Hr Hd]. rewrite Hr, Hd, bounds_view. clear Hset Hr Hd.
  unfold leastQueuingFilterFunc.
  assert (queue_bounds (view <$> pods) = foldl (λ acc p,
    (if WaitingQueueSize (GetMetrics p) <=? acc.1 then WaitingQueueSize (GetMetrics p) else acc.1,
     if WaitingQueueSize (GetMetrics p) >=? acc.2 then WaitingQueueSize (GetMetrics p) else acc.2))
      (MaxInt, 0) (view <$> pods)) as <-.
  { unfold queue_bounds. generalize (MaxInt, 0). induction (view <$> pods) as [|p l IH]; intros acc; [done|].
    cbn [foldl]. unfold queue_step at 2. rewrite Z.geb_leb. apply IH. }
  destruct (queue_bounds (view <$> pods)) as [mn mx]. rewrite length_fmap. cbn [fst snd]. f_equal. f_equal.
  rewrite <-(filter_view (λ p, (mn <=? WaitingQueueSize (GetMetrics p))
    && (WaitingQueueSize (GetMetrics p) <=? queue_limit mn mx (length pods)))). f_equal.
  apply list_filter_iff. intros p. by rewrite Z.geb_leb.
Qed.

Lemma settled_sort req acc pods :
  settled (fold_pods (live_sort live req) acc pods)
    (acc.1 ++ filter (λ p, has_adapter req (view p) = true) pods,
     acc.2 ++ filter (λ p, negb (has_adapter req (view p)) && has_room (view p) = true) pods).
Proof.
  revert acc. induction pods as [|p pods IH]; intros acc.
  { eapply settled_eq; [apply settled_ret|]. rewrite !filter_nil, !app_nil_r. by destruct acc. }
  cbn [fold_pods]. rewrite !filter_cons. unfold has_adapter at 1 3.
  change (ActiveModels (GetMetrics (view p))) with (ActiveModels (live 0 p)).
  eapply settled_bind.
  - unfold live_sort. eapply settled_bind; [apply settled_read|].
    instantiate (1 := (acc.1 ++ (if has_adapter req (view p) then [p] else []),
                       acc.2 ++ (if negb (has_adapter req (view p)) && has_room (view p) then [p] else []))).
    unfold has_adapter. change (GetMetrics (view p)) with (live 0 p). case_bool_decide; cbn [negb andb].
    + eapply settled_eq; [apply settled_ret|]. by rewrite app_nil_r.
    + eapply settled_bind; [apply settled_read|]. eapply settled_bind; [apply settled_read|].
      eapply settled_eq; [apply settled_ret|]. unfold has_room. rewrite app_nil_r.
      by destruct (_ <? _); rewrite ?app_nil_r.
  - eapply settled_eq; [apply IH|]. cbn [fst snd]. unfold has_adapter.
    change (GetMetrics (view p)) with (live 0 p).
    case_bool_decide; cbn [negb andb]; [rewrite decide_True, decide_False by done|rewrite decide_False by done].
    + by rewrite app_nil_r, <-(assoc_L (++)).
    + destruct (has_room (view p)); [rewrite decide_True by done|rewrite decide_False by done];
        by rewrite ?app_nil_r, <-?(assoc_L (++)).
Qed.

Lemma loRA_agrees : agrees (live_loRA live config) (loRASoftAffinityFilter config).
Proof.
  intros req pods c. unfold live_loRA, loRASoftAffinityFilter. rewrite bind_eq.
  destruct (settled_sort req ([], []) pods c) as [-> Hd]. cbn [fst snd app].
  rewrite <-(filter_view (has_adapter req)), <-(filter_view (λ p, negb (has_adapter req p) && has_room p)), <-Hd.
  destruct (filter (λ p, has_adapter req (view p) = true) pods), (filter _ pods); cbn [fmap list_fmap];
    rewrite ?bind_eq, ?ret_eq; try done. cbn [rand_Float64 fst snd c_draws]. by destruct (fltb _ _).
Qed.

Lemma drop_agrees : agrees live_drop dropRequest.
Proof. by intros req pods c. Qed.

Lemma succeeded_view (r : @live_result A) : succeeded (view <$> r.1, r.2) = live_succeeded r.
Proof. by destruct r as [[|p l] [e|]]. Qed.

Definition node_agrees (fl : live_node) (f : filter_node) : Prop := agrees (live_Filter fl) (Filter f).

Lemma node_agrees_intro name ffl ff sl s fl f el e :
  agrees ffl ff →
  match sl, s with Some sl, Some s => node_agrees sl s | None, None => True | _, _ => False end →
  match fl, f with Some fl, Some f => node_agrees fl f | None, None => True | _, _ => False end →
  match el, e with Some el, Some e => node_agrees el e | None, None => True | _, _ => False end →
  node_agrees (mkLive ffl sl fl el) (mkFilter name ff s f e).
Proof.
  intros Hff Hs Hf He req pods c. cbn [live_Filter Filter]. rewrite bind_eq, (Hff req pods c).
  rewrite succeeded_view. cbn [fst]. set (r := (ffl req pods c).1). set (c' := (ffl req pods c).2).
  destruct (live_succeeded r), sl as [sl|], s as [s|], fl as [fl|], f as [f|], el as [el|], e as [e|]; try done;
    first [apply (Hs req r.1 c') | apply (Hf req pods c') | apply (He req r.1 c') | apply (He req pods c')].
Qed.

Lemma leaf_agrees name ffl ff : agrees ffl ff → node_agrees (live_leaf ffl) (leaf name ff).
Proof. intros Hff. by apply node_agrees_intro. Qed.

Lemma default_agrees : node_agrees (live_default live config) (defaultFilter config).
Proof.
  assert (node_agrees (live_queueLoRAAndKVCache live config) (queueLoRAAndKVCacheFilter config)) as HqLk.
  { apply node_agrees_intro; [apply leastQueuing_agrees|done|done|].
    apply node_agrees_intro; [apply loRA_agrees|done|done|]. apply leaf_agrees, leastKVCache_agrees. }
  apply node_agrees_intro; [| | |done].
  - apply toFilterFunc_agrees. intros req p. apply settled_ret.
  - apply node_agrees_intro; [| |done|done].
    + apply toFilterFunc_agrees. intros req p. unfold live_lowQueueing.
      eapply settled_bind; [apply settled_read|]. apply settled_ret.
    + apply node_agrees_intro; [apply loRA_agrees|done|done|].
      apply node_agrees_intro; [apply leastQueuing_agrees|done|done|]. apply leaf_agrees, leastKVCache_agrees.
  - apply node_agrees_intro; [|done|apply leaf_agrees, drop_agrees|done].
    apply toFilterFunc_agrees. intros req p. unfold live_noQueue, noQueueAndLessThanKVCacheThresholdPredicate.
    eapply settled_bind; [apply settled_read|]. change (GetMetrics (view p)) with (live 0 p).
    destruct (_ <=? _); [|apply settled_ret]. eapply settled_bind; [apply settled_read|]. apply settled_ret.
Qed.

(** The scheduler on live pods, when no refresh falls into the call, is [Schedule] on
    the snapshot. *)
Theorem frozen_schedule pods req c :
  Schedule config (view <$> pods) req (c_draws c)
  = (sum_map view id <$> (live_Schedule live config pods req c).1, c_draws (live_Schedule live config pods req c).2).
Proof.
  unfold Schedule, live_Schedule. cbn [scheduler_filter NewScheduler]. rewrite (default_agrees req pods c), bind_eq.
  destruct (live_Filter _ _ _ c) as [[l e] c']. cbn [fst snd].
  destruct e as [e|], l as [|p l]; rewrite ?bind_eq, ?ret_eq, ?length_fmap; try done.
  cbn [rand_Intn fst snd c_draws]. set (i := Intn_draw _ _). change (view <$> p :: l) with (view p :: (view <$> l)).
  cbv iota. change (view p :: (view <$> l)) with (view <$> p :: l). unfold index. rewrite list_lookup_fmap.
  by destruct ((p :: l) !! i).
Qed.
End frozen.
End proofs.

(** * Claims *)

(** C12: scheduling while the metrics change.  Whatever the refresh goroutines store
    between two reads, [Schedule] returns: a pod it was given, or an error.  A request that
    is not critical only gets a pod that showed capacity during the call, its queue and
    then its cache usage within the thresholds at two successive reads.  A critical
    request is refused only when there is no pod, or some pod's cache usage is not an
    ordinary number or changes during the call: changing queues and adapters cannot lose
    it. *)
Theorem live_schedule_sound {A} (live : nat → A → Metrics) `{R : Rand} config pods req c :
  let r := live_Schedule live config pods req c in
  (∃ p, r.1 = Val (inl p) ∧ p ∈ pods
    ∧ (req_Critical req = false → showed_capacity live config p (c_reads c) (c_reads r.2)))
  ∨ (∃ e, r.1 = Val (inr e))
    ∧ (req_Critical req = true → pods ≠ [] → ¬ usage_stable live pods).
Proof.
  destruct (live_Schedule_spec live config pods req c) as [Hle Hs]. cbv zeta in *.
  destruct (live_succeeded _) eqn:Hok.
  - left. destruct Hs as (p & Hp & Hr). exists p. split; [done|]. split.
    { eapply elem_of_sublist; [|exact Hp]. apply default_selects_live. }
    intros Hc. rewrite live_default_branch, Hc in Hp, Hok, Hle by auto.
    destruct (sheddable_capacity live config req pods c p Hok Hp) as (n & H1 & H2 & H3). exists n.
    split; [done|]. split; [lia|done].
  - right. split; [eauto|]. intros Hc Hne Hus. rewrite live_default_branch, Hc in Hok by auto.
    by rewrite (lowLatency_delivers live config (λ _, GetPod (example_pod "" 0 fzero)) pods Hus) in Hok.
Qed.

(** A pod whose metrics are refreshed once, at the [n]-th read. *)
Definition refreshed_at (n : nat) (before after : Metrics) (k : nat) (_ : unit) : Metrics :=
  if (k <? n)%nat then before else after.
Definition usage (u : float64) : Metrics := set_KVCacheUsagePercent u newMetrics.

(** *** A refresh between the two loops *)

(** A value that is read twice, and wins. *)
Lemma improve_read {A B} (live : nat → A → Metrics) (get : Metrics → B) better acc p n d u :
  get (live n p) = u → get (live (S n) p) = u → better u acc = true →
  improve live get better acc p (mkClock n d) = (u, mkClock (S (S n)) d).
Proof.
  intros H0 H1 Hb. unfold improve. rewrite bind_eq. cbn [read fst snd c_reads c_draws]. rewrite H0, Hb.
  rewrite bind_eq, ret_eq. cbn [read fst snd c_reads c_draws]. by rewrite H1.
Qed.

(** One pod: when its usage is [u] during the first loop and lower when the second loop
    looks, the last filter keeps nothing. *)
Lemma refreshed_between_loops {A} (live : nat → A → Metrics) req p n d u :
  ok_float u → (∀ k, (n <= k < 4 + n)%nat → KVCacheUsagePercent (live k p) = u) →
  fgeb (KVCacheUsagePercent (live (4 + n)%nat p)) u = false →
  (live_leastKVCache live req [p] (mkClock n d)).1 = ([], None).
Proof.
  intros (Hv & Hf & Hn) Hu Hlow. unfold live_leastKVCache. rewrite bind_eq.
  assert (fold_pods (improve_both live KVCacheUsagePercent fleb fgeb) (MaxFloat64, fzero) [p] (mkClock n d)
          = ((u, u), mkClock (4 + n) d)) as ->.
  { cbn [fold_pods]. rewrite bind_eq, ret_eq. unfold improve_both. rewrite !bind_eq, !ret_eq. cbn [fst snd].
    rewrite (improve_read _ _ _ _ _ _ _ u); [|apply Hu; lia..|by apply le_MaxFloat64]. cbn [fst snd].
    rewrite (improve_read _ _ _ _ _ _ _ u); [done|apply Hu; lia..|by apply nonneg_zero_le]. }
  cbn [fst snd]. rewrite bind_eq, ret_eq. cbn [select]. rewrite !bind_eq, !ret_eq. unfold between.
  rewrite !bind_eq. cbn [read fst snd c_reads]. by rewrite Hlow.
Qed.

(** C18: a refresh can drop a critical request.  In a pool of one idle pod whose cache
    usage falls from [u] to a lower value [v] while the request is scheduled, there is a
    moment for the refresh, between the two loops of the last filter, at which no pod
    is left and [Schedule] refuses the request. *)
Theorem refresh_drops_critical `{R : Rand} u v :
  ok_float u → fgeb v u = false →
  ∃ n, (live_Schedule (refreshed_at n (usage u) (usage v)) defaultConfig [tt] (example_request true)
          (mkClock 0 0)).1 = Val (inr (Schedule_error 0 None)).
Proof.
  intros Hu Hv. exists 14%nat. set (live := refreshed_at 14 (usage u) (usage v)).
  pose proof (live_Schedule_spec live defaultConfig [tt] (example_request true) (mkClock 0 0)) as [_ Hs].
  assert ((live_Filter (live_default live defaultConfig) (example_request true) [tt] (mkClock 0 0)).1
          = (live_leastKVCache live (example_request true) [tt] (mkClock 10 0)).1) as Hleaf.
  { rewrite live_default_branch by auto. cbn [req_Critical example_request]. unfold live_lowLatency.
    cbn [live_Filter]. rewrite bind_eq.
    assert (live_toFilterFunc (live_lowQueueing live defaultConfig) (example_request true) [tt] (mkClock 0 0)
      = (([tt], None), mkClock 1 0)) as -> by reflexivity. cbn [fst snd live_succeeded].
    unfold live_then at 1. cbn [live_Filter]. rewrite bind_eq.
    assert (live_loRA live defaultConfig (example_request true) [tt] (mkClock 1 0) = (([], None), mkClock 4 0))
      as -> by reflexivity. cbn [fst snd live_succeeded]. unfold live_queueAndKVCache, live_then. cbn [live_Filter].
    rewrite bind_eq.
    assert (live_leastQueuing live (example_request true) [tt] (mkClock 4 0) = (([tt], None), mkClock 10 0))
      as -> by reflexivity. cbn [fst snd live_succeeded]. unfold live_leaf. cbn [live_Filter]. rewrite bind_eq.
    set (r := live_leastKVCache _ _ _ _). by destruct (live_succeeded r.1). }
  rewrite (refreshed_between_loops live _ tt 10 0 u) in Hleaf; [|done| |exact Hv].
  - rewrite Hleaf in Hs. exact Hs.
  - intros k Hk. subst live. unfold refreshed_at. destruct (Nat.ltb_spec k 14); [done|lia].
Qed.

(** * Witnesses *)

Lemma refresh_drops_critical_witness :
  ∃ n, (live_Schedule (R := least_draws)
          (refreshed_at n (usage (of_decimal false 5 (-1))) (usage (of_decimal false 4 (-1)))) defaultConfig [tt]
          (example_request true) (mkClock 0 0)).1 = Val (inr (Schedule_error 0 None)).
Proof.
  apply (refresh_drops_critical (R := least_draws)).
  - vm_compute. done.
  - vm_compute. reflexivity.
Defined.

(** The same request is scheduled when the refresh comes before or after. *)
Example refresh_elsewhere :
  Forall (λ n, (live_Schedule (R := least_draws)
           (refreshed_at n (usage (of_decimal false 5 (-1))) (usage (of_decimal false 4 (-1)))) defaultConfig [tt]
           (example_request true) (mkClock 0 0)).1 = Val (inl tt)) [0; 4; 10; 11; 16]%nat.
Proof. repeat constructor; vm_compute; reflexivity. Qed.
