(* ===== verification/EnvConfig.v ===== *)
(** * The scheduler's configuration (pkg/epp/util/env, LoadConfig of scheduler.go)

    The environment of the process is a finite map; the four thresholds are read from it
    when the package is initialised. *)

From S2P Require Import Prelude GoInt GoStrings Float64 Utf8 JsonNumber FloatText Strconv.
From S2P Require Import Errors BackendMetrics Scheduling SchedulingProofs.
From Stdlib Require Import SpecFloat.

Local Open Scope Z_scope.

Definition environment : Type := gmap string string.

(** A variable that is not set, or that does not parse, gives the default. *)
Definition GetEnvFloat (env : environment) (key : string) (defaultVal : float64) : float64 :=
  match env !! key with
  | None => defaultVal
  | Some val => match ParseFloat64 val with None => defaultVal | Some f => f end
  end.

Definition GetEnvInt (env : environment) (key : string) (defaultVal : Z) : Z :=
  match env !! key with
  | None => defaultVal
  | Some val => match Atoi val with None => defaultVal | Some z => z end
  end.

Definition LoadConfig (env : environment) : Config := {|
  KVCacheThreshold := GetEnvFloat env "KV_CACHE_THRESHOLD" defaultKVCacheThreshold;
  QueueThresholdCritical := GetEnvInt env "QUEUE_THRESHOLD_CRITICAL" defaultQueueThresholdCritical;
  QueueingThresholdLoRA := GetEnvInt env "QUEUING_THRESHOLD_LORA" defaultQueueingThresholdLoRA;
  LoraAffinityThreshold := GetEnvFloat env "LORA_AFFINITY_THRESHOLD" defaultLoraAffinityThreshold
|}.

Example load_config_empty : LoadConfig ∅ = defaultConfig.
Proof. reflexivity. Qed.

(** ** What is read is in range *)

Lemma read_mantissa_nonneg hex m s :
  0 <= mant_value m → 0 <= mant_value (read_mantissa hex m s).1.
Proof.
  revert m. induction s as [|c s IH]; intros m Hm; simpl; [done|].
  case_bool_decide; [by apply IH|]. case_bool_decide.
  { destruct (mant_dot m); [done|]. by apply IH. }
  destruct (mantissa_digit hex c) as [d|] eqn:Hd; [|done]. apply IH. simpl.
  assert (0 <= d).
  { destruct hex; simpl in Hd; [apply hex_digit_range in Hd; lia|].
    unfold char_digit in Hd. case_match eqn:E; simplify_eq. to_prop. lia. }
  destruct hex; lia.
Qed.

Lemma of_binary_valid s m e : valid (of_binary s m e).
Proof. destruct m; [done|apply binary_round_valid|done]. Qed.

Lemma read_number_valid neg hex s f : read_number neg hex s = Some f → valid f.
Proof.
  unfold read_number. pose proof (read_mantissa_nonneg hex (mkMantissa 0 0 false false) s) as Hm.
  destruct (read_mantissa _ _ _) as [m r]. simpl in Hm. destruct (negb _); [done|].
  destruct (exponent_part hex r) as [[e []]|]; [|done|done]. intros [= <-].
  destruct hex; [apply of_binary_valid|]. apply of_decimal_valid. lia.
Qed.

Lemma ParseFloat64_valid s f : ParseFloat64 s = Some f → valid f.
Proof.
  unfold ParseFloat64, special. destruct (float_sign s) as [neg t].
  destruct (_ || _)%bool; [by intros [= <-]|]. case_bool_decide; [by intros [= <-]|].
  destruct (_ && _)%bool; [done|].
  destruct (hex_prefix t) as [u|];
    [destruct (read_number neg true u) as [g|] eqn:Hr|destruct (read_number neg false t) as [g|] eqn:Hr];
    try done; apply read_number_valid in Hr; destruct g; intros; by simplify_eq.
Qed.

Lemma Atoi_in_range s z : Atoi s = Some z → int64_ok z.
Proof.
  assert (∀ (o : option Z) (g : Z → Z),
    (w ← o; if bool_decide (int64_ok (g w)) then Some (g w) else None) = Some z → int64_ok z) as Hr.
  { intros o g (w & _ & Hw)%bind_Some. case_bool_decide; by simplify_eq. }
  unfold Atoi. destruct s as [|[[] [] [] [] [] [] [] []] s];
    first [apply (Hr _ (λ w, w)) | apply (Hr _ Z.opp)].
Qed.

Lemma GetEnvFloat_valid env key d : valid d → valid (GetEnvFloat env key d).
Proof.
  intros Hd. unfold GetEnvFloat. destruct (env !! key) as [v|]; [|done].
  destruct (ParseFloat64 v) eqn:Hp; [by eapply ParseFloat64_valid|done].
Qed.

Lemma GetEnvInt_in_range env key d : int64_ok d → int64_ok (GetEnvInt env key d).
Proof.
  intros Hd. unfold GetEnvInt. destruct (env !! key) as [v|]; [|done].
  destruct (Atoi v) eqn:Hp; [by eapply Atoi_in_range|done].
Qed.

(** The float a decimal literal denotes, and the default when it is too large for one. *)
Definition literal_or (l : literal) (d : float64) : float64 :=
  match of_decimal (lit_neg l) (dec (lit_int l +:+ lit_frac l))
          (lit_exponent l - Z.of_nat (String.length (lit_frac l))) with
  | S754_infinity _ => d
  | f => f
  end.

Lemma GetEnvInt_text env key d z :
  env !! key = Some (Itoa z) → GetEnvInt env key d = if bool_decide (int64_ok z) then z else d.
Proof. intros Hk. unfold GetEnvInt. rewrite Hk, Atoi_Itoa_range. by case_bool_decide. Qed.

Lemma GetEnvFloat_text env key d l :
  env !! key = Some (literal_text l) → wf_literal l → exponent_small l →
  GetEnvFloat env key d = literal_or l d.
Proof.
  intros Hk Hwf Hs. unfold GetEnvFloat, literal_or. rewrite Hk, ParseFloat64_literal by done.
  unfold ParseFloat. by destruct (of_decimal _ _ _).
Qed.

(** The four variables and the fields they set. *)
Definition config_keys : list string :=
  ["KV_CACHE_THRESHOLD"; "QUEUE_THRESHOLD_CRITICAL"; "QUEUING_THRESHOLD_LORA"; "LORA_AFFINITY_THRESHOLD"].

(** C39: the configuration is what the environment says, up to the bounds of the machine.
    A queue threshold written as a decimal integer is that integer when it fits 64 bits
    and the default when it does not; a fraction written as a decimal number is the float
    nearest to it and the default when it overflows; a variable that is unset or does not
    parse leaves its default; every value is a 64-bit integer or a valid float; and no
    other variable matters. *)
Theorem load_config_bounds env :
  let c := LoadConfig env in
  (∀ z, env !! "QUEUE_THRESHOLD_CRITICAL" = Some (Itoa z) →
     QueueThresholdCritical c = if bool_decide (int64_ok z) then z else 5)
  ∧ (∀ z, env !! "QUEUING_THRESHOLD_LORA" = Some (Itoa z) →
     QueueingThresholdLoRA c = if bool_decide (int64_ok z) then z else 128)
  ∧ (∀ l, env !! "KV_CACHE_THRESHOLD" = Some (literal_text l) → wf_literal l → exponent_small l →
     KVCacheThreshold c = literal_or l (of_decimal false 8 (-1)))
  ∧ (∀ l, env !! "LORA_AFFINITY_THRESHOLD" = Some (literal_text l) → wf_literal l → exponent_small l →
     LoraAffinityThreshold c = literal_or l (of_decimal false 999 (-3)))
  ∧ (env !! "QUEUE_THRESHOLD_CRITICAL" ≫= Atoi = None → QueueThresholdCritical c = 5)
  ∧ (env !! "QUEUING_THRESHOLD_LORA" ≫= Atoi = None → QueueingThresholdLoRA c = 128)
  ∧ (env !! "KV_CACHE_THRESHOLD" ≫= ParseFloat64 = None → KVCacheThreshold c = of_decimal false 8 (-1))
  ∧ (env !! "LORA_AFFINITY_THRESHOLD" ≫= ParseFloat64 = None →
     LoraAffinityThreshold c = of_decimal false 999 (-3))
  ∧ int64_ok (QueueThresholdCritical c) ∧ int64_ok (QueueingThresholdLoRA c)
  ∧ valid (KVCacheThreshold c) ∧ valid (LoraAffinityThreshold c)
  ∧ ∀ env', (∀ k, k ∈ config_keys → env' !! k = env !! k) → LoadConfig env' = c.
Proof.
  cbv zeta. do 2 (split; [by apply GetEnvInt_text|]). do 2 (split; [by apply GetEnvFloat_text|]).
  do 4 (split; [simpl; unfold GetEnvFloat, GetEnvInt; by destruct (env !! _) as [v|]; simpl; [intros ->|]|]).
  do 2 (split; [by apply GetEnvInt_in_range|]).
  do 2 (split; [apply GetEnvFloat_valid; by apply of_decimal_valid|]).
  intros env' Hk. unfold LoadConfig, GetEnvFloat, GetEnvInt.
  rewrite !Hk by (unfold config_keys; set_solver). done.
Qed.

(** The fractions are not validated: with NaN (in any case) as the KV-cache threshold no
    pod ever has capacity, and every request that is not critical is dropped under every
    load. *)
Theorem nan_threshold_sheds `{R : Rand} env v pods req k :
  env !! "KV_CACHE_THRESHOLD" = Some v → ToLower v = "nan" → req_Critical req = false →
  ∃ msg k', Schedule (LoadConfig env) pods req k
      = (Val (inr (WrapError msg (EppError InferencePoolResourceExhausted
                     "dropping request due to limited backend resources"))), k').
Proof.
  intros Hv Hn Hc. apply no_capacity_dropped; [done|]. intros q _. unfold has_capacity.
  assert (KVCacheThreshold (LoadConfig env) = S754_nan) as ->.
  { simpl. unfold GetEnvFloat, ParseFloat64. rewrite Hv.
    assert (special v = Some S754_nan) as ->; [|done]. unfold special.
    destruct (float_sign v) as [neg t] eqn:Hs. rewrite Hn.
    destruct v as [|c v]; [done|]. cbn [ToLower] in Hn. injection Hn as Hc1 Hv1.
    assert (t = String c v) as ->.
    { destruct c as [[] [] [] [] [] [] [] []]; cbv in Hc1; try done; by simplify_eq/=. }
    cbn [ToLower]. rewrite Hc1, Hv1. done. }
  apply andb_false_iff. right. unfold fleb. by destruct (kv q) as [|[]| |[]].
Qed.

(** * Witnesses *)

Definition example_environment : environment :=
  {[ "KV_CACHE_THRESHOLD" := "0.9"; "QUEUE_THRESHOLD_CRITICAL" := "-7";
     "QUEUING_THRESHOLD_LORA" := "9223372036854775808"; "LORA_AFFINITY_THRESHOLD" := "0x1p-1" ]}.

(** One variable of each kind: read, read though negative, out of range, hexadecimal. *)
Example load_config_example :
  LoadConfig example_environment
  = mkConfig (of_decimal false 9 (-1)) (-7) 128 (of_decimal false 5 (-1)).
Proof. vm_compute. reflexivity. Qed.

Lemma nan_threshold_sheds_witness :
  ∃ msg k', Schedule (R:=least_draws) (LoadConfig {[ "KV_CACHE_THRESHOLD" := "NaN" ]})
      [example_pod "idle" 0 fzero] (example_request false) 0
    = (Val (inr (WrapError msg (EppError InferencePoolResourceExhausted
                   "dropping request due to limited backend resources"))), k').
Proof. by apply (nan_threshold_sheds (R:=least_draws) _ "NaN"). Defined.
