(* ===== verification/Datastore.v ===== *)
(** * pkg/epp/datastore: the local cache of the pool, its models and its pods

    [datastore.go], the per-pod objects of [backend/metrics/pod_metrics.go] it
    creates, and the readiness test.  The [*podMetrics] objects live in a heap of
    locations, because the store, the schedulers and each object's refresh
    goroutine share them: [ds_pods] maps a pod's name to a location. *)

From S2P Require Import Prelude GoInt Float64 Api Errors BackendMetrics.

Local Open Scope Z_scope.

(** ** Interfaces of the Kubernetes libraries the datastore calls *)

(** [labels.SelectorFromSet(sel).Matches(labels)]. *)
Class Labels := {
  selector_matches : gmap string string → gmap string string → bool;
  selector_matches_spec : ∀ sel l, selector_matches sel l = true ↔ sel ⊆ l
}.

(** The calls of controller-runtime's [client.Client] the program makes.  A
    [Get] finds the object, reports that there is none, or fails. *)
Inductive get_result (A : Type) : Type :=
  | Found (a : A)
  | NotFound
  | GetError (e : error).
Arguments Found {A} _.
Arguments NotFound {A}.
Arguments GetError {A} _.

Record Client := mkClient {
  (** [List] of InferenceModels by the model-name index in a namespace *)
  List_models : string → string → list InferenceModel + error;
  (** [List] of Pods by selector in a namespace *)
  List_pods : gmap string string → string → list CorePod + error;
  Get_model : NamespacedName → get_result InferenceModel;
  Get_pool : NamespacedName → get_result InferencePool;
  Get_pod : NamespacedName → get_result CorePod
}.

(** ** podMetrics objects (pod_metrics.go) *)

Abbreviation loc := positive (only parsing).

(** The atomic pointers, whether the refresh goroutine was started ([once]) and
    whether the [done] channel is closed. *)
Record podMetrics := mkpodMetrics {
  pm_pod : Pod;
  pm_metrics : Metrics;
  pm_started : bool;
  pm_done : bool
}.

(** A refresh goroutine runs from the time it is started until [done] closes, unless the
    parent context is cancelled before. *)
Definition refresher_running (o : podMetrics) : bool := pm_started o && negb (pm_done o).

Definition pm_set_pod (p : Pod) (o : podMetrics) : podMetrics :=
  mkpodMetrics p (pm_metrics o) (pm_started o) (pm_done o).
Definition pm_set_metrics (m : Metrics) (o : podMetrics) : podMetrics :=
  mkpodMetrics (pm_pod o) m (pm_started o) (pm_done o).

(** [GetPod] and [GetMetrics] load the pointers. *)
Definition podMetrics_GetPod (o : podMetrics) : Pod := pm_pod o.
Definition podMetrics_GetMetrics (o : podMetrics) : Metrics := pm_metrics o.

(** [PodMetricsFactory]: the client every object scrapes with and the pause between
    scrapes, in nanoseconds. *)
Record PodMetricsFactory (PodMetricsClient : Type) := mkPodMetricsFactory {
  pmf_pmc : PodMetricsClient;
  pmf_refreshMetricsInterval : Z
}.
Arguments mkPodMetricsFactory {PodMetricsClient}.

Definition NewPodMetricsFactory {PodMetricsClient : Type} (pmc : PodMetricsClient) (interval : Z)
  : PodMetricsFactory PodMetricsClient := mkPodMetricsFactory pmc interval.

(** [fetchMetricsTimeout]: 5 seconds. *)
Definition fetchMetricsTimeout : Z := 5 * 1000000000.

(** [PodMetricsFactory.NewPodMetrics]: store the pod and empty metrics, then
    start the refresh loop once. *)
Definition NewPodMetrics (pod : CorePod) : podMetrics := {|
  pm_pod := toInternalPod pod;
  pm_metrics := newMetrics;
  pm_started := true;
  pm_done := false
|}.

(** [UpdatePod] *)
Definition UpdatePod (pod : CorePod) (o : podMetrics) : podMetrics :=
  pm_set_pod (toInternalPod pod) o.

(** [StopRefreshLoop]: closing a closed channel panics. *)
Definition StopRefreshLoop (o : podMetrics) : outcome podMetrics :=
  if pm_done o then Panic CloseOfClosedChannel
  else Val (mkpodMetrics (pm_pod o) (pm_metrics o) (pm_started o) true).

(** ** The store *)

Record datastore := mkDatastore {
  ds_pool : option InferencePool;
  ds_models : gmap string InferenceModel;
  ds_pods : gmap NamespacedName loc;
  ds_heap : gmap loc podMetrics
}.

Definition set_pool (p : option InferencePool) (ds : datastore) : datastore :=
  mkDatastore p (ds_models ds) (ds_pods ds) (ds_heap ds).
Definition set_models (m : gmap string InferenceModel) (ds : datastore) : datastore :=
  mkDatastore (ds_pool ds) m (ds_pods ds) (ds_heap ds).
Definition set_pods (p : gmap NamespacedName loc) (ds : datastore) : datastore :=
  mkDatastore (ds_pool ds) (ds_models ds) p (ds_heap ds).
Definition set_heap (h : gmap loc podMetrics) (ds : datastore) : datastore :=
  mkDatastore (ds_pool ds) (ds_models ds) (ds_pods ds) h.

Definition NewDatastore : datastore := mkDatastore None ∅ ∅ ∅.

(** [Clear]: forgets the pool, the models and the pods.  The podMetrics objects
    stay in the heap, untouched. *)
Definition Clear (ds : datastore) : datastore :=
  mkDatastore None ∅ ∅ (ds_heap ds).

(** *** InferencePool *)

Definition PoolSet (pool : InferencePool) (ds : datastore) : datastore :=
  set_pool (Some pool) ds.

Definition errPoolNotSynced : error :=
  PlainError "InferencePool is not initialized in data store".

Definition PoolHasSynced (ds : datastore) : bool := bool_decide (is_Some (ds_pool ds)).

Definition PoolGet (ds : datastore) : InferencePool + error :=
  match ds_pool ds with
  | None => inr errPoolNotSynced
  | Some p => inl p
  end.

(** [stripLabelKeyAliasFromLabelMap]: the aliases are strings already. *)
Definition stripLabelKeyAliasFromLabelMap `{MapOrder}
    (labels : gmap LabelKey LabelValue) : gmap string string :=
  foldl (λ out kv, <[kv.1 := kv.2]> out) ∅ (map_range labels).

(** [selectorFromInferencePoolSelector]: what the selector matches. *)
Definition selectorFromInferencePoolSelector `{Labels, MapOrder}
    (selector : gmap LabelKey LabelValue) : gmap string string → bool :=
  selector_matches (stripLabelKeyAliasFromLabelMap selector).

Definition PoolLabelsMatch `{Labels, MapOrder} (podLabels : gmap string string)
    (ds : datastore) : outcome bool :=
  pool ← deref (ds_pool ds);
  mret (selectorFromInferencePoolSelector (Selector (ip_Spec pool)) podLabels).

(** *** InferenceModel *)

Definition ModelSetIfOlder (m : InferenceModel) (ds : datastore) : bool * datastore :=
  let set := set_models (<[im_ModelName m := m]> (ds_models ds)) ds in
  match ds_models ds !! im_ModelName m with
  | Some existing =>
      let diffObj :=
        bool_decide (om_Name (im_ObjectMeta m) ≠ om_Name (im_ObjectMeta existing))
        || bool_decide (om_Namespace (im_ObjectMeta m) ≠ om_Namespace (im_ObjectMeta existing)) in
      if diffObj && Time_Before (im_created existing) (im_created m)
      then (false, ds)
      else (true, set)
  | None => (true, set)
  end.

(** The candidates of [ModelResync]: right name, this pool, not being deleted. *)
Definition resync_candidate (modelName poolName : string) (m : InferenceModel) : bool :=
  bool_decide (im_ModelName m = modelName)
  && bool_decide (por_Name (PoolRef (im_Spec m)) = poolName)
  && Time_ptr_IsZero (om_DeletionTimestamp (im_ObjectMeta m)).

Definition resync_step (modelName poolName : string)
    (oldest : option InferenceModel) (m : InferenceModel) : option InferenceModel :=
  if negb (resync_candidate modelName poolName m) then oldest
  else match oldest with
       | None => Some m
       | Some o => if Time_Before (im_created m) (im_created o) then Some m else oldest
       end.

Definition ModelResync (c : Client) (modelName : string) (ds : datastore)
  : outcome ((bool * option error) * datastore) :=
  pool ← deref (ds_pool ds);
  match List_models c modelName (ip_Namespace pool) with
  | inr e =>
      mret ((false, Some (WrapError ("listing models that match the modelName "
                                     +:+ modelName +:+ ": ") e)), ds)
  | inl items =>
      match foldl (resync_step modelName (ip_Name pool)) None items with
      | None => mret ((false, None), ds)
      | Some oldest =>
          mret ((true, None), set_models (<[modelName := oldest]> (ds_models ds)) ds)
      end
  end.

Definition ModelGet (modelName : string) (ds : datastore) : option InferenceModel :=
  ds_models ds !! modelName.

(** [ModelDelete]: the first entry, in iteration order, of that object. *)
Definition ModelDelete `{MapOrder} (n : NamespacedName) (ds : datastore)
  : option InferenceModel * datastore :=
  match filter (λ km : string * InferenceModel,
                  om_Name (im_ObjectMeta km.2) = nn_Name n
                  ∧ om_Namespace (im_ObjectMeta km.2) = nn_Namespace n)
               (map_range (ds_models ds)) with
  | [] => (None, ds)
  | (_, m) :: _ => (Some m, set_models (delete (im_ModelName m) (ds_models ds)) ds)
  end.

Definition ModelGetAll `{MapOrder} (ds : datastore) : list InferenceModel :=
  (map_range (ds_models ds)).*2.

Definition IsCritical (m : InferenceModel) : bool :=
  bool_decide (im_Criticality (im_Spec m) = Some Critical).

(** *** Pods *)

(** The objects the store's map points to, in iteration order. *)
Definition PodList `{MapOrder} (predicate : podMetrics → bool) (ds : datastore)
  : list podMetrics :=
  filter (λ o, predicate o = true)
    (omap (λ kl : NamespacedName * loc, ds_heap ds !! kl.2) (map_range (ds_pods ds))).

Definition PodGetAll `{MapOrder} (ds : datastore) : list podMetrics :=
  PodList (λ _, true) ds.

(** What a caller sees of an object through [GetPod] and [GetMetrics]. *)
Definition snapshot (o : podMetrics) : PodMetrics :=
  mkPodMetrics (podMetrics_GetPod o) (podMetrics_GetMetrics o).

Definition PodUpdateOrAddIfNotExist (pod : CorePod) (ds : datastore) : bool * datastore :=
  match ds_pods ds !! pod_key pod with
  | Some l => (true, set_heap (alter (UpdatePod pod) l (ds_heap ds)) ds)
  | None =>
      let l := fresh (dom (ds_heap ds)) in
      let ds := set_pods (<[pod_key pod := l]> (ds_pods ds))
                  (set_heap (<[l := NewPodMetrics pod]> (ds_heap ds)) ds) in
      (false, set_heap (alter (UpdatePod pod) l (ds_heap ds)) ds)
  end.

Definition PodDelete (n : NamespacedName) (ds : datastore) : outcome datastore :=
  match ds_pods ds !! n with
  | None => Val ds
  | Some l =>
      let ds := set_pods (delete n (ds_pods ds)) ds in
      o ← deref (ds_heap ds !! l);
      o ← StopRefreshLoop o;
      mret (set_heap (<[l := o]> (ds_heap ds)) ds)
  end.

(** [podIsReady]: the first condition of type Ready decides. *)
Fixpoint conditions_ready (cs : list PodCondition) : bool :=
  match cs with
  | [] => false
  | c :: cs =>
      if bool_decide (pc_Type c = PodReady) then bool_decide (pc_Status c = ConditionTrue)
      else conditions_ready cs
  end.

Definition podIsReady (pod : CorePod) : bool := conditions_ready (pod_Conditions pod).

(** The first loop of [PodResyncAll]: add or update the ready pods, and record
    the names of the active ones. *)
Definition resync_add (acc : gset string * datastore) (pod : CorePod)
  : gset string * datastore :=
  if podIsReady pod
  then ({[om_Name (pod_ObjectMeta pod)]} ∪ acc.1, (PodUpdateOrAddIfNotExist pod acc.2).2)
  else acc.

(** The second loop: delete the pods whose name is not active. *)
Definition resync_delete (active : gset string) (ds : datastore)
    (kl : NamespacedName * loc) : outcome datastore :=
  o ← deref (ds_heap ds !! kl.2);
  if bool_decide (nn_Name (Pod_NamespacedName (pm_pod o)) ∈ active) then Val ds
  else PodDelete (Pod_NamespacedName (pm_pod o)) ds.

Fixpoint foldM {A B} (f : A → B → outcome A) (a : A) (l : list B) : outcome A :=
  match l with
  | [] => Val a
  | b :: l => a ← f a b; foldM f a l
  end.

(** [PodResyncAll]; an error of the listing leaves the store as it is. *)
Definition PodResyncAll `{MapOrder} (c : Client) (pool : InferencePool) (ds : datastore)
  : outcome datastore :=
  match List_pods c (stripLabelKeyAliasFromLabelMap (Selector (ip_Spec pool)))
          (ip_Namespace pool) with
  | inr _ => Val ds
  | inl items =>
      let '(active, ds) := foldl resync_add (∅, ds) items in
      foldM (resync_delete active) ds (map_range (ds_pods ds))
  end.

(** ** The refresh goroutine (pod_metrics.go)

    One turn of the loop of the object at [l]: a closed [done] or a cancelled parent
    context ends it; without a pool it does nothing; otherwise the metrics client is called and what it
    returns, if anything, is stored with the time of the update.  The scheduler
    of goroutines may run such a turn between any two operations. *)
Section refresh.
(** [FetchMetrics(ctx, pod, existing, port)]: metrics and an error. *)
Variable FetchMetrics : Pod → Metrics → Z → option Metrics * list error.

Definition refreshMetrics (now : Time) (l : loc) (ds : datastore)
  : outcome (option error * datastore) :=
  match PoolGet ds with
  | inr e => mret (Some e, ds)
  | inl pool =>
      o ← deref (ds_heap ds !! l);
      let '(updated, _) :=
        FetchMetrics (pm_pod o) (pm_metrics o) (TargetPortNumber (ip_Spec pool)) in
      mret (None,
        match updated with
        | None => ds
        | Some m =>
            set_heap (<[l := pm_set_metrics (set_UpdateTime now m) o]> (ds_heap ds)) ds
        end)
  end.

(** [startRefreshLoop]'s body: [None] when the goroutine returns. *)
Definition refresh_turn (cancelled : bool) (now : Time) (l : loc) (ds : datastore)
  : option (outcome datastore) :=
  match ds_heap ds !! l with
  | None => None
  | Some o =>
      if refresher_running o && negb cancelled
      then Some (snd <$> refreshMetrics now l ds)
      else None
  end.
End refresh.

(** ** cmd/epp/health.go *)

Inductive HealthStatus := SERVING | NOT_SERVING.

Definition healthServer_Check (ds : datastore) : HealthStatus :=
  if negb (PoolHasSynced ds) then NOT_SERVING else SERVING.
