(* ===== verification/DatastoreProofs.v ===== *)
(** * Invariant and refinement of the datastore

    The store keeps locations of shared objects; its contract is a plain map
    from pod names to what [GetPod]/[GetMetrics] show.  [view] is the abstraction
    function, [ds_wf] the representation invariant. *)

From S2P Require Import Prelude GoInt Float64 Api Errors BackendMetrics Datastore.

Local Open Scope Z_scope.

(** Models are filed under their own model name. *)
Definition models_keyed (ds : datastore) : Prop :=
  ∀ k m, ds_models ds !! k = Some m → im_ModelName m = k.

(** Every listed pod has an object, filed under the pod's own name, whose
    refresh goroutine runs. *)
Definition pods_keyed (ds : datastore) : Prop :=
  ∀ k l, ds_pods ds !! k = Some l →
    ∃ o, ds_heap ds !! l = Some o ∧ Pod_NamespacedName (pm_pod o) = k
         ∧ refresher_running o = true.

Record ds_wf (ds : datastore) : Prop := {
  wf_models : models_keyed ds;
  wf_pods : pods_keyed ds
}.

(** No refresh goroutine runs for a pod the store no longer lists. *)
Definition no_leak (ds : datastore) : Prop :=
  ∀ l o, ds_heap ds !! l = Some o → refresher_running o = true →
    ∃ k, ds_pods ds !! k = Some l.

(** The abstract state of the pods. *)
Definition view (ds : datastore) : gmap NamespacedName PodMetrics :=
  omap (λ l, snapshot <$> ds_heap ds !! l) (ds_pods ds).

Definition spec_update (v : gmap NamespacedName PodMetrics) (pod : CorePod)
  : gmap NamespacedName PodMetrics :=
  <[pod_key pod := mkPodMetrics (toInternalPod pod)
      (match v !! pod_key pod with Some pm => GetMetrics pm | None => newMetrics end)]> v.

Section lemmas.
Context `{MapOrder}.
Implicit Types (ds : datastore) (n k : NamespacedName).

Lemma pods_inj ds k1 k2 l :
  ds_wf ds → ds_pods ds !! k1 = Some l → ds_pods ds !! k2 = Some l → k1 = k2.
Proof.
  intros [_ Hp] H1 H2. destruct (Hp _ _ H1) as (o1 & ? & <- & _).
  destruct (Hp _ _ H2) as (o2 & ? & <- & _). by simplify_eq.
Qed.

Lemma view_lookup ds k :
  view ds !! k = l ← ds_pods ds !! k; snapshot <$> ds_heap ds !! l.
Proof. apply lookup_omap. Qed.

Lemma view_is_Some ds k : ds_wf ds → is_Some (view ds !! k) ↔ is_Some (ds_pods ds !! k).
Proof.
  intros Hwf. rewrite view_lookup. destruct (ds_pods ds !! k) as [l|] eqn:Hk; simpl; [|done].
  destruct (wf_pods _ Hwf _ _ Hk) as (o & -> & _). split; eauto.
Qed.

(** *** Update or add *)

Lemma fresh_not_listed ds k l :
  ds_wf ds → ds_pods ds !! k = Some l → l ≠ fresh (dom (ds_heap ds)).
Proof.
  intros Hwf Hk ->. destruct (wf_pods _ Hwf _ _ Hk) as (o & Ho & _).
  apply (is_fresh (dom (ds_heap ds))). by apply elem_of_dom_2 in Ho.
Qed.

Lemma heap_fresh ds : ds_heap ds !! fresh (dom (ds_heap ds)) = None.
Proof. apply not_elem_of_dom, is_fresh. Qed.

Lemma PodUpdate_wf ds pod : ds_wf ds → ds_wf (PodUpdateOrAddIfNotExist pod ds).2.
Proof.
  intros Hwf. unfold PodUpdateOrAddIfNotExist.
  destruct (ds_pods ds !! pod_key pod) as [l|] eqn:Hk; simpl; split;
    try apply (wf_models _ Hwf); intros k l' Hk'; simpl in *.
  - destruct (wf_pods _ Hwf _ _ Hk') as (o & Ho & Hn & Hr).
    destruct (decide (l = l')) as [->|Hne].
    + rewrite lookup_alter_eq, Ho. eexists. split; [done|].
      split; [by apply (pods_inj ds _ _ l')|done].
    + rewrite lookup_alter_ne by done. eauto.
  - set (l := fresh (dom (ds_heap ds))) in *.
    destruct (decide (pod_key pod = k)) as [<-|Hne].
    + rewrite lookup_insert_eq in Hk'. simplify_eq.
      rewrite lookup_alter_eq, lookup_insert_eq. eexists. by repeat split.
    + rewrite lookup_insert_ne in Hk' by done.
      pose proof (fresh_not_listed ds k l' Hwf Hk').
      rewrite lookup_alter_ne, lookup_insert_ne by done. by apply (wf_pods _ Hwf).
Qed.

Lemma PodUpdate_view ds pod :
  ds_wf ds → view (PodUpdateOrAddIfNotExist pod ds).2 = spec_update (view ds) pod.
Proof.
  intros Hwf. apply map_eq. intros k. unfold spec_update, PodUpdateOrAddIfNotExist.
  rewrite !view_lookup.
  destruct (ds_pods ds !! pod_key pod) as [l|] eqn:Hk; simpl.
  - destruct (wf_pods _ Hwf _ _ Hk) as (o & Ho & Hn & Hr). rewrite Ho. simpl.
    rewrite lookup_insert. case_decide as Hkk.
    + subst k. rewrite Hk. simpl. by rewrite lookup_alter_eq, Ho.
    + rewrite view_lookup. destruct (ds_pods ds !! k) as [l'|] eqn:Hk'; [|done]. simpl.
      rewrite lookup_alter_ne; [done|]. intros <-. apply Hkk. by apply (pods_inj ds _ _ l).
  - set (l := fresh (dom (ds_heap ds))) in *. rewrite !lookup_insert.
    case_decide as Hkk; simpl.
    + by rewrite lookup_alter_eq, lookup_insert_eq.
    + rewrite view_lookup. destruct (ds_pods ds !! k) as [l'|] eqn:Hk'; [|done]. simpl.
      pose proof (fresh_not_listed ds k l' Hwf Hk').
      by rewrite lookup_alter_ne, lookup_insert_ne.
Qed.

Lemma PodUpdate_no_leak ds pod :
  ds_wf ds → no_leak ds → no_leak (PodUpdateOrAddIfNotExist pod ds).2.
Proof.
  intros Hwf Hnl l' o Ho Hr. unfold PodUpdateOrAddIfNotExist in *.
  destruct (ds_pods ds !! pod_key pod) as [l|] eqn:Hk; simpl in *;
    rewrite lookup_alter_Some in Ho; destruct Ho as [(-> & o' & Ho' & ->)|[Hne Ho]].
  - eauto.
  - by eapply Hnl.
  - exists (pod_key pod). by rewrite lookup_insert_eq.
  - rewrite lookup_insert_ne in Ho by done. destruct (Hnl _ _ Ho Hr) as [k Hk'].
    exists k. rewrite lookup_insert_ne; [done|]. intros <-. congruence.
Qed.

(** *** Delete *)

(** What a deletion of a listed pod leaves: the entry is gone and the object's
    goroutine is stopped. *)
Definition dropped n (l : loc) (o : podMetrics) ds : datastore :=
  set_heap (<[l := o]> (ds_heap ds)) (set_pods (delete n (ds_pods ds)) ds).

Lemma PodDelete_listed ds n l :
  ds_wf ds → ds_pods ds !! n = Some l →
  ∃ o, PodDelete n ds = Val (dropped n l o ds) ∧ refresher_running o = false.
Proof.
  intros Hwf Hn. destruct (wf_pods _ Hwf _ _ Hn) as (o & Ho & _ & Hr).
  unfold refresher_running in Hr. apply andb_true_iff in Hr as [Hst Hdone%negb_true_iff].
  unfold PodDelete, StopRefreshLoop. rewrite Hn. simpl. rewrite Ho. simpl. rewrite Hdone.
  eexists. split; [done|]. unfold refresher_running. simpl. by rewrite andb_false_r.
Qed.

Lemma dropped_other ds n l k l' :
  ds_wf ds → ds_pods ds !! n = Some l → delete n (ds_pods ds) !! k = Some l' →
  ds_pods ds !! k = Some l' ∧ l ≠ l'.
Proof.
  intros Hwf Hn [Hne Hk]%lookup_delete_Some. split; [done|].
  intros <-. apply Hne. by apply (pods_inj ds _ _ l).
Qed.

Lemma dropped_wf ds n l o : ds_wf ds → ds_pods ds !! n = Some l → ds_wf (dropped n l o ds).
Proof.
  intros Hwf Hn. split; [apply (wf_models _ Hwf)|]. intros k l' Hk. simpl in *.
  destruct (dropped_other ds n l k l' Hwf Hn Hk) as [Hk' Hl].
  rewrite lookup_insert_ne by done. by apply (wf_pods _ Hwf).
Qed.

Lemma dropped_view ds n l o :
  ds_wf ds → ds_pods ds !! n = Some l → view (dropped n l o ds) = delete n (view ds).
Proof.
  intros Hwf Hn. apply map_eq. intros k. rewrite view_lookup. simpl.
  destruct (decide (n = k)) as [<-|Hne]; [by rewrite !lookup_delete_eq|].
  rewrite (lookup_delete_ne (view ds)), view_lookup by done.
  destruct (delete n (ds_pods ds) !! k) as [l'|] eqn:Hk; simpl.
  - destruct (dropped_other ds n l k l' Hwf Hn Hk) as [-> Hl]. simpl.
    by rewrite lookup_insert_ne.
  - rewrite lookup_delete_ne in Hk by done. by rewrite Hk.
Qed.

Lemma dropped_no_leak ds n l o :
  ds_pods ds !! n = Some l → refresher_running o = false →
  no_leak ds → no_leak (dropped n l o ds).
Proof.
  intros Hn Ho Hnl l' o' Ho' Hr. simpl in *. rewrite lookup_insert in Ho'.
  case_decide; [congruence|]. destruct (Hnl _ _ Ho' Hr) as [k Hk]. exists k.
  rewrite lookup_delete_ne; [done|]. intros <-. congruence.
Qed.

Lemma PodDelete_ok ds n :
  ds_wf ds →
  ∃ ds', PodDelete n ds = Val ds' ∧ ds_wf ds'
    ∧ ds_pool ds' = ds_pool ds ∧ ds_models ds' = ds_models ds
    ∧ ds_pods ds' = delete n (ds_pods ds)
    ∧ view ds' = delete n (view ds) ∧ (no_leak ds → no_leak ds').
Proof.
  intros Hwf. destruct (ds_pods ds !! n) as [l|] eqn:Hn.
  - destruct (PodDelete_listed ds n l Hwf Hn) as (o & -> & Ho).
    exists (dropped n l o ds). split; [done|].
    split; [by apply dropped_wf|]. do 3 (split; [done|]).
    split; [by apply dropped_view|by apply dropped_no_leak].
  - exists ds. unfold PodDelete. rewrite Hn. do 4 (split; [done|]).
    rewrite !delete_id; [done|by rewrite view_lookup, Hn|done].
Qed.

(** *** Resync *)

Lemma resync_add_ok items acc :
  ds_wf acc.2 →
  let acc' := foldl resync_add acc items in
  ds_wf acc'.2 ∧ (no_leak acc.2 → no_leak acc'.2)
  ∧ ds_pool acc'.2 = ds_pool acc.2 ∧ ds_models acc'.2 = ds_models acc.2
  ∧ view acc'.2 = foldl spec_update (view acc.2) (filter (λ p, podIsReady p = true) items)
  ∧ acc'.1 = list_to_set (om_Name ∘ pod_ObjectMeta <$> filter (λ p, podIsReady p = true) items)
             ∪ acc.1.
Proof.
  revert acc. induction items as [|pod items IH]; intros acc Hwf; simpl.
  { do 5 (split; [done|]). by rewrite (left_id_L ∅ (∪)). }
  rewrite filter_cons.
  assert (resync_add acc pod = if podIsReady pod
    then ({[om_Name (pod_ObjectMeta pod)]} ∪ acc.1, (PodUpdateOrAddIfNotExist pod acc.2).2)
    else acc) as -> by done.
  destruct (podIsReady pod) eqn:Hr; [|by apply IH].
  destruct (IH ({[om_Name (pod_ObjectMeta pod)]} ∪ acc.1, (PodUpdateOrAddIfNotExist pod acc.2).2))
    as (H1 & H2 & H3 & H4 & H5 & H6); [by apply PodUpdate_wf|].
  split; [done|]. split; [intros Hnl; by apply H2, PodUpdate_no_leak|]. simpl in *.
  rewrite H3, H4, H5, H6, PodUpdate_view by done.
  unfold PodUpdateOrAddIfNotExist. split; [by case_match|]. split; [by case_match|].
  split; [done|]. set_solver.
Qed.

Lemma resync_delete_eq active ds k l :
  ds_wf ds → ds_pods ds !! k = Some l →
  resync_delete active ds (k, l)
  = if bool_decide (nn_Name k ∈ active) then Val ds else PodDelete k ds.
Proof.
  intros Hwf Hk. destruct (wf_pods _ Hwf _ _ Hk) as (o & Ho & Hn & _).
  unfold resync_delete. simpl. rewrite Ho. simpl. by rewrite Hn.
Qed.

(** Deleting, in any order, the listed pods whose name is not active. *)
Lemma resync_delete_ok active kls ds :
  ds_wf ds → NoDup kls.*1 →
  (∀ k l, (k, l) ∈ kls → ds_pods ds !! k = Some l) →
  ∃ ds', foldM (resync_delete active) ds kls = Val ds' ∧ ds_wf ds' ∧ (no_leak ds → no_leak ds')
    ∧ ds_pool ds' = ds_pool ds ∧ ds_models ds' = ds_models ds
    ∧ view ds' = filter (λ kv, kv.1 ∈ kls.*1 → nn_Name kv.1 ∈ active) (view ds).
Proof.
  revert ds. induction kls as [|[k l] kls IH]; intros ds Hwf Hnd Hin.
  { exists ds. do 5 (split; [done|]). symmetry. apply map_filter_id.
    by intros ? ? _ ?%elem_of_nil. }
  rewrite fmap_cons in *. apply NoDup_cons in Hnd as [Hk Hnd].
  assert (ds_pods ds !! k = Some l) as Hkl by (apply Hin; left).
  cbn [foldM]. rewrite (resync_delete_eq active ds k l Hwf Hkl).
  case_bool_decide as Hact; run_outcome.
  - destruct (IH ds) as (ds' & -> & ? & ? & ? & ? & Hv); try done.
    { intros k' l' Hk'. apply Hin. by right. }
    exists ds'. do 5 (split; [done|]). rewrite Hv. apply map_filter_ext.
    intros k' v _. simpl. rewrite elem_of_cons. naive_solver.
  - destruct (PodDelete_ok ds k Hwf) as (ds1 & -> & Hwf1 & Hp1 & Hm1 & Hpods & Hv1 & Hnl1).
    destruct (IH ds1) as (ds' & Hf & ? & ? & ? & ? & Hv); try done.
    { intros k' l' Hk'. rewrite Hpods. apply lookup_delete_Some. split.
      - intros <-. apply Hk. apply list_elem_of_fmap. by exists (k, l').
      - apply Hin. by right. }
    exists ds'. simpl. rewrite Hf. do 2 (split; [done|]). split; [by auto|].
    split; [congruence|]. split; [congruence|].
    rewrite Hv, Hv1. apply map_eq. intros k'. apply option_eq. intros v.
    rewrite !map_lookup_filter_Some, lookup_delete_Some. simpl. rewrite elem_of_cons.
    naive_solver.
Qed.
End lemmas.

(** ** Models *)

Section models.
Implicit Types (ds : datastore) (m : InferenceModel).

Lemma diffObj_iff m e :
  bool_decide (om_Name (im_ObjectMeta m) ≠ om_Name (im_ObjectMeta e))
  || bool_decide (om_Namespace (im_ObjectMeta m) ≠ om_Namespace (im_ObjectMeta e)) = true
  ↔ im_key e ≠ im_key m.
Proof.
  unfold im_key, om_key. rewrite orb_true_iff, !bool_decide_eq_true.
  destruct m as [[]], e as [[]]. simpl. split; [by intros [?|?] [= -> ->]|].
  intros Hne. destruct (decide (om_Name = om_Name0)) as [->|]; [|by left].
  right. intros ->. by apply Hne.
Qed.

Lemma ModelSet_cases m ds :
  ModelSetIfOlder m ds = (true, set_models (<[im_ModelName m := m]> (ds_models ds)) ds)
    ∧ (∀ e, ds_models ds !! im_ModelName m = Some e → im_key e = im_key m ∨ im_created m <= im_created e)
  ∨ ModelSetIfOlder m ds = (false, ds)
    ∧ ∃ e, ds_models ds !! im_ModelName m = Some e ∧ im_key e ≠ im_key m
           ∧ im_created e < im_created m.
Proof.
  unfold ModelSetIfOlder. destruct (ds_models ds !! im_ModelName m) as [e|];
    [|left; by split].
  pose proof (diffObj_iff m e) as Hdiff. cbv zeta.
  destruct (_ || _) eqn:Hd; simpl.
  - unfold Time_Before. destruct (Z.ltb_spec (im_created e) (im_created m)).
    + right. split; [done|]. exists e. split; [done|]. split; [by apply Hdiff|done].
    + left. split; [done|]. intros ? [= <-]. by right.
  - left. split; [done|]. intros ? [= <-]. left.
    apply dec_stable. intros Hne. by apply Hdiff in Hne.
Qed.

Lemma ModelSet_wf m ds : ds_wf ds → ds_wf (ModelSetIfOlder m ds).2.
Proof.
  intros Hwf. destruct (ModelSet_cases m ds) as [[-> _]|[-> _]]; [|done].
  split; [|apply (wf_pods _ Hwf)]. intros k m' Hk. simpl in Hk.
  rewrite lookup_insert in Hk. case_decide; [by simplify_eq|]. by apply (wf_models _ Hwf).
Qed.

(** The loop of [ModelResync] returns the oldest candidate. *)
Lemma resync_fold name pool items o :
  match foldl (resync_step name pool) o items with
  | None => o = None ∧ ∀ m, m ∈ items → resync_candidate name pool m = false
  | Some r =>
      (Some r = o ∨ r ∈ items ∧ resync_candidate name pool r = true)
      ∧ (∀ m, m ∈ items → resync_candidate name pool m = true → im_created r <= im_created m)
      ∧ (∀ x, o = Some x → im_created r <= im_created x)
  end.
Proof.
  revert o. induction items as [|m items IH]; intros o; simpl.
  { destruct o; simpl; [split; [by left|]; split; [by intros ? ?%elem_of_nil|]|].
    - by intros ? [= <-].
    - split; [done|]. by intros ? ?%elem_of_nil. }
  specialize (IH (resync_step name pool o m)).
  destruct (foldl _ _ items) as [r|].
  - destruct IH as (Hor & Hall & Hacc). unfold resync_step in *.
    destruct (resync_candidate name pool m) eqn:Hc; simpl in *.
    + assert (im_created r <= im_created m) as Hrm.
      { destruct o as [x|]; [|by apply Hacc]. unfold Time_Before in *.
        destruct (Z.ltb_spec (im_created m) (im_created x)); [by apply Hacc|].
        specialize (Hacc x eq_refl). lia. }
      split; [|split].
      * destruct Hor as [Hr|[? ?]]; [|right; by split; [right|]].
        destruct o as [x|]; [case_match|]; simplify_eq; auto; right; by split; [left|].
      * intros m' [->|Hm']%elem_of_cons Hc'; [done|by apply Hall].
      * intros x ->. unfold Time_Before in *.
        destruct (Z.ltb_spec (im_created m) (im_created x)); [lia|by apply Hacc].
    + split; [|split; [|done]].
      * destruct Hor as [?|[? ?]]; [by left|right; by split; [right|]].
      * intros m' [->|Hm']%elem_of_cons Hc'; [congruence|by apply Hall].
  - destruct IH as [Ho Hnone]. unfold resync_step in Ho.
    destruct (resync_candidate name pool m) eqn:Hc; simpl in Ho.
    + destruct o; [case_match|]; done.
    + split; [done|]. intros m' [->|Hm']%elem_of_cons; [done|by apply Hnone].
Qed.

Lemma ModelResync_cases c name ds r ds' :
  ModelResync c name ds = Val (r, ds') →
  ds' = ds ∨ ∃ m, ds' = set_models (<[name := m]> (ds_models ds)) ds ∧ im_ModelName m = name.
Proof.
  unfold ModelResync. destruct (ds_pool ds) as [pool|]; simpl; [|done].
  destruct (List_models c name _) as [items|e]; [|intros [= <- <-]; by left].
  pose proof (resync_fold name (ip_Name pool) items None) as Hf.
  destruct (foldl _ None items) as [m|]; intros [= <- <-]; [|by left]. right.
  exists m. split; [done|]. destruct Hf as ([?|[_ Hc]] & _); [done|].
  unfold resync_candidate in Hc. to_prop. done.
Qed.

Lemma ModelResync_wf c name ds r ds' :
  ds_wf ds → ModelResync c name ds = Val (r, ds') → ds_wf ds'.
Proof.
  intros Hwf [->|(m & -> & Hm)]%ModelResync_cases; [done|].
  split; [|apply (wf_pods _ Hwf)]. intros k m' Hk. simpl in Hk.
  rewrite lookup_insert in Hk. case_decide; [by simplify_eq|]. by apply (wf_models _ Hwf).
Qed.

Lemma ModelDelete_filed `{MapOrder} n ds :
  models_keyed ds →
  match ModelDelete n ds with
  | (None, ds') => ds' = ds ∧ ∀ k m, ds_models ds !! k = Some m → im_key m ≠ n
  | (Some m, ds') =>
      ds_models ds !! im_ModelName m = Some m ∧ im_key m = n
      ∧ ds' = set_models (delete (im_ModelName m) (ds_models ds)) ds
  end.
Proof.
  intros Hwf. unfold ModelDelete.
  destruct (filter _ (map_range (ds_models ds))) as [|[k m] rest] eqn:Hf.
  - split; [done|]. intros k m Hk Hn. rewrite filter_nil_iff in Hf.
    apply (Hf (k, m)); [by apply map_range_elem|]. by subst n.
  - assert ((k, m) ∈ filter (λ km : string * InferenceModel,
                om_Name (im_ObjectMeta km.2) = nn_Name n
                ∧ om_Namespace (im_ObjectMeta km.2) = nn_Namespace n)
             (map_range (ds_models ds))) as Hin by (rewrite Hf; left).
    apply list_elem_of_filter in Hin as [[Hn1 Hn2] Hkm%map_range_elem]. simpl in *.
    pose proof (Hwf _ _ Hkm) as Hname. rewrite Hname.
    split; [done|]. split; [|done]. unfold im_key, om_key. rewrite Hn1, Hn2. by destruct n.
Qed.

Lemma ModelDelete_cases `{MapOrder} n ds :
  ds_wf ds →
  match ModelDelete n ds with
  | (None, ds') => ds' = ds ∧ ∀ k m, ds_models ds !! k = Some m → im_key m ≠ n
  | (Some m, ds') =>
      ds_models ds !! im_ModelName m = Some m ∧ im_key m = n
      ∧ ds' = set_models (delete (im_ModelName m) (ds_models ds)) ds
  end.
Proof. intros Hwf. apply ModelDelete_filed, Hwf. Qed.

Lemma ModelDelete_wf `{MapOrder} n ds : ds_wf ds → ds_wf (ModelDelete n ds).2.
Proof.
  intros Hwf. pose proof (ModelDelete_cases n ds Hwf) as Hc.
  destruct (ModelDelete n ds) as [[m|] ds']; simpl; [|by destruct Hc as [-> _]].
  destruct Hc as (_ & _ & ->). split; [|apply (wf_pods _ Hwf)].
  intros k m' Hk. simpl in Hk. apply lookup_delete_Some in Hk as [_ Hk].
  by apply (wf_models _ Hwf).
Qed.
End models.

(** ** Refresh goroutines *)

Section refresh_lemmas.
Context (FetchMetrics : Pod → Metrics → Z → option Metrics * list error).

(** A turn never panics, and changes nothing but one object's metrics. *)
Lemma refresh_turn_cases cancelled now l ds t :
  refresh_turn FetchMetrics cancelled now l ds = Some t →
  t = Val ds ∨ ∃ o m, ds_heap ds !! l = Some o
    ∧ t = Val (set_heap (<[l := pm_set_metrics m o]> (ds_heap ds)) ds).
Proof.
  unfold refresh_turn, refreshMetrics, PoolGet.
  destruct (ds_heap ds !! l) as [o|]; [|done].
  destruct (refresher_running o && negb cancelled); [|done]. intros [= <-].
  destruct (ds_pool ds) as [pool|]; simpl; [|by left].
  destruct (FetchMetrics _ _ _) as [[m|] e]; simpl; [right; eauto|by left].
Qed.

Lemma refresh_turn_wf cancelled now l ds ds' :
  refresh_turn FetchMetrics cancelled now l ds = Some (Val ds') →
  (ds_wf ds → ds_wf ds') ∧ (no_leak ds → no_leak ds').
Proof.
  intros [[= ->]|(o & m & Ho & [= ->])]%refresh_turn_cases; [done|]. split.
  - intros Hwf. split; [apply (wf_models _ Hwf)|]. intros k l' Hk. simpl in *.
    destruct (wf_pods _ Hwf _ _ Hk) as (o' & Ho' & Hn & Hr).
    rewrite lookup_insert. case_decide; [|eauto]. simplify_eq.
    eexists. split; [done|]. by split.
  - intros Hnl l' o' Ho' Hr. simpl in *. rewrite lookup_insert in Ho'.
    case_decide; [|by eapply Hnl]. simplify_eq. eapply Hnl; [done|]. done.
Qed.
End refresh_lemmas.

(** The conversion of the labels is the identity. *)
Lemma stripLabel_id `{MapOrder} labels : stripLabelKeyAliasFromLabelMap labels = labels.
Proof. apply foldl_insert_range. Qed.

(** ** Reachable stores *)

Inductive ds_step `{MapOrder} (FetchMetrics : Pod → Metrics → Z → option Metrics * list error)
  : datastore → datastore → Prop :=
  | step_Clear ds : ds_step FetchMetrics ds (Clear ds)
  | step_PoolSet pool ds : ds_step FetchMetrics ds (PoolSet pool ds)
  | step_ModelSetIfOlder m ds : ds_step FetchMetrics ds (ModelSetIfOlder m ds).2
  | step_ModelResync c name ds r ds' :
      ModelResync c name ds = Val (r, ds') → ds_step FetchMetrics ds ds'
  | step_ModelDelete n ds : ds_step FetchMetrics ds (ModelDelete n ds).2
  | step_PodUpdate pod ds : ds_step FetchMetrics ds (PodUpdateOrAddIfNotExist pod ds).2
  | step_PodDelete n ds ds' : PodDelete n ds = Val ds' → ds_step FetchMetrics ds ds'
  | step_PodResyncAll c pool ds ds' :
      PodResyncAll c pool ds = Val ds' → ds_step FetchMetrics ds ds'
  | step_refresh cancelled now l ds ds' :
      refresh_turn FetchMetrics cancelled now l ds = Some (Val ds') → ds_step FetchMetrics ds ds'.

(** The resync, as a function of the abstract pods. *)
Definition spec_resync (items : list CorePod) (v : gmap NamespacedName PodMetrics)
  : gmap NamespacedName PodMetrics :=
  let ready := filter (λ p, podIsReady p = true) items in
  filter (λ kv, nn_Name kv.1 ∈ (om_Name ∘ pod_ObjectMeta <$> ready)) (foldl spec_update v ready).

Lemma PodResync_ok `{MapOrder} c pool ds :
  ds_wf ds →
  ∃ ds', PodResyncAll c pool ds = Val ds' ∧ ds_wf ds'
    ∧ ds_pool ds' = ds_pool ds ∧ ds_models ds' = ds_models ds
    ∧ (no_leak ds → no_leak ds')
    ∧ view ds' = match List_pods c (stripLabelKeyAliasFromLabelMap (Selector (ip_Spec pool)))
                         (ip_Namespace pool) with
                 | inr _ => view ds
                 | inl items => spec_resync items (view ds)
                 end.
Proof.
  intros Hwf. unfold PodResyncAll. destruct (List_pods _ _ _) as [items|e]; [|by exists ds].
  destruct (resync_add_ok items (∅, ds) Hwf) as (Hwf1 & Hnl1 & Hp1 & Hm1 & Hv1 & Hact).
  destruct (foldl resync_add (∅, ds) items) as [active ds1]. simpl in *.
  destruct (resync_delete_ok active (map_range (ds_pods ds1)) ds1 Hwf1)
    as (ds' & -> & Hwf' & Hnl' & Hp' & Hm' & Hv').
  { apply map_range_NoDup. }
  { intros k l. apply map_range_elem. }
  exists ds'. split; [done|]. split; [done|]. split; [congruence|]. split; [congruence|].
  split; [by auto|]. rewrite Hv'. unfold spec_resync. rewrite <-Hv1. apply map_filter_ext.
  intros k v Hk. simpl. rewrite Hact, (right_id_L ∅ (∪)), elem_of_list_to_set.
  assert (k ∈ (map_range (ds_pods ds1)).*1); [|naive_solver].
  destruct (proj1 (view_is_Some ds1 k Hwf1)) as [l Hl]; [by rewrite Hk|].
  apply list_elem_of_fmap. exists (k, l). split; [done|]. by apply map_range_elem.
Qed.

Lemma ds_step_wf `{MapOrder} fm ds ds' : ds_step fm ds ds' → ds_wf ds → ds_wf ds'.
Proof.
  intros Hstep Hwf. destruct Hstep.
  - by split.
  - split; [apply (wf_models _ Hwf)|apply (wf_pods _ Hwf)].
  - by apply ModelSet_wf.
  - by eapply ModelResync_wf.
  - by apply ModelDelete_wf.
  - by apply PodUpdate_wf.
  - destruct (PodDelete_ok ds n Hwf) as (ds1 & Heq & ? & _). congruence.
  - destruct (PodResync_ok c pool ds Hwf) as (ds1 & Heq & ? & _). congruence.
  - by eapply refresh_turn_wf.
Qed.

Lemma reachable_wf `{MapOrder} fm ds : rtc (ds_step fm) NewDatastore ds → ds_wf ds.
Proof.
  intros Hr. assert (ds_wf NewDatastore) as Hinit
    by (by split).
  induction Hr; eauto using ds_step_wf.
Qed.

(** The store's readers. *)
Lemma PodGetAll_elem `{MapOrder} ds o :
  o ∈ PodGetAll ds ↔ ∃ k l, ds_pods ds !! k = Some l ∧ ds_heap ds !! l = Some o.
Proof.
  unfold PodGetAll, PodList. rewrite filter_all by done. rewrite list_elem_of_omap. split.
  - intros ([k l] & Hkl%map_range_elem & Ho). eauto.
  - intros (k & l & Hk & Ho). exists (k, l). split; [by apply map_range_elem|done].
Qed.

Lemma omap_length {A B} (f : A → option B) l :
  (∀ x, x ∈ l → is_Some (f x)) → length (omap f l) = length l.
Proof.
  induction l as [|x l IH]; intros Hall; [done|]. csimpl.
  destruct (Hall x) as [y ->]; [left|]. simpl. f_equal. apply IH. intros z Hz.
  apply Hall. by right.
Qed.

Lemma PodGetAll_length `{MapOrder} ds : ds_wf ds → length (PodGetAll ds) = size (ds_pods ds).
Proof.
  intros Hwf. unfold PodGetAll, PodList. rewrite filter_all by done.
  rewrite omap_length, map_range_length; [done|].
  intros [k l] Hk%map_range_elem. destruct (wf_pods _ Hwf _ _ Hk) as (o & ? & _). eauto.
Qed.

(** A single model filed repeatedly. *)
Definition set_all (ms : list InferenceModel) (ds : datastore) : datastore :=
  foldl (λ ds m, (ModelSetIfOlder m ds).2) ds ms.

Lemma set_all_oldest name ms ds e :
  Forall (λ m, im_ModelName m = name) ms → NoDup (im_key <$> ms) →
  ds_models ds !! name = Some e → im_key e ∉ im_key <$> ms →
  ∃ m, ds_models (set_all ms ds) !! name = Some m ∧ m ∈ e :: ms
       ∧ ∀ m', m' ∈ e :: ms → im_created m <= im_created m'.
Proof.
  revert ds e. induction ms as [|m ms IH]; intros ds e Hname Hnd He Hni; simpl.
  { exists e. split; [done|]. split; [left|].
    intros m' [->|?%elem_of_nil]%elem_of_cons; [lia|done]. }
  apply Forall_cons in Hname as [Hm Hname]. rewrite fmap_cons in *.
  apply NoDup_cons in Hnd as [Hmk Hnd]. apply not_elem_of_cons in Hni as [Hek Hni].
  destruct (ModelSet_cases m ds) as [[-> Hle]|[-> (e' & He' & _ & Hlt)]]; simpl.
  - destruct (IH (set_models (<[im_ModelName m:=m]> (ds_models ds)) ds) m)
      as (r & Hr & Hin & Hmin); try done.
    { simpl. rewrite Hm. apply lookup_insert_eq. }
    assert (im_created m <= im_created e).
    { rewrite <-Hm in He. by destruct (Hle _ He). }
    exists r. split; [done|]. split; [by right|].
    intros m' [->|Hm']%elem_of_cons; [|by apply Hmin].
    specialize (Hmin m). etrans; [apply Hmin; left|done].
  - destruct (IH ds e) as (r & Hr & Hin & Hmin); try done.
    assert (e' = e) as -> by (rewrite Hm in He'; by simplify_eq).
    exists r. split; [done|]. split.
    + apply elem_of_cons in Hin as [->|?]; [left|right; by right].
    + intros m' [->|[->|Hm']%elem_of_cons]%elem_of_cons.
      * apply Hmin. left.
      * specialize (Hmin e). etrans; [apply Hmin; left|lia].
      * apply Hmin. by right.
Qed.

(** * Claims *)

(** C10: representation invariant.  In every store reachable from the empty one
    by any sequence of datastore operations and refresh turns, models are filed
    under their own names, every listed pod has exactly one object, filed under
    the pod's own name, whose refresh goroutine runs. *)
Theorem datastore_invariant `{MapOrder} fm ds :
  rtc (ds_step fm) NewDatastore ds →
  ds_wf ds ∧ (∀ k1 k2 l, ds_pods ds !! k1 = Some l → ds_pods ds !! k2 = Some l → k1 = k2).
Proof. intros Hwf%reachable_wf. split; [done|]. intros k1 k2 l. by apply pods_inj. Qed.

(** No pod operation ever panics in a reachable store; in particular no
    [done] channel is closed twice and no missing object is dereferenced. *)
Theorem pod_operations_never_panic `{MapOrder} fm ds :
  rtc (ds_step fm) NewDatastore ds →
  (∀ n, is_val (PodDelete n ds) = true)
  ∧ (∀ c pool, is_val (PodResyncAll c pool ds) = true)
  ∧ (∀ cancelled now l t, refresh_turn fm cancelled now l ds = Some t → is_val t = true).
Proof.
  intros Hwf%reachable_wf. split; [|split].
  - intros n. by destruct (PodDelete_ok ds n Hwf) as (ds' & -> & _).
  - intros c pool. by destruct (PodResync_ok c pool ds Hwf) as (ds' & -> & _).
  - intros cancelled now l t [->|(o & m & _ & ->)]%refresh_turn_cases; done.
Qed.

(** The pod operations implement a map from pod names to pod and metrics.
    [PodUpdateOrAddIfNotExist] inserts the pod, keeps the metrics of a pod
    already listed and reports whether it was; [PodDelete] removes it; and
    [PodGetAll] lists each entry once. *)
Theorem pod_operations_refine_map `{MapOrder} ds pod n :
  ds_wf ds →
  view (PodUpdateOrAddIfNotExist pod ds).2 = spec_update (view ds) pod
  ∧ (PodUpdateOrAddIfNotExist pod ds).1 = bool_decide (is_Some (view ds !! pod_key pod))
  ∧ (∃ ds', PodDelete n ds = Val ds' ∧ view ds' = delete n (view ds))
  ∧ (∀ pm, pm ∈ snapshot <$> PodGetAll ds ↔ ∃ k, view ds !! k = Some pm)
  ∧ length (PodGetAll ds) = size (view ds).
Proof.
  intros Hwf. split; [by apply PodUpdate_view|]. split; [|split; [|split]].
  - pose proof (view_is_Some ds (pod_key pod) Hwf) as Hiff. symmetry.
    unfold PodUpdateOrAddIfNotExist. destruct (ds_pods ds !! pod_key pod); simpl.
    + apply bool_decide_eq_true, Hiff. eauto.
    + apply bool_decide_eq_false. intros [? ?]%Hiff. done.
  - destruct (PodDelete_ok ds n Hwf) as (ds' & ? & _ & _ & _ & _ & ? & _). eauto.
  - intros pm. rewrite list_elem_of_fmap. split.
    + intros (o & -> & (k & l & Hk & Ho)%PodGetAll_elem). exists k.
      rewrite view_lookup, Hk. simpl. by rewrite Ho.
    + intros [k Hk]. rewrite view_lookup in Hk.
      destruct (ds_pods ds !! k) as [l|] eqn:Hl; [|done]. simpl in Hk.
      destruct (ds_heap ds !! l) as [o|] eqn:Ho; simplify_eq/=.
      exists o. split; [done|]. apply PodGetAll_elem. eauto.
  - rewrite PodGetAll_length by done.
    rewrite <-!size_dom. f_equal. apply set_eq. intros k.
    rewrite !elem_of_dom. symmetry. by apply view_is_Some.
Qed.

(** [PodResyncAll] refines its specification: a failed listing changes
    nothing; otherwise the ready pods listed are added or updated, in order,
    keeping known metrics, and then every pod whose name is not that of a ready
    pod is removed; no goroutine is left running without its pod. *)
Theorem pod_resync_refines `{MapOrder} c pool ds :
  ds_wf ds →
  ∃ ds', PodResyncAll c pool ds = Val ds' ∧ ds_wf ds'
    ∧ ds_pool ds' = ds_pool ds ∧ ds_models ds' = ds_models ds
    ∧ (no_leak ds → no_leak ds')
    ∧ view ds' = match List_pods c (stripLabelKeyAliasFromLabelMap (Selector (ip_Spec pool)))
                         (ip_Namespace pool) with
                 | inr _ => view ds
                 | inl items => spec_resync items (view ds)
                 end.
Proof. apply PodResync_ok. Qed.

(** The oldest InferenceModel wins, in every order of arrival: filing any
    number of different objects of one model name in an empty slot leaves one of
    them that no other is older than. *)
Theorem oldest_model_wins name ms ds :
  ms ≠ [] → Forall (λ m, im_ModelName m = name) ms → NoDup (im_key <$> ms) →
  ds_models ds !! name = None →
  ∃ m, ModelGet name (set_all ms ds) = Some m ∧ m ∈ ms
       ∧ ∀ m', m' ∈ ms → im_created m <= im_created m'.
Proof.
  intros Hne Hname Hnd Hnone. destruct ms as [|m ms]; [done|].
  apply Forall_cons in Hname as [Hm Hname]. rewrite fmap_cons in Hnd.
  apply NoDup_cons in Hnd as [Hmk Hnd]. unfold set_all, ModelGet. simpl.
  destruct (ModelSet_cases m ds) as [[-> _]|[_ (e & He & _)]]; [|congruence].
  apply set_all_oldest; try done. simpl. rewrite Hm. apply lookup_insert_eq.
Qed.

(** [ModelResync] with a synced pool files the oldest candidate the API
    server lists (right model name, this pool, not being deleted), changes
    nothing when there is none, and reports a failed listing. *)
Theorem model_resync_spec c name ds pool :
  ds_pool ds = Some pool →
  match List_models c name (ip_Namespace pool) with
  | inr e => ∃ msg, ModelResync c name ds = Val ((false, Some (WrapError msg e)), ds)
  | inl items =>
      (∀ m, m ∈ items → resync_candidate name (ip_Name pool) m = false)
        ∧ ModelResync c name ds = Val ((false, None), ds)
      ∨ ∃ m, m ∈ items ∧ resync_candidate name (ip_Name pool) m = true
          ∧ (∀ m', m' ∈ items → resync_candidate name (ip_Name pool) m' = true
                   → im_created m <= im_created m')
          ∧ ModelResync c name ds
            = Val ((true, None), set_models (<[name := m]> (ds_models ds)) ds)
  end.
Proof.
  intros Hpool. unfold ModelResync. rewrite Hpool. simpl.
  destruct (List_models c name _) as [items|e]; [|eauto].
  pose proof (resync_fold name (ip_Name pool) items None) as Hf.
  destruct (foldl _ None items) as [m|].
  - right. destruct Hf as ([?|[Hin Hc]] & Hmin & _); [done|]. exists m. done.
  - left. by destruct Hf.
Qed.

(** [Clear] leaks the refresh goroutines.  After the pool is deleted every
    pod that was listed has an object whose goroutine still runs, and no later
    [PodDelete] can reach it: the store no longer lists it under any name. *)
Theorem clear_leaks_refreshers ds k l :
  ds_wf ds → ds_pods ds !! k = Some l →
  (∃ o, ds_heap (Clear ds) !! l = Some o ∧ refresher_running o = true)
  ∧ (∀ n, PodDelete n (Clear ds) = Val (Clear ds)) ∧ ¬ no_leak (Clear ds).
Proof.
  intros Hwf Hk. destruct (wf_pods _ Hwf _ _ Hk) as (o & Ho & _ & Hr).
  split; [by exists o|]. split; [done|].
  intros Hnl. destruct (Hnl l o Ho Hr) as [k' Hk']. done.
Qed.

(** * Witnesses *)

Definition example_meta (name : string) (created : Time) : ObjectMeta :=
  mkObjectMeta name "ns" ∅ created None.

Definition example_core_pod (name : string) : CorePod :=
  mkCorePod (example_meta name 1) "10.0.0.1" [mkPodCondition PodReady ConditionTrue].

Definition example_pool : InferencePool :=
  mkInferencePool (example_meta "pool" 1)
    (mkInferencePoolSpec (Some ∅) 8000 (mkEndpointPickerConfig None)).

Definition example_model (name : string) (created : Time) : InferenceModel :=
  mkInferenceModel (example_meta name created)
    (mkInferenceModelSpec "m" (Some Critical) [] (mkPoolObjectReference "g" "k" "pool")).

(** An API server that lists two models and one pod. *)
Definition example_client : Client := {|
  List_models _ _ := inl [example_model "a" 5; example_model "b" 3];
  List_pods _ _ := inl [example_core_pod "p2"];
  Get_model _ := NotFound;
  Get_pool _ := NotFound;
  Get_pod _ := NotFound
|}.

Definition no_fetch (_ : Pod) (_ : Metrics) (_ : Z) : option Metrics * list error := (None, []).

(** Label selection as inclusion of maps. *)
Program Definition inclusion_labels : Labels := {|
  selector_matches sel l := bool_decide (sel ⊆ l)
|}.
Next Obligation. intros sel l. apply bool_decide_eq_true. Qed.

(** The pool, a model and a pod. *)
Definition example_store : datastore :=
  (PodUpdateOrAddIfNotExist (example_core_pod "p1")
     (ModelSetIfOlder (example_model "a" 5) (PoolSet example_pool NewDatastore)).2).2.

Lemma example_reachable : rtc (ds_step no_fetch) NewDatastore example_store.
Proof.
  eapply rtc_l; [apply (step_PoolSet _ example_pool)|].
  eapply rtc_l; [apply (step_ModelSetIfOlder _ (example_model "a" 5))|].
  eapply rtc_l; [apply (step_PodUpdate _ (example_core_pod "p1"))|].
  apply rtc_refl.
Defined.

Lemma datastore_invariant_witness :
  ds_wf example_store
  ∧ (∀ k1 k2 l, ds_pods example_store !! k1 = Some l → ds_pods example_store !! k2 = Some l
                → k1 = k2).
Proof. apply (datastore_invariant no_fetch example_store). apply example_reachable. Defined.

Lemma pod_operations_never_panic_witness :
  is_val (PodResyncAll example_client example_pool example_store) = true.
Proof. apply (pod_operations_never_panic no_fetch example_store). apply example_reachable. Defined.

Lemma pod_operations_refine_map_witness :
  view (PodUpdateOrAddIfNotExist (example_core_pod "p3") example_store).2
  = spec_update (view example_store) (example_core_pod "p3").
Proof.
  apply (pod_operations_refine_map example_store (example_core_pod "p3")
           (mkNamespacedName "ns" "p1")).
  eapply reachable_wf, example_reachable.
Defined.

Lemma pod_resync_refines_witness :
  ∃ ds', PodResyncAll example_client example_pool example_store = Val ds' ∧ ds_wf ds'
    ∧ ds_pool ds' = ds_pool example_store ∧ ds_models ds' = ds_models example_store
    ∧ (no_leak example_store → no_leak ds')
    ∧ view ds' = spec_resync [example_core_pod "p2"] (view example_store).
Proof.
  apply (pod_resync_refines example_client example_pool example_store).
  eapply reachable_wf, example_reachable.
Defined.

Lemma oldest_model_wins_witness :
  ∃ m, ModelGet "m" (set_all [example_model "a" 5; example_model "b" 3] NewDatastore) = Some m
       ∧ m ∈ [example_model "a" 5; example_model "b" 3]
       ∧ ∀ m', m' ∈ [example_model "a" 5; example_model "b" 3] → im_created m <= im_created m'.
Proof.
  apply (oldest_model_wins "m" [example_model "a" 5; example_model "b" 3] NewDatastore).
  - done.
  - by repeat constructor.
  - apply (bool_decide_unpack _). by vm_compute.
  - reflexivity.
Defined.

Lemma model_resync_spec_witness :
  (∀ m, m ∈ [example_model "a" 5; example_model "b" 3] → resync_candidate "m" "pool" m = false)
    ∧ ModelResync example_client "m" example_store = Val ((false, None), example_store)
  ∨ ∃ m, m ∈ [example_model "a" 5; example_model "b" 3] ∧ resync_candidate "m" "pool" m = true
      ∧ (∀ m', m' ∈ [example_model "a" 5; example_model "b" 3]
               → resync_candidate "m" "pool" m' = true → im_created m <= im_created m')
      ∧ ModelResync example_client "m" example_store
        = Val ((true, None), set_models (<["m" := m]> (ds_models example_store)) example_store).
Proof. apply (model_resync_spec example_client "m" example_store example_pool). reflexivity. Defined.

Lemma clear_leaks_refreshers_witness :
  ∃ l, ds_pods example_store !! mkNamespacedName "ns" "p1" = Some l
       ∧ ∃ o, ds_heap (Clear example_store) !! l = Some o ∧ refresher_running o = true.
Proof.
  eexists. split; [reflexivity|].
  eapply (clear_leaks_refreshers example_store (mkNamespacedName "ns" "p1")).
  - eapply reachable_wf, example_reachable.
  - reflexivity.
Defined.
