(* ===== verification/DatastoreSpec.v ===== *)
(** * The contract of the datastore

    [type Datastore interface] of datastore.go as a class, the store of [Datastore] as one
    instance, and as the other its specification: a pool, a map of models and a map from
    pod names to what [GetPod] and [GetMetrics] show, without objects, locations or
    goroutines.

    Theorem: whatever sequence of calls is made, with turns of the refresh goroutines
    anywhere in between, the store gives the answers of the specification.  A refresh is
    either an update of the entry of one pod or, for an object the store dropped, nothing
    a caller can see. *)

From S2P Require Import Prelude GoInt Float64 Api Errors BackendMetrics Datastore DatastoreProofs.

Local Open Scope Z_scope.

(** ** The interface *)

Class DatastoreI (D : Type) := {
  i_PoolSet : InferencePool → D → D;
  i_PoolGet : D → InferencePool + error;
  i_PoolHasSynced : D → bool;
  i_PoolLabelsMatch : gmap string string → D → outcome bool;
  i_ModelSetIfOlder : InferenceModel → D → bool * D;
  i_ModelGet : string → D → option InferenceModel;
  i_ModelDelete : NamespacedName → D → option InferenceModel * D;
  i_ModelResync : Client → string → D → outcome ((bool * option error) * D);
  i_ModelGetAll : D → list InferenceModel;
  i_PodGetAll : D → list PodMetrics;
  i_PodList : (PodMetrics → bool) → D → list PodMetrics;
  i_PodUpdateOrAddIfNotExist : CorePod → D → bool * D;
  i_PodDelete : NamespacedName → D → outcome D;
  i_PodResyncAll : Client → InferencePool → D → outcome D;
  i_Clear : D → D
}.

(** A call, and what it returns; panics are answers of their own. *)
Inductive ds_call :=
  | CPoolSet (pool : InferencePool)
  | CPoolGet
  | CPoolHasSynced
  | CPoolLabelsMatch (labels : gmap string string)
  | CModelSetIfOlder (m : InferenceModel)
  | CModelGet (name : string)
  | CModelDelete (n : NamespacedName)
  | CModelResync (c : Client) (name : string)
  | CModelGetAll
  | CPodGetAll
  | CPodList (predicate : PodMetrics → bool)
  | CPodUpdateOrAddIfNotExist (pod : CorePod)
  | CPodDelete (n : NamespacedName)
  | CPodResyncAll (c : Client) (pool : InferencePool)
  | CClear.

Inductive answer :=
  | ANone
  | ABool (b : bool)
  | APool (r : InferencePool + error)
  | AModel (m : option InferenceModel)
  | AResync (b : bool) (e : option error)
  | AModels (l : list InferenceModel)
  | APods (l : list PodMetrics).

Definition call_store `{DatastoreI D} (k : ds_call) (d : D) : outcome (answer * D) :=
  match k with
  | CPoolSet pool => Val (ANone, i_PoolSet pool d)
  | CPoolGet => Val (APool (i_PoolGet d), d)
  | CPoolHasSynced => Val (ABool (i_PoolHasSynced d), d)
  | CPoolLabelsMatch labels => b ← i_PoolLabelsMatch labels d; Val (ABool b, d)
  | CModelSetIfOlder m => let '(b, d) := i_ModelSetIfOlder m d in Val (ABool b, d)
  | CModelGet name => Val (AModel (i_ModelGet name d), d)
  | CModelDelete n => let '(m, d) := i_ModelDelete n d in Val (AModel m, d)
  | CModelResync c name => '((b, e), d) ← i_ModelResync c name d; Val (AResync b e, d)
  | CModelGetAll => Val (AModels (i_ModelGetAll d), d)
  | CPodGetAll => Val (APods (i_PodGetAll d), d)
  | CPodList predicate => Val (APods (i_PodList predicate d), d)
  | CPodUpdateOrAddIfNotExist pod => let '(b, d) := i_PodUpdateOrAddIfNotExist pod d in Val (ABool b, d)
  | CPodDelete n => d ← i_PodDelete n d; Val (ANone, d)
  | CPodResyncAll c pool => d ← i_PodResyncAll c pool d; Val (ANone, d)
  | CClear => Val (ANone, i_Clear d)
  end.

(** Listings come in no particular order. *)
Definition answer_same (a b : answer) : Prop :=
  match a, b with
  | AModels l, AModels l' => l ≡ₚ l'
  | APods l, APods l' => l ≡ₚ l'
  | _, _ => a = b
  end.

(** ** The store *)

#[export] Instance store_ops `{MapOrder} `{Labels} : DatastoreI datastore := {|
  i_PoolSet := PoolSet;
  i_PoolGet := PoolGet;
  i_PoolHasSynced := PoolHasSynced;
  i_PoolLabelsMatch := PoolLabelsMatch;
  i_ModelSetIfOlder := ModelSetIfOlder;
  i_ModelGet := ModelGet;
  i_ModelDelete := ModelDelete;
  i_ModelResync := ModelResync;
  i_ModelGetAll := ModelGetAll;
  i_PodGetAll ds := snapshot <$> PodGetAll ds;
  i_PodList predicate ds := snapshot <$> PodList (λ o, predicate (snapshot o)) ds;
  i_PodUpdateOrAddIfNotExist := PodUpdateOrAddIfNotExist;
  i_PodDelete := PodDelete;
  i_PodResyncAll := PodResyncAll;
  i_Clear := Clear
|}.

(** ** The specification *)

Record spec_store := mkSpecStore {
  sp_pool : option InferencePool;
  sp_models : gmap string InferenceModel;
  sp_pods : gmap NamespacedName PodMetrics
}.

Section spec.
Context `{MapOrder}.

Definition with_models (m : gmap string InferenceModel) (sp : spec_store) : spec_store :=
  mkSpecStore (sp_pool sp) m (sp_pods sp).
Definition with_pods (p : gmap NamespacedName PodMetrics) (sp : spec_store) : spec_store :=
  mkSpecStore (sp_pool sp) (sp_models sp) p.

(** A newer object of another name does not replace the filed one. *)
Definition spec_ModelSetIfOlder (m : InferenceModel) (sp : spec_store) : bool * spec_store :=
  let newer := match sp_models sp !! im_ModelName m with
               | Some e => bool_decide (im_key e ≠ im_key m) && bool_decide (im_created e < im_created m)
               | None => false
               end in
  if newer then (false, sp)
  else (true, with_models (<[im_ModelName m := m]> (sp_models sp)) sp).

Definition spec_ModelDelete (n : NamespacedName) (sp : spec_store) : option InferenceModel * spec_store :=
  match filter (λ km : string * InferenceModel, im_key km.2 = n) (map_range (sp_models sp)) with
  | [] => (None, sp)
  | (name, m) :: _ => (Some m, with_models (delete name (sp_models sp)) sp)
  end.

Definition spec_ModelResync (c : Client) (name : string) (sp : spec_store)
  : outcome ((bool * option error) * spec_store) :=
  match sp_pool sp with
  | None => Panic NilDereference
  | Some pool =>
      match List_models c name (ip_Namespace pool) with
      | inr e => Val ((false, Some (WrapError ("listing models that match the modelName "
                                               +:+ name +:+ ": ") e)), sp)
      | inl items =>
          match foldl (resync_step name (ip_Name pool)) None items with
          | None => Val ((false, None), sp)
          | Some oldest => Val ((true, None), with_models (<[name := oldest]> (sp_models sp)) sp)
          end
      end
  end.

#[export] Instance spec_ops : DatastoreI spec_store := {|
  i_PoolSet pool sp := mkSpecStore (Some pool) (sp_models sp) (sp_pods sp);
  i_PoolGet sp := match sp_pool sp with Some pool => inl pool | None => inr errPoolNotSynced end;
  i_PoolHasSynced sp := bool_decide (is_Some (sp_pool sp));
  i_PoolLabelsMatch labels sp :=
    match sp_pool sp with
    | Some pool => Val (bool_decide (Selector (ip_Spec pool) ⊆ labels))
    | None => Panic NilDereference
    end;
  i_ModelSetIfOlder := spec_ModelSetIfOlder;
  i_ModelGet name sp := sp_models sp !! name;
  i_ModelDelete := spec_ModelDelete;
  i_ModelResync := spec_ModelResync;
  i_ModelGetAll sp := (map_to_list (sp_models sp)).*2;
  i_PodGetAll sp := (map_to_list (sp_pods sp)).*2;
  i_PodList predicate sp := filter (λ pm, predicate pm = true) (map_to_list (sp_pods sp)).*2;
  i_PodUpdateOrAddIfNotExist pod sp :=
    (bool_decide (is_Some (sp_pods sp !! pod_key pod)), with_pods (spec_update (sp_pods sp) pod) sp);
  i_PodDelete n sp := Val (with_pods (delete n (sp_pods sp)) sp);
  i_PodResyncAll c pool sp :=
    Val match List_pods c (Selector (ip_Spec pool)) (ip_Namespace pool) with
        | inr _ => sp
        | inl items => with_pods (spec_resync items (sp_pods sp)) sp
        end;
  i_Clear sp := mkSpecStore None ∅ ∅
|}.
End spec.

(** ** Every call *)

Definition abs (ds : datastore) : spec_store := mkSpecStore (ds_pool ds) (ds_models ds) (view ds).

Section refinement.
Context `{MapOrder} `{Labels}.

(** The answers agree, and the stores stay related. *)
Definition agrees_with (x : outcome (answer * datastore)) (y : outcome (answer * spec_store)) : Prop :=
  match x, y with
  | Val (a, ds), Val (b, sp) => answer_same a b ∧ sp = abs ds ∧ ds_wf ds
  | Panic p, Panic q => p = q
  | _, _ => False
  end.

Lemma answer_same_refl a : answer_same a a.
Proof. by destruct a; simpl. Qed.

Lemma wf_other_pool ds p : ds_wf ds → ds_wf (set_pool p ds).
Proof. intros [Hm Hp]. by split. Qed.

Lemma omap_values {A B} (f : A → option B) (m : gmap NamespacedName A) :
  (map_to_list (omap f m)).*2 ≡ₚ omap (λ kv, f kv.2) (map_to_list m).
Proof.
  induction m as [|k x m Hk IH] using map_ind; [by rewrite omap_empty, !map_to_list_empty|].
  rewrite (map_to_list_insert m), omap_insert by done. csimpl.
  assert (omap f m !! k = None) as Hn by (by rewrite lookup_omap, Hk).
  destruct (f x) as [y|].
  - rewrite map_to_list_insert by done. csimpl. by rewrite IH.
  - by rewrite delete_id.
Qed.

Lemma filter_fmap_test {A B} (f : A → B) (test : B → bool) (l : list A) :
  filter (λ b, test b = true) (f <$> l) = f <$> filter (λ a, test (f a) = true) l.
Proof.
  induction l as [|a l IH]; [done|]. csimpl. rewrite !filter_cons.
  destruct (test (f a)); simpl; by rewrite IH.
Qed.

(** The objects the store lists, seen through their accessors, are the entries of the
    specification. *)
Lemma pods_listed predicate ds :
  snapshot <$> PodList (λ o, predicate (snapshot o)) ds
  ≡ₚ filter (λ pm, predicate pm = true) (map_to_list (view ds)).*2.
Proof.
  unfold PodList, view. rewrite omap_values, map_range_perm.
  rewrite <-(list_fmap_omap (λ kl : NamespacedName * loc, ds_heap ds !! kl.2) snapshot).
  by rewrite filter_fmap_test.
Qed.

Lemma PodUpdate_frame pod ds :
  ds_pool (PodUpdateOrAddIfNotExist pod ds).2 = ds_pool ds
  ∧ ds_models (PodUpdateOrAddIfNotExist pod ds).2 = ds_models ds
  ∧ (PodUpdateOrAddIfNotExist pod ds).1 = bool_decide (is_Some (ds_pods ds !! pod_key pod)).
Proof. unfold PodUpdateOrAddIfNotExist. by destruct (ds_pods ds !! pod_key pod). Qed.

Lemma ModelSet_refines m ds :
  spec_ModelSetIfOlder m (abs ds) = prod_map id abs (ModelSetIfOlder m ds).
Proof.
  unfold spec_ModelSetIfOlder. destruct (ModelSet_cases m ds) as [[-> Hold]|[-> (e & He & Hk & Hlt)]]; simpl.
  - destruct (ds_models ds !! im_ModelName m) as [e|]; [|done].
    destruct (Hold e eq_refl) as [Hk|Hle].
    + rewrite (bool_decide_false (im_key e ≠ im_key m)); [done|]. by intros ?.
    + rewrite (bool_decide_false (im_created e < _)), andb_false_r by lia. done.
  - rewrite He. by rewrite !bool_decide_true.
Qed.

Lemma ModelDelete_refines n ds :
  ds_wf ds → spec_ModelDelete n (abs ds) = prod_map id abs (ModelDelete n ds).
Proof.
  intros Hwf. unfold spec_ModelDelete, ModelDelete. simpl.
  rewrite (list_filter_iff _ (λ km : string * InferenceModel,
             om_Name (im_ObjectMeta km.2) = nn_Name n ∧ om_Namespace (im_ObjectMeta km.2) = nn_Namespace n)).
  2:{ intros [k m]. simpl. unfold im_key, om_key. destruct n as [ns nm]. simpl. naive_solver. }
  destruct (filter _ _) as [|[k m] l] eqn:Hf; [done|]. simpl.
  assert (im_ModelName m = k) as ->; [|done].
  apply (wf_models _ Hwf), map_range_elem.
  assert ((k, m) ∈ (k, m) :: l) as Hin by left. rewrite <-Hf in Hin.
  by apply list_elem_of_filter in Hin as [_ Hin].
Qed.

Lemma ModelResync_refines c name ds :
  spec_ModelResync c name (abs ds) = prod_map id abs <$> ModelResync c name ds.
Proof.
  unfold spec_ModelResync, ModelResync. simpl. destruct (ds_pool ds) as [pool|]; [|done]. simpl.
  destruct (List_models c name _) as [items|e]; [|done]. by destruct (foldl _ None items).
Qed.

(** Every call of the interface answers as the specification does. *)
Lemma call_refines k ds : ds_wf ds → agrees_with (call_store k ds) (call_store k (abs ds)).
Proof.
  intros Hwf. destruct k as [pool| | |labels|m|name|n|c name| | |predicate|pod|n|c pool|]; simpl.
  - split; [done|]. split; [done|]. by apply wf_other_pool.
  - done.
  - done.
  - unfold PoolLabelsMatch. destruct (ds_pool ds) as [pool|]; [|done]. simpl.
    unfold selectorFromInferencePoolSelector. rewrite stripLabel_id.
    split; [|done]. f_equal. apply eq_true_iff_eq.
    by rewrite selector_matches_spec, bool_decide_eq_true.
  - rewrite ModelSet_refines. pose proof (ModelSet_wf m ds Hwf).
    by destruct (ModelSetIfOlder m ds).
  - done.
  - rewrite ModelDelete_refines by done. pose proof (ModelDelete_wf n ds Hwf).
    by destruct (ModelDelete n ds).
  - rewrite ModelResync_refines. destruct (ModelResync c name ds) as [[[b e] ds']|] eqn:Hr; [|done].
    simpl. split; [done|]. split; [done|]. by eapply ModelResync_wf.
  - split; [|done]. unfold ModelGetAll. by rewrite map_range_perm.
  - split; [|done]. etrans; [apply (pods_listed (λ _, true))|]. by rewrite filter_all.
  - split; [|done]. apply pods_listed.
  - pose proof (PodUpdate_view ds pod Hwf) as Hv. pose proof (PodUpdate_wf ds pod Hwf) as Hwf'.
    pose proof (PodUpdate_frame pod ds) as (Hp & Hm & Hb).
    destruct (PodUpdateOrAddIfNotExist pod ds) as [b ds']. simpl in *. split; [|split; [|done]].
    + f_equal. rewrite Hb. apply bool_decide_ext. symmetry. by apply view_is_Some.
    + unfold abs. by rewrite Hv, Hp, Hm.
  - destruct (PodDelete_ok ds n Hwf) as (ds' & -> & Hwf' & Hp & Hm & _ & Hv & _). simpl.
    split; [done|]. split; [|done]. unfold abs. by rewrite Hp, Hm, Hv.
  - destruct (PodResync_ok c pool ds Hwf) as (ds' & -> & Hwf' & Hp & Hm & _ & Hv). simpl.
    split; [done|]. split; [|done]. rewrite stripLabel_id in Hv. unfold abs.
    rewrite Hv, Hp, Hm. by destruct (List_pods c _ _).
  - split; [done|]. split; [|by split]. unfold abs, view. simpl. by rewrite omap_empty.
Qed.

(** ** Runs, with the refresh goroutines *)

(** [FetchMetrics] of the pods. *)
Variable fetch : Pod → Metrics → Z → option Metrics * list error.

(** A caller's operation, or a turn of the refresh goroutine of the object at [l]. *)
Inductive store_action :=
  | Do (k : ds_call)
  | Refresh (cancelled : bool) (now : Time) (l : loc).

Inductive spec_action :=
  | SpecDo (k : ds_call)
  | SpecRefresh (now : Time) (n : NamespacedName).

(** A refresh of a pod's entry. *)
Definition spec_refresh (now : Time) (n : NamespacedName) (sp : spec_store) : spec_store :=
  match sp_pool sp, sp_pods sp !! n with
  | Some pool, Some pm =>
      match (fetch (GetPod pm) (GetMetrics pm) (TargetPortNumber (ip_Spec pool))).1 with
      | Some m => with_pods (<[n := mkPodMetrics (GetPod pm) (set_UpdateTime now m)]> (sp_pods sp)) sp
      | None => sp
      end
  | _, _ => sp
  end.

(** The answers of a run, and the store it leaves unless it panicked. *)
Fixpoint run_store (acts : list store_action) (ds : datastore) : list (outcome answer) * option datastore :=
  match acts with
  | [] => ([], Some ds)
  | Do k :: acts =>
      match call_store k ds with
      | Val (a, ds) => let '(answers, final) := run_store acts ds in (Val a :: answers, final)
      | Panic p => ([Panic p], None)
      end
  | Refresh cancelled now l :: acts =>
      match refresh_turn fetch cancelled now l ds with
      | None => run_store acts ds
      | Some (Val ds) => run_store acts ds
      | Some (Panic p) => ([Panic p], None)
      end
  end.

Fixpoint run_spec (acts : list spec_action) (sp : spec_store) : list (outcome answer) * option spec_store :=
  match acts with
  | [] => ([], Some sp)
  | SpecDo k :: acts =>
      match call_store k sp with
      | Val (a, sp) => let '(answers, final) := run_spec acts sp in (Val a :: answers, final)
      | Panic p => ([Panic p], None)
      end
  | SpecRefresh now n :: acts => run_spec acts (spec_refresh now n sp)
  end.

(** The same calls; a refresh becomes one of the specification or disappears. *)
Inductive explains : list store_action → list spec_action → Prop :=
  | explains_nil : explains [] []
  | explains_call k acts sacts : explains acts sacts → explains (Do k :: acts) (SpecDo k :: sacts)
  | explains_refresh cancelled now l n acts sacts :
      explains acts sacts → explains (Refresh cancelled now l :: acts) (SpecRefresh now n :: sacts)
  | explains_unseen cancelled now l acts sacts : explains acts sacts → explains (Refresh cancelled now l :: acts) sacts.

Lemma view_set_metrics l o m ds k :
  ds_heap ds !! l = Some o →
  view (set_heap (<[l := pm_set_metrics m o]> (ds_heap ds)) ds) !! k
  = if decide (ds_pods ds !! k = Some l) then Some (mkPodMetrics (pm_pod o) m) else view ds !! k.
Proof.
  intros Ho. rewrite !view_lookup. simpl. destruct (ds_pods ds !! k) as [l'|]; simpl.
  - destruct (decide (Some l' = Some l)) as [[= ->]|Hne].
    + by rewrite lookup_insert_eq.
    + rewrite lookup_insert_ne; [done|]. congruence.
  - done.
Qed.

(** A turn of a refresh goroutine never panics; what it does to an object the store lists
    is a refresh of that entry, anything else cannot be seen. *)
Lemma refresh_refines cancelled now l ds t :
  ds_wf ds → refresh_turn fetch cancelled now l ds = Some t →
  ∃ ds', t = Val ds' ∧ ds_wf ds'
    ∧ (abs ds' = abs ds ∨ ∃ n, abs ds' = spec_refresh now n (abs ds)).
Proof.
  intros Hwf Ht. pose proof Ht as Hcases. apply refresh_turn_cases in Hcases as Hval.
  assert (∃ ds', t = Val ds') as [ds' ->] by (destruct Hval as [->|(? & ? & ? & ->)]; eauto).
  exists ds'. split; [done|]. split; [by eapply refresh_turn_wf|].
  unfold refresh_turn in Ht. destruct (ds_heap ds !! l) as [o|] eqn:Ho; [|done].
  destruct (refresher_running o && negb cancelled); [|done]. injection Ht as Ht. unfold refreshMetrics, PoolGet in Ht.
  destruct (ds_pool ds) as [pool|] eqn:Hpool; [|left; simpl in Ht; congruence].
  rewrite Ho in Ht. simpl in Ht.
  destruct (fetch (pm_pod o) (pm_metrics o) _) as [[m|] errs] eqn:Hf; [|left; simpl in Ht; congruence].
  simpl in Ht. injection Ht as <-. set (ds' := set_heap _ _).
  destruct (decide (l ∈ (map_to_list (ds_pods ds)).*2)) as [Hin|Hout].
  - apply list_elem_of_fmap in Hin as ([n l'] & -> & Hn%elem_of_map_to_list). simpl in *.
    right. exists n. unfold spec_refresh, abs. simpl. rewrite Hpool.
    rewrite view_lookup, Hn. simpl. rewrite Ho. simpl.
    unfold podMetrics_GetPod, podMetrics_GetMetrics. rewrite Hf. simpl.
    unfold with_pods. simpl. f_equal. apply map_eq. intros k. unfold ds'.
    rewrite view_set_metrics by done. destruct (decide (ds_pods ds !! k = Some l')) as [Hk|Hk].
    + rewrite (pods_inj ds k n l' Hwf Hk Hn). by rewrite lookup_insert_eq.
    + rewrite lookup_insert_ne; [done|]. intros <-. by destruct Hk.
  - left. unfold abs. simpl. f_equal. apply map_eq. intros k. unfold ds'.
    rewrite view_set_metrics by done. rewrite decide_False; [done|]. intros Hk. apply Hout.
    apply list_elem_of_fmap. exists (k, l). split; [done|]. by apply elem_of_map_to_list.
Qed.

Lemma calls_only acts : ∃ sacts, explains acts sacts.
Proof.
  induction acts as [|[k|cancelled now l] acts [sacts IH]]; [by exists []; constructor| |].
  - exists (SpecDo k :: sacts). by constructor.
  - exists sacts. by constructor.
Qed.

Lemma run_refines acts ds :
  ds_wf ds →
  ∃ sacts, explains acts sacts
    ∧ Forall2 (outcome_rel answer_same) (run_store acts ds).1 (run_spec sacts (abs ds)).1
    ∧ (run_spec sacts (abs ds)).2 = abs <$> (run_store acts ds).2.
Proof.
  revert ds. induction acts as [|[k|cancelled now l] acts IH]; intros ds Hwf.
  - exists []. split; [constructor|]. by split.
  - pose proof (call_refines k ds Hwf) as Hk. simpl.
    destruct (call_store k ds) as [[a ds']|p] eqn:Hc.
    + destruct (call_store k (abs ds)) as [[b sp]|] eqn:Hs; [|done].
      destruct Hk as (Hab & -> & Hwf'). destruct (IH ds' Hwf') as (sacts & Hex & Hans & Hfin).
      exists (SpecDo k :: sacts). split; [by constructor|]. simpl. rewrite Hs.
      destruct (run_store acts ds') as [answers final].
      destruct (run_spec sacts (abs ds')) as [answers' final']. simpl in *.
      split; [|done]. by constructor.
    + destruct (call_store k (abs ds)) as [[b sp]|q] eqn:Hs; [done|]. simpl in Hk. subst q.
      destruct (calls_only acts) as [sacts Hex]. exists (SpecDo k :: sacts).
      split; [by constructor|]. simpl. rewrite Hs. split; [|done]. by repeat constructor.
  - simpl. destruct (refresh_turn fetch cancelled now l ds) as [t|] eqn:Ht.
    + destruct (refresh_refines cancelled now l ds t Hwf Ht) as (ds' & -> & Hwf' & Habs).
      destruct (IH ds' Hwf') as (sacts & Hex & Hans & Hfin).
      destruct Habs as [Habs|[n Habs]]; rewrite Habs in *.
      * exists sacts. split; [by constructor|done].
      * exists (SpecRefresh now n :: sacts). split; [by constructor|done].
    + destruct (IH ds Hwf) as (sacts & Hex & ?). exists sacts. split; [by constructor|done].
Qed.
End refinement.

(** C11: the datastore keeps its contract.  For every sequence of calls of its interface, with
    turns of any refresh goroutines at any points in between, there is a run of the
    specification with the same calls that gives the same answers (listings up to their
    order), panics at the same call with the same panic, and leaves the specification of
    the store. *)
Theorem datastore_keeps_contract `{MapOrder} `{Labels} fetch acts :
  ∃ sacts, explains acts sacts
    ∧ Forall2 (outcome_rel answer_same) (run_store fetch acts NewDatastore).1
        (run_spec fetch sacts (mkSpecStore None ∅ ∅)).1
    ∧ (run_spec fetch sacts (mkSpecStore None ∅ ∅)).2 = abs <$> (run_store fetch acts NewDatastore).2.
Proof.
  assert (abs NewDatastore = mkSpecStore None ∅ ∅) as <- by (unfold abs, view; simpl; by rewrite omap_empty).
  apply run_refines. by split.
Qed.
