(* ===== verification/MetricsLogger.v ===== *)
(** * StartMetricsLogger (backend/metrics/logger.go) and the health services

    The two goroutines of StartMetricsLogger: one flushes the pool metrics after every
    sleep, the other reports fresh and stale pods when debug logging is on.  Each turn of
    a goroutine sees the context and the datastore as they are then.

    Theorems: the registry is the result of flushing the stores seen at the ends of the
    sleeps; once the context is cancelled the goroutine ends after at most one more
    flush. *)

From S2P Require Import Prelude GoInt Api Errors BackendMetrics Metrics Datastore.

Local Open Scope Z_scope.

(** ** The flush goroutine *)

(** At its select, in its sleep, returned. *)
Inductive logger_pc := AtSelect | Asleep | Ended.

Section logger.
Context `{MapOrder}.

(** [flushPrometheusMetricsOnce(logger, datastore)] on the store as it is. *)
Definition flush_store (ds : datastore) (r : registry) : registry :=
  flushPrometheusMetricsOnce
    (match PoolGet ds with inl p => Some (ip_Name p) | inr _ => None end)
    (snapshot <$> PodGetAll ds) r.

(** One move: the select takes the context when it is done and the default otherwise; the
    end of the sleep flushes. *)
Definition flush_turn (seen : bool * datastore) (st : logger_pc * registry) : logger_pc * registry :=
  let '(ctx_done, ds) := seen in
  match st with
  | (AtSelect, r) => (if ctx_done then Ended else Asleep, r)
  | (Asleep, r) => (AtSelect, flush_store ds r)
  | (Ended, r) => (Ended, r)
  end.

Definition flush_loop (seen : list (bool * datastore)) (st : logger_pc * registry)
  : logger_pc * registry :=
  foldl (λ st s, flush_turn s st) st seen.

(** [StartMetricsLogger]: the flush goroutine starts at its select; the second goroutine
    is started when debug logging is enabled. *)
Definition StartMetricsLogger (debug : bool) : list logger_pc :=
  if debug then [AtSelect; AtSelect] else [AtSelect].

(** ** The debug goroutine *)

Definition metricsValidityPeriod : Z := 5 * 1000000000.

(** [time.Since]: the difference saturates at 64 bits. *)
Definition time_Since (now t : Time) : Z := Z.max MinInt (Z.min MaxInt (now - t)).

(** The two lists of a report: each is taken with the clock read when it is made. *)
Definition podsWithFreshMetrics (now : Time) (ds : datastore) : list podMetrics :=
  PodList (λ pm, time_Since now (UpdateTime (pm_metrics pm)) <=? metricsValidityPeriod) ds.

Definition podsWithStaleMetrics (now : Time) (ds : datastore) : list podMetrics :=
  PodList (λ pm, metricsValidityPeriod <? time_Since now (UpdateTime (pm_metrics pm))) ds.

(** With one reading of the clock the lists split the pods between them. *)
Lemma fresh_or_stale now ds :
  podsWithFreshMetrics now ds ++ podsWithStaleMetrics now ds ≡ₚ PodGetAll ds.
Proof.
  unfold podsWithFreshMetrics, podsWithStaleMetrics, PodGetAll, PodList.
  induction (omap _ _) as [|o l IH]; [done|]. rewrite !filter_cons. simpl.
  destruct (_ <=? metricsValidityPeriod) eqn:Hle; simpl; to_prop.
  - rewrite decide_False by (rewrite Z.ltb_lt; lia). simpl. by rewrite IH.
  - rewrite decide_True by (rewrite Z.ltb_lt; lia). by rewrite <-Permutation_middle, IH.
Qed.

(** ** Theorems *)

Lemma flush_loop_ended seen r : flush_loop seen (Ended, r) = (Ended, r).
Proof. induction seen as [|[c ds] seen IH]; [done|]. exact IH. Qed.

(** The stores seen at the ends of the sleeps, up to the first select that finds the
    context done; the goroutine alternates between select and sleep. *)
Fixpoint flushed (pc : logger_pc) (seen : list (bool * datastore)) : list datastore :=
  match seen with
  | [] => []
  | (ctx_done, ds) :: seen =>
      match pc with
      | AtSelect => if ctx_done then [] else flushed Asleep seen
      | Asleep => ds :: flushed AtSelect seen
      | Ended => []
      end
  end.

Lemma flush_loop_registry pc seen r :
  (flush_loop seen (pc, r)).2 = foldl (λ r ds, flush_store ds r) r (flushed pc seen).
Proof.
  revert pc r. induction seen as [|[c ds] seen IH]; intros pc r; [done|].
  destruct pc; simpl; [|apply IH|by rewrite flush_loop_ended].
  destruct c; [by rewrite flush_loop_ended|apply IH].
Qed.

Lemma flushed_cancelled pc seen :
  Forall (λ s, s.1 = true) seen →
  (length (flushed pc seen) <= (match pc with Asleep => 1 | _ => 0 end))%nat.
Proof.
  intros Hall. destruct seen as [|[c1 d1] [|[c2 d2] seen]]; [destruct pc; simpl; lia|..];
    inversion_clear Hall as [|?? Hc Hall']; simpl in Hc; subst c1; destruct pc; simpl; try lia.
  inversion_clear Hall' as [|?? Hc _]. simpl in Hc. subst c2. simpl. lia.
Qed.

(** The flush goroutine.  Whatever it sees, the registry is what flushing the stores
    at the ends of its sleeps makes of it; and when from some point on it finds the
    context cancelled, it has returned after two more moves and has flushed at most
    once. *)
Theorem metrics_logger_stops seen r later :
  let st := flush_loop seen (AtSelect, r) in
  st.2 = foldl (λ r ds, flush_store ds r) r (flushed AtSelect seen)
  ∧ (Forall (λ s, s.1 = true) later →
     (length (flushed st.1 later) <= 1)%nat
     ∧ ((2 <= length later)%nat → (flush_loop later st).1 = Ended)).
Proof.
  intros st. split; [apply flush_loop_registry|]. intros Hall. split.
  - etrans; [by apply flushed_cancelled|]. by destruct st.1; lia.
  - destruct later as [|[c1 d1] [|[c2 d2] later]]; simpl; try lia. intros _.
    inversion_clear Hall as [|?? Hc1 Hall']. inversion_clear Hall' as [|?? Hc2 _].
    simpl in *. subst. destruct st as [[] r']; simpl; by rewrite flush_loop_ended.
Qed.
End logger.

(** ** Health services *)

(** cmd/epp/health.go: [Watch]. *)
Definition healthServer_Watch : error := StatusError CodeUnimplemented "Watch is not implemented".

(** cmd/body-based-routing/health.go: always serving. *)
Definition bbr_healthServer_Check : HealthStatus := SERVING.
Definition bbr_healthServer_Watch : error := StatusError CodeUnimplemented "Watch is not implemented".
