(* ===== verification/Locking.v ===== *)
(** * pkg/epp/datastore/datastore.go: the lock of the pool and the models

    [poolAndModelsMu] is a [sync.RWMutex].  Each operation on the pool and the models is
    written as the program it is: calls on the mutex, reads and writes of the fields
    [pool], [models] and [pods].  Goroutines that run operations interleave step by step on
    one store.  [Lock] is two steps, as documented: it first bars new readers, then waits
    for the readers inside.

    Theorems: no two goroutines race for a field; the operations are atomic, that is,
    whatever the interleaving, their answers and the store they leave are those of the
    functions of [Datastore] applied one after the other; operations other than [PoolGet]
    never deadlock; [PoolGet], which takes the read lock twice, can. *)

From S2P Require Import Prelude GoInt Float64 Api Errors BackendMetrics Datastore DatastoreProofs.

(** ** The mutex *)

Inductive lock_action :=
  | RLock
  | RUnlock
  | Lock
  | Drain
  | Unlock.

(** The readers inside, and whether a writer waits or holds. *)
Record rwmutex := mkMutex {
  mu_readers : nat;
  mu_writer : bool
}.

(** One action; [None] when it blocks. *)
Definition act (a : lock_action) (m : rwmutex) : option rwmutex :=
  match a with
  | RLock => if mu_writer m then None else Some (mkMutex (S (mu_readers m)) false)
  | RUnlock => Some (mkMutex (Nat.pred (mu_readers m)) (mu_writer m))
  | Lock => if mu_writer m then None else Some (mkMutex (mu_readers m) true)
  | Drain => match mu_readers m with O => Some m | S _ => None end
  | Unlock => Some (mkMutex (mu_readers m) false)
  end.

(** ** Programs *)

(** What the operations return. *)
Inductive ret :=
  | RetNone
  | RetBool (b : bool)
  | RetPool (pool : option InferencePool) (err : option error)
  | RetModel (m : option InferenceModel)
  | RetResync (b : bool) (err : option error)
  | RetModels (l : list InferenceModel).

(** A program: one access after the other.  A range over [models] is one read. *)
Inductive code :=
  | Done (r : outcome ret)
  | Act (a : lock_action) (k : code)
  | ReadPool (k : option InferencePool → code)
  | WritePool (pool : option InferencePool) (k : code)
  | ReadModel (name : string) (k : option InferenceModel → code)
  | RangeModels (k : gmap string InferenceModel → code)
  | WriteModel (name : string) (m : option InferenceModel) (k : code)
  | MakeModels (k : code)
  | ClearPods (k : code).

(** [models[name] = m] and [delete(models, name)]. *)
Definition write_model (name : string) (m : option InferenceModel) (ds : datastore) : datastore :=
  set_models (match m with
              | Some m => <[name := m]> (ds_models ds)
              | None => delete name (ds_models ds)
              end) ds.

(** One step of a program; [None] when it blocks or has returned. *)
Definition code_step (c : code) (mu : rwmutex) (ds : datastore) : option (rwmutex * datastore * code) :=
  match c with
  | Done _ => None
  | Act a k => mu ← act a mu; Some (mu, ds, k)
  | ReadPool k => Some (mu, ds, k (ds_pool ds))
  | WritePool pool k => Some (mu, set_pool pool ds, k)
  | ReadModel name k => Some (mu, ds, k (ds_models ds !! name))
  | RangeModels k => Some (mu, ds, k (ds_models ds))
  | WriteModel name m k => Some (mu, write_model name m ds, k)
  | MakeModels k => Some (mu, set_models ∅ ds, k)
  | ClearPods k => Some (mu, set_pods ∅ ds, k)
  end.

(** ** The operations *)

(** The deferred call of the mutex, then the return. *)
Definition return_after (unlock : lock_action) (r : outcome ret) : code := Act unlock (Done r).

Definition locked (k : code) : code := Act Lock (Act Drain k).

Definition Clear_code : code :=
  locked (WritePool None (MakeModels (ClearPods (return_after Unlock (Val RetNone))))).

Definition PoolSet_code (pool : InferencePool) : code :=
  locked (WritePool (Some pool) (return_after Unlock (Val RetNone))).

(** [PoolHasSynced], as a call. *)
Definition PoolHasSynced_call (k : bool → code) : code :=
  Act RLock (ReadPool (λ pool, Act RUnlock (k (bool_decide (is_Some pool))))).

Definition PoolHasSynced_code : code := PoolHasSynced_call (λ b, Done (Val (RetBool b))).

(** [PoolGet] calls [PoolHasSynced] inside its own read lock. *)
Definition PoolGet_code : code :=
  Act RLock (PoolHasSynced_call (λ synced,
    if negb synced then return_after RUnlock (Val (RetPool None (Some errPoolNotSynced)))
    else ReadPool (λ pool, return_after RUnlock (Val (RetPool pool None))))).

Section operations.
Context `{MapOrder} `{Labels}.

Definition PoolLabelsMatch_code (podLabels : gmap string string) : code :=
  Act RLock (ReadPool (λ pool,
    return_after RUnlock
      (pool ← deref pool;
       Val (RetBool (selectorFromInferencePoolSelector (Selector (ip_Spec pool)) podLabels))))).

Definition ModelSetIfOlder_code (m : InferenceModel) : code :=
  locked (ReadModel (im_ModelName m) (λ existing,
    let set := WriteModel (im_ModelName m) (Some m) (return_after Unlock (Val (RetBool true))) in
    match existing with
    | Some existing =>
        let diffObj :=
          bool_decide (om_Name (im_ObjectMeta m) ≠ om_Name (im_ObjectMeta existing))
          || bool_decide (om_Namespace (im_ObjectMeta m) ≠ om_Namespace (im_ObjectMeta existing)) in
        if diffObj && Time_Before (im_created existing) (im_created m)
        then return_after Unlock (Val (RetBool false))
        else set
    | None => set
    end)).

(** The loop of [ModelResync]: the name of the pool is read when the model's name fits. *)
Fixpoint resync_loop (modelName : string) (items : list InferenceModel) (oldest : option InferenceModel)
    (k : option InferenceModel → code) : code :=
  match items with
  | [] => k oldest
  | m :: items =>
      if negb (bool_decide (im_ModelName m = modelName)) then resync_loop modelName items oldest k
      else ReadPool (λ pool,
        match pool with
        | None => return_after Unlock (Panic NilDereference)
        | Some pool => resync_loop modelName items (resync_step modelName (ip_Name pool) oldest m) k
        end)
  end.

Definition ModelResync_code (c : Client) (modelName : string) : code :=
  locked (ReadPool (λ pool,
    match pool with
    | None => return_after Unlock (Panic NilDereference)
    | Some pool =>
        match List_models c modelName (ip_Namespace pool) with
        | inr e =>
            return_after Unlock (Val (RetResync false
              (Some (WrapError ("listing models that match the modelName " +:+ modelName +:+ ": ") e))))
        | inl items =>
            resync_loop modelName items None (λ oldest,
              match oldest with
              | None => return_after Unlock (Val (RetResync false None))
              | Some oldest =>
                  WriteModel modelName (Some oldest) (return_after Unlock (Val (RetResync true None)))
              end)
        end
    end)).

Definition ModelGet_code (modelName : string) : code :=
  Act RLock (ReadModel modelName (λ m, return_after RUnlock (Val (RetModel m)))).

Definition ModelDelete_code (n : NamespacedName) : code :=
  locked (RangeModels (λ models,
    match filter (λ km : string * InferenceModel,
                    om_Name (im_ObjectMeta km.2) = nn_Name n
                    ∧ om_Namespace (im_ObjectMeta km.2) = nn_Namespace n)
                 (map_range models) with
    | [] => return_after Unlock (Val (RetModel None))
    | (_, m) :: _ => WriteModel (im_ModelName m) None (return_after Unlock (Val (RetModel (Some m))))
    end)).

Definition ModelGetAll_code : code :=
  Act RLock (RangeModels (λ models, return_after RUnlock (Val (RetModels (map_range models).*2)))).

Inductive ds_op :=
  | OpClear
  | OpPoolSet (pool : InferencePool)
  | OpPoolGet
  | OpPoolHasSynced
  | OpPoolLabelsMatch (podLabels : gmap string string)
  | OpModelSetIfOlder (m : InferenceModel)
  | OpModelResync (c : Client) (modelName : string)
  | OpModelGet (modelName : string)
  | OpModelDelete (n : NamespacedName)
  | OpModelGetAll.

Definition op_code (op : ds_op) : code :=
  match op with
  | OpClear => Clear_code
  | OpPoolSet pool => PoolSet_code pool
  | OpPoolGet => PoolGet_code
  | OpPoolHasSynced => PoolHasSynced_code
  | OpPoolLabelsMatch podLabels => PoolLabelsMatch_code podLabels
  | OpModelSetIfOlder m => ModelSetIfOlder_code m
  | OpModelResync c modelName => ModelResync_code c modelName
  | OpModelGet modelName => ModelGet_code modelName
  | OpModelDelete n => ModelDelete_code n
  | OpModelGetAll => ModelGetAll_code
  end.
End operations.

(** ** Goroutines *)

(** The mutex, the store and what is left to do for each goroutine. *)
Record lock_state := mkLockState {
  ls_mutex : rwmutex;
  ls_store : datastore;
  ls_threads : list code
}.

Definition lock_start `{MapOrder} `{Labels} (ops : list ds_op) (ds : datastore) : lock_state :=
  mkLockState (mkMutex 0 false) ds (op_code <$> ops).

(** The next step of goroutine [i]. *)
Definition run_thread (i : nat) (s : lock_state) : option lock_state :=
  c ← ls_threads s !! i;
  '(mu, ds, c) ← code_step c (ls_mutex s) (ls_store s);
  Some (mkLockState mu ds (<[i := c]> (ls_threads s))).

Definition lock_step (s s' : lock_state) : Prop := ∃ i, run_thread i s = Some s'.

Definition returned (c : code) : Prop := ∃ r, c = Done r.

(** No goroutine can move, and one has not returned. *)
Definition deadlocked (s : lock_state) : Prop :=
  (∀ i, run_thread i s = None) ∧ ∃ i c, ls_threads s !! i = Some c ∧ ¬ returned c.

(** *** Races *)

Inductive ds_field := FPool | FModels | FPods.

(** The field the next step accesses, and whether it writes it. *)
Definition access (c : code) : option (bool * ds_field) :=
  match c with
  | Done _ | Act _ _ => None
  | ReadPool _ => Some (false, FPool)
  | WritePool _ _ => Some (true, FPool)
  | ReadModel _ _ | RangeModels _ => Some (false, FModels)
  | WriteModel _ _ _ | MakeModels _ => Some (true, FModels)
  | ClearPods _ => Some (true, FPods)
  end.

(** Nobody else is about to access a field that is about to be written. *)
Definition race_free (s : lock_state) : Prop :=
  ∀ i j ci cj f w, i ≠ j → ls_threads s !! i = Some ci → ls_threads s !! j = Some cj →
    access ci = Some (true, f) → access cj ≠ Some (w, f).

(** ** Atomic operations *)

(** The operations as functions of the store; a panic leaves it as it is. *)
Definition atomically {A} (f : outcome (A * datastore)) (g : A → ret) (ds : datastore)
  : outcome ret * datastore :=
  match f with
  | Val (a, ds') => (Val (g a), ds')
  | Panic p => (Panic p, ds)
  end.

Definition op_atomic `{MapOrder} `{Labels} (op : ds_op) (ds : datastore) : outcome ret * datastore :=
  match op with
  | OpClear => (Val RetNone, Clear ds)
  | OpPoolSet pool => (Val RetNone, PoolSet pool ds)
  | OpPoolGet =>
      (Val (match PoolGet ds with inl p => RetPool (Some p) None | inr e => RetPool None (Some e) end), ds)
  | OpPoolHasSynced => (Val (RetBool (PoolHasSynced ds)), ds)
  | OpPoolLabelsMatch podLabels => (RetBool <$> PoolLabelsMatch podLabels ds, ds)
  | OpModelSetIfOlder m => atomically (Val (ModelSetIfOlder m ds)) RetBool ds
  | OpModelResync c modelName => atomically (ModelResync c modelName ds) (λ be, RetResync be.1 be.2) ds
  | OpModelGet modelName => (Val (RetModel (ModelGet modelName ds)), ds)
  | OpModelDelete n => atomically (Val (ModelDelete n ds)) RetModel ds
  | OpModelGetAll => (Val (RetModels (ModelGetAll ds)), ds)
  end.

(** Operations executed one after the other: the store and the answers given so far. *)
Record atomic_state := mkAtomic {
  as_store : datastore;
  as_answers : list (option (outcome ret))
}.

Definition atomic_start (ops : list ds_op) (ds : datastore) : atomic_state :=
  mkAtomic ds (replicate (length ops) None).

(** Operation [i] is executed. *)
Definition atomic_step `{MapOrder} `{Labels} (ops : list ds_op) (a a' : atomic_state) : Prop :=
  ∃ i op, ops !! i = Some op ∧ as_answers a !! i = Some None
    ∧ a' = mkAtomic (op_atomic op (as_store a)).2
             (<[i := Some (op_atomic op (as_store a)).1]> (as_answers a)).

(** ** Discipline

    What a goroutine holds, and the programs that keep to it: fields are read inside the
    lock and written inside the write lock, and nothing follows the last unlock. *)

Inductive hold :=
  | Fresh
  | Reading (more : nat)  (** the read lock, [more] times more than once *)
  | Barring
  | Writing
  | Over.

#[global] Instance hold_eq_dec : EqDecision hold.
Proof. solve_decision. Defined.

Definition inside (h : hold) : Prop :=
  match h with Reading _ | Writing => True | _ => False end.

(** [nested]: the read lock may be taken again. *)
Inductive disciplined (nested : bool) : hold → code → Prop :=
  | d_done r : disciplined nested Over (Done r)
  | d_rlock k : disciplined nested (Reading 0) k → disciplined nested Fresh (Act RLock k)
  | d_again n k : nested = true →
      disciplined nested (Reading (S n)) k → disciplined nested (Reading n) (Act RLock k)
  | d_back n k : disciplined nested (Reading n) k → disciplined nested (Reading (S n)) (Act RUnlock k)
  | d_runlock k : disciplined nested Over k → disciplined nested (Reading 0) (Act RUnlock k)
  | d_lock k : disciplined nested Barring k → disciplined nested Fresh (Act Lock k)
  | d_drain k : disciplined nested Writing k → disciplined nested Barring (Act Drain k)
  | d_unlock k : disciplined nested Over k → disciplined nested Writing (Act Unlock k)
  | d_readPool h k : inside h → (∀ p, disciplined nested h (k p)) → disciplined nested h (ReadPool k)
  | d_readModel h name k : inside h →
      (∀ m, disciplined nested h (k m)) → disciplined nested h (ReadModel name k)
  | d_range h k : inside h → (∀ ms, disciplined nested h (k ms)) → disciplined nested h (RangeModels k)
  | d_writePool p k : disciplined nested Writing k → disciplined nested Writing (WritePool p k)
  | d_writeModel name m k : disciplined nested Writing k → disciplined nested Writing (WriteModel name m k)
  | d_make k : disciplined nested Writing k → disciplined nested Writing (MakeModels k)
  | d_clear k : disciplined nested Writing k → disciplined nested Writing (ClearPods k).

Create HintDb locking.
#[local] Hint Constructors disciplined : locking.
#[local] Hint Extern 1 (inside _) => exact I : locking.

Section discipline.
Context `{MapOrder} `{Labels}.

Lemma resync_loop_disciplined nested modelName items oldest k :
  (∀ o, disciplined nested Writing (k o)) → disciplined nested Writing (resync_loop modelName items oldest k).
Proof.
  intros Hk. revert oldest. induction items as [|m items IH]; intros oldest; cbn [resync_loop]; [done|].
  case_match; [auto|]. constructor; [done|]. intros [pool|]; [auto|]. unfold return_after. auto with locking.
Qed.

Lemma op_disciplined nested op : op ≠ OpPoolGet ∨ nested = true → disciplined nested Fresh (op_code op).
Proof.
  intros Hop. destruct op; cbn [op_code]; try solve [repeat constructor].
  - destruct Hop as [?| ->]; [done|]. apply d_rlock, d_again; [done|]. constructor; [done|]. intros p.
    apply d_back. case_match; repeat constructor.
  - apply d_lock, d_drain. constructor; [done|]. intros [existing|]; cbv zeta; [case_match|]; repeat constructor.
  - apply d_lock, d_drain. constructor; [done|]. intros [pool|]; [|repeat constructor]. case_match; [|repeat constructor].
    apply resync_loop_disciplined. intros [oldest|]; repeat constructor.
  - apply d_lock, d_drain. constructor; [done|]. intros models.
    destruct (filter _ _) as [|[k m] l]; repeat constructor.
Qed.
End discipline.

(** ** A program on its own *)

(** The program run to its end, the mutex aside. *)
Fixpoint run_alone (c : code) (ds : datastore) : outcome ret * datastore :=
  match c with
  | Done r => (r, ds)
  | Act _ k => run_alone k ds
  | ReadPool k => run_alone (k (ds_pool ds)) ds
  | WritePool pool k => run_alone k (set_pool pool ds)
  | ReadModel name k => run_alone (k (ds_models ds !! name)) ds
  | RangeModels k => run_alone (k (ds_models ds)) ds
  | WriteModel name m k => run_alone k (write_model name m ds)
  | MakeModels k => run_alone k (set_models ∅ ds)
  | ClearPods k => run_alone k (set_pods ∅ ds)
  end.

Section alone.
Context `{MapOrder} `{Labels}.

Lemma run_resync_loop modelName pool items oldest k ds :
  ds_pool ds = Some pool →
  run_alone (resync_loop modelName items oldest k) ds
  = run_alone (k (foldl (resync_step modelName (ip_Name pool)) oldest items)) ds.
Proof.
  intros Hp. revert oldest. induction items as [|m items IH]; intros oldest; cbn [resync_loop foldl]; [done|].
  case_bool_decide as Hm; cbn [negb].
  - cbn [run_alone]. rewrite Hp. apply IH.
  - rewrite IH. unfold resync_step at 3, resync_candidate. by rewrite bool_decide_false.
Qed.

(** The operation, undisturbed, is the function of [Datastore]. *)
Lemma run_op op ds : run_alone (op_code op) ds = op_atomic op ds.
Proof.
  destruct ds as [pool models pods heap].
  destruct op; try done; cbn [op_code op_atomic].
  - by destruct pool.
  - cbn. by destruct pool.
  - unfold ModelSetIfOlder, write_model. cbn. unfold ModelSetIfOlder. simpl.
    destruct (models !! im_ModelName m); [|done]. cbv zeta. by destruct (_ && _).
  - unfold ModelResync_code, ModelResync, locked. cbn [run_alone ds_pool]. destruct pool as [pool|]; [|done].
    run_outcome. cbn [deref mbind outcome_bind]. destruct (List_models _ _ _) as [items|e]; [|done].
    rewrite (run_resync_loop modelName pool) by done. by destruct (foldl _ _ _).
  - unfold ModelDelete_code, ModelDelete, locked. cbn [run_alone ds_models].
    by destruct (filter _ _) as [|[k m] l].
Qed.

(** A reader leaves the store as it is. *)
Lemma reader_pure nested n c ds :
  disciplined nested (Reading n) c ∨ disciplined nested Over c → (run_alone c ds).2 = ds.
Proof.
  intros Hc. assert (∃ h, h ≠ Writing ∧ h ≠ Barring ∧ h ≠ Fresh ∧ disciplined nested h c) as (h & H1 & H2 & H3 & Hd)
    by (destruct Hc; [exists (Reading n)|exists Over]; done). clear Hc.
  induction Hd; try done; cbn [run_alone]; auto.
Qed.
End alone.

(** ** Sums over goroutines *)

Definition total {A} (f : A → nat) (ts : list A) : nat := foldr (λ t n, f t + n)%nat 0%nat ts.

Lemma total_insert {A} (f : A → nat) ts i x y :
  ts !! i = Some x → (total f (<[i := y]> ts) + f x = total f ts + f y)%nat.
Proof.
  revert i. induction ts as [|t ts IH]; intros [|i] Hi; simpl in *; simplify_eq; [lia|].
  specialize (IH i Hi). lia.
Qed.

Lemma total_member {A} (f : A → nat) ts i x : ts !! i = Some x → (f x <= total f ts)%nat.
Proof.
  revert i. induction ts as [|t ts IH]; intros [|i] Hi; simpl in *; simplify_eq; [lia|].
  specialize (IH i Hi). lia.
Qed.

Lemma total_members {A} (f : A → nat) ts i j x y :
  i ≠ j → ts !! i = Some x → ts !! j = Some y → (f x + f y <= total f ts)%nat.
Proof.
  revert i j. induction ts as [|t ts IH]; intros [|i] [|j] Hne Hi Hj; simpl in *; simplify_eq.
  - pose proof (total_member f ts j y Hj). lia.
  - pose proof (total_member f ts i x Hi). lia.
  - specialize (IH i j ltac:(congruence) Hi Hj). lia.
Qed.

Lemma total_pos {A} (f : A → nat) ts : (0 < total f ts)%nat → ∃ i x, ts !! i = Some x ∧ (0 < f x)%nat.
Proof.
  induction ts as [|t ts IH]; simpl; [lia|]. intros Hpos.
  destruct (decide (0 < f t)%nat) as [Ht|Ht]; [by exists 0%nat, t|].
  destruct IH as (i & x & Hi & Hx); [lia|]. by exists (S i), x.
Qed.

Lemma total_zero {A} (f : A → nat) ts : (∀ i x, ts !! i = Some x → f x = 0%nat) → total f ts = 0%nat.
Proof.
  intros Hz. destruct (decide (0 < total f ts)%nat) as [(i & x & Hi & Hx)%total_pos|]; [|lia].
  rewrite (Hz i x Hi) in Hx. lia.
Qed.

(** ** The invariant of the mutex *)

Definition read_depth (h : hold) : nat := match h with Reading n => S n | _ => 0 end.
Definition bars (h : hold) : nat := match h with Barring | Writing => 1 | _ => 0 end.

(** What a goroutine holds after a step. *)
Definition next_hold (h : hold) (c : code) : hold :=
  match c, h with
  | Act RLock _, Fresh => Reading 0
  | Act RLock _, Reading n => Reading (S n)
  | Act RUnlock _, Reading (S n) => Reading n
  | Act Lock _, _ => Barring
  | Act Drain _, _ => Writing
  | Act _ _, _ => Over
  | _, _ => h
  end.

(** The goroutines hold what the mutex says they hold. *)
Record lock_inv (nested : bool) (hs : list hold) (s : lock_state) : Prop := {
  li_threads : Forall2 (disciplined nested) hs (ls_threads s);
  li_readers : mu_readers (ls_mutex s) = total read_depth hs;
  li_writer : total bars hs = if mu_writer (ls_mutex s) then 1%nat else 0%nat;
  li_excl : ∀ i, hs !! i = Some Writing → mu_readers (ls_mutex s) = 0%nat
}.

Lemma next_disciplined nested h c mu ds mu' ds' c' :
  disciplined nested h c → code_step c mu ds = Some (mu', ds', c') → disciplined nested (next_hold h c) c'.
Proof.
  intros Hd Hs. destruct Hd; cbn [code_step] in Hs; try (destruct (act _ _); cbn in Hs); simplify_eq;
    cbn [next_hold]; auto.
Qed.

(** One step and the mutex. *)
Lemma step_counts nested h c mu ds mu' ds' c' :
  disciplined nested h c → code_step c mu ds = Some (mu', ds', c') → (read_depth h <= mu_readers mu)%nat →
  (bars h <= if mu_writer mu then 1 else 0)%nat →
  (mu_readers mu' + read_depth h = mu_readers mu + read_depth (next_hold h c))%nat
  ∧ ((if mu_writer mu' then 1 else 0) + bars h = (if mu_writer mu then 1 else 0) + bars (next_hold h c))%nat
  ∧ (next_hold h c = Writing → h ≠ Writing → mu_readers mu' = 0%nat)
  ∧ (mu_writer mu = true → mu_readers mu' <= mu_readers mu)%nat.
Proof.
  destruct mu as [n w]. intros Hd Hs Hr Hb.
  destruct Hd; simpl in *; simplify_eq; try (destruct w; simplify_eq/=; repeat split; intros; (lia || done)).
  destruct n; simplify_eq/=. destruct w; repeat split; intros; lia.
Qed.

(** A step, seen from the invariant. *)
Lemma run_thread_inv nested hs s i s' :
  lock_inv nested hs s → run_thread i s = Some s' →
  ∃ h c mu ds c', hs !! i = Some h ∧ ls_threads s !! i = Some c ∧ disciplined nested h c
    ∧ code_step c (ls_mutex s) (ls_store s) = Some (mu, ds, c')
    ∧ s' = mkLockState mu ds (<[i := c']> (ls_threads s)).
Proof.
  intros [Hts _ _ _] Hi. unfold run_thread in Hi.
  destruct (ls_threads s !! i) as [c|] eqn:Hc; [|done]. cbn in Hi.
  destruct (code_step c _ _) as [[[mu ds] c']|] eqn:Hs; [|done]. cbn in Hi. simplify_eq.
  destruct (Forall2_lookup_r _ _ _ _ _ Hts Hc) as (h & Hh & Hd). by exists h, c, mu, ds, c'.
Qed.

Lemma lock_step_inv nested hs s i s' h c :
  lock_inv nested hs s → run_thread i s = Some s' → hs !! i = Some h → ls_threads s !! i = Some c →
  lock_inv nested (<[i := next_hold h c]> hs) s'.
Proof.
  intros Hinv Hrun Hh Hc.
  destruct (run_thread_inv _ _ _ _ _ Hinv Hrun) as (h' & c0 & mu & ds & c' & Hh' & Hc0 & Hd & Hs & ->).
  rewrite Hh in Hh'. rewrite Hc in Hc0. simplify_eq. destruct Hinv as [Hts Hr Hw Hex].
  pose proof (total_insert read_depth hs i _ (next_hold h' c0) Hh) as Hir.
  pose proof (total_insert bars hs i _ (next_hold h' c0) Hh) as Hiw.
  pose proof (total_member read_depth hs i _ Hh) as Hmr. pose proof (total_member bars hs i _ Hh) as Hmb.
  destruct (step_counts nested h' c0 _ _ _ _ _ Hd Hs) as (Hn & Hb & Hx & Hle); [lia|lia|].
  split; cbn [ls_threads ls_mutex].
  - apply Forall2_insert; [done|]. by eapply next_disciplined.
  - lia.
  - lia.
  - intros j [(<- & Hj & _)|[Hne Hj]]%list_lookup_insert_Some.
    + destruct (decide (h' = Writing)) as [->|Hnw]; [|auto].
      specialize (Hex _ Hh). pose proof (total_member bars hs i _ Hh) as Hm. simpl in Hm.
      destruct (mu_writer (ls_mutex s)); [|lia]. lia.
    + specialize (Hex _ Hj). pose proof (total_member bars hs j _ Hj) as Hm. simpl in Hm.
      destruct (mu_writer (ls_mutex s)); [|lia]. lia.
Qed.

(** Who is alone inside. *)
Lemma writer_alone nested hs s i j h :
  lock_inv nested hs s → hs !! i = Some Writing → i ≠ j → hs !! j = Some h → ¬ inside h.
Proof.
  intros [_ Hr Hw Hex] Hi Hne Hj Hin. destruct h as [|n| | |]; try done.
  - pose proof (total_member read_depth hs j _ Hj) as Hm. rewrite <-Hr, (Hex i Hi) in Hm. simpl in Hm. lia.
  - pose proof (total_members bars hs i j _ _ Hne Hi Hj) as Hm. simpl in Hm.
    destruct (mu_writer (ls_mutex s)); lia.
Qed.

Lemma no_bars nested hs s i h :
  lock_inv nested hs s → mu_writer (ls_mutex s) = false → hs !! i = Some h → bars h = 0%nat.
Proof.
  intros [_ _ Hw _] Hf Hi. pose proof (total_member bars hs i _ Hi) as Hm. rewrite Hf in Hw. lia.
Qed.

(** ** The simulation *)

Section simulation.
Context `{MapOrder} `{Labels} (ops : list ds_op).

(** Where a goroutine stands, and what it will answer: outside, its operation has not
    been executed; inside and afterwards it has, and the program ends with its answer. *)
Definition linked (ds spec : datastore) (h : hold) (c : code) (op : ds_op)
    (answer : option (outcome ret)) : Prop :=
  match h with
  | Fresh | Barring => answer = None ∧ ∀ d, run_alone c d = op_atomic op d
  | Reading _ => ∃ r, answer = Some r ∧ run_alone c ds = (r, ds)
  | Writing => ∃ r, answer = Some r ∧ run_alone c ds = (r, spec)
  | Over => ∃ r, answer = Some r ∧ c = Done r
  end.

Record simulates (hs : list hold) (s : lock_state) (a : atomic_state) : Prop := {
  si_linked : ∀ i h c, hs !! i = Some h → ls_threads s !! i = Some c →
    ∃ op answer, ops !! i = Some op ∧ as_answers a !! i = Some answer
      ∧ linked (ls_store s) (as_store a) h c op answer;
  si_store : (∀ i, hs !! i ≠ Some Writing) → ls_store s = as_store a
}.

(** A step that keeps the store and the answers. *)
Lemma simulates_quiet hs s a i h c h' c' mu :
  simulates hs s a → hs !! i = Some h → ls_threads s !! i = Some c →
  (∀ op answer, linked (ls_store s) (as_store a) h c op answer →
     linked (ls_store s) (as_store a) h' c' op answer) →
  (h = Writing → h' ≠ Writing → ls_store s = as_store a) →
  simulates (<[i := h']> hs) (mkLockState mu (ls_store s) (<[i := c']> (ls_threads s))) a.
Proof.
  intros [Hl Hst] Hi Hc Hlink Hw. split; cbn [ls_threads ls_store].
  - intros j hj cj Hj Hcj. destruct (decide (i = j)) as [<-|Hne].
    + rewrite list_lookup_insert_eq in Hj by (by eapply lookup_lt_Some).
      rewrite list_lookup_insert_eq in Hcj by (by eapply lookup_lt_Some). simplify_eq.
      destruct (Hl i h c Hi Hc) as (op & answer & Hop & Ha & Hk). eauto 6.
    + rewrite list_lookup_insert_ne in Hj by done. rewrite list_lookup_insert_ne in Hcj by done. eauto.
  - intros Hno. destruct (decide (h = Writing)) as [->|Hne].
    + apply Hw; [done|]. intros ->. apply (Hno i), list_lookup_insert_eq. by eapply lookup_lt_Some.
    + apply Hst. intros j Hj. destruct (decide (i = j)) as [<-|Hne']; [congruence|].
      apply (Hno j). by rewrite list_lookup_insert_ne.
Qed.

(** The writer's own steps on the store. *)
Lemma simulates_write nested hs s a i c c' ds :
  lock_inv nested hs s → simulates hs s a → hs !! i = Some Writing → ls_threads s !! i = Some c →
  run_alone c' ds = run_alone c (ls_store s) →
  simulates hs (mkLockState (ls_mutex s) ds (<[i := c']> (ls_threads s))) a.
Proof.
  intros Hinv [Hl _] Hi Hc Heq. split; cbn [ls_threads ls_store]; [|by intros Hno; by apply Hno in Hi].
  intros j hj cj Hj Hcj. destruct (decide (i = j)) as [<-|Hne].
  - rewrite list_lookup_insert_eq in Hcj by (by eapply lookup_lt_Some). rewrite Hi in Hj. simplify_eq.
    destruct (Hl i _ c Hi Hc) as (op & answer & Hop & Ha & r & -> & Hr). exists op, (Some r).
    split; [done|]. split; [done|]. exists r. by rewrite Heq.
  - rewrite list_lookup_insert_ne in Hcj by done. pose proof (writer_alone _ _ _ _ _ _ Hinv Hi Hne Hj).
    destruct (Hl j hj cj Hj Hcj) as (op & answer & Hop & Ha & Hk). exists op, answer. by destruct hj.
Qed.

(** A goroutine that enters executes its operation. *)
Lemma simulates_enter hs s a i h c h' c' mu :
  simulates hs s a → hs !! i = Some h → ls_threads s !! i = Some c → h = Fresh ∨ h = Barring →
  (∀ j, hs !! j ≠ Some Writing) → (∀ d, run_alone c' d = run_alone c d) →
  h' = Writing ∨ (∃ n, h' = Reading n) ∧ (run_alone c' (ls_store s)).2 = ls_store s →
  ∃ a', atomic_step ops a a'
    ∧ simulates (<[i := h']> hs) (mkLockState mu (ls_store s) (<[i := c']> (ls_threads s))) a'.
Proof.
  intros [Hl Hst] Hi Hc Hh Hno Hc' Hh'. specialize (Hst Hno).
  destruct (Hl i h c Hi Hc) as (op & answer & Hop & Ha & Hk).
  assert (answer = None ∧ ∀ d, run_alone c d = op_atomic op d) as [-> Hrun] by (by destruct Hh as [->| ->]).
  pose proof (Hrun (ls_store s)) as Hr. destruct (op_atomic op (ls_store s)) as [r d] eqn:Hexec.
  rewrite Hc', Hr in Hh'. exists (mkAtomic d (<[i := Some r]> (as_answers a))).
  split; [exists i, op; by rewrite <-Hst, Hexec|].
  split; cbn [ls_threads ls_store as_store as_answers].
  - intros j hj cj Hj Hcj. destruct (decide (i = j)) as [<-|Hne].
    + rewrite list_lookup_insert_eq in Hj by (by eapply lookup_lt_Some).
      rewrite list_lookup_insert_eq in Hcj by (by eapply lookup_lt_Some). simplify_eq.
      exists op, (Some r). split; [done|]. split; [apply list_lookup_insert_eq; by eapply lookup_lt_Some|].
      destruct Hh' as [->|[[n ->] Hpure]]; exists r; rewrite Hc', Hr; [done|]. simpl in Hpure. by subst d.
    + rewrite list_lookup_insert_ne in Hj by done. rewrite list_lookup_insert_ne in Hcj by done.
      rewrite list_lookup_insert_ne by done.
      destruct (Hl j hj cj Hj Hcj) as (op' & answer & Hop' & Ha' & Hk'). exists op', answer.
      split; [done|]. split; [done|]. destruct hj; try done. by apply Hno in Hj.
  - intros Hno'. destruct Hh' as [->|[_ Hpure]]; [|done].
    exfalso. apply (Hno' i), list_lookup_insert_eq. by eapply lookup_lt_Some.
Qed.

Lemma over_done nested k : disciplined nested Over k → ∃ r, k = Done r.
Proof. inversion 1; subst; [eauto|by match goal with Hi : inside Over |- _ => destruct Hi end..]. Qed.

(** The steps between entering and leaving that do not write. *)
Lemma simulates_read hs s a i h c c' mu :
  simulates hs s a → hs !! i = Some h → ls_threads s !! i = Some c → inside h →
  run_alone c' (ls_store s) = run_alone c (ls_store s) →
  simulates (<[i := h]> hs) (mkLockState mu (ls_store s) (<[i := c']> (ls_threads s))) a.
Proof.
  intros Hsim Hi Hc Hin Heq. eapply simulates_quiet; [done..| |done].
  intros op answer. destruct h; try done; cbn [linked]; by rewrite Heq.
Qed.

Lemma simulates_step nested hs s a i s' h c :
  lock_inv nested hs s → simulates hs s a → run_thread i s = Some s' →
  hs !! i = Some h → ls_threads s !! i = Some c →
  ∃ a', rtc (atomic_step ops) a a' ∧ simulates (<[i := next_hold h c]> hs) s' a'.
Proof.
  intros Hinv Hsim Hrun Hh Hc.
  destruct (run_thread_inv _ _ _ _ _ Hinv Hrun) as (h' & c0 & mu & ds & c' & Hh' & Hc0 & Hd & Hs & ->).
  rewrite Hh in Hh'. rewrite Hc in Hc0. simplify_eq.
  assert (∀ b, next_hold h' c0 = h' → ds = ls_store s → inside h' →
    run_alone c' (ls_store s) = run_alone c0 (ls_store s) → b = a →
    ∃ a', rtc (atomic_step ops) b a'
      ∧ simulates (<[i := next_hold h' c0]> hs) (mkLockState mu ds (<[i := c']> (ls_threads s))) a') as Hread.
  { intros b -> -> Hin Heq ->. exists a. split; [apply rtc_refl|]. by eapply simulates_read. }
  assert (h' = Writing → mu = ls_mutex s → next_hold h' c0 = h' →
    run_alone c' ds = run_alone c0 (ls_store s) →
    ∃ a', rtc (atomic_step ops) a a'
      ∧ simulates (<[i := next_hold h' c0]> hs) (mkLockState mu ds (<[i := c']> (ls_threads s))) a') as Hwrite.
  { intros -> -> -> Heq. exists a. split; [apply rtc_refl|]. rewrite list_insert_id by done.
    by eapply simulates_write. }
  destruct Hd; cbn [code_step] in Hs; try (destruct (act _ _) as [mu'|] eqn:Hact; cbn in Hs; [|done]);
    simplify_eq; try (by apply (Hread a)); try (by apply Hwrite); clear Hread Hwrite; cbn [next_hold].
  - destruct (simulates_enter hs s a i Fresh (Act RLock c') (Reading 0) c' mu) as (a' & Ha & Hs'); auto.
    + intros j Hj. cbn in Hact. destruct (mu_writer (ls_mutex s)) eqn:Hw; [done|].
      by pose proof (no_bars _ _ _ _ _ Hinv Hw Hj).
    + right. split; [eauto|]. eapply reader_pure. by left.
    + exists a'. split; [by apply rtc_once|done].
  - exists a. split; [apply rtc_refl|]. by eapply simulates_quiet.
  - exists a. split; [apply rtc_refl|]. by eapply simulates_quiet.
  - exists a. split; [apply rtc_refl|]. eapply simulates_quiet; [done..| |done].
    intros op answer (r & -> & Hr). destruct (over_done _ _ Hd) as [r' ->]. cbn in Hr. simplify_eq. by exists r.
  - exists a. split; [apply rtc_refl|]. by eapply simulates_quiet.
  - destruct (simulates_enter hs s a i Barring (Act Drain c') Writing c' mu) as (a' & Ha & Hs'); auto.
    + intros j Hj. destruct (decide (i = j)) as [<-|Hne]; [congruence|].
      pose proof (total_members bars hs i j _ _ Hne Hh Hj) as Hm. simpl in Hm.
      pose proof (li_writer _ _ _ Hinv). destruct (mu_writer _); lia.
    + exists a'. split; [by apply rtc_once|done].
  - exists a. split; [apply rtc_refl|]. destruct (over_done _ _ Hd) as [r' ->].
    destruct (si_linked _ _ _ Hsim _ _ _ Hh Hc) as (op & answer & _ & _ & r & _ & Hr). cbn in Hr. simplify_eq.
    eapply simulates_quiet; [done..| |done]. intros op' answer' (r'' & -> & Hr'). cbn in Hr'. simplify_eq. by eexists.
Qed.
End simulation.

(** ** Reachable states *)

Section reachable.
Context `{MapOrder} `{Labels} (ops : list ds_op) (ds : datastore).

Lemma lock_start_inv nested :
  (∀ op, op ∈ ops → op ≠ OpPoolGet ∨ nested = true) →
  lock_inv nested (replicate (length ops) Fresh) (lock_start ops ds).
Proof.
  intros Hops. assert (∀ i h, replicate (length ops) Fresh !! i = Some h → h = Fresh) as Hfresh
    by (by intros i h [-> _]%lookup_replicate).
  split; cbn [lock_start ls_threads ls_mutex mu_readers mu_writer].
  - apply Forall2_same_length_lookup. split; [by rewrite length_replicate, length_fmap|].
    intros i h c ->%Hfresh. rewrite list_lookup_fmap. intros (op & Hop & ->)%fmap_Some.
    apply op_disciplined, Hops. by eapply list_elem_of_lookup_2.
  - symmetry. apply total_zero. by intros i h ->%Hfresh.
  - apply total_zero. by intros i h ->%Hfresh.
  - done.
Qed.

Lemma start_simulates : simulates ops (replicate (length ops) Fresh) (lock_start ops ds) (atomic_start ops ds).
Proof.
  split; [|done]. intros i h c [-> _]%lookup_replicate. cbn [lock_start ls_threads].
  rewrite list_lookup_fmap. intros (op & Hop & ->)%fmap_Some. exists op, None.
  split; [done|]. split; [|split; [done|apply run_op]].
  apply lookup_replicate. split; [done|]. by eapply lookup_lt_Some.
Qed.

Lemma reachable_inv nested s :
  (∀ op, op ∈ ops → op ≠ OpPoolGet ∨ nested = true) → rtc lock_step (lock_start ops ds) s →
  ∃ hs a, lock_inv nested hs s ∧ rtc (atomic_step ops) (atomic_start ops ds) a ∧ simulates ops hs s a.
Proof.
  intros Hops Hs. revert s Hs. refine (rtc_ind_r _ _ _ _).
  - eexists _, _. split; [by apply lock_start_inv|]. split; [apply rtc_refl|apply start_simulates].
  - intros s s' _ [i Hi] (hs & a & Hinv & Ha & Hsim).
    destruct (run_thread_inv _ _ _ _ _ Hinv Hi) as (h & c & _ & _ & _ & Hh & Hc & _).
    destruct (simulates_step _ _ _ _ _ _ _ _ _ Hinv Hsim Hi Hh Hc) as (a' & Ha' & Hsim').
    exists (<[i := next_hold h c]> hs), a'. split; [by eapply lock_step_inv|]. split; [by etrans|done].
Qed.
End reachable.

(** Accesses are made inside the lock, writes by the writer. *)
Lemma access_inside nested h c b f : disciplined nested h c → access c = Some (b, f) → inside h ∧ (b = true → h = Writing).
Proof. intros Hd Ha. destruct Hd; simpl in Ha; simplify_eq; done. Qed.

Lemma inv_race_free nested hs s : lock_inv nested hs s → race_free s.
Proof.
  intros Hinv i j ci cj f w Hne Hi Hj Hai Haj. pose proof (li_threads _ _ _ Hinv) as Hts.
  destruct (Forall2_lookup_r _ _ _ _ _ Hts Hi) as (hi & Hhi & Hdi).
  destruct (Forall2_lookup_r _ _ _ _ _ Hts Hj) as (hj & Hhj & Hdj).
  destruct (access_inside _ _ _ _ _ Hdi Hai) as [_ Hw]. rewrite (Hw eq_refl) in Hhi.
  apply (writer_alone _ _ _ _ _ _ Hinv Hhi Hne Hhj). by eapply access_inside.
Qed.

(** ** Progress *)

(** Inside, a program without nested read locks never blocks. *)
Lemma inside_moves h c mu ds : disciplined false h c → inside h → is_Some (code_step c mu ds).
Proof. intros Hd Hin. destruct Hd; try done; by eexists. Qed.

Lemma thread_moves s i c : ls_threads s !! i = Some c → is_Some (code_step c (ls_mutex s) (ls_store s)) →
  ∃ s', lock_step s s'.
Proof.
  intros Hi [[[mu ds] c'] Hs]. eexists _, i. unfold run_thread. rewrite Hi. cbn. by rewrite Hs.
Qed.

Lemma simple_progress hs s i c :
  lock_inv false hs s → ls_threads s !! i = Some c → ¬ returned c → ∃ s', lock_step s s'.
Proof.
  intros [Hts Hr Hw _] Hi Hret.
  assert (∀ j h, hs !! j = Some h → ∃ cj, ls_threads s !! j = Some cj ∧ disciplined false h cj) as Hl
    by (intros j h Hj; by apply (Forall2_lookup_l _ _ _ _ _ Hts Hj)).
  destruct (decide (0 < mu_readers (ls_mutex s))%nat) as [Hn|Hn].
  { rewrite Hr in Hn. apply total_pos in Hn as (j & h & Hj & Ht). destruct h; try (simpl in Ht; lia).
    destruct (Hl j _ Hj) as (cj & Hcj & Hd). eapply thread_moves; [exact Hcj|]. by eapply inside_moves. }
  destruct (mu_writer (ls_mutex s)) eqn:Hmw.
  - assert (0 < total bars hs)%nat as (j & h & Hj & Ht)%total_pos by lia.
    destruct (Hl j _ Hj) as (cj & Hcj & Hd). eapply thread_moves; [exact Hcj|].
    destruct h; try (simpl in Ht; lia); [|by eapply inside_moves].
    inversion Hd; subst; try done. cbn. assert (mu_readers (ls_mutex s) = 0%nat) as -> by lia. by eexists.
  - destruct (Forall2_lookup_r _ _ _ _ _ Hts Hi) as (h & Hh & Hd). eapply thread_moves; [exact Hi|].
    pose proof (total_member bars hs i _ Hh) as Hm.
    destruct h; [|by eapply inside_moves|simpl in Hm; lia|by eapply inside_moves|].
    + inversion Hd; subst; try done; cbn; rewrite Hmw; by eexists.
    + destruct Hret. by eapply over_done.
Qed.

Lemma done_over nested h r : disciplined nested h (Done r) → h = Over.
Proof. by inversion 1. Qed.

(** * Claims *)

(** C19: operations on the pool and the models can run concurrently.  In every state their
    goroutines can reach, no goroutine is about to write a field another one is about to
    access; the operations that returned gave the answers of an execution in which each
    operation happens at once, as the function of the store it is, and when all have
    returned the store is the one that execution leaves; and when no [PoolGet] runs, some
    goroutine can move until all have returned. *)
Theorem datastore_operations_atomic `{MapOrder} `{Labels} ops ds s :
  rtc lock_step (lock_start ops ds) s →
  race_free s
  ∧ (∃ a, rtc (atomic_step ops) (atomic_start ops ds) a
      ∧ (∀ i r, ls_threads s !! i = Some (Done r) → as_answers a !! i = Some (Some r))
      ∧ (Forall returned (ls_threads s) → ls_store s = as_store a))
  ∧ (OpPoolGet ∉ ops → ¬ deadlocked s).
Proof.
  intros Hs. destruct (reachable_inv ops ds true s) as (hs & a & Hinv & Ha & Hsim); [auto|done|].
  pose proof (li_threads _ _ _ Hinv) as Hts.
  split; [by eapply inv_race_free|]. split.
  - exists a. split; [done|]. split.
    + intros i r Hi. destruct (Forall2_lookup_r _ _ _ _ _ Hts Hi) as (h & Hh & ->%done_over).
      by destruct (si_linked _ _ _ _ Hsim i Over (Done r) Hh Hi) as (op & answer & _ & -> & r' & -> & [= ->]).
    + intros Hall. apply (si_store _ _ _ _ Hsim). intros i Hi.
      destruct (Forall2_lookup_l _ _ _ _ _ Hts Hi) as (c & Hc & Hd).
      destruct (Forall_lookup_1 _ _ _ _ Hall Hc) as [r ->]. by apply done_over in Hd.
  - intros Hops [Hstuck (i & c & Hi & Hret)].
    destruct (reachable_inv ops ds false s) as (hs' & _ & Hinv' & _); [|done|].
    { intros op Hop. left. by intros ->. }
    destruct (simple_progress hs' s i c Hinv' Hi Hret) as (s' & j & Hj). by rewrite Hstuck in Hj.
Qed.

(** C34: [PoolGet] can deadlock, in any store and with any new pool.  It takes the read
    lock, and [PoolHasSynced], which it calls, takes it again; when a writer arrives in
    between, each waits for the other. *)
Theorem pool_get_deadlocks `{MapOrder} `{Labels} pool ds :
  ∃ s, rtc lock_step (lock_start [OpPoolGet; OpPoolSet pool] ds) s ∧ deadlocked s.
Proof.
  eexists. split.
  - eapply rtc_l; [by exists 0%nat|]. eapply rtc_l; [by exists 1%nat|]. apply rtc_refl.
  - split; [by intros [|[|i]]|]. eexists 0%nat, _. split; [done|]. by intros [r ?].
Qed.

(** * Witnesses *)

Definition example_ops : list ds_op := [OpModelGet "m"; OpModelSetIfOlder (example_model "m" 1%Z)].

(** A reader inside while a writer waits. *)
Definition example_contention : lock_state :=
  let s := lock_start (H0 := inclusion_labels) example_ops NewDatastore in
  default s (run_thread 0 s ≫= run_thread 1).

Lemma datastore_operations_atomic_witness :
  mu_writer (ls_mutex example_contention) = true ∧ race_free example_contention ∧ ¬ deadlocked example_contention.
Proof.
  destruct (datastore_operations_atomic (H0 := inclusion_labels) example_ops NewDatastore example_contention)
    as (Hrace & _ & Hfree).
  - eapply rtc_l; [by exists 0%nat|]. eapply rtc_l; [by exists 1%nat|]. apply rtc_refl.
  - split; [reflexivity|]. split; [exact Hrace|]. apply Hfree.
    unfold example_ops. rewrite !elem_of_cons, elem_of_nil. intros [?|[?|?]]; done.
Defined.
