(* ===== verification/Handlers.v ===== *)
(** * pkg/epp/handlers: what the two ext-proc servers share

    [BuildErrResponse] (server.go), [RandomWeightedDraw] and [GetRandomPod]
    (streamingserver.go), the response parsing of response.go, and the interfaces
    through which a server sees the scheduler, the clock, the random source, the
    front end and the stream. *)

From S2P Require Import Prelude GoInt GoStrings Float64 Utf8 JsonNumber Json Api.
From S2P Require Import Errors BackendMetrics Metrics ExtProc Frontend Scheduling Datastore.

Local Open Scope Z_scope.

(** ** Interfaces *)

(** [handlers.Scheduler], over the pods the datastore lists: a call returns, and
    a pod it returns is one of them, with whatever metrics it has by then. *)
Class Scheduler (pods : list PodMetrics) := {
  scheduler_Schedule : LLMRequest → outcome (PodMetrics + error);
  scheduler_total : ∀ req, is_val (scheduler_Schedule req) = true;
  scheduler_picks : ∀ req p, scheduler_Schedule req = Val (inl p) → GetPod p ∈ GetPod <$> pods
}.

(** What a handler finds when one message arrives: the store at each of its three
    reads (a reconciler may change it in between, and a call to the front end may
    take seconds), which are the first one, [ModelGet] or [GetRandomPod], the
    scheduler's listing of the pods, and [PoolGet]; a scheduler for those pods, the
    time, the draws of [Int31n] and [Intn], the answer of the front end, and the
    outcome of each [Send]. *)
Record Env `{MapOrder} := mkEnv {
  env_ds : datastore;
  env_ds_schedule : datastore;
  env_ds_pool : datastore;
  env_scheduler : Scheduler (snapshot <$> PodGetAll env_ds_schedule);
  env_now : Time;
  env_Int31n : Z → Z;
  env_Intn : nat → nat;
  env_frontend : string → fe_result;
  env_send : ProcessingResponse → option error
}.

(** [math/rand]: a draw below a positive bound. *)
Definition draws_ok `{MapOrder} (env : Env) : Prop :=
  (∀ n, 0 < n → 0 <= env_Int31n env n < n) ∧ (∀ n, (0 < n)%nat → (env_Intn env n < n)%nat).

(** The options of a server. *)
Record ServerConfig := mkServerConfig {
  destinationEndpointHintKey : string;
  destinationEndpointHintMetadataNamespace : string
}.

(** [NewServer] and [NewStreamingServer] take the namespace before the key; the scheduler
    and the store are those of [Env]. *)
Definition NewServer (hintMetadataNamespace hintKey : string) : ServerConfig :=
  mkServerConfig hintKey hintMetadataNamespace.

Definition NewStreamingServer (hintMetadataNamespace hintKey : string) : ServerConfig :=
  mkServerConfig hintKey hintMetadataNamespace.

(** ** Errors to Envoy *)

Definition immediate (code : Z) : ProcessingResponse :=
  mkProcessingResponse (Some (RespImmediate code)) None.

(** [BuildErrResponse] *)
Definition BuildErrResponse (err : error) : ProcessingResponse + error :=
  let code := CanonicalCode err in
  if bool_decide (code = InferencePoolResourceExhausted) then inl (immediate StatusTooManyRequests)
  else if bool_decide (code = Internal) then inl (immediate StatusInternalServerError)
  else if bool_decide (code = BadRequest) then inl (immediate StatusBadRequest)
  else if bool_decide (code = BadConfiguration) then inl (immediate StatusNotFound)
  else inr (StatusError (status_Code err) ("failed to handle request: " +:+ error_text err)).

(** ** Model and pod selection *)

(** The second loop of [RandomWeightedDraw]. *)
Fixpoint draw_loop (tms : list TargetModel) (randomVal : Z) : outcome string :=
  match tms with
  | [] => Val ""
  | tm :: tms =>
      w ← deref (tm_Weight tm);
      if randomVal <? w then Val (tm_Name tm) else draw_loop tms (int32_sub randomVal w)
  end.

Fixpoint sum_weights (tms : list TargetModel) (weights : Z) : outcome Z :=
  match tms with
  | [] => Val weights
  | tm :: tms => w ← deref (tm_Weight tm); sum_weights tms (int32_add weights w)
  end.

(** [r.Int31n(n)] panics unless n is positive. *)
Definition Int31n (draw : Z → Z) (n : Z) : outcome Z :=
  if n <=? 0 then Panic InvalidArgument else Val (draw n).

(** [RandomWeightedDraw] *)
Definition RandomWeightedDraw (draw : Z → Z) (model : InferenceModel) : outcome string :=
  let tms := TargetModels (im_Spec model) in
  tm0 ← index tms 0;
  match tm_Weight tm0 with
  | None =>
      i ← Int31n draw (wrap 32 (Z.of_nat (length tms)));
      tm ← index tms (Z.to_nat i);
      Val (tm_Name tm)
  | Some _ =>
      weights ← sum_weights tms 0;
      randomVal ← Int31n draw weights;
      draw_loop tms randomVal
  end.

(** [GetRandomPod]: [rand.Intn] panics on an empty pool. *)
Definition GetRandomPod `{MapOrder} (intn : nat → nat) (ds : datastore) : outcome Pod :=
  let pods := PodGetAll ds in
  match pods with
  | [] => Panic InvalidArgument
  | _ => o ← index pods (intn (length pods)); Val (pm_pod o)
  end.

(** The target model of a request: drawn when the model has targets. *)
Definition resolve_model (draw : Z → Z) (modelObj : InferenceModel) (model : string)
  : outcome (string + error) :=
  match TargetModels (im_Spec modelObj) with
  | [] => Val (inl model)
  | _ =>
      modelName ← RandomWeightedDraw draw modelObj;
      if bool_decide (modelName = "")
      then Val (inr (EppError BadConfiguration
             ("error getting target model name for model " +:+ om_Name (im_ObjectMeta modelObj))))
      else Val (inl modelName)
  end.

Definition model_not_found : error := EppError BadRequest "model not found in request".
Definition no_model_object (model : string) : error :=
  EppError BadConfiguration ("error finding a model object in InferenceModel for input " +:+ model).

(** [rb["model"].(string)] on a map that may be nil. *)
Definition body_model (rb : option fields) : option string :=
  match field "model" (default [] rb) with Some (VString s) => Some s | _ => None end.

(** [targetPod.Address + ":" + strconv.Itoa(int(port))] *)
Definition endpoint_of (address : string) (pool : InferencePool) : string :=
  address +:+ ":" +:+ Itoa (TargetPortNumber (ip_Spec pool)).

(** The endpoint as dynamic metadata, in a namespace when one is configured. *)
Definition endpoint_metadata (s : ServerConfig) (endpoint : string) : list (string * struct_value) :=
  let targetEndpointValue := [(destinationEndpointHintKey s, StringValue endpoint)] in
  if bool_decide (destinationEndpointHintMetadataNamespace s ≠ "")
  then [(destinationEndpointHintMetadataNamespace s, StructValue targetEndpointValue)]
  else targetEndpointValue.

(** The debug header both servers add to the response headers. *)
Definition went_into_resp_headers : ProcessingResponse :=
  mkProcessingResponse
    (Some (RespResponseHeaders
       (mkCommonResponse (Some [("x-went-into-resp-headers", "true")]) None false))) None.

(** ** response.go: token usage *)

Definition streamingRespPrefix : string := "data: ".
Definition streamingEndMsg : string := "data: [DONE]".

(** [json.Unmarshal] into [Usage] and into [Response]: fields by name, null and
    other fields ignored, wrong types skipped and reported. *)
Definition store_usage_member (acc : Usage * bool) (kj : string * json) : Usage * bool :=
  let '(u, e) := acc in
  if same_name kj.1 "prompt_tokens" then
    let '(z, e') := store_int kj.2 (PromptTokens u) in
    (mkUsage z (CompletionTokens u) (TotalTokens u), e || e')
  else if same_name kj.1 "completion_tokens" then
    let '(z, e') := store_int kj.2 (CompletionTokens u) in
    (mkUsage (PromptTokens u) z (TotalTokens u), e || e')
  else if same_name kj.1 "total_tokens" then
    let '(z, e') := store_int kj.2 (TotalTokens u) in
    (mkUsage (PromptTokens u) (CompletionTokens u) z, e || e')
  else (u, e).

Definition store_usage (j : json) (u : Usage) : Usage * bool :=
  match j with
  | JNull => (u, false)
  | JObj l => foldl store_usage_member (u, false) l
  | _ => (u, true)
  end.

Definition store_response_member (acc : Usage * bool) (kj : string * json) : Usage * bool :=
  let '(u, e) := acc in
  if same_name kj.1 "usage" then
    let '(u', e') := store_usage kj.2 u in (u', e || e')
  else (u, e).

Definition UnmarshalResponse (body : string) (u : Usage) : Usage * option json_error :=
  match parse body with
  | None => (u, Some SyntaxError)
  | Some JNull => (u, None)
  | Some (JObj l) =>
      let '(u', e) := foldl store_response_member (u, false) l in
      (u', if e then Some UnmarshalTypeError else None)
  | Some _ => (u, Some UnmarshalTypeError)
  end.

(** [ParseRespForUsage]: every data line but [DONE] is unmarshalled into the same
    response; an error is logged and what was stored before it stays. *)
Definition parse_usage_line (u : Usage) (line : string) : Usage :=
  if negb (HasPrefix line streamingRespPrefix) then u
  else
    let content := TrimPrefix line streamingRespPrefix in
    if bool_decide (content = "[DONE]") then u
    else (UnmarshalResponse content u).1.

Definition ParseRespForUsage (responseText : string) : Usage :=
  foldl parse_usage_line zero_usage (Split responseText LF).

(** The message of the comment in response.go. *)
Example vllm_usage :
  ParseRespForUsage ("data: {" +:+ quote_string "id" +:+ ":1," +:+ quote_string "usage" +:+ ":{"
      +:+ quote_string "prompt_tokens" +:+ ":7," +:+ quote_string "total_tokens" +:+ ":17,"
      +:+ quote_string "completion_tokens" +:+ ":10}}" +:+ String LF (String LF "data: [DONE]"))
  = mkUsage 7 10 17.
Proof. vm_compute. reflexivity. Qed.

(** ** The receive loop

    What a server's stream sees and causes: the metrics recorded and the
    messages sent. *)
Record world := mkWorld {
  w_reg : registry;
  w_sent : list ProcessingResponse
}.

Definition record (f : registry → registry) (w : world) : world :=
  mkWorld (f (w_reg w)) (w_sent w).

(** [srv.Send]: a message that was not accepted is not sent. *)
Definition Send `{MapOrder} (env : Env) (m : ProcessingResponse) (w : world)
  : option error * world :=
  match env_send env m with
  | Some e => (Some e, w)
  | None => (None, mkWorld (w_reg w) (w_sent w ++ [m]))
  end.

Definition send_failed (e : error) : error :=
  StatusError CodeUnknown ("failed to send response back to Envoy: " +:+ error_text e).

(** One turn of the loop: the context is cancelled, or [Recv] returns. *)
Inductive event `{MapOrder} : Type :=
  | CtxDone (e : error)
  | RecvEOF
  | RecvFailed (e : error)
  | Recv (env : Env) (req : ProcessingRequest).

(** How a turn ends: with the next turn, or with the value [Process] returns. *)
Inductive turn (S : Type) : Type :=
  | Continue (s : S)
  | Return (err : option error) (s : S).
Arguments Continue {S} _.
Arguments Return {S} _ _.

Definition text_of (err : option error) : string :=
  match err with None => "<nil>" | Some e => error_text e end.

Section loop.
Context `{MapOrder} {S : Type}.
(** The body of the loop after a message was received, the variable [err] in a
    state, and the deferred function. *)
Variables (handle : Env → ProcessingRequest → S → outcome (turn S))
          (err_of : S → option error) (deferred : S → S).

Definition loop_turn (ev : event) (s : S) : outcome (turn S) :=
  match ev with
  | CtxDone e => Val (Return (Some e) s)
  | RecvEOF => Val (Return None s)
  | RecvFailed e =>
      if bool_decide (status_Code e = CodeCanceled) then Val (Return None s)
      else Val (Return (Some (StatusError CodeUnknown
             ("cannot receive stream request: " +:+ text_of (err_of s)))) s)
  | Recv env req => handle env req s
  end.

(** A stream of turns; [Continue] at the end means the stream is still open. *)
Fixpoint Process_loop (evs : list event) (s : S) : outcome (turn S) :=
  match evs with
  | [] => Val (Continue s)
  | ev :: evs =>
      t ← loop_turn ev s;
      match t with
      | Continue s => Process_loop evs s
      | Return err s => Val (Return err (deferred s))
      end
  end.
End loop.
