(* ===== verification/Server.v ===== *)
(** * handlers/server.go, request.go, response.go: the buffered server

    Envoy sends the whole request body and the whole response body in one message
    each; every message is answered at once. *)

From S2P Require Import Prelude GoInt GoStrings Float64 Utf8 JsonNumber Json Api.
From S2P Require Import Errors BackendMetrics Metrics ExtProc Frontend Scheduling Datastore Handlers.

Local Open Scope Z_scope.

Section server.
Context `{MapOrder} (s : ServerConfig).

(** [HandleRequestBody] (request.go) *)
Definition HandleRequestBody (env : Env) (b : HttpBody) (reqCtx : RequestContext)
  : outcome ((ProcessingResponse + error) * RequestContext) :=
  let body := hb_Body b in
  match UnmarshalMap body None with
  | (_, Some e) =>
      Val (inr (EppError BadRequest
             ("error unmarshaling request body: " +:+ json_error_text e)), reqCtx)
  | (rb, None) =>
      match body_model rb with
      | None => Val (inr model_not_found, reqCtx)
      | Some model =>
          match ModelGet model (env_ds env) with
          | None => Val (inr (no_model_object model), reqCtx)
          | Some modelObj =>
              resolved ← resolve_model (env_Int31n env) modelObj model;
              match resolved with
              | inr e => Val (inr e, reqCtx)
              | inl modelName =>
                  let llmReq := mkLLMRequest model ∅ modelName (IsCritical modelObj) in
                  let requestBody :=
                    if bool_decide (model = modelName) then inl body
                    else MarshalMap (Some (set_field "model" (VString modelName) (default [] rb))) in
                  match requestBody with
                  | inr e =>
                      Val (inr (EppError Internal
                             ("error marshaling request body: " +:+ json_error_text e)), reqCtx)
                  | inl requestBody =>
                      scheduled ← @scheduler_Schedule _ (env_scheduler env) llmReq;
                      match scheduled with
                      | inr e =>
                          Val (inr (EppError InferencePoolResourceExhausted
                                 ("failed to find target pod: " +:+ error_text e)), reqCtx)
                      | inl target =>
                          let targetPod := GetPod target in
                          match PoolGet (env_ds_pool env) with
                          | inr e => Val (inr e, reqCtx)
                          | inl pool =>
                              let endpoint := endpoint_of (Address targetPod) pool in
                              let reqCtx :=
                                set_TargetEndpoint endpoint
                                 (set_TargetPod (NamespacedName_String (Pod_NamespacedName targetPod))
                                  (set_RequestSize (Z.of_nat (String.length body))
                                   (set_ResolvedTargetModel modelName
                                    (set_Model model reqCtx)))) in
                              let headers :=
                                [(destinationEndpointHintKey s, endpoint);
                                 ("Content-Length",
                                  Itoa (Z.of_nat (String.length requestBody)))] in
                              Val (inl (mkProcessingResponse
                                     (Some (RespRequestBody
                                        (mkCommonResponse (Some headers)
                                           (Some (MutationBody requestBody)) false)))
                                     (Some (endpoint_metadata s endpoint))), reqCtx)
                          end
                      end
                  end
              end
          end
      end
  end.

(** [HandleRequestHeaders] (request.go) *)
Definition HandleRequestHeaders : ProcessingResponse :=
  mkProcessingResponse (Some (RespRequestHeaders (mkCommonResponse None None true))) None.

(** The loop of [HandleResponseHeaders] (response.go).  The two flags live in the
    loop body, and [string(code)] of the first byte is a one-character string. *)
Fixpoint response_headers_loop (hs : list Header) (reqCtx : RequestContext)
  : outcome RequestContext :=
  match hs with
  | [] => Val reqCtx
  | (key, rawValue) :: hs =>
      r ← (if bool_decide (key = "status") then
             match rawValue with
             | EmptyString => Panic IndexOutOfRange
             | String code _ =>
                 if negb (bool_decide (encode_rune (ord code) = "200"))
                 then Val (set_ResponseStatusCode ModelServerError reqCtx, true)
                 else Val (reqCtx, false)
             end
           else Val (reqCtx, false));
      let '(reqCtx, statusFound) := r in
      let '(reqCtx, typeFound) :=
        if bool_decide (key = "content-type") then
          (if Contains rawValue "text/event-stream"
           then set_modelServerStreaming true reqCtx else reqCtx, true)
        else (reqCtx, false) in
      if (statusFound : bool) && (typeFound : bool) then Val reqCtx
      else response_headers_loop hs reqCtx
  end.

Definition HandleResponseHeaders (h : HttpHeaders) (reqCtx : RequestContext)
  : outcome (ProcessingResponse * RequestContext) :=
  reqCtx ← response_headers_loop (hh_Headers h) reqCtx;
  Val (went_into_resp_headers, reqCtx).

(** [HandleNonStreaming] *)
Definition HandleNonStreaming (b : HttpBody) (reqCtx : RequestContext)
  : option error * RequestContext :=
  match UnmarshalResponse (hb_Body b) zero_usage with
  | (_, Some e) =>
      (Some (EppError Internal ("unmarshaling response body: " +:+ json_error_text e)), reqCtx)
  | (usage, None) =>
      (None, set_ResponseComplete true
               (set_ResponseSize (Z.of_nat (String.length (hb_Body b)))
                 (set_Usage usage reqCtx)))
  end.

(** [HandleStreaming] *)
Definition HandleStreaming (b : HttpBody) (reqCtx : RequestContext) : RequestContext :=
  let responseText := hb_Body b in
  let reqCtx :=
    if Contains responseText streamingEndMsg
    then set_Usage (ParseRespForUsage responseText) reqCtx else reqCtx in
  if hb_EndOfStream b then set_ResponseComplete true reqCtx
  else set_ResponseSize
         (int_add (rc_ResponseSize reqCtx) (Z.of_nat (String.length (hb_Body b)))) reqCtx.

(** [HandleResponseBody] (response.go) *)
Definition HandleResponseBody (b : HttpBody) (reqCtx : RequestContext)
  : (ProcessingResponse + error) * RequestContext :=
  let resp :=
    mkProcessingResponse (Some (RespResponseBody (mkCommonResponse None None false))) None in
  if rc_modelServerStreaming reqCtx then (inl resp, HandleStreaming b reqCtx)
  else match HandleNonStreaming b reqCtx with
       | (Some e, reqCtx) => (inr e, reqCtx)
       | (None, reqCtx) => (inl resp, reqCtx)
       end.

(** ** [Process] (server.go) *)

Record server_state := mkServerState {
  sv_ctx : RequestContext;
  sv_err : option error;
  sv_world : world
}.

Definition server_start (w : world) : server_state := mkServerState zero_context None w.

(** The metrics of a complete response. *)
Definition record_response (reqCtx : RequestContext) (w : world) : world :=
  let m := rc_Model reqCtx in
  let t := rc_ResolvedTargetModel reqCtx in
  record (RecordOutputTokens m t (CompletionTokens (rc_Usage reqCtx)))
   (record (RecordInputTokens m t (PromptTokens (rc_Usage reqCtx)))
    (record (RecordResponseSizes m t (rc_ResponseSize reqCtx))
     (record (λ r, (RecordRequestLatencies m t (rc_RequestReceivedTimestamp reqCtx)
                      (rc_ResponseCompleteTimestamp reqCtx) r).2) w))).

(** The end of a turn: an error becomes an immediate response, which clears the
    variable [err]; then the answer is sent.  A nil answer is sent too. *)
Definition finish_turn (env : Env) (resp : option ProcessingResponse) (err : option error)
    (reqCtx : RequestContext) (w : world) : turn server_state :=
  let built :=
    match err with
    | None => inl resp
    | Some e => match BuildErrResponse e with inl r => inl (Some r) | inr e' => inr e' end
    end in
  match built with
  | inr e => Return (Some e) (mkServerState reqCtx (Some e) w)
  | inl resp =>
      match Send env (default nil_response resp) w with
      | (Some e, w) => Return (Some (send_failed e)) (mkServerState reqCtx None w)
      | (None, w) => Continue (mkServerState reqCtx None w)
      end
  end.

Definition server_handle (env : Env) (req : ProcessingRequest) (st : server_state)
  : outcome (turn server_state) :=
  let reqCtx := sv_ctx st in
  let w := sv_world st in
  match req with
  | RequestHeaders h =>
      Val (finish_turn env (Some HandleRequestHeaders) (sv_err st)
             (set_RequestReceivedTimestamp (env_now env) reqCtx) w)
  | RequestBody b =>
      r ← HandleRequestBody env b reqCtx;
      match r with
      | (inr e, reqCtx) => Val (finish_turn env None (Some e) reqCtx w)
      | (inl resp, reqCtx) =>
          let m := rc_Model reqCtx in
          let t := rc_ResolvedTargetModel reqCtx in
          Val (finish_turn env (Some resp) None reqCtx
                 (record (RecordRequestSizes m t (rc_RequestSize reqCtx))
                   (record (RecordRequestCounter m t) w)))
      end
  | ResponseHeaders h =>
      r ← HandleResponseHeaders h reqCtx;
      let '(resp, reqCtx) := r in
      Val (finish_turn env (Some resp) None reqCtx w)
  | ResponseBody b =>
      match HandleResponseBody b reqCtx with
      | (inr _, reqCtx) => Val (finish_turn env None (sv_err st) reqCtx w)
      | (inl resp, reqCtx) =>
          if rc_ResponseComplete reqCtx then
            let reqCtx := set_ResponseCompleteTimestamp (env_now env) reqCtx in
            Val (finish_turn env (Some resp) (sv_err st) reqCtx (record_response reqCtx w))
          else Val (finish_turn env (Some resp) (sv_err st) reqCtx w)
      end
  | _ => Val (Return (Some (StatusError CodeUnknown "unknown request type")) st)
  end.

(** The deferred function: one error counter per stream. *)
Definition server_deferred (st : server_state) : server_state :=
  let reqCtx := sv_ctx st in
  let count (code : string) :=
    mkServerState reqCtx (sv_err st)
      (record (RecordRequestErrCounter (rc_Model reqCtx) (rc_ResolvedTargetModel reqCtx) code)
         (sv_world st)) in
  if negb (bool_decide (rc_ResponseStatusCode reqCtx = "")) then count (rc_ResponseStatusCode reqCtx)
  else match sv_err st with
       | Some e => count (CanonicalCode e)
       | None => st
       end.

Definition Process (evs : list event) (w : world) : outcome (turn server_state) :=
  Process_loop server_handle sv_err server_deferred evs (server_start w).
End server.
