(* ===== verification/Streaming.v ===== *)
(** * handlers/streamingserver.go: the full-duplex streaming server

    Envoy streams the request body and the response body in chunks; the server
    buffers the request, picks an endpoint, and sends its answers in the order the
    protocol prescribes. *)

From S2P Require Import Prelude GoInt GoStrings Float64 Utf8 JsonNumber Json Api.
From S2P Require Import Errors BackendMetrics Metrics ExtProc Frontend Scheduling Datastore Handlers.

Local Open Scope Z_scope.

(** ** [updateStateAndSendIfNeeded] *)

Section send.
Context `{MapOrder} (env : Env).

(** The context, the world and the error returned so far. *)
Definition send_result : Type := outcome (RequestContext * world * option error).

(** The next guarded block runs unless an error was returned. *)
Definition and_then (r : send_result) (f : RequestContext → world → send_result) : send_result :=
  match r with
  | Val (c, w, None) => f c w
  | r => r
  end.

(** One guarded block: send a message, then change the context and the world. *)
Definition send_block (guard : RequestContext → bool) (msg : RequestContext → option ProcessingResponse)
    (after : RequestContext → world → outcome (RequestContext * world))
    (c : RequestContext) (w : world) : send_result :=
  if guard c then
    match Send env (default nil_response (msg c)) w with
    | (Some e, w) => Val (c, w, Some (send_failed e))
    | (None, w) => '(c, w) ← after c w; Val (c, w, None)
    end
  else Val (c, w, None).

Definition in_state (st : StreamRequestState) (field : RequestContext → option ProcessingResponse)
    (c : RequestContext) : bool :=
  bool_decide (rc_RequestState c = st) && bool_decide (is_Some (field c)).

Definition send_request_headers : RequestContext → world → send_result :=
  send_block (in_state RequestReceived rc_reqHeaderResp) rc_reqHeaderResp
    (λ c w, Val (set_RequestState HeaderRequestResponseComplete c, w)).

Definition send_request_body : RequestContext → world → send_result :=
  send_block (in_state HeaderRequestResponseComplete rc_reqBodyResp) rc_reqBodyResp
    (λ c w,
      Val (set_reqBodyResp None (set_RequestRunning true
             (set_RequestState BodyRequestResponsesComplete c)),
           record (IncRunningRequests (rc_Model c)) w)).

(** The trailer blocks send the header response. *)
Definition send_request_trailers : RequestContext → world → send_result :=
  send_block (in_state BodyRequestResponsesComplete rc_reqTrailerResp) rc_reqHeaderResp
    (λ c w, Val (c, w)).

Definition send_response_headers : RequestContext → world → send_result :=
  send_block (in_state ResponseRecieved rc_respHeaderResp) rc_respHeaderResp
    (λ c w, Val (set_RequestState HeaderResponseResponseComplete c, w)).

Definition send_response_body : RequestContext → world → send_result :=
  send_block (in_state HeaderResponseResponseComplete rc_respBodyResp) rc_respBodyResp
    (λ c w,
      resp ← deref (rc_respBodyResp c);
      match pr_Response resp with
      | Some (RespResponseBody body) =>
          Val (set_respBodyResp None
                 (if GetEndOfStream body then set_RequestState BodyResponseResponsesComplete c
                  else c), w)
      | _ => Panic FailedTypeAssertion
      end).

Definition send_response_trailers : RequestContext → world → send_result :=
  send_block (in_state BodyResponseResponsesComplete rc_respTrailerResp) rc_reqHeaderResp
    (λ c w, Val (c, w)).

Definition updateStateAndSendIfNeeded (c : RequestContext) (w : world) : send_result :=
  and_then (and_then (and_then (and_then (and_then
    (send_request_headers c w)
    send_request_body)
    send_request_trailers)
    send_response_headers)
    send_response_body)
    send_response_trailers.
End send.

(** ** The handlers *)

Section handlers.
Context `{MapOrder} (s : ServerConfig) (ovf : float64 → Z).

(** [populateRequestHeaderResponse] *)
Definition request_headers (reqCtx : RequestContext) (endpoint : string) (requestBodyLength : Z)
  : list Header :=
  [(destinationEndpointHintKey s, endpoint)]
  ++ (if 0 <? requestBodyLength then [("Content-Length", Itoa requestBodyLength)] else [])
  ++ (if bool_decide (rc_WorkerInstanceID reqCtx ≠ "")
      then [("x-worker-instance-id", rc_WorkerInstanceID reqCtx)] else []).

Definition populateRequestHeaderResponse (reqCtx : RequestContext) (endpoint : string)
    (requestBodyLength : Z) : RequestContext :=
  set_reqHeaderResp
    (Some (mkProcessingResponse
       (Some (RespRequestHeaders
          (mkCommonResponse (Some (request_headers reqCtx endpoint requestBodyLength)) None true)))
       (Some (endpoint_metadata s endpoint)))) reqCtx.

(** [HandleRequestHeaders] *)
Definition HandleRequestHeaders (env : Env) (h : HttpHeaders) (reqCtx : RequestContext)
  : outcome (option error * RequestContext) :=
  let reqCtx := set_RequestReceivedTimestamp (env_now env) reqCtx in
  if hh_EndOfStream h then
    pod ← GetRandomPod (env_Intn env) (env_ds env);
    match PoolGet (env_ds_pool env) with
    | inr e => Val (Some e, reqCtx)
    | inl pool =>
        Val (None, populateRequestHeaderResponse reqCtx (endpoint_of (Address pod) pool) 0)
    end
  else Val (None, reqCtx).

(** The body response of a request. *)
Definition request_body_response (requestBodyBytes : string) : ProcessingResponse :=
  mkProcessingResponse
    (Some (RespRequestBody
       (mkCommonResponse None (Some (StreamedResponse requestBodyBytes true)) false))) None.

(** [HandleRequestBody]: the context and the request body map, as the call leaves
    them, and the error. *)
Definition HandleRequestBody (env : Env) (requestBodyMap : option fields) (reqCtx : RequestContext)
  : outcome (option error * RequestContext * option fields) :=
  match body_model requestBodyMap with
  | None => Val (Some model_not_found, reqCtx, requestBodyMap)
  | Some model =>
      match ModelGet model (env_ds env) with
      | None => Val (Some (no_model_object model), reqCtx, requestBodyMap)
      | Some modelObj =>
          resolved ← resolve_model (env_Int31n env) modelObj model;
          match resolved with
          | inr e => Val (Some e, reqCtx, requestBodyMap)
          | inl modelName =>
              let llmReq := mkLLMRequest model ∅ modelName (IsCritical modelObj) in
              let m := default [] requestBodyMap in
              let m := if bool_decide (model = modelName) then m
                       else set_field "model" (VString modelName) m in
              match MarshalMap (Some m) with
              | inr e =>
                  Val (Some (EppError Internal
                         ("error marshaling request body: " +:+ json_error_text e)),
                       reqCtx, Some m)
              | inl requestBodyBytes =>
                  let '(answer, m) := callFrontEndForWorker (env_frontend env) m in
                  let reqCtx :=
                    match answer with
                    | inr _ => reqCtx
                    | inl workerID =>
                        if bool_decide (workerID = "") then reqCtx
                        else set_WorkerInstanceID workerID reqCtx
                    end in
                  scheduled ← @scheduler_Schedule _ (env_scheduler env) llmReq;
                  match scheduled with
                  | inr e =>
                      Val (Some (EppError InferencePoolResourceExhausted
                             ("failed to find target pod: " +:+ error_text e)),
                           reqCtx, Some m)
                  | inl target =>
                      let targetPod := GetPod target in
                      match PoolGet (env_ds_pool env) with
                      | inr e => Val (Some e, reqCtx, Some m)
                      | inl pool =>
                          let endpoint := endpoint_of (Address targetPod) pool in
                          let size := Z.of_nat (String.length requestBodyBytes) in
                          let reqCtx :=
                            set_TargetEndpoint endpoint
                             (set_TargetPod (NamespacedName_String (Pod_NamespacedName targetPod))
                              (set_RequestSize size
                               (set_ResolvedTargetModel modelName
                                (set_Model model reqCtx)))) in
                          let reqCtx := populateRequestHeaderResponse reqCtx endpoint size in
                          Val (None,
                               set_reqBodyResp (Some (request_body_response requestBodyBytes)) reqCtx,
                               Some m)
                      end
                  end
              end
          end
      end
  end.

(** [int(usg[key].(float64))]: a missing key or another type panics. *)
Definition usage_int (usg : fields) (key : string) : outcome Z :=
  match field key usg with
  | Some (VFloat f) => Val (to_int ovf f)
  | _ => Panic FailedTypeAssertion
  end.

Definition read_usage (response : option fields) (reqCtx : RequestContext)
  : outcome RequestContext :=
  match field "usage" (default [] response) with
  | None | Some VNil => Val reqCtx
  | Some (VMap usg) =>
      p ← usage_int usg "prompt_tokens";
      c ← usage_int usg "completion_tokens";
      t ← usage_int usg "total_tokens";
      Val (set_Usage (mkUsage p c t) reqCtx)
  | Some _ => Panic FailedTypeAssertion
  end.

Definition response_body_response (body : string) (eos : bool) : ProcessingResponse :=
  mkProcessingResponse
    (Some (RespResponseBody (mkCommonResponse None (Some (StreamedResponse body eos)) false))) None.

(** [HandleResponseBody] *)
Definition HandleResponseBody (response : option fields) (reqCtx : RequestContext)
  : outcome (option error * RequestContext) :=
  match MarshalMap response with
  | inr e => Val (Some (LibraryError (json_error_text e)), reqCtx)
  | inl responseBytes =>
      reqCtx ← read_usage response reqCtx;
      Val (None,
           set_respBodyResp (Some (response_body_response responseBytes true))
            (set_ResponseComplete true
             (set_ResponseSize (Z.of_nat (String.length responseBytes)) reqCtx)))
  end.

(** [HandleResponseBodyModelStreaming] *)
Definition HandleResponseBodyModelStreaming (reqCtx : RequestContext) (responseText : string)
    (w : world) : world :=
  if Contains responseText streamingEndMsg then
    let u := ParseRespForUsage responseText in
    record (RecordOutputTokens (rc_Model reqCtx) (rc_ResolvedTargetModel reqCtx) (CompletionTokens u))
      (record (RecordInputTokens (rc_Model reqCtx) (rc_ResolvedTargetModel reqCtx) (PromptTokens u)) w)
  else w.

(** ** [Process] *)

Record stream_state := mkStreamState {
  ss_ctx : RequestContext;
  ss_body : string;
  ss_requestBody : option fields;
  ss_responseBody : option fields;
  ss_err : option error;
  ss_world : world
}.

Definition stream_start (w : world) : stream_state :=
  mkStreamState zero_context "" None None None w.

(** The header loop of the response. *)
Definition response_header (reqCtx : RequestContext) (h : Header) : RequestContext :=
  let '(key, value) := h in
  if bool_decide (key = "status") && negb (bool_decide (value = "200"))
  then set_ResponseStatusCode ModelServerError reqCtx
  else if bool_decide (key = "content-type") && Contains value "text/event-stream"
  then set_modelServerStreaming true reqCtx
  else reqCtx.

(** [RecordRequestLatencies] and [RecordResponseSizes] at the end of a response. *)
Definition record_end (reqCtx : RequestContext) (w : world) : world :=
  let m := rc_Model reqCtx in
  let t := rc_ResolvedTargetModel reqCtx in
  record (RecordResponseSizes m t (rc_ResponseSize reqCtx))
    (record (λ r, (RecordRequestLatencies m t (rc_RequestReceivedTimestamp reqCtx)
                     (rc_ResponseCompleteTimestamp reqCtx) r).2) w).

(** The switch over the message: the state with the variable [err] assigned. *)
Definition stream_switch (env : Env) (req : ProcessingRequest) (st : stream_state)
  : outcome stream_state :=
  let '(mkStreamState reqCtx body requestBody responseBody err w) := st in
  match req with
  | RequestHeaders h =>
      r ← HandleRequestHeaders env h reqCtx;
      let '(err, reqCtx) := r in
      Val (mkStreamState reqCtx body requestBody responseBody err w)
  | RequestBody b =>
      let body := body +:+ hb_Body b in
      if hb_EndOfStream b then
        let requestBody := (UnmarshalMap body requestBody).1 in
        r ← HandleRequestBody env requestBody reqCtx;
        let '(err, reqCtx, requestBody) := r in
        let w :=
          match err with
          | Some _ => w
          | None =>
              let m := rc_Model reqCtx in
              let t := rc_ResolvedTargetModel reqCtx in
              record (RecordRequestSizes m t (rc_RequestSize reqCtx))
                (record (RecordRequestCounter m t) w)
          end in
        Val (mkStreamState reqCtx "" requestBody responseBody err w)
      else Val (mkStreamState reqCtx body requestBody responseBody err w)
  | RequestTrailers => Val st
  | ResponseHeaders h =>
      let reqCtx := foldl response_header reqCtx (hh_Headers h) in
      let reqCtx := set_respHeaderResp (Some went_into_resp_headers)
                      (set_RequestState ResponseRecieved reqCtx) in
      Val (mkStreamState reqCtx body requestBody responseBody err w)
  | ResponseBody b =>
      if rc_modelServerStreaming reqCtx then
        let w := HandleResponseBodyModelStreaming reqCtx (hb_Body b) w in
        let '(reqCtx, w) :=
          if hb_EndOfStream b then
            let reqCtx := set_ResponseCompleteTimestamp (env_now env) reqCtx in
            (reqCtx, record_end reqCtx w)
          else (reqCtx, w) in
        let reqCtx :=
          set_respBodyResp (Some (response_body_response (hb_Body b) (hb_EndOfStream b))) reqCtx in
        Val (mkStreamState reqCtx body requestBody responseBody err w)
      else
        let body := body +:+ hb_Body b in
        if hb_EndOfStream b then
          let responseBody := (UnmarshalMap body responseBody).1 in
          r ← HandleResponseBody responseBody reqCtx;
          let '(responseErr, reqCtx) := r in
          match responseErr with
          | Some _ => Val (mkStreamState reqCtx body requestBody responseBody err w)
          | None =>
              if rc_ResponseComplete reqCtx then
                let reqCtx := set_ResponseCompleteTimestamp (env_now env) reqCtx in
                let m := rc_Model reqCtx in
                let t := rc_ResolvedTargetModel reqCtx in
                let w :=
                  record (RecordOutputTokens m t (CompletionTokens (rc_Usage reqCtx)))
                   (record (RecordInputTokens m t (PromptTokens (rc_Usage reqCtx)))
                     (record_end reqCtx w)) in
                Val (mkStreamState reqCtx body requestBody responseBody err w)
              else Val (mkStreamState reqCtx body requestBody responseBody err w)
          end
        else Val (mkStreamState reqCtx body requestBody responseBody err w)
  | ResponseTrailers => Val st
  | NoRequest => Val st
  end.

(** The end of a turn: an error is answered and ends the stream, otherwise what
    is ready is sent. *)
Definition stream_handle (env : Env) (req : ProcessingRequest) (st : stream_state)
  : outcome (turn stream_state) :=
  st ← stream_switch env req st;
  let '(mkStreamState reqCtx body requestBody responseBody err w) := st in
  match err with
  | Some e =>
      match BuildErrResponse e with
      | inr e' => Val (Return (Some e') st)
      | inl resp =>
          match Send env resp w with
          | (Some e', w) =>
              Val (Return (Some (send_failed e'))
                     (mkStreamState reqCtx body requestBody responseBody err w))
          | (None, w) =>
              Val (Return None (mkStreamState reqCtx body requestBody responseBody err w))
          end
      end
  | None =>
      r ← updateStateAndSendIfNeeded env reqCtx w;
      let '(reqCtx, w, sendErr) := r in
      let st := mkStreamState reqCtx body requestBody responseBody None w in
      match sendErr with
      | Some e => Val (Return (Some e) st)
      | None => Val (Continue st)
      end
  end.

(** The deferred function. *)
Definition stream_deferred (st : stream_state) : stream_state :=
  let '(mkStreamState reqCtx body requestBody responseBody err w) := st in
  let code :=
    if negb (bool_decide (rc_ResponseStatusCode reqCtx = "")) then rc_ResponseStatusCode reqCtx
    else match err with Some e => CanonicalCode e | None => "" end in
  let w :=
    if bool_decide (code = "") then w
    else record (RecordRequestErrCounter (rc_Model reqCtx) (rc_ResolvedTargetModel reqCtx) code) w in
  let w := if rc_RequestRunning reqCtx then record (DecRunningRequests (rc_Model reqCtx)) w else w in
  mkStreamState reqCtx body requestBody responseBody err w.

Definition Process (evs : list event) (w : world) : outcome (turn stream_state) :=
  Process_loop stream_handle ss_err stream_deferred evs (stream_start w).
End handlers.
