(* ===== verification/Streams.v ===== *)
(** * Concurrent streams of one server

    gRPC runs [Process] in a goroutine for each stream.  The streams of a server share the
    Prometheus registry and the store their environments come from; the request context
    and the messages are their own.  A turn of a stream's loop is a step of the server: the
    updates a turn makes to the registry are atomic additions, which commute, and nothing
    a handler does depends on what it holds, which is the law [handle_same] below.

    The class [StreamServer] is what both servers offer: a loop body, the variable [err]
    and the deferred function on a state with a registry in it.

    Theorems: in every interleaving each stream does exactly what it would do alone, and
    the server panics only when one of its streams would alone. *)

From S2P Require Import Prelude GoInt Errors Metrics ExtProc Datastore Handlers.

Local Open Scope Z_scope.

Class StreamServer `{MapOrder} (T : Type) := {
  srv_start : registry → T;
  srv_handle : Env → ProcessingRequest → T → outcome (turn T);
  srv_err : T → option error;
  srv_deferred : T → T;
  (** the registry in a state, and the state with another one *)
  srv_registry : T → registry;
  srv_with : registry → T → T
}.

(** Equal but for the registry. *)
Definition same `{StreamServer T} (s s' : T) : Prop := ∀ r, srv_with r s = srv_with r s'.

Definition turn_same `{StreamServer T} (t t' : turn T) : Prop :=
  match t, t' with
  | Continue s, Continue s' => same s s'
  | Return e s, Return e' s' => e = e' ∧ same s s'
  | _, _ => False
  end.

Class StreamServerLaws `{StreamServer T} : Prop := {
  with_with : ∀ r r' (s : T), srv_with r (srv_with r' s) = srv_with r s;
  start_with : ∀ r r', srv_with r (srv_start r') = srv_start r;
  handle_same : ∀ env req (s s' : T),
    same s s' → outcome_rel turn_same (srv_handle env req s) (srv_handle env req s');
  err_same : ∀ s s' : T, same s s' → srv_err s = srv_err s';
  deferred_same : ∀ s s' : T, same s s' → same (srv_deferred s) (srv_deferred s')
}.

Section server.
Context `{MapOrder} {T : Type} {srv : StreamServer T}.

(** ** A server and its steps *)

Inductive stream :=
  | Open (s : T)
  | Ended (err : option error) (s : T).

Record process := mkProcess {
  pr_registry : registry;
  pr_streams : gmap nat stream
}.

Definition process_start (r : registry) : process := mkProcess r ∅.

(** A stream that was not used yet is about to start. *)
Definition stream_at (p : process) (i : nat) : stream :=
  default (Open (srv_start (pr_registry p))) (pr_streams p !! i).

Definition finished (t : turn T) : stream :=
  match t with Continue s => Open s | Return e s => Ended e (srv_deferred s) end.

Definition stream_state_of (st : stream) : T := match st with Open s => s | Ended _ s => s end.

(** A turn of stream [i]; a stream that ended has no turns. *)
Definition serve_turn (i : nat) (ev : event) (p : process) : outcome process :=
  match stream_at p i with
  | Ended _ _ => Val p
  | Open s =>
      t ← loop_turn srv_handle srv_err ev (srv_with (pr_registry p) s);
      let st := finished t in
      Val (mkProcess (srv_registry (stream_state_of st)) (<[i := st]> (pr_streams p)))
  end.

Definition serve (l : list (nat * event)) (p : process) : outcome process :=
  foldM (λ p ie, serve_turn ie.1 ie.2 p) p l.

(** ** A stream alone *)

Definition events_of (i : nat) (l : list (nat * event)) : list event :=
  (filter (λ ie, ie.1 = i) l).*2.

Definition resume (evs : list event) (st : stream) : outcome stream :=
  match st with
  | Ended _ _ => Val st
  | Open s =>
      match Process_loop srv_handle srv_err srv_deferred evs s with
      | Val (Continue s) => Val (Open s)
      | Val (Return e s) => Val (Ended e s)
      | Panic x => Panic x
      end
  end.

Definition alone (i : nat) (l : list (nat * event)) (r : registry) : outcome stream :=
  resume (events_of i l) (Open (srv_start r)).

(** Streams that differ in the registry only. *)
Definition stream_same (st st' : stream) : Prop :=
  match st, st' with
  | Open s, Open s' => same s s'
  | Ended e s, Ended e' s' => e = e' ∧ same s s'
  | _, _ => False
  end.

(** ** The streams of a server do not see each other *)

Context {laws : StreamServerLaws}.

#[global] Instance same_equiv : Equivalence (same (T := T)).
Proof. unfold same. split; [done|by intros s s' Hs r|]. intros x y z Hx Hy r. by rewrite Hx. Qed.

Lemma same_with r s : same (srv_with r s) s.
Proof. intros r'. apply with_with. Qed.

Lemma same_start r r' : same (srv_start r) (srv_start r').
Proof. intros r0. by rewrite !start_with. Qed.

Lemma loop_turn_same ev s s' :
  same s s' →
  outcome_rel turn_same (loop_turn srv_handle srv_err ev s) (loop_turn srv_handle srv_err ev s').
Proof.
  intros Hs. destruct ev as [e| |e|env req]; simpl; [done|done| |by apply handle_same].
  rewrite (err_same s s' Hs). by case_bool_decide.
Qed.

Lemma finished_same t t' : turn_same t t' → stream_same (finished t) (finished t').
Proof.
  destruct t as [s|e s], t' as [s'|e' s']; simpl; try done. intros [-> Hs]. split; [done|].
  by apply deferred_same.
Qed.

(** One turn of a stream, then the rest. *)
Lemma resume_cons ev evs s :
  resume (ev :: evs) (Open s)
  = t ← loop_turn srv_handle srv_err ev s; resume evs (finished t).
Proof.
  simpl. destruct (loop_turn srv_handle srv_err ev s) as [[s'|e s']|]; simpl; done.
Qed.

Lemma resume_same evs st st' :
  stream_same st st' → outcome_rel stream_same (resume evs st) (resume evs st').
Proof.
  revert st st'. induction evs as [|ev evs IH]; intros [s|e s] [s'|e' s'] Hs; simpl in Hs; try done.
  rewrite !resume_cons. pose proof (loop_turn_same ev s s' Hs) as Ht.
  destruct (loop_turn _ _ ev s) as [t|x], (loop_turn _ _ ev s') as [t'|x']; simpl in Ht; try done.
  cbn [mbind outcome_bind]. by apply IH, finished_same.
Qed.

Lemma stream_at_insert p r i st j :
  stream_same (stream_at (mkProcess r (<[i := st]> (pr_streams p))) j)
    (if decide (j = i) then st else stream_at p j).
Proof.
  unfold stream_at. simpl. destruct (decide (j = i)) as [->|Hne].
  - rewrite lookup_insert_eq. simpl. by destruct st.
  - rewrite lookup_insert_ne by done. destruct (pr_streams p !! j) as [[]|]; simpl; try done.
    apply same_start.
Qed.

Lemma stream_same_trans st1 st2 st3 : stream_same st1 st2 → stream_same st2 st3 → stream_same st1 st3.
Proof.
  destruct st1, st2, st3; simpl; try done; [by etrans|]. intros [-> ?] [-> ?]. split; [done|by etrans].
Qed.

Lemma stream_same_sym st1 st2 : stream_same st1 st2 → stream_same st2 st1.
Proof. destruct st1, st2; simpl; try done. by intros [-> ?]. Qed.

(** A turn of [i] is the next turn of its stream, and no turn of another. *)
Lemma serve_turn_resume i ev evs p j :
  match serve_turn i ev p with
  | Val p' =>
      outcome_rel stream_same
        (resume (if decide (j = i) then ev :: evs else evs) (stream_at p j))
        (resume evs (stream_at p' j))
  | Panic x => resume (ev :: evs) (stream_at p i) = Panic x
  end.
Proof.
  unfold serve_turn. destruct (stream_at p i) as [s|e s] eqn:Hi.
  - pose proof (loop_turn_same ev _ s (same_with (pr_registry p) s)) as Ht.
    rewrite resume_cons.
    destruct (loop_turn _ _ ev (srv_with _ _)) as [t|x], (loop_turn _ _ ev s) as [t'|x'] eqn:Ht';
      simpl in Ht; try done; cbn [mbind outcome_bind]; [|by subst].
    set (r := srv_registry _).
    pose proof (stream_at_insert p r i (finished t) j) as Hj. destruct (decide (j = i)) as [->|Hne].
    + rewrite Hi, resume_cons, Ht'. cbn [mbind outcome_bind]. apply resume_same.
      eapply stream_same_trans; [|by apply stream_same_sym].
      by apply stream_same_sym, finished_same.
    + by apply resume_same, stream_same_sym.
  - destruct (decide (j = i)) as [->|]; [rewrite Hi; simpl; done|].
    apply resume_same. by destruct (stream_at p j).
Qed.

Lemma outcome_rel_trans (x y z : outcome stream) :
  outcome_rel stream_same x y → outcome_rel stream_same y z → outcome_rel stream_same x z.
Proof.
  destruct x, y, z; simpl; try done; [by apply stream_same_trans|congruence].
Qed.

Lemma events_of_cons i j ev l :
  events_of i ((j, ev) :: l) = if decide (i = j) then ev :: events_of i l else events_of i l.
Proof.
  unfold events_of. rewrite filter_cons. simpl.
  destruct (decide (j = i)), (decide (i = j)); by subst.
Qed.

Lemma serve_resume l p :
  match serve l p with
  | Val p' => ∀ i, outcome_rel stream_same (resume (events_of i l) (stream_at p i)) (Val (stream_at p' i))
  | Panic x => ∃ i, resume (events_of i l) (stream_at p i) = Panic x
  end.
Proof.
  revert p. induction l as [|[i ev] l IH]; intros p.
  { intros i. unfold events_of. simpl. by destruct (stream_at p i) as [|? ?]; simpl. }
  change (serve ((i, ev) :: l) p) with (p1 ← serve_turn i ev p; serve l p1).
  pose proof (serve_turn_resume i ev) as Hturn.
  destruct (serve_turn i ev p) as [p1|x] eqn:Hp; cbn [mbind outcome_bind].
  - specialize (IH p1). destruct (serve l p1) as [p'|x].
    + intros j. rewrite events_of_cons. eapply outcome_rel_trans; [|apply IH].
      specialize (Hturn (events_of j l) p j). by rewrite Hp in Hturn.
    + destruct IH as [j Hj]. exists j. rewrite events_of_cons.
      specialize (Hturn (events_of j l) p j). rewrite Hp, Hj in Hturn.
      destruct (resume _ (stream_at p j)); simpl in Hturn; [done|congruence].
  - exists i. rewrite events_of_cons, decide_True by done.
    specialize (Hturn (events_of i l) p i). by rewrite Hp in Hturn.
Qed.

(** In this interleaving the server runs each stream as if it were alone, whatever the
    registry holds; if it panics, one of its streams panics alone. *)
Definition isolated (l : list (nat * event)) (r : registry) : Prop :=
  match serve l (process_start r) with
  | Val p => ∀ i r', ∃ st, alone i l r' = Val st ∧ stream_same st (stream_at p i)
  | Panic x => ∃ i, ∀ r', alone i l r' = Panic x
  end.

Lemma serve_isolated l r : isolated l r.
Proof.
  assert (∀ i r', outcome_rel stream_same (alone i l r')
                    (resume (events_of i l) (stream_at (process_start r) i))) as Hstart.
  { intros i r'. apply resume_same. apply same_start. }
  unfold isolated. pose proof (serve_resume l (process_start r)) as Hs.
  destruct (serve l (process_start r)) as [p|x].
  - intros i r'. pose proof (outcome_rel_trans _ _ _ (Hstart i r') (Hs i)) as Hi.
    destruct (alone i l r') as [st|]; [by exists st|done].
  - destruct Hs as [i Hi]. exists i. intros r'. specialize (Hstart i r'). rewrite Hi in Hstart.
    destruct (alone i l r'); simpl in Hstart; [done|congruence].
Qed.
End server.
