(* ===== verification/HandlersProofs.v ===== *)
(** * Properties of model and pod selection, error answers and usage parsing *)

From S2P Require Import Prelude GoInt GoStrings Float64 Utf8 JsonNumber Json JsonProofs.
From S2P Require Import Api Errors BackendMetrics Metrics ExtProc Frontend Scheduling SchedulingProofs.
From S2P Require Import Datastore DatastoreProofs Handlers.

Local Open Scope Z_scope.

(** ** The scheduler implements the interface *)

(** [scheduling.Scheduler] over the pods of a store, from the k-th draw on. *)
Program Definition default_scheduler `{MapOrder} (R : Rand) (config : Config) (ds : datastore) (k : nat)
  : Scheduler (snapshot <$> PodGetAll ds) := {|
  scheduler_Schedule req := (Schedule config (snapshot <$> PodGetAll ds) req k).1
|}.
Next Obligation.
  intros ? R config ds k req.
  destruct (Schedule_total config (snapshot <$> PodGetAll ds) req k) as (r & k' & -> & _). done.
Qed.
Next Obligation.
  intros ? R config ds k req p Hreq.
  destruct (Schedule_total config (snapshot <$> PodGetAll ds) req k) as (r & k' & Heq & Hp).
  cbn beta in Hreq. rewrite Heq in Hreq. simplify_eq/=. by apply list_elem_of_fmap_2, Hp.
Qed.

(** ** Weighted draws *)

Definition weight (tm : TargetModel) : Z := default 0 (tm_Weight tm).

Definition total_weight (tms : list TargetModel) : Z := foldr (λ tm t, weight tm + t) 0 tms.

Definition weighted (tms : list TargetModel) : Prop :=
  Forall (λ tm, ∃ w, tm_Weight tm = Some w ∧ 1 <= w <= 1000000) tms.

Lemma total_weight_bounds tms :
  weighted tms → 0 <= total_weight tms <= 1000000 * Z.of_nat (length tms).
Proof.
  induction 1 as [|tm tms (w & Hw & Hb) Hall IH]; [simpl; lia|].
  assert (weight tm = w) as Hwt by (unfold weight; by rewrite Hw).
  simpl. rewrite Hwt. lia.
Qed.

Lemma weighted_cons tm tms :
  weighted (tm :: tms) → ∃ w, tm_Weight tm = Some w ∧ weight tm = w ∧ 1 <= w <= 1000000 ∧ weighted tms.
Proof.
  intros [(w & Hw & Hb) Hall]%Forall_cons. exists w. unfold weight. rewrite Hw. done.
Qed.

(** On at most ten valid weights the sum does not overflow 32 bits. *)
Lemma sum_weights_exact tms acc :
  weighted tms → 0 <= acc → acc + total_weight tms <= 2147483647 →
  sum_weights tms acc = Val (acc + total_weight tms).
Proof.
  revert acc. induction tms as [|tm tms IH]; intros acc Hw Hacc Hb; simpl in *; [f_equal; lia|].
  apply weighted_cons in Hw as (w & -> & Hwt & Hbw & Hall). simpl.
  pose proof (total_weight_bounds tms Hall). rewrite Hwt in Hb.
  unfold int32_add. rewrite wrap32_id by lia. rewrite IH by (done || lia). f_equal. lia.
Qed.

(** The loop stops at the target whose interval of cumulated weights holds the
    value drawn. *)
Lemma draw_loop_exact tms r :
  weighted tms → (length tms <= 10)%nat → 0 <= r < total_weight tms →
  ∃ i tm, tms !! i = Some tm ∧ draw_loop tms r = Val (tm_Name tm)
          ∧ total_weight (take i tms) <= r < total_weight (take i tms) + weight tm.
Proof.
  revert r. induction tms as [|tm tms IH]; intros r Hw Hlen Hr; simpl in *; [lia|].
  apply weighted_cons in Hw as (w & -> & Hwt & Hbw & Hall). simpl.
  pose proof (total_weight_bounds tms Hall).
  destruct (Z.ltb_spec r w).
  - exists 0%nat, tm. simpl. split; [done|]. split; [done|]. lia.
  - unfold int32_sub. rewrite wrap32_id by lia.
    destruct (IH (r - w)) as (i & tm' & Hi & Heq & Hin); [done|lia|lia|].
    exists (S i), tm'. simpl. split; [done|]. split; [done|]. lia.
Qed.

(** The intervals are disjoint: one value, one target. *)
Lemma intervals_disjoint tms i j ti tj r :
  weighted tms → tms !! i = Some ti → tms !! j = Some tj →
  total_weight (take i tms) <= r < total_weight (take i tms) + weight ti →
  total_weight (take j tms) <= r < total_weight (take j tms) + weight tj → i = j.
Proof.
  revert i j r. induction tms as [|tm tms IH]; intros i j r Hw Hi Hj Hri Hrj; [done|].
  apply weighted_cons in Hw as (w & _ & Hwt & Hbw & Hall).
  assert (∀ k, 0 <= total_weight (take k tms)) as Hpos.
  { intros k. apply total_weight_bounds. by apply Forall_take. }
  destruct i as [|i], j as [|j]; simpl in *; simplify_eq; [done| | |].
  - specialize (Hpos j). lia.
  - specialize (Hpos i). lia.
  - f_equal. apply (IH i j (r - weight tm)); try done; lia.
Qed.

Lemma RandomWeightedDraw_unweighted draw model tms :
  TargetModels (im_Spec model) = tms → tms ≠ [] → (length tms <= 10)%nat →
  Forall (λ tm, tm_Weight tm = None) tms → (∀ n, 0 < n → 0 <= draw n < n) →
  ∃ i tm, i = Z.to_nat (draw (Z.of_nat (length tms))) ∧ tms !! i = Some tm
          ∧ RandomWeightedDraw draw model = Val (tm_Name tm).
Proof.
  intros Htm Hne Hlen Hnone Hdraw. unfold RandomWeightedDraw. rewrite Htm.
  destruct tms as [|tm0 tms]; [done|]. cbn [index lookup list_lookup mbind outcome_bind].
  apply Forall_cons in Hnone as [-> _].
  set (n := Z.of_nat (length (tm0 :: tms))) in *.
  assert (0 < n <= 10) as Hn by (subst n; simpl length in *; lia).
  unfold Int31n. rewrite wrap32_id by lia. rewrite (proj2 (Z.leb_gt n 0)) by lia.
  run_outcome. specialize (Hdraw n ltac:(lia)).
  destruct (lookup_lt_is_Some_2 (tm0 :: tms) (Z.to_nat (draw n))) as [tm Hi]; [subst n; lia|].
  exists (Z.to_nat (draw n)), tm. split; [done|]. split; [done|].
  unfold index. by rewrite Hi.
Qed.

Lemma RandomWeightedDraw_weighted draw model tms :
  TargetModels (im_Spec model) = tms → tms ≠ [] → (length tms <= 10)%nat →
  weighted tms → (∀ n, 0 < n → 0 <= draw n < n) →
  ∃ i tm, tms !! i = Some tm ∧ RandomWeightedDraw draw model = Val (tm_Name tm)
          ∧ total_weight (take i tms) <= draw (total_weight tms)
            < total_weight (take i tms) + weight tm.
Proof.
  intros Htm Hne Hlen Hw Hdraw. unfold RandomWeightedDraw. rewrite Htm.
  pose proof (total_weight_bounds tms Hw).
  assert (0 < total_weight tms) as Hpos.
  { destruct tms as [|tm tms]; [done|]. simpl.
    apply weighted_cons in Hw as (w & _ & -> & Hbw & Hall).
    pose proof (total_weight_bounds tms Hall). lia. }
  destruct tms as [|tm0 tms]; [done|]. simpl index. cbn [mbind outcome_bind index lookup list_lookup].
  pose proof Hw as Hw'. apply weighted_cons in Hw' as (w & -> & _ & _ & _).
  rewrite sum_weights_exact by (done || lia). run_outcome.
  rewrite Z.add_0_l. unfold Int31n. rewrite (proj2 (Z.leb_gt _ _)) by done.
  run_outcome. apply draw_loop_exact; auto.
Qed.

(** With valid target models a draw picks one of them. *)
Lemma RandomWeightedDraw_total draw model :
  valid_target_models (TargetModels (im_Spec model)) → TargetModels (im_Spec model) ≠ [] →
  (∀ n, 0 < n → 0 <= draw n < n) →
  ∃ tm, tm ∈ TargetModels (im_Spec model) ∧ RandomWeightedDraw draw model = Val (tm_Name tm).
Proof.
  intros (Hall & Hb & Hlen) Hne Hdraw. destruct Hall as [Hsome|Hnone].
  - destruct (RandomWeightedDraw_weighted draw model (TargetModels (im_Spec model)))
      as (i & tm & Hi & -> & _); try done.
    + apply Forall_forall. intros tm Hin. rewrite Forall_forall in Hsome, Hb.
      destruct (Hsome tm Hin) as [w Hw]. specialize (Hb tm Hin). unfold weight_in_bounds in Hb.
      rewrite Hw in Hb. eauto.
    + exists tm. split; [by eapply list_elem_of_lookup_2|done].
  - destruct (RandomWeightedDraw_unweighted draw model (TargetModels (im_Spec model)))
      as (i & tm & _ & Hi & ->); try done.
    exists tm. split; [by eapply list_elem_of_lookup_2|done].
Qed.

(** With valid target models, resolution returns; its only error is that of an empty
    target name. *)
Lemma resolve_model_total draw model name :
  valid_target_models (TargetModels (im_Spec model)) → (∀ n, 0 < n → 0 <= draw n < n) →
  ∃ r, resolve_model draw model name = Val r
    ∧ ∀ e, r = inr e → ∃ msg, e = EppError BadConfiguration msg.
Proof.
  intros Hv Hdraw. unfold resolve_model.
  destruct (TargetModels (im_Spec model)) as [|tm0 tms] eqn:Htm; [by eexists|]. rewrite <-Htm in Hv.
  destruct (RandomWeightedDraw_total draw model Hv) as (tm & _ & ->); [by rewrite Htm|done|].
  run_outcome. case_bool_decide; eexists; (split; [done|]); [intros e [= <-]; eauto|done].
Qed.

(** ** How many draws pick a name *)

(** The draws below [n] for which [pick] returns [name]. *)
Definition draws_for (n : Z) (pick : Z → outcome string) (name : string) : nat :=
  length (filter (λ r, pick r = Val name) (seqZ 0 n)).

(** The weight of a name: of all targets of that name. *)
Definition name_weight (w : TargetModel → Z) (name : string) (tms : list TargetModel) : Z :=
  foldr (λ tm t, (if decide (tm_Name tm = name) then w tm else 0) + t) 0 tms.

Lemma draw_loop_count tms name :
  weighted tms → total_weight tms <= 2147483647 →
  Z.of_nat (draws_for (total_weight tms) (draw_loop tms) name) = name_weight weight name tms.
Proof.
  induction tms as [|tm tms IH]; intros Hw Hb; [done|].
  apply weighted_cons in Hw as (w & Htw & Hwt & Hbw & Hall). simpl in Hb.
  pose proof (total_weight_bounds tms Hall) as Ht.
  unfold draws_for. simpl total_weight. rewrite Hwt in Hb |- *.
  rewrite seqZ_app, filter_app, length_app, Nat2Z.inj_add by lia. cbn [name_weight foldr].
  f_equal.
  - rewrite (filter_all_or_none _ (tm_Name tm = name)).
    + destruct (decide _); [|done]. rewrite length_seqZ. lia.
    + intros r Hr%elem_of_seqZ. simpl. rewrite Htw. cbn [deref mbind outcome_bind].
      rewrite (proj2 (Z.ltb_lt r w)) by lia. naive_solver.
  - fold (name_weight weight name tms). rewrite <-IH by (done || lia). f_equal.
    rewrite Z.add_0_l, <-(Z.add_0_r w) at 1. rewrite <-fmap_add_seqZ, filter_fmap_length.
    unfold draws_for. f_equal. apply filter_ext_elem. intros r Hr%elem_of_seqZ. simpl.
    rewrite Htw. cbn [deref mbind outcome_bind]. rewrite (proj2 (Z.ltb_ge (w + r) w)) by lia.
    unfold int32_sub. rewrite wrap32_id by lia. by replace (w + r - w) with r by lia.
Qed.

Lemma index_count tms name :
  Z.of_nat (draws_for (Z.of_nat (length tms))
              (λ r, tm ← index tms (Z.to_nat r); Val (tm_Name tm)) name)
  = name_weight (λ _, 1) name tms.
Proof.
  induction tms as [|tm tms IH]; [done|]. unfold draws_for.
  replace (Z.of_nat (length (tm :: tms))) with (1 + Z.of_nat (length tms)) by (simpl length; lia).
  rewrite seqZ_app, filter_app, length_app, Nat2Z.inj_add by lia. cbn [name_weight foldr].
  f_equal.
  - rewrite (filter_all_or_none _ (tm_Name tm = name)); [by destruct (decide _)|].
    intros r Hr%elem_of_seqZ. assert (r = 0) as -> by lia. simpl. naive_solver.
  - fold (name_weight (λ _, 1) name tms). rewrite <-IH. f_equal.
    change (0 + 1) with (1 + 0). rewrite <-fmap_add_seqZ, filter_fmap_length.
    unfold draws_for. f_equal. apply filter_ext_elem. intros r Hr%elem_of_seqZ.
    replace (Z.to_nat (1 + r)) with (S (Z.to_nat r)) by lia. done.
Qed.

(** * Claims *)

(** C25: traffic is split by weight.  Of the equally likely values the generator can
    return, exactly as many pick a target model as the sum of the weights of the targets
    of that name; without weights, one value for each of them.  In particular each draw
    picks a target, 32-bit sums do not overflow, and an unknown name is never picked. *)
Theorem weighted_draw_proportional model name :
  let tms := TargetModels (im_Spec model) in
  valid_target_models tms → tms ≠ [] →
  (weighted tms →
     Z.of_nat (draws_for (total_weight tms) (λ r, RandomWeightedDraw (λ _, r) model) name)
     = name_weight weight name tms)
  ∧ (Forall (λ tm, tm_Weight tm = None) tms →
     Z.of_nat (draws_for (Z.of_nat (length tms)) (λ r, RandomWeightedDraw (λ _, r) model) name)
     = name_weight (λ _, 1) name tms).
Proof.
  intros tms (_ & _ & Hlen) Hne. split.
  - intros Hw. pose proof (total_weight_bounds tms Hw).
    rewrite <-draw_loop_count by (done || lia). unfold draws_for. f_equal. f_equal.
    apply filter_ext_elem. intros r Hr%elem_of_seqZ.
    unfold RandomWeightedDraw. fold tms.
    destruct tms as [|tm0 tms']; [done|]. cbn [index lookup list_lookup mbind outcome_bind].
    pose proof Hw as (w & -> & _ & _ & _)%weighted_cons.
    rewrite sum_weights_exact by (done || lia). run_outcome. rewrite Z.add_0_l.
    unfold Int31n. by rewrite (proj2 (Z.leb_gt _ 0)) by lia.
  - intros Hnone. rewrite <-index_count. unfold draws_for. f_equal. f_equal.
    apply filter_ext_elem. intros r Hr%elem_of_seqZ. unfold RandomWeightedDraw. fold tms.
    destruct tms as [|tm0 tms']; [done|]. cbn [index lookup list_lookup mbind outcome_bind].
    apply Forall_cons in Hnone as [-> _]. unfold Int31n. rewrite wrap32_id by (simpl length in *; lia).
    by rewrite (proj2 (Z.leb_gt _ 0)) by lia.
Qed.

(** * Witnesses *)

(** Two targets of weight 3 and 1, and two without weights. *)
Definition split_model (w1 w2 : option Z) : InferenceModel :=
  mkInferenceModel (example_meta "a" 1)
    (mkInferenceModelSpec "m" None [mkTargetModel "x" w1; mkTargetModel "y" w2]
       (mkPoolObjectReference "g" "k" "pool")).

Lemma weighted_draw_proportional_witness :
  Z.of_nat (draws_for 4 (λ r, RandomWeightedDraw (λ _, r) (split_model (Some 3) (Some 1))) "x") = 3
  ∧ Z.of_nat (draws_for 2 (λ r, RandomWeightedDraw (λ _, r) (split_model None None)) "y") = 1.
Proof.
  split.
  - apply (weighted_draw_proportional (split_model (Some 3) (Some 1)) "x"); [|done|].
    + split; [left|split]; [repeat constructor; eexists; done|repeat constructor; simpl; lia|simpl; lia].
    + repeat constructor; eexists; (split; [reflexivity|lia]).
  - apply (weighted_draw_proportional (split_model None None) "y"); [|done|].
    + split; [right|split]; [repeat constructor|repeat constructor|simpl; lia].
    + repeat constructor.
Defined.

(** A request's surroundings: one pool, one model, one pod, no front end. *)
Definition example_env : Env :=
  mkEnv _ example_store example_store example_store
    (default_scheduler least_draws defaultConfig example_store 0) 0 (λ _, 0)
    (λ _, 0%nat) (λ _, FePostFailed (LibraryError "connection refused")) (λ _, None).

Definition example_config : ServerConfig := mkServerConfig "x-gateway-destination-endpoint" "envoy.lb".

Definition example_body (model : string) : string :=
  "{" +:+ quote_string "model" +:+ ":" +:+ quote_string model +:+ "," +:+ quote_string "prompt" +:+ ":"
  +:+ quote_string "hi" +:+ "}".
