(* ===== verification/FrontendProofs.v ===== *)
(** * Properties of the front-end call *)

From S2P Require Import Prelude GoInt GoStrings Float64 Utf8 JsonNumber Json JsonProofs.
From S2P Require Import Errors Frontend.

Local Open Scope Z_scope.

(** ** Lines *)

Lemma complete_lines_cons l rest :
  lacks LF l = true → complete_lines (l +:+ String LF rest) = l :: complete_lines rest.
Proof.
  intros Hl. unfold complete_lines. rewrite Split_app by done. simpl.
  pose proof (Split_ne_nil rest LF). destruct (Split rest LF) as [|p ps]; [done|].
  simpl. by rewrite Nat.sub_0_r.
Qed.

Lemma str_rev_snoc t c : str_rev (t +:+ String c "") = String c (str_rev t).
Proof.
  unfold str_rev. rewrite list_ascii_append. simpl. by rewrite reverse_app.
Qed.

Lemma TrimRight_keep t c cut : cut c = false → TrimRight (t +:+ String c "") cut = t +:+ String c "".
Proof.
  intros Hc. unfold TrimRight. rewrite str_rev_snoc. simpl. rewrite Hc.
  by rewrite <-str_rev_snoc, str_rev_involutive.
Qed.

(** ** Digits as JSON strings *)

Lemma digit_cases c : is_digit c = true → printable c = true ∧ ord c < 128 ∧ escape_ascii c = String c "".
Proof.
  destruct c as [[] [] [] [] [] [] [] []]; intros Hc; first [by vm_compute in Hc | by vm_compute].
Qed.

Lemma digits_plain id :
  all_digits id → escape id = id ∧ sanitize id = id ∧ str_all printable id = true.
Proof.
  unfold all_digits. induction id as [|c id IH]; [done|]. simpl str_all.
  intros [Hc Hd]%andb_true_iff. destruct (digit_cases c Hc) as (Hp & Ho & He).
  destruct (IH Hd) as (H1 & H2 & H3). apply (utf8_len_ascii c id) in Ho.
  destruct (sanitize_len1 c id Ho) as [-> ->]. rewrite He, H1, H2, Hp, H3. done.
Qed.

Lemma quoted_digits id : all_digits id → quote_string id = String quote (id +:+ String quote "").
Proof. intros Hd. unfold quote_string. by destruct (digits_plain id Hd) as [-> _]. Qed.

Lemma quoted_printable id : all_digits id → str_all printable (quote_string id) = true.
Proof.
  intros Hd. rewrite quoted_digits by done. cbn [str_all]. rewrite str_all_app.
  destruct (digits_plain id Hd) as (_ & _ & ->). reflexivity.
Qed.

(** A leading space is trimmed. *)
Lemma TrimSpace_lead s : str_all printable s = true → TrimSpace (String " " s) = s.
Proof.
  intros Hs. unfold TrimSpace. cbn [String.length strip_all].
  assert (strip_one white_space (String " " s) = Some s) as ->.
  { by destruct s. }
  rewrite (strip_all_printable white_space) by done.
  rewrite strip_all_printable; [apply str_rev_involutive|done|by rewrite str_all_rev].
Qed.

(** ** Events *)

(** The line the front end puts the id on. *)
Definition id_line (id : string) : string := ": " +:+ quote_string id.

Lemma id_line_lacks id : all_digits id → lacks LF (id_line id) = true.
Proof.
  intros Hd. unfold id_line, lacks. rewrite str_all_app, quoted_digits by done.
  cbn [str_all]. rewrite str_all_app.
  assert (str_all (λ c, negb (bool_decide (c = LF))) id = true) as ->; [|reflexivity].
  eapply str_all_impl; [|exact Hd]. intros c Hc. simpl.
  rewrite bool_decide_false; [done|]. intros ->. by vm_compute in Hc.
Qed.

Lemma id_line_read id st :
  all_digits id → commentBuf st = "" →
  sse_line (id_line id) st = inr (mkSse (eventName st) (dataBuf st) (quote_string id)).
Proof.
  intros Hd Hc. unfold sse_line, id_line. rewrite quoted_digits by done.
  replace (": " +:+ String quote (id +:+ String quote ""))
    with ((": " +:+ String quote id) +:+ String quote "")
    by (rewrite append_assoc; done).
  rewrite TrimRight_keep by done. cbn [String.append]. rewrite append_assoc.
  rewrite bool_decide_false by done. change ":" with (":" +:+ "") at 1.
  change (": " +:+ String quote id +:+ String quote "")
    with (":" +:+ String " " (String quote (id +:+ String quote ""))).
  rewrite HasPrefix_app, <-quoted_digits by done.
  change (str_drop 1 (":" +:+ String " " (quote_string id))) with (String " " (quote_string id)).
  rewrite TrimSpace_lead by (by apply quoted_printable). unfold add_line. rewrite Hc.
  by rewrite bool_decide_true.
Qed.

Lemma named_id_digits id : all_digits id → id ≠ "" → named_id (quote_string id) = Some id.
Proof.
  intros Hd Hne. unfold named_id. rewrite bool_decide_false by (by unfold quote_string).
  unfold UnmarshalString.
  pose proof (parse_print (VString id) I) as Hp. simpl in Hp. rewrite Hp by done.
  destruct (digits_plain id Hd) as (_ & -> & _). by rewrite bool_decide_false.
Qed.

Lemma flush_id id :
  all_digits id → id ≠ "" →
  flushEvent (mkSse "worker_instance_id" "" (quote_string id))
  = (id, false, mkSse "worker_instance_id" "" "").
Proof.
  intros Hd Hne. unfold flushEvent. cbn [dataBuf commentBuf eventName].
  change (TrimSpace "") with "". rewrite TrimSpace_printable by (by apply quoted_printable).
  rewrite (bool_decide_false ("" = "[DONE]")) by done.
  rewrite (bool_decide_false (quote_string id = "[DONE]")) by (by unfold quote_string).
  cbn [orb]. rewrite !bool_decide_true by done. by rewrite named_id_digits.
Qed.

Lemma flush_nonempty st wid done st' :
  flushEvent st = (wid, done, st') → done = true → wid = "".
Proof. unfold flushEvent. intros Hf ->. repeat case_match; by simplify_eq. Qed.

Lemma sse_lines_nonempty lines readErr st wid : sse_lines lines readErr st = inl wid → wid ≠ "".
Proof.
  revert st. induction lines as [|line lines IH]; intros st; cbn [sse_lines].
  - unfold sse_end. destruct readErr; [done|]. destruct (flushEvent st) as [[w d] st'].
    destruct (bool_decide_reflect (w = "")); simpl; [by destruct d|]. by intros [= <-].
  - destruct (sse_line line st) as [r|st'] eqn:Hl; [|apply IH]. intros ->.
    unfold sse_line in Hl. destruct (bool_decide (TrimRight line is_eol = "")).
    + destruct (flushEvent st) as [[w d] st'].
      destruct (bool_decide_reflect (w = "")); simpl in Hl; [by destruct d|]. by simplify_eq.
    + repeat case_match; by simplify_eq.
Qed.

(** ** The request *)

Lemma with_query_spec anns :
  with_query anns = if decide (needQueryInstanceID ∈ anns) then anns else anns ++ [needQueryInstanceID].
Proof.
  unfold with_query. destruct (existsb _ anns) eqn:He; case_decide as Hin; try done.
  - apply existsb_exists in He as (a & Ha%list_elem_of_In & ->%bool_decide_eq_true). done.
  - apply not_true_iff_false in He. destruct He. apply existsb_exists.
    exists needQueryInstanceID. split; [by apply list_elem_of_In|by apply bool_decide_eq_true].
Qed.

(** The strings of a JSON array, in order. *)
Definition is_string (x : value) : bool := match x with VString _ => true | _ => false end.

Lemma array_annotations nv v :
  field "annotations" nv = Some (VArray v) →
  VString <$> annotations nv = filter (λ x, is_string x = true) v.
Proof.
  unfold annotations. intros ->. induction v as [|x v IH]; [done|].
  rewrite filter_cons. destruct x; case_decide; try done; csimpl; by rewrite <-IH.
Qed.

(** * Claims *)

(** C31: the answer of the front end is found.  A worker id announced the way the
    front end does (an event line, the quoted id on a comment line, an empty line) is
    the result of the call, whatever follows on the stream and however it ends. *)
Theorem announced_worker_found id rest readErr :
  all_digits id → id ≠ "" →
  read_events ("event: worker_instance_id" +:+ String LF (id_line id +:+ String LF (String LF rest)))
    readErr = inl id.
Proof.
  intros Hd Hne. unfold read_events.
  rewrite complete_lines_cons by done.
  rewrite complete_lines_cons by (by apply id_line_lacks).
  change (String LF rest) with ("" +:+ String LF rest).
  rewrite (complete_lines_cons "" rest) by done. cbn [sse_lines].
  change (sse_line "event: worker_instance_id" sse_start)
    with (@inr (string + error) sse (mkSse "worker_instance_id" "" "")).
  cbn [sse_lines]. rewrite id_line_read by done. cbn [eventName dataBuf]. unfold sse_line at 1.
  change (TrimRight "" is_eol) with "". rewrite bool_decide_true by done.
  rewrite flush_id by done. by rewrite bool_decide_false.
Qed.

(** The call never succeeds with an empty worker id, so the header is never set
    to one. *)
Theorem worker_id_not_empty http body wid :
  (callFrontEndForWorker http body).1 = inl wid → wid ≠ "".
Proof.
  unfold callFrontEndForWorker. simpl. intros Hw. repeat case_match; simplify_eq.
  by eapply sse_lines_nonempty.
Qed.

(** The extensions of a request: those of its [nvext] object, none without one. *)
Definition extensions (m : fields) : fields :=
  match field "nvext" m with Some (VMap nv) => nv | _ => [] end.

(** C30: the request to the front end.  Every field other than [stream] and [nvext] is the
    client's.  [stream] is the client's too, even when it is false, and true without one.
    [nvext] is an object: every extension but the annotations is the client's, and there
    are none when the client's [nvext] is not an object.  The annotations are the client's
    string annotations in their order (all of a list of strings, the strings of a mixed
    array, none of anything else), with the query for the worker id at the end unless it
    is among them already. *)
Theorem frontend_request_spec m :
  (∀ k, k ≠ "stream" → k ≠ "nvext" → field k (fe_body m) = field k m)
  ∧ field "stream" (fe_body m) = Some (default (VBool true) (field "stream" m))
  ∧ ∃ nv old, field "nvext" (fe_body m) = Some (VMap nv)
      ∧ (∀ k, k ≠ "annotations" → field k nv = field k (extensions m))
      ∧ field "annotations" nv
        = Some (VStrings (if decide (needQueryInstanceID ∈ old) then old else old ++ [needQueryInstanceID]))
      ∧ match field "annotations" (extensions m) with
        | Some (VStrings v) => old = v
        | Some (VArray v) =>
            VString <$> old = filter (λ x, is_string x = true) v
        | _ => old = []
        end.
Proof.
  unfold fe_body. split; [|split].
  - intros k H1 H2. rewrite field_set_ne by done.
    destruct (field "stream" m); [done|]. by apply field_set_ne.
  - rewrite field_set_ne by done. destruct (field "stream" m) eqn:Hs; [done|]. apply field_set_eq.
  - exists (fe_nvext m), (annotations (extensions m)). split; [apply field_set_eq|].
    unfold fe_nvext. fold (extensions m). split; [intros k Hk; by apply field_set_ne|].
    split; [by rewrite field_set_eq, with_query_spec|].
    destruct (field "annotations" (extensions m)) as [[]|] eqn:Ha;
      first [by apply array_annotations|unfold annotations; by rewrite Ha].
Qed.

(** * Witnesses *)

Lemma announced_worker_found_witness :
  read_events ("event: worker_instance_id"
      +:+ String LF (id_line "4711" +:+ String LF (String LF "data: x"))) None = inl "4711".
Proof. apply (announced_worker_found "4711"); [|done]. repeat split; lia. Defined.

Definition answering (_ : string) : fe_result :=
  FeResponse 200 "text/event-stream"
    ("event: worker_instance_id" +:+ String LF (id_line "7" +:+ String LF (String LF ""))) None.

Lemma worker_id_not_empty_witness : (callFrontEndForWorker answering []).1 = inl "7" ∧ "7" ≠ "".
Proof.
  assert ((callFrontEndForWorker answering []).1 = inl "7") as Hw by (vm_compute; reflexivity).
  split; [exact Hw|]. apply (worker_id_not_empty answering [] "7"). exact Hw.
Defined.
