(* ===== verification/StreamingProofs.v ===== *)
(** * Properties of the streaming server

    An invariant of the receive loop is proved block by block: [keeps] says that
    a block of [updateStateAndSendIfNeeded] preserves a relation between the
    request context and the world and does not panic. *)

From S2P Require Import Prelude GoInt GoStrings Float64 Utf8 JsonNumber Json JsonProofs.
From S2P Require Import Api Errors BackendMetrics Metrics ExtProc Frontend Scheduling Datastore.
From S2P Require Import DatastoreProofs Handlers HandlersProofs Streaming.

Local Open Scope Z_scope.

(** ** Handlers, inverted *)

Section handlers.
Context `{MapOrder} (s : ServerConfig) (ovf : float64 → Z).

(** The context after a request body was handled. *)
Definition handled (c : RequestContext) (model target : string) (pod : Pod) (endpoint bytes : string)
  : RequestContext :=
  let size := Z.of_nat (String.length bytes) in
  set_reqBodyResp (Some (request_body_response bytes))
    (populateRequestHeaderResponse s
      (set_TargetEndpoint endpoint
        (set_TargetPod (NamespacedName_String (Pod_NamespacedName pod))
          (set_RequestSize size (set_ResolvedTargetModel target (set_Model model c)))))
      endpoint size).

(** The front end's answer in the context. *)
Definition with_worker (env : Env) (m : fields) (c : RequestContext) : RequestContext :=
  match (callFrontEndForWorker (env_frontend env) m).1 with
  | inr _ => c
  | inl workerID => if bool_decide (workerID = "") then c else set_WorkerInstanceID workerID c
  end.

(** The body that is forwarded. *)
Definition forwarded (model target : string) (rb : option fields) : fields :=
  if bool_decide (model = target) then default [] rb
  else set_field "model" (VString target) (default [] rb).

Lemma HandleRequestBody_eq env rb c :
  HandleRequestBody s env rb c =
  match body_model rb with
  | None => Val (Some model_not_found, c, rb)
  | Some model =>
      match ModelGet model (env_ds env) with
      | None => Val (Some (no_model_object model), c, rb)
      | Some modelObj =>
          resolved ← resolve_model (env_Int31n env) modelObj model;
          match resolved with
          | inr e => Val (Some e, c, rb)
          | inl target =>
              let m := forwarded model target rb in
              match MarshalMap (Some m) with
              | inr e =>
                  Val (Some (EppError Internal
                         ("error marshaling request body: " +:+ json_error_text e)), c, Some m)
              | inl bytes =>
                  scheduled ← @scheduler_Schedule _ (env_scheduler env)
                                (mkLLMRequest model ∅ target (IsCritical modelObj));
                  let c := with_worker env m c in
                  match scheduled with
                  | inr e =>
                      Val (Some (EppError InferencePoolResourceExhausted
                             ("failed to find target pod: " +:+ error_text e)), c, Some (fe_aliased m))
                  | inl picked =>
                      match PoolGet (env_ds_pool env) with
                      | inr e => Val (Some e, c, Some (fe_aliased m))
                      | inl pool =>
                          Val (None,
                               handled c model target (GetPod picked)
                                 (endpoint_of (Address (GetPod picked)) pool) bytes,
                               Some (fe_aliased m))
                      end
                  end
              end
          end
      end
  end.
Proof.
  unfold HandleRequestBody, forwarded, with_worker, handled.
  destruct (body_model rb) as [model|]; [|done].
  destruct (ModelGet model (env_ds env)) as [modelObj|]; [|done].
  destruct (resolve_model _ _ _) as [[target|]|]; [|done|done]. run_outcome.
  set (m := if bool_decide (model = target) then _ else _).
  destruct (MarshalMap (Some m)) as [bytes|]; [|done].
  destruct (callFrontEndForWorker _ m) as [answer m'] eqn:Hfe.
  assert (m' = fe_aliased m) as -> by (unfold callFrontEndForWorker in Hfe; by simplify_eq).
  by destruct (scheduler_Schedule _) as [[picked|]|].
Qed.

(** Fields a request body never touches, and what it leaves in the others. *)
Record body_frame (c c' : RequestContext) : Prop := {
  bf_state : rc_RequestState c' = rc_RequestState c;
  bf_running : rc_RequestRunning c' = rc_RequestRunning c;
  bf_reqTrailer : rc_reqTrailerResp c' = rc_reqTrailerResp c;
  bf_respHeader : rc_respHeaderResp c' = rc_respHeaderResp c;
  bf_respBody : rc_respBodyResp c' = rc_respBodyResp c;
  bf_respTrailer : rc_respTrailerResp c' = rc_respTrailerResp c;
  bf_streaming : rc_modelServerStreaming c' = rc_modelServerStreaming c
}.

Lemma with_worker_cases env m c : with_worker env m c = c ∨ ∃ wid, with_worker env m c = set_WorkerInstanceID wid c.
Proof. unfold with_worker. repeat case_match; eauto. Qed.

Lemma HandleRequestBody_inv env rb c err c' rb' :
  HandleRequestBody s env rb c = Val (err, c', rb') →
  body_frame c c' ∧
  ((∃ e, err = Some e ∧ rc_reqHeaderResp c' = rc_reqHeaderResp c ∧ rc_reqBodyResp c' = rc_reqBodyResp c
         ∧ rc_Model c' = rc_Model c)
   ∨ err = None ∧ ∃ c1 model target pod endpoint bytes, c' = handled c1 model target pod endpoint bytes).
Proof.
  rewrite HandleRequestBody_eq.
  assert (body_frame c c) as Hrefl by done.
  destruct (body_model rb) as [model|]; [|intros; simplify_eq; split; [done|left; eauto]].
  destruct (ModelGet model (env_ds env)) as [modelObj|];
    [|intros; simplify_eq; split; [done|left; eauto]].
  destruct (resolve_model _ _ _) as [[target|e]|]; run_outcome;
    [|intros; simplify_eq; split; [done|left; eauto]|done].
  cbv zeta. destruct (MarshalMap (Some (forwarded model target rb))) as [bytes|e]; [|intros; simplify_eq; split; [done|left; eauto]].
  destruct (scheduler_Schedule _) as [[picked|e]|]; run_outcome; [| |done].
  - destruct (PoolGet (env_ds_pool env)) as [pool|e]; intros; simplify_eq.
    + destruct (with_worker_cases env (forwarded model target rb) c) as [->|[wid ->]];
        (split; [done|]; right; split; [done|]); by repeat eexists.
    + destruct (with_worker_cases env (forwarded model target rb) c) as [->|[wid ->]];
        (split; [done|left; eauto]).
  - intros; simplify_eq.
    destruct (with_worker_cases env (forwarded model target rb) c) as [->|[wid ->]];
      (split; [done|left; eauto]).
Qed.
End handlers.

(** ** Composition of blocks *)

Section keeps.
Context `{MapOrder} (env : Env).
Variable I : RequestContext → world → Prop.

Definition keeps (f : RequestContext → world → send_result) : Prop :=
  ∀ c w, I c w → match f c w with Val (c', w', _) => I c' w' | Panic _ => False end.

Lemma and_then_keeps r f :
  match r with Val (c, w, _) => I c w | Panic _ => False end → keeps f →
  match and_then r f with Val (c, w, _) => I c w | Panic _ => False end.
Proof. destruct r as [[[c w] [e|]]|]; simpl; intros HI Hf; [done| |done]. by apply Hf. Qed.

(** A block keeps [I] when the change after a successful send does. *)
Lemma send_block_keeps guard msg after :
  (∀ c w, guard c = true → I c w →
     match after c (mkWorld (w_reg w) (w_sent w ++ [default nil_response (msg c)])) with
     | Val (c', w') => I c' w'
     | Panic _ => False
     end) →
  keeps (send_block env guard msg after).
Proof.
  intros Hafter c w HI. unfold send_block. destruct (guard c) eqn:Hg; [|done].
  unfold Send. destruct (env_send env _) as [e|]; [done|].
  specialize (Hafter c w Hg HI). destruct (after c _) as [[c' w']|]; done.
Qed.

Lemma update_keeps c w :
  keeps (send_request_headers env) → keeps (send_request_body env) →
  keeps (send_request_trailers env) → keeps (send_response_headers env) →
  keeps (send_response_body env) → keeps (send_response_trailers env) → I c w →
  match updateStateAndSendIfNeeded env c w with Val (c', w', _) => I c' w' | Panic _ => False end.
Proof.
  intros H1 H2 H3 H4 H5 H6 HI. unfold updateStateAndSendIfNeeded.
  do 5 (apply and_then_keeps; [|done]). by apply H1.
Qed.
End keeps.

Lemma in_state_true st f c :
  in_state st f c = true ↔ rc_RequestState c = st ∧ is_Some (f c).
Proof. unfold in_state. by rewrite andb_true_iff, !bool_decide_eq_true. Qed.

(** ** The kinds of messages *)

Inductive kind := KReqHeaders | KReqBody | KRespHeaders | KRespBody (last : bool) | KImmediate | KOther.

Definition kind_of (m : ProcessingResponse) : kind :=
  match pr_Response m with
  | Some (RespRequestHeaders _) => KReqHeaders
  | Some (RespRequestBody _) => KReqBody
  | Some (RespResponseHeaders _) => KRespHeaders
  | Some (RespResponseBody c) => KRespBody (GetEndOfStream c)
  | Some (RespImmediate _) => KImmediate
  | _ => KOther
  end.

(** Prepared messages are of their kind, and no trailers are ever prepared. *)
Record ctx_ok (c : RequestContext) : Prop := {
  ok_reqHeader : ∀ m, rc_reqHeaderResp c = Some m → kind_of m = KReqHeaders;
  ok_reqBody : ∀ m, rc_reqBodyResp c = Some m → kind_of m = KReqBody;
  ok_reqTrailer : rc_reqTrailerResp c = None;
  ok_respHeader : ∀ m, rc_respHeaderResp c = Some m → kind_of m = KRespHeaders;
  ok_respBody : ∀ m, rc_respBodyResp c = Some m → ∃ r, pr_Response m = Some (RespResponseBody r);
  ok_respTrailer : rc_respTrailerResp c = None
}.

(** ** What the switch does *)

Lemma handled_ok s c c1 model target pod endpoint bytes :
  body_frame c (handled s c1 model target pod endpoint bytes) → ctx_ok c →
  ctx_ok (handled s c1 model target pod endpoint bytes).
Proof.
  intros [Hst Hr Ht Hh Hb Hrt] [? ? ? ? ? ?].
  split; rewrite ?Ht, ?Hh, ?Hb, ?Hrt; try done; simpl; by intros m [= <-].
Qed.

(** Metrics do not touch what was sent. *)
Lemma model_streaming_sent c text w :
  w_sent (HandleResponseBodyModelStreaming c text w) = w_sent w.
Proof. unfold HandleResponseBodyModelStreaming. by case_match. Qed.

Lemma foldl_response_header hs c :
  let c' := foldl response_header c hs in
  rc_reqHeaderResp c' = rc_reqHeaderResp c ∧ rc_reqBodyResp c' = rc_reqBodyResp c
  ∧ rc_reqTrailerResp c' = rc_reqTrailerResp c ∧ rc_respBodyResp c' = rc_respBodyResp c
  ∧ rc_respTrailerResp c' = rc_respTrailerResp c ∧ rc_RequestRunning c' = rc_RequestRunning c
  ∧ rc_Model c' = rc_Model c ∧ rc_RequestState c' = rc_RequestState c.
Proof.
  revert c. induction hs as [|[k v] hs IH]; intros c; [done|]. cbv zeta. cbn [foldl].
  destruct (IH (response_header c (k, v))) as (-> & -> & -> & -> & -> & -> & -> & ->).
  unfold response_header. by repeat case_match.
Qed.

(** The switch sends nothing; it moves the state only for response headers. *)
Record switch_frame (st st' : stream_state) : Prop := {
  sf_sent : w_sent (ss_world st') = w_sent (ss_world st);
  sf_gauge : runningRequests (w_reg (ss_world st')) = runningRequests (w_reg (ss_world st));
  sf_running : rc_RequestRunning (ss_ctx st') = rc_RequestRunning (ss_ctx st);
  sf_state : rc_RequestState (ss_ctx st') = rc_RequestState (ss_ctx st)
             ∨ rc_RequestState (ss_ctx st') = ResponseRecieved
}.

Lemma record_frame (w : world) (f : registry → registry) :
  w_sent (record f w) = w_sent w.
Proof. done. Qed.

(** The recordings of the handlers leave the gauge alone. *)
Lemma record_end_gauge c w :
  runningRequests (w_reg (record_end c w)) = runningRequests (w_reg w).
Proof. unfold record_end, RecordRequestLatencies. simpl. by case_match. Qed.

Lemma latency_gauge m t sz a b r :
  runningRequests (RecordResponseSizes m t sz (RecordRequestLatencies m t a b r).2) = runningRequests r.
Proof. unfold RecordRequestLatencies. by case_match. Qed.

Lemma tokens_gauge m t p c r :
  runningRequests (RecordOutputTokens m t c (RecordInputTokens m t p r)) = runningRequests r.
Proof. unfold RecordOutputTokens, RecordInputTokens. by repeat case_match. Qed.

Lemma model_streaming_gauge c text w :
  runningRequests (w_reg (HandleResponseBodyModelStreaming c text w)) = runningRequests (w_reg w).
Proof. unfold HandleResponseBodyModelStreaming. case_match; [|done]. simpl. apply tokens_gauge. Qed.

Lemma HandleRequestHeaders_inv `{MapOrder} s env h c err c' :
  HandleRequestHeaders s env h c = Val (err, c') →
  body_frame c c' ∧ rc_reqBodyResp c' = rc_reqBodyResp c ∧ rc_Model c' = rc_Model c
  ∧ (rc_reqHeaderResp c' = rc_reqHeaderResp c
     ∨ ∃ m, rc_reqHeaderResp c' = Some m ∧ kind_of m = KReqHeaders).
Proof.
  unfold HandleRequestHeaders. destruct (hh_EndOfStream h).
  - destruct (GetRandomPod _ _) as [pod|]; simpl; [|done].
    destruct (PoolGet _) as [pool|e]; intros; simplify_eq; (split; [done|]; split; [done|]; split; [done|]).
    + right. by eexists.
    + by left.
  - intros; simplify_eq. split; [done|]. split; [done|]. split; [done|]. by left.
Qed.

Lemma HandleResponseBody_inv ovf resp c err c' :
  HandleResponseBody ovf resp c = Val (err, c') →
  c' = c ∨ ∃ u body size, c' = set_respBodyResp (Some (response_body_response body true))
                          (set_ResponseComplete true (set_ResponseSize size u))
                       ∧ (u = c ∨ ∃ us, u = set_Usage us c).
Proof.
  unfold HandleResponseBody. destruct (MarshalMap resp) as [bytes|e]; [|intros; simplify_eq; by left].
  destruct (read_usage ovf resp c) as [u|] eqn:Hu; simpl; [|done]. intros; simplify_eq. right.
  exists u, bytes, (Z.of_nat (String.length bytes)). split; [done|].
  unfold read_usage in Hu. repeat case_match; simplify_eq; auto.
  destruct (usage_int ovf _ "prompt_tokens"); simpl in *; [|done].
  destruct (usage_int ovf _ "completion_tokens"); simpl in *; [|done].
  destruct (usage_int ovf _ "total_tokens"); simpl in *; [|done]. simplify_eq. eauto.
Qed.

(** A message that completes a request body. *)
Definition completes (req : ProcessingRequest) : bool :=
  match req with RequestBody b => hb_EndOfStream b | _ => false end.

(** All that the invariants need of the switch. *)
Definition switch_good (req : ProcessingRequest) (st st' : stream_state) : Prop :=
  switch_frame st st' ∧ (ctx_ok (ss_ctx st) → ctx_ok (ss_ctx st'))
  ∧ (completes req = false →
     rc_Model (ss_ctx st') = rc_Model (ss_ctx st) ∧ rc_reqBodyResp (ss_ctx st') = rc_reqBodyResp (ss_ctx st)).

Lemma switch_good_same req st st' :
  ss_ctx st' = ss_ctx st → ss_world st' = ss_world st → switch_good req st st'.
Proof. intros Hc Hw. unfold switch_good. rewrite Hc. split; [|done]. split; rewrite ?Hc, ?Hw; auto. Qed.

Section switch.
Context `{MapOrder} (s : ServerConfig) (ovf : float64 → Z) (env : Env).

Lemma switch_request_headers h st st' :
  stream_switch s ovf env (RequestHeaders h) st = Val st' → switch_good (RequestHeaders h) st st'.
Proof.
  destruct st as [c body rb rsb err w]. cbn [stream_switch].
  destruct (HandleRequestHeaders s env h c) as [[e c']|] eqn:Hh; simpl; [|done].
  intros [= <-]. apply HandleRequestHeaders_inv in Hh as ([Hst Hr Ht Hrh Hrb Hrt] & Hb & Hm & Hk).
  split; [split; cbn [ss_ctx ss_world]; auto|]. simpl. split; [|done].
  intros [? ? ? ? ? ?]. split; rewrite ?Ht, ?Hrh, ?Hrb, ?Hrt, ?Hb; try done.
  destruct Hk as [->|(m & -> & Hk)]; [done|]. by intros m' [= <-].
Qed.

Lemma switch_request_body b st st' :
  stream_switch s ovf env (RequestBody b) st = Val st' → switch_good (RequestBody b) st st'.
Proof.
  destruct st as [c body rb rsb err w]. cbn [stream_switch].
  destruct (hb_EndOfStream b) eqn:Heos; [|intros [= <-]; by apply switch_good_same].
  destruct (HandleRequestBody s env _ c) as [[[e c'] rb']|] eqn:Hh; simpl; [|done].
  intros [= <-]. apply HandleRequestBody_inv in Hh as [Hf Hc]. pose proof Hf as [Hst Hr Ht Hrh Hrb Hrt].
  split; [split; cbn [ss_ctx ss_world]; auto; by destruct e|]. simpl. rewrite Heos. split; [|done].
  destruct Hc as [(e' & -> & Hh & Hb & _)|(-> & c1 & m & t & p & ep & by' & ->)].
  - intros [? ? ? ? ? ?]. by split; rewrite ?Ht, ?Hrh, ?Hrb, ?Hrt, ?Hb, ?Hh.
  - by apply handled_ok.
Qed.

Lemma switch_response_headers h st st' :
  stream_switch s ovf env (ResponseHeaders h) st = Val st' → switch_good (ResponseHeaders h) st st'.
Proof.
  destruct st as [c body rb rsb err w]. cbn [stream_switch]. intros [= <-].
  destruct (foldl_response_header (hh_Headers h) c) as (H1 & H2 & H3 & H4 & H5 & H6 & H7 & _).
  split; [split; cbn [ss_ctx ss_world]; auto|]. simpl. split; [|done].
  intros [? ? ? ? ? ?]. split; simpl; rewrite ?H1, ?H2, ?H3, ?H4, ?H5; try done.
  by intros m [= <-].
Qed.

(** A context whose prepared response body was replaced. *)
Lemma resp_body_ok c c' body eos :
  rc_reqHeaderResp c' = rc_reqHeaderResp c → rc_reqBodyResp c' = rc_reqBodyResp c →
  rc_reqTrailerResp c' = rc_reqTrailerResp c → rc_respHeaderResp c' = rc_respHeaderResp c →
  rc_respTrailerResp c' = rc_respTrailerResp c →
  rc_respBodyResp c' = Some (response_body_response body eos) → ctx_ok c → ctx_ok c'.
Proof.
  intros H1 H2 H3 H4 H5 H6 [? ? ? ? ? ?]. split; rewrite ?H1, ?H2, ?H3, ?H4, ?H5, ?H6; try done.
  intros m [= <-]. by eexists.
Qed.

Lemma switch_response_stream b st st' :
  rc_modelServerStreaming (ss_ctx st) = true →
  stream_switch s ovf env (ResponseBody b) st = Val st' → switch_good (ResponseBody b) st st'.
Proof.
  destruct st as [c body rb rsb err w]. cbn [stream_switch ss_ctx]. intros ->.
  destruct (hb_EndOfStream b); intros [= <-]; (split; [split; cbn [ss_ctx ss_world]; auto|]).
  - apply model_streaming_sent.
  - by rewrite record_end_gauge, model_streaming_gauge.
  - split; [|done]. by apply (resp_body_ok _ _ (hb_Body b) true).
  - apply model_streaming_sent.
  - by rewrite model_streaming_gauge.
  - split; [|done]. by apply (resp_body_ok _ _ (hb_Body b) false).
Qed.

Lemma switch_response_buffered b st st' :
  rc_modelServerStreaming (ss_ctx st) = false →
  stream_switch s ovf env (ResponseBody b) st = Val st' → switch_good (ResponseBody b) st st'.
Proof.
  destruct st as [c body rb rsb err w]. cbn [stream_switch ss_ctx]. intros ->.
  destruct (hb_EndOfStream b); [|intros [= <-]; by apply switch_good_same].
  destruct (HandleResponseBody ovf _ c) as [[e c']|] eqn:Hh; simpl; [|done].
  apply HandleResponseBody_inv in Hh as [->|(u & bytes & size & -> & Hu)].
  - intros Heq. repeat case_match; simplify_eq; try by apply switch_good_same.
    split; [split; simpl; auto|by split; [by destruct 1|]].
    cbn [w_reg record]. rewrite tokens_gauge. apply latency_gauge.
  - intros Heq. assert (∃ c2 w2, st' = mkStreamState c2 (body +:+ hb_Body b) rb
        (UnmarshalMap (body +:+ hb_Body b) rsb).1 err w2
        ∧ (c2 = set_respBodyResp (Some (response_body_response bytes true))
                  (set_ResponseComplete true (set_ResponseSize size u))
           ∨ c2 = set_ResponseCompleteTimestamp (env_now env)
                   (set_respBodyResp (Some (response_body_response bytes true))
                    (set_ResponseComplete true (set_ResponseSize size u))))
        ∧ w_sent w2 = w_sent w ∧ runningRequests (w_reg w2) = runningRequests (w_reg w))
      as (c2 & w2 & -> & Hc2 & Hs & Hg).
    { repeat case_match; simplify_eq; eexists _, _; (split; [done|]); (split; [by auto|]);
        (split; [done|]); try done; cbn [w_reg record]; rewrite tokens_gauge; apply latency_gauge. }
    assert (∃ us, u = c ∨ u = set_Usage us c) as [us Hu'] by (destruct Hu as [?|[us ?]]; [exists zero_usage|exists us]; auto).
    split; [split; cbn [ss_ctx ss_world]; auto; destruct Hc2 as [->| ->], Hu' as [->| ->]; auto|]. simpl.
    split; [|destruct Hc2 as [->| ->], Hu' as [->| ->]; done].
    apply (resp_body_ok _ _ bytes true); destruct Hc2 as [->| ->], Hu' as [->| ->]; done.
Qed.

Lemma switch_ok req st st' : stream_switch s ovf env req st = Val st' → switch_good req st st'.
Proof.
  destruct req as [h|b| |h|b| |].
  - apply switch_request_headers.
  - apply switch_request_body.
  - destruct st. intros [= <-]. by apply switch_good_same.
  - apply switch_response_headers.
  - destruct (rc_modelServerStreaming (ss_ctx st)) eqn:Hs;
      [by apply switch_response_stream|by apply switch_response_buffered].
  - destruct st. intros [= <-]. by apply switch_good_same.
  - destruct st. intros [= <-]. by apply switch_good_same.
Qed.
End switch.

(** ** Errors and the deferred function *)

Lemma BuildErr_kind e m : BuildErrResponse e = inl m → ∃ code, m = immediate code.
Proof. unfold BuildErrResponse. intros Hb. repeat case_bool_decide; simplify_eq; by eexists. Qed.

Lemma deferred_sent st : w_sent (ss_world (stream_deferred st)) = w_sent (ss_world st).
Proof. destruct st. simpl. by repeat case_match. Qed.

(** ** The gauge of running requests *)

Definition gauge (w : world) (m : string) : Z := default 0 (runningRequests (w_reg w) !! m).

Definition one_if (b : bool) : Z := if b then 1 else 0.

(** What this stream contributes to the gauge of a model. *)
Definition contribution (c : RequestContext) (m : string) : Z :=
  one_if (rc_RequestRunning c && bool_decide (rc_Model c = m) && negb (bool_decide (m = ""))).

(** The gauge is the base plus the contribution; a running request is past the
    states in which its body is sent. *)
Definition counted (base : string → Z) (c : RequestContext) (w : world) : Prop :=
  (∀ m, gauge w m = base m + contribution c m)
  ∧ (rc_RequestRunning c = true →
     rc_RequestState c ≠ RequestReceived ∧ rc_RequestState c ≠ HeaderRequestResponseComplete)
  ∧ ctx_ok c.

Lemma gauge_shift w m d m' :
  m ≠ "" →
  gauge (record (λ r, set_runningRequests (add_at m d (runningRequests r)) r) w) m'
  = gauge w m' + d * one_if (bool_decide (m = m') && negb (bool_decide (m' = ""))).
Proof.
  intros Hm. unfold gauge, add_at. simpl. rewrite lookup_insert.
  destruct (decide (m = m')) as [<-|Hne].
  - rewrite bool_decide_true, (bool_decide_false (m = "")) by done. simpl. lia.
  - rewrite bool_decide_false by done. simpl. lia.
Qed.

Lemma gauge_inc w m m' :
  gauge (record (IncRunningRequests m) w) m'
  = gauge w m' + one_if (bool_decide (m = m') && negb (bool_decide (m' = ""))).
Proof.
  unfold IncRunningRequests. case_bool_decide as Hm.
  - subst m. destruct (bool_decide_reflect ("" = m')) as [<-|]; simpl; unfold gauge; simpl; lia.
  - rewrite gauge_shift by done. lia.
Qed.

Lemma gauge_dec w m m' :
  gauge (record (DecRunningRequests m) w) m'
  = gauge w m' - one_if (bool_decide (m = m') && negb (bool_decide (m' = ""))).
Proof.
  unfold DecRunningRequests. case_bool_decide as Hm.
  - subst m. destruct (bool_decide_reflect ("" = m')) as [<-|]; simpl; unfold gauge; simpl; lia.
  - rewrite gauge_shift by done. lia.
Qed.

Lemma gauge_err m t code w m' :
  gauge (record (RecordRequestErrCounter m t code) w) m' = gauge w m'.
Proof. unfold gauge, RecordRequestErrCounter. simpl. by destruct (bool_decide _). Qed.

Section gauge.
Context `{MapOrder} (base : string → Z) (env : Env).

(** A block that only sends and moves the state forward. *)
Lemma quiet_block guard msg (f : RequestContext → RequestContext) :
  (∀ c, guard c = true → ctx_ok c → ctx_ok (f c)) →
  (∀ c, rc_RequestRunning (f c) = rc_RequestRunning c) → (∀ c, rc_Model (f c) = rc_Model c) →
  (∀ c, guard c = true → ctx_ok c →
     (rc_RequestRunning c = true →
      rc_RequestState c ≠ RequestReceived ∧ rc_RequestState c ≠ HeaderRequestResponseComplete) →
     rc_RequestRunning c = true →
     rc_RequestState (f c) ≠ RequestReceived ∧ rc_RequestState (f c) ≠ HeaderRequestResponseComplete) →
  keeps (counted base) (send_block env guard msg (λ c w, Val (f c, w))).
Proof.
  intros Hok Hr Hm Hst. apply send_block_keeps. intros c w Hg (Hgauge & Hrun & Hc).
  split; [|split; [|by apply Hok]].
  - intros m. unfold contribution. rewrite Hr, Hm. apply Hgauge.
  - rewrite Hr. by apply Hst.
Qed.

Lemma request_body_counted : keeps (counted base) (send_request_body env).
Proof.
  apply send_block_keeps. intros c w [Hst [m Hm]]%in_state_true (Hgauge & Hrun & Hc).
  assert (rc_RequestRunning c = false) as Hf.
  { apply not_true_is_false. intros Ht. by destruct (Hrun Ht). }
  split; [|split; [done|by destruct Hc; split]].
  intros m'. rewrite gauge_inc. specialize (Hgauge m'). unfold contribution in *. simpl.
  rewrite Hf in Hgauge. unfold gauge in *. simpl in *. rewrite Hgauge. lia.
Qed.

Lemma response_body_counted : keeps (counted base) (send_response_body env).
Proof.
  apply send_block_keeps. intros c w [Hst [m Hm]]%in_state_true (Hgauge & Hrun & Hc).
  rewrite Hm. simpl. destruct (ok_respBody _ Hc m Hm) as [body ->]. simpl.
  destruct (GetEndOfStream body); (split; [done|split; [|by destruct Hc; split]]); simpl; auto.
Qed.

Lemma update_counted c w :
  counted base c w →
  match updateStateAndSendIfNeeded env c w with
  | Val (c', w', _) => counted base c' w'
  | Panic _ => False
  end.
Proof.
  apply update_keeps.
  - apply quiet_block; simpl; try done; [by destruct 2|].
    intros c' [Hst _]%in_state_true _ Hrun Hr. by destruct (Hrun Hr).
  - apply request_body_counted.
  - apply quiet_block; auto.
  - apply quiet_block; simpl; try done. by destruct 2.
  - apply response_body_counted.
  - apply quiet_block; auto.
Qed.
End gauge.

(** The request body has been, or is about to be, answered. *)
Definition answered (c : RequestContext) : Prop :=
  is_Some (rc_reqBodyResp c) ∨ rc_RequestRunning c = true.

Section answered.
Context `{MapOrder} (P : Prop) (env : Env).

Definition once (c : RequestContext) (w : world) : Prop := ctx_ok c ∧ (answered c → P).

Lemma update_once c w :
  once c w →
  match updateStateAndSendIfNeeded env c w with
  | Val (c', w', _) => once c' w'
  | Panic _ => False
  end.
Proof.
  apply update_keeps; apply send_block_keeps; intros c' w' [Hst Hm]%in_state_true [Hc Hp].
  - split; [by destruct Hc|done].
  - split; [by destruct Hc; split|]. intros _. apply Hp. by left.
  - by rewrite (ok_reqTrailer _ Hc) in Hm; destruct Hm.
  - split; [by destruct Hc|done].
  - destruct Hm as [m Hm]. rewrite Hm. simpl.
    destruct (ok_respBody _ Hc m Hm) as [body ->]. simpl.
    split; [by destruct Hc; destruct (GetEndOfStream body); split|].
    by destruct (GetEndOfStream body).
  - by rewrite (ok_respTrailer _ Hc) in Hm; destruct Hm.
Qed.
End answered.

(** How many messages of a stream complete a request body. *)
Definition completes_event `{MapOrder} (ev : event) : bool :=
  match ev with Recv _ req => completes req | _ => false end.

Definition completions `{MapOrder} (evs : list event) : nat :=
  length (filter (λ ev, completes_event ev = true) evs).

Section balance.
Context `{MapOrder} (s : ServerConfig) (ovf : float64 → Z) (base : string → Z).

Definition balanced (evs : list event) (st : stream_state) : Prop :=
  counted base (ss_ctx st) (ss_world st)
  ∧ (answered (ss_ctx st) → completions evs = 0%nat) ∧ (completions evs <= 1)%nat.

Lemma completions_cons ev evs :
  completions (ev :: evs) = ((if completes_event ev then 1 else 0) + completions evs)%nat.
Proof. unfold completions. rewrite filter_cons. by destruct (completes_event ev). Qed.

Lemma switch_balanced env req evs st st' :
  stream_switch s ovf env req st = Val st' → balanced (Recv env req :: evs) st → balanced evs st'.
Proof.
  intros ([Hs Hg Hr Hst] & Hok & Hsame)%switch_ok ((Hgauge & Hrun & Hc) & Hans & Hle).
  rewrite completions_cons in *. simpl in *.
  destruct (completes req).
  - assert (¬ answered (ss_ctx st)) as Hna by (intros Ha%Hans; lia).
    assert (rc_RequestRunning (ss_ctx st) = false) as Hf.
    { apply not_true_is_false. intros Ht. apply Hna. by right. }
    split; [|split; [lia|lia]]. split; [|split; [rewrite Hr, Hf; done|by apply Hok]].
    intros m. specialize (Hgauge m). unfold contribution, gauge in *. by rewrite Hr, Hg, Hf in *.
  - destruct (Hsame eq_refl) as [Hm Hb].
    split; [|split; [|lia]].
    + split; [|split; [|by apply Hok]].
      * intros m. specialize (Hgauge m). unfold contribution, gauge in *. by rewrite Hr, Hg, Hm in *.
      * rewrite Hr. intros Ht. by destruct Hst as [->| ->]; [apply Hrun|].
    + unfold answered. rewrite Hr, Hb. intros Ha%Hans. lia.
Qed.

Lemma handle_balanced env req evs st :
  balanced (Recv env req :: evs) st →
  match stream_handle s ovf env req st with
  | Val (Continue st') => balanced evs st'
  | Val (Return _ st') => counted base (ss_ctx st') (ss_world st')
  | Panic _ => True
  end.
Proof.
  intros Hb. unfold stream_handle.
  destruct (stream_switch s ovf env req st) as [st'|] eqn:Hsw; [|done]. run_outcome.
  destruct (switch_balanced _ _ _ _ _ Hsw Hb) as (Hc & Hans & Hle).
  destruct st' as [c body rb rsb err w]. destruct err as [e|].
  - destruct (BuildErrResponse e) as [m|e']; [|done].
    unfold Send. by destruct (env_send env m).
  - pose proof (update_counted base env c w Hc) as Hu.
    pose proof (update_once (completions evs = 0%nat) env c w) as Ho.
    destruct (updateStateAndSendIfNeeded env c w) as [[[c' w'] [e|]]|]; simpl; [done| |done].
    split; [done|]. destruct Ho as [_ Ho]; [split; [apply Hc|done]|]. done.
Qed.

Lemma deferred_balanced st :
  counted base (ss_ctx st) (ss_world st) → ∀ m, gauge (ss_world (stream_deferred st)) m = base m.
Proof.
  intros (Hg & _) m. specialize (Hg m). destruct st as [c body rb rsb err w]. simpl in *.
  set (w1 := if bool_decide _ then w else _).
  assert (gauge w1 m = gauge w m) as Hw1.
  { subst w1. destruct (bool_decide _); [done|]. apply gauge_err. }
  unfold contribution in Hg. destruct (rc_RequestRunning c); simpl in *.
  - rewrite gauge_dec, Hw1. unfold one_if in *. lia.
  - lia.
Qed.

Lemma loop_balanced evs st :
  balanced evs st →
  match Process_loop (stream_handle s ovf) ss_err stream_deferred evs st with
  | Val (Continue st') => ∀ m, gauge (ss_world st') m = base m + contribution (ss_ctx st') m
  | Val (Return _ st') => ∀ m, gauge (ss_world st') m = base m
  | Panic _ => True
  end.
Proof.
  revert st. induction evs as [|ev evs IH]; intros st Hb; [by destruct Hb as [[Hg _] _]|].
  cbn [Process_loop].
  destruct ev as [e| |e|env req]; cbn [loop_turn mbind outcome_bind].
  - apply deferred_balanced, Hb.
  - apply deferred_balanced, Hb.
  - case_bool_decide; run_outcome; apply deferred_balanced, Hb.
  - pose proof (handle_balanced env req evs st Hb) as Hh.
    destruct (stream_handle s ovf env req st) as [[st'|err st']|]; run_outcome;
      [by apply IH|by apply deferred_balanced|done].
Qed.
End balance.

(** * Claims *)

(** The gauge of running requests is balanced.  While a stream is open it
    contributes one to the gauge of its model exactly when its request is running;
    when the stream ends, for whatever reason, every model's gauge is back where it
    was (for streams with at most one complete request body, which is what Envoy
    sends). *)
Theorem running_requests_balanced `{MapOrder} s ovf evs w :
  (completions evs <= 1)%nat →
  match Process s ovf evs w with
  | Val (Continue st) => ∀ m, gauge (ss_world st) m = gauge w m + contribution (ss_ctx st) m
  | Val (Return _ st) => ∀ m, gauge (ss_world st) m = gauge w m
  | Panic _ => True
  end.
Proof.
  intros Hle. apply loop_balanced. split; [|split; [|done]].
  - split; [|split; [done|by split]]. intros m. unfold contribution. simpl. lia.
  - by intros [[? ?]|?].
Qed.

(** * Witnesses *)

(** A request that is answered, whose stream then ends. *)
Definition example_events : list event :=
  [Recv example_env (RequestHeaders (mkHttpHeaders [] false));
   Recv example_env (RequestBody (mkHttpBody (example_body "m") true)); RecvEOF].

Lemma running_requests_balanced_witness :
  match Process example_config (λ _, 0) example_events (mkWorld empty_registry []) with
  | Val (Continue st) =>
      ∀ m, gauge (ss_world st) m = gauge (mkWorld empty_registry []) m + contribution (ss_ctx st) m
  | Val (Return _ st) => ∀ m, gauge (ss_world st) m = gauge (mkWorld empty_registry []) m
  | Panic _ => True
  end.
Proof. apply (running_requests_balanced example_config (λ _, 0)). vm_compute. lia. Defined.

(** The same stream, left open: the request is counted as running. *)
Example running_request_counted :
  match Process example_config (λ _, 0) (take 2 example_events) (mkWorld empty_registry []) with
  | Val (Continue st) => gauge (ss_world st) "m" = 1 ∧ length (w_sent (ss_world st)) = 2%nat
  | _ => False
  end.
Proof. vm_compute. done. Qed.
