(* ===== verification/StreamsProofs.v ===== *)
(** * Concurrent streams: both servers, and the gauge of running requests

    The two servers implement the interface of [Streams]: a handler writes to the registry
    and never reads it.

    Theorems: the streams of each server are isolated; the gauge of running requests of the
    streaming server is, at every moment of every interleaving, the number of open streams
    whose request runs on that model. *)

From S2P Require Import Prelude GoInt Float64 Errors Metrics ExtProc Datastore Handlers.
From S2P Require Import Streams Server Streaming StreamingProofs HandlersProofs.

Local Open Scope Z_scope.

(** ** A handler does not read the registry *)

Definition world_same (w w' : world) : Prop := w_sent w = w_sent w'.

Lemma record_same f w w' : world_same w w' → world_same (record f w) (record f w').
Proof. done. Qed.

#[export] Hint Resolve record_same : epp.

Lemma Send_same `{MapOrder} env m w w' :
  world_same w w' →
  (Send env m w).1 = (Send env m w').1 ∧ world_same (Send env m w).2 (Send env m w').2.
Proof. unfold Send, world_same. intros Hw. destruct (env_send env m); simpl; by rewrite ?Hw. Qed.

Definition sent_same (x y : RequestContext * world * option error) : Prop :=
  x.1.1 = y.1.1 ∧ world_same x.1.2 y.1.2 ∧ x.2 = y.2.

(** A step of the sending, which keeps what two worlds have in common. *)
Definition oblivious (f : RequestContext → world → send_result) : Prop :=
  ∀ c w w', world_same w w' → outcome_rel sent_same (f c w) (f c w').

Lemma send_block_oblivious `{MapOrder} env guard msg after :
  (∀ c w w', world_same w w' →
     outcome_rel (λ x y, x.1 = y.1 ∧ world_same x.2 y.2) (after c w) (after c w')) →
  oblivious (send_block env guard msg after).
Proof.
  intros Hafter c w w' Hw. unfold send_block. destruct (guard c); [|done].
  destruct (Send_same env (default nil_response (msg c)) w w' Hw) as [He Hw1].
  destruct (Send env _ w) as [[e|] w1], (Send env _ w') as [[e'|] w1']; simpl in *; simplify_eq; [done|].
  specialize (Hafter c w1 w1' Hw1).
  destruct (after c w1) as [[c1 w2]|], (after c w1') as [[c1' w2']|]; simpl in *; try done.
  destruct Hafter as [-> ?]. done.
Qed.

Lemma and_then_same r r' f :
  outcome_rel sent_same r r' → oblivious f → outcome_rel sent_same (and_then r f) (and_then r' f).
Proof.
  intros Hr Hf. destruct r as [[[c w] e]|], r' as [[[c' w'] e']|]; simpl in Hr; try done.
  destruct Hr as (Hc & Hw & He). simpl in *. subst. destruct e'; [done|]. by apply Hf.
Qed.

Lemma update_oblivious `{MapOrder} env : oblivious (updateStateAndSendIfNeeded env).
Proof.
  intros c w w' Hw. unfold updateStateAndSendIfNeeded.
  repeat apply and_then_same; [revert c w w' Hw| | | | |]; apply send_block_oblivious;
    intros c1 w1 w1' Hw1; try done.
  destruct (rc_respBodyResp c1) as [resp|]; [|done]. simpl.
  by destruct (pr_Response resp) as [[]|].
Qed.

(** ** The streaming server *)

Section streaming.
Context `{MapOrder} (s : ServerConfig) (ovf : float64 → Z).

#[local] Instance streaming_server : StreamServer stream_state := {|
  srv_start r := stream_start (mkWorld r []);
  srv_handle := stream_handle s ovf;
  srv_err := ss_err;
  srv_deferred := stream_deferred;
  srv_registry st := w_reg (ss_world st);
  srv_with r st := mkStreamState (ss_ctx st) (ss_body st) (ss_requestBody st) (ss_responseBody st)
                     (ss_err st) (mkWorld r (w_sent (ss_world st)))
|}.

Lemma same_streaming c body rb rsb e w st' :
  same (mkStreamState c body rb rsb e w) st' ↔
  ∃ w', st' = mkStreamState c body rb rsb e w' ∧ world_same w w'.
Proof.
  unfold same, world_same. destruct st' as [c' body' rb' rsb' e' w']. simpl. split.
  - intros Hs. specialize (Hs (w_reg w)). simplify_eq. by exists w'.
  - intros (w1 & [= -> -> -> -> -> ->] & Hw) r. by rewrite Hw.
Qed.

Ltac finish_same := simpl; apply same_streaming; eexists; split; [reflexivity|]; auto with epp.

Lemma record_end_same c w w' : world_same w w' → world_same (record_end c w) (record_end c w').
Proof. done. Qed.

Lemma streaming_tokens_same c text w w' :
  world_same w w' →
  world_same (HandleResponseBodyModelStreaming c text w) (HandleResponseBodyModelStreaming c text w').
Proof. unfold HandleResponseBodyModelStreaming. by case_match. Qed.

#[local] Hint Resolve record_end_same streaming_tokens_same : epp.

Lemma switch_same env req st st' :
  same st st' → outcome_rel same (stream_switch s ovf env req st) (stream_switch s ovf env req st').
Proof.
  destruct st as [c body rb rsb e w]. intros (w' & -> & Hw)%same_streaming.
  destruct req as [h|b| |h|b| |]; simpl; try finish_same.
  - destruct (HandleRequestHeaders s env h c) as [[e' c']|]; [finish_same|done].
  - destruct (hb_EndOfStream b); [|finish_same].
    destruct (HandleRequestBody _ _ _ _) as [[[[e'|] c'] rb']|]; [finish_same|finish_same|done].
  - destruct (rc_modelServerStreaming c).
    + destruct (hb_EndOfStream b); finish_same.
    + destruct (hb_EndOfStream b); [|finish_same].
      destruct (HandleResponseBody _ _ _) as [[[e'|] c']|]; [finish_same| |done].
      run_outcome. destruct (rc_ResponseComplete c'); finish_same.
Qed.

#[local] Instance streaming_laws : StreamServerLaws.
Proof.
  split.
  - done.
  - done.
  - intros env req st st' Hs. simpl. unfold stream_handle.
    pose proof (switch_same env req st st' Hs) as Hsw.
    destruct (stream_switch s ovf env req st) as [st1|], (stream_switch s ovf env req st') as [st1'|];
      simpl in Hsw; try done. run_outcome.
    destruct st1 as [c body rb rsb e w]. apply same_streaming in Hsw as (w' & -> & Hw).
    destruct e as [e|].
    + destruct (BuildErrResponse e) as [m|e']; [|split; [done|finish_same]].
      destruct (Send_same env m w w' Hw) as [He Hw1].
      destruct (Send env m w) as [[e1|] w1], (Send env m w') as [[e1'|] w1']; simpl in *; simplify_eq;
        (split; [done|finish_same]).
    + pose proof (update_oblivious env c w w' Hw) as Hu.
      destruct (updateStateAndSendIfNeeded env c w) as [[[c1 w1] e1]|],
        (updateStateAndSendIfNeeded env c w') as [[[c1' w1'] e1']|]; simpl in Hu; try done.
      destruct Hu as (Hc & Hw1 & He). simpl in *. subst.
      destruct e1'; simpl; [split; [done|]|]; finish_same.
  - intros [c body rb rsb e w] st' (w' & -> & Hw)%same_streaming. done.
  - intros [c body rb rsb e w] st' (w' & -> & Hw)%same_streaming. simpl.
    repeat case_match; finish_same.
Qed.
End streaming.

(** ** The buffered server *)

Section buffered.
Context `{MapOrder} (s : ServerConfig).

#[local] Instance buffered_server : StreamServer server_state := {|
  srv_start r := server_start (mkWorld r []);
  srv_handle := server_handle s;
  srv_err := sv_err;
  srv_deferred := server_deferred;
  srv_registry st := w_reg (sv_world st);
  srv_with r st := mkServerState (sv_ctx st) (sv_err st) (mkWorld r (w_sent (sv_world st)))
|}.

Lemma same_buffered c e w st' :
  same (mkServerState c e w) st' ↔ ∃ w', st' = mkServerState c e w' ∧ world_same w w'.
Proof.
  unfold same, world_same. destruct st' as [c' e' w']. simpl. split.
  - intros Hs. specialize (Hs (w_reg w)). simplify_eq. by exists w'.
  - intros (w1 & [= -> -> ->] & Hw) r. by rewrite Hw.
Qed.

Lemma finish_turn_same env resp err c w w' :
  world_same w w' → turn_same (finish_turn env resp err c w) (finish_turn env resp err c w').
Proof.
  intros Hw. unfold finish_turn.
  assert (∀ m, turn_same
    match Send env m w with
    | (Some e, w) => Return (Some (send_failed e)) (mkServerState c None w)
    | (None, w) => Continue (mkServerState c None w)
    end
    match Send env m w' with
    | (Some e, w) => Return (Some (send_failed e)) (mkServerState c None w)
    | (None, w) => Continue (mkServerState c None w)
    end) as Hsend.
  { intros m. destruct (Send_same env m w w' Hw) as [He Hw1].
    destruct (Send env m w) as [[e1|] w1], (Send env m w') as [[e1'|] w1']; simpl in *; simplify_eq;
      [split; [done|]|]; apply same_buffered; eauto. }
  destruct err as [e|]; [|apply Hsend].
  destruct (BuildErrResponse e) as [m|e']; [apply Hsend|]. split; [done|]. apply same_buffered. eauto.
Qed.

#[local] Instance buffered_laws : StreamServerLaws.
Proof.
  split.
  - done.
  - done.
  - intros env req [c e w] st' (w' & -> & Hw)%same_buffered. simpl. unfold server_handle. simpl.
    destruct req as [h|b| |h|b| |]; simpl;
      try (split; [done|apply same_buffered; by eauto]); try by apply finish_turn_same.
    + destruct (Server.HandleRequestBody _ _ _ _) as [[[resp|e'] c']|]; [| |done]; run_outcome;
        by apply finish_turn_same.
    + destruct (HandleResponseHeaders h c) as [[resp c']|]; [|done]. run_outcome. by apply finish_turn_same.
    + destruct (Server.HandleResponseBody b c) as [[resp|e'] c']; [|by apply finish_turn_same].
      destruct (rc_ResponseComplete c'); by apply finish_turn_same.
  - intros [c e w] st' (w' & -> & Hw)%same_buffered. done.
  - intros [c e w] st' (w' & -> & Hw)%same_buffered. unfold srv_deferred. simpl.
    unfold server_deferred. simpl. repeat case_match; apply same_buffered; eauto.
Qed.
End buffered.

(** ** The gauge of running requests *)

Section gauge.
Context `{MapOrder} (s : ServerConfig) (ovf : float64 → Z).

#[local] Instance this_server : StreamServer stream_state := streaming_server s ovf.
#[local] Instance this_laws : StreamServerLaws := streaming_laws s ovf.

(** The stream is open and its request runs on model [m]. *)
Definition runs_on (m : string) (st : stream (T := stream_state)) : bool :=
  match st with
  | Open st => rc_RequestRunning (ss_ctx st) && bool_decide (rc_Model (ss_ctx st) = m)
  | Ended _ _ => false
  end.

(** How many values of a map satisfy a test. *)
Definition count_where {A} (f : A → bool) (streams : gmap nat A) : nat :=
  size (filter (λ ist : nat * A, f ist.2 = true) streams).

Definition running_streams (m : string) (p : process (T := stream_state)) : nat :=
  count_where (runs_on m) (pr_streams p).

Definition registry_gauge (r : registry) (m : string) : Z := default 0 (runningRequests r !! m).

Lemma contribution_runs st m : m ≠ "" → contribution (ss_ctx st) m = one_if (runs_on m (Open st)).
Proof.
  intros Hm. unfold contribution. simpl. rewrite (bool_decide_false (m = "")) by done.
  by rewrite andb_true_r.
Qed.

Lemma count_fresh {A} (f : A → bool) (streams : gmap nat A) i st :
  streams !! i = None →
  count_where f (<[i := st]> streams) = ((if f st then 1 else 0) + count_where f streams)%nat.
Proof.
  intros Hi. unfold count_where. destruct (f st) eqn:Hf.
  - rewrite map_filter_insert_True by done. rewrite map_size_insert_None; [done|].
    apply map_lookup_filter_None. by left.
  - rewrite map_filter_insert_False by (simpl; congruence). by rewrite delete_id.
Qed.

(** Replacing a stream changes the count by what the two streams count. *)
Lemma count_insert {A} (f : A → bool) (streams : gmap nat A) i st :
  (count_where f (<[i := st]> streams) + (if default false (f <$> streams !! i) then 1 else 0)
   = count_where f streams + (if f st then 1 else 0))%nat.
Proof.
  destruct (streams !! i) as [old|] eqn:Hi; simpl.
  - rewrite <-(insert_delete_id streams i old) at 2 by done. rewrite <-insert_delete_eq.
    rewrite !count_fresh by apply lookup_delete_eq. lia.
  - rewrite count_fresh by done. lia.
Qed.

(** What holds of an open stream that still gets the events [evs]. *)
Definition stream_ok (evs : list event) (st : stream) : Prop :=
  match st with
  | Ended _ _ => True
  | Open st => balanced (λ m, gauge (ss_world st) m - contribution (ss_ctx st) m) evs st
  end.

Lemma stream_ok_with r evs st :
  stream_ok evs (Open st) → balanced (λ m, registry_gauge r m - contribution (ss_ctx st) m) evs (srv_with r st).
Proof.
  intros ((_ & Hrun & Hok) & Hans & Hle). split; [|done]. split; [|done].
  intros m. simpl. unfold gauge, registry_gauge. simpl. lia.
Qed.

Lemma balanced_rebase base evs st :
  balanced base evs st → stream_ok evs (Open st).
Proof.
  intros ((Hg & Hrun & Hok) & Hans & Hle). split; [|done]. split; [|done]. intros m. lia.
Qed.

(** The registry of a stream does not matter. *)
Lemma stream_ok_same evs st st' : stream_same st st' → stream_ok evs st → stream_ok evs st'.
Proof.
  destruct st as [[c body rb rsb e w]|], st' as [st'|]; simpl; try done.
  intros (w' & -> & _)%same_streaming Hb.
  apply (stream_ok_with (w_reg w')) in Hb. by apply balanced_rebase in Hb.
Qed.

Lemma start_ok r evs : (completions evs <= 1)%nat → stream_ok evs (Open (srv_start r)).
Proof.
  intros Hle. apply (balanced_rebase (gauge (mkWorld r []))). split; [|split; [|done]].
  - split; [|split; [done|by split]]. intros m. unfold contribution. simpl. lia.
  - by intros [[? ?]|?].
Qed.

(** A turn of a stream changes the gauge by the change of its own contribution. *)
Lemma turn_counted r ev evs st :
  stream_ok (ev :: evs) (Open st) →
  match loop_turn srv_handle srv_err ev (srv_with r st) with
  | Val t =>
      stream_ok evs (finished t)
      ∧ ∀ m, m ≠ "" →
         registry_gauge (srv_registry (stream_state_of (finished t))) m + one_if (runs_on m (Open st))
         = registry_gauge r m + one_if (runs_on m (finished t))
  | Panic _ => True
  end.
Proof.
  intros Hb%(stream_ok_with r). set (base := λ m, _) in Hb.
  assert (∀ err st', counted base (ss_ctx st') (ss_world st') →
    stream_ok evs (finished (Return err st'))
    ∧ ∀ m, m ≠ "" →
       registry_gauge (srv_registry (stream_state_of (finished (Return err st')))) m
       + one_if (runs_on m (Open st)) = registry_gauge r m + 0) as Hend.
  { intros err st' Hc. split; [done|]. intros m Hm.
    pose proof (deferred_balanced base st' Hc m) as Hd. unfold gauge in Hd.
    rewrite <-contribution_runs by done. simpl in *. unfold registry_gauge. rewrite Hd.
    unfold base, registry_gauge. lia. }
  destruct ev as [e| |e|env req]; cbn [loop_turn].
  - apply Hend, Hb.
  - apply Hend, Hb.
  - case_bool_decide; apply Hend, Hb.
  - pose proof (handle_balanced s ovf base env req evs _ Hb) as Hh.
    change (stream_handle s ovf) with (srv_handle (T := stream_state)) in Hh.
    destruct (srv_handle env req _) as [[st'|err st']|]; [|by apply Hend|done].
    split; [by eapply balanced_rebase|]. intros m Hm. destruct Hh as ((Hg & _) & _).
    specialize (Hg m). cbn [finished stream_state_of]. rewrite <-!contribution_runs by done.
    change (registry_gauge (srv_registry st') m) with (gauge (ss_world st') m). rewrite Hg.
    unfold base. lia.
Qed.

(** The gauge counts the running streams on top of [g], and every stream is ready for the
    events that are left. *)
Definition gauge_inv (g : string → Z) (l : list (nat * event)) (p : process) : Prop :=
  (∀ m, m ≠ "" → registry_gauge (pr_registry p) m = g m + Z.of_nat (running_streams m p))
  ∧ ∀ i, stream_ok (events_of i l) (stream_at p i).

Lemma serve_turn_counted g i ev l p :
  gauge_inv g ((i, ev) :: l) p →
  match serve_turn i ev p with Val p' => gauge_inv g l p' | Panic _ => True end.
Proof.
  intros [Hg Hok]. pose proof (Hok i) as Hi. unfold serve_turn.
  rewrite events_of_cons, decide_True in Hi by done.
  assert (∀ j, j ≠ i → stream_ok (events_of j l) (stream_at p j)) as Hothers.
  { intros j Hj. specialize (Hok j). by rewrite events_of_cons, decide_False in Hok. }
  destruct (stream_at p i) as [st|e st] eqn:Hst.
  - pose proof (turn_counted (pr_registry p) ev (events_of i l) st Hi) as Ht.
    destruct (loop_turn _ _ _ _) as [t|]; [|done]. run_outcome. destruct Ht as [Ht Hdelta].
    split; cbn [pr_registry].
    + intros m Hm. specialize (Hdelta m Hm). specialize (Hg m Hm).
      unfold running_streams in *. cbn [pr_streams].
      pose proof (count_insert (runs_on m) (pr_streams p) i (finished t)) as Hsize.
      unfold stream_at in Hst.
      assert (default false (runs_on m <$> pr_streams p !! i) = runs_on m (Open st)) as Hold.
      { destruct (pr_streams p !! i) as [st0|]; simpl in *; [by subst|]. by injection Hst as <-. }
      rewrite Hold in Hsize. unfold one_if in Hdelta.
      destruct (runs_on m (Open st)), (runs_on m (finished t)); lia.
    + intros j. eapply stream_ok_same; [apply stream_same_sym, stream_at_insert|].
      destruct (decide (j = i)) as [->|Hj]; [done|by apply Hothers].
  - split; [done|]. intros j. destruct (decide (j = i)) as [->|]; [by rewrite Hst|by apply Hothers].
Qed.

Lemma serve_counted g l p :
  gauge_inv g l p → match serve l p with Val p' => gauge_inv g [] p' | Panic _ => True end.
Proof.
  revert p. induction l as [|[i ev] l IH]; intros p Hp; [done|].
  change (serve ((i, ev) :: l) p) with (p1 ← serve_turn i ev p; serve l p1).
  apply serve_turn_counted in Hp. destruct (serve_turn i ev p) as [p1|]; [|done]. by apply IH.
Qed.
End gauge.

(** * Claims *)

(** The streams of one server are isolated, so that what is proved of one stream holds of
    each stream of a server: the handlers read nothing the streams share.  However the
    turns of its streams interleave, each stream of the streaming and of the buffered
    server keeps the context, sends the messages and returns the error it would if it were
    the only stream and the registry held anything else; the server panics only when one
    of its streams does so alone. *)
Theorem streams_isolated `{MapOrder} s ovf l r :
  isolated (srv := streaming_server s ovf) l r
  ∧ isolated (srv := buffered_server s) l r.
Proof.
  split.
  - by apply (serve_isolated (laws := streaming_laws s ovf)).
  - by apply (serve_isolated (laws := buffered_laws s)).
Qed.

(** C6: the gauge of running requests counts streams.  At every moment of every interleaving
    of the turns of any number of streams, each with at most one complete request body,
    the gauge of a model is what it was at the start plus the number of open streams whose
    request runs on that model. *)
Theorem running_gauge_counts_streams `{MapOrder} s ovf l r p :
  (∀ i, (completions (events_of i l) <= 1)%nat) →
  serve (srv := streaming_server s ovf) l (process_start r) = Val p →
  ∀ m, m ≠ "" → registry_gauge (pr_registry p) m = registry_gauge r m + Z.of_nat (running_streams m p).
Proof.
  intros Hle Hserve. assert (gauge_inv s ovf (registry_gauge r) l (process_start r)) as Hinv.
  { split; [|intros i; by apply start_ok]. intros m _. unfold running_streams, count_where. simpl.
    rewrite map_filter_empty, map_size_empty. lia. }
  apply (serve_counted s ovf) in Hinv. unfold this_server in Hinv. rewrite Hserve in Hinv. apply Hinv.
Qed.

(** * Witnesses *)

(** Two streams that take turns; the second one ends. *)
Definition two_streams : list (nat * event) :=
  [(0%nat, Recv example_env (RequestHeaders (mkHttpHeaders [] false)));
   (1%nat, Recv example_env (RequestHeaders (mkHttpHeaders [] false)));
   (0%nat, Recv example_env (RequestBody (mkHttpBody (example_body "m") true)));
   (1%nat, Recv example_env (RequestBody (mkHttpBody (example_body "m") true)));
   (1%nat, RecvEOF)].

Definition served : outcome (process (T := stream_state)) :=
  serve (srv := streaming_server example_config (λ _, 0)) two_streams (process_start empty_registry).

Definition served_process : process (T := stream_state) :=
  match served with Val p => p | Panic _ => process_start empty_registry end.

Lemma running_gauge_counts_streams_witness :
  registry_gauge (pr_registry served_process) "m" = 1 ∧ running_streams "m" served_process = 1%nat
  ∧ registry_gauge (pr_registry served_process) "m"
    = registry_gauge empty_registry "m" + Z.of_nat (running_streams "m" served_process).
Proof.
  split; [by vm_compute|]. split; [by vm_compute|].
  apply (running_gauge_counts_streams example_config (λ _, 0) two_streams empty_registry served_process).
  - intros [|[|i]]; vm_compute; lia.
  - unfold served_process. fold served. assert (is_val served = true) as Hv by by vm_compute.
    by destruct served.
  - done.
Defined.
