(* ===== verification/RequestProofs.v ===== *)
(** * What the streaming server does with requests

    The forwarded body, the endpoint a request is sent to, that handling returns, and
    the answer to each kind of failure. *)

From S2P Require Import Prelude GoInt GoStrings Float64 Utf8 JsonNumber Json JsonProofs.
From S2P Require Import Api Errors BackendMetrics Metrics ExtProc Frontend Scheduling SchedulingProofs.
From S2P Require Import Datastore DatastoreProofs Handlers HandlersProofs Streaming StreamingProofs.

Local Open Scope Z_scope.

(** ** Forwarded bodies *)

Lemma body_model_Some rb model :
  body_model rb = Some model → ∃ m, rb = Some m ∧ field "model" m = Some (VString model).
Proof.
  unfold body_model. destruct rb as [m|]; simpl; [|done].
  destruct (field "model" m) as [[]|] eqn:Hf; intros; simplify_eq. eauto.
Qed.

Lemma forwarded_fields model target m :
  field "model" m = Some (VString model) →
  field "model" (forwarded model target (Some m)) = Some (VString target)
  ∧ ∀ k, k ≠ "model" → field k (forwarded model target (Some m)) = field k m.
Proof.
  intros Hm. unfold forwarded. simpl. case_bool_decide as Heq.
  - subst target. done.
  - split; [apply field_set_eq|]. intros k Hk. by apply field_set_ne.
Qed.

Lemma forwarded_ok h model target m :
  0 <= h → valid_utf8 target → fields_ok h m → fields_ok h (forwarded model target (Some m)).
Proof.
  intros Hh Ht Hm. unfold forwarded. simpl. case_bool_decide; [done|]. by apply set_field_ok.
Qed.

Lemma forwarded_floats model target m :
  floats_ok (VMap m) → floats_ok (VMap (forwarded model target (Some m))).
Proof. intros Hm. unfold forwarded. case_bool_decide; [done|]. by apply set_field_floats. Qed.

(** A marshalled map is not the empty text. *)
Lemma MarshalMap_ne m bytes : MarshalMap m = inl bytes → bytes ≠ "".
Proof. unfold MarshalMap. intros Hb. repeat case_match; by simplify_eq. Qed.

(** ** Success, inverted *)

Section success.
Context `{MapOrder} (s : ServerConfig).

Lemma HandleRequestBody_success env rb c c' rb' :
  HandleRequestBody s env rb c = Val (None, c', rb') →
  ∃ model modelObj target bytes picked pool c1,
    body_model rb = Some model ∧ ModelGet model (env_ds env) = Some modelObj
    ∧ resolve_model (env_Int31n env) modelObj model = Val (inl target)
    ∧ MarshalMap (Some (forwarded model target rb)) = inl bytes
    ∧ GetPod picked ∈ pm_pod <$> PodGetAll (env_ds_schedule env) ∧ ds_pool (env_ds_pool env) = Some pool
    ∧ c1 = with_worker env (forwarded model target rb) c
    ∧ c' = handled s c1 model target (GetPod picked)
             (endpoint_of (Address (GetPod picked)) pool) bytes.
Proof.
  rewrite HandleRequestBody_eq.
  destruct (body_model rb) as [model|]; [|done].
  destruct (ModelGet model (env_ds env)) as [modelObj|] eqn:Hobj; [|done].
  destruct (resolve_model _ _ _) as [[target|e]|] eqn:Hres; [|done|done].
  run_outcome. cbv zeta.
  destruct (MarshalMap (Some (forwarded model target rb))) as [bytes|e] eqn:Hb; [|done].
  destruct (scheduler_Schedule _) as [[picked|e]|] eqn:Hs; run_outcome; [|done|done].
  apply scheduler_picks in Hs. rewrite <-list_fmap_compose in Hs.
  unfold PoolGet. destruct (ds_pool (env_ds_pool env)) as [pool|] eqn:Hp; [|done].
  intros [= <- <-]. by repeat eexists.
Qed.
End success.

(** The endpoint that a header list and the dynamic metadata name. *)
Fixpoint header_value (k : string) (hs : list Header) : option string :=
  match hs with
  | [] => None
  | (k', v) :: hs => if bool_decide (k = k') then Some v else header_value k hs
  end.

Fixpoint struct_field (k : string) (m : list (string * struct_value)) : option struct_value :=
  match m with
  | [] => None
  | (k', v) :: m => if bool_decide (k = k') then Some v else struct_field k m
  end.

(** Where Envoy looks the endpoint up. *)
Definition metadata_endpoint (s : ServerConfig) (md : list (string * struct_value)) : option string :=
  let inner :=
    if bool_decide (destinationEndpointHintMetadataNamespace s ≠ "") then
      match struct_field (destinationEndpointHintMetadataNamespace s) md with
      | Some (StructValue m) => m
      | _ => []
      end
    else md in
  match struct_field (destinationEndpointHintKey s) inner with
  | Some (StringValue e) => Some e
  | _ => None
  end.

Lemma endpoint_metadata_found s endpoint :
  metadata_endpoint s (endpoint_metadata s endpoint) = Some endpoint.
Proof.
  unfold metadata_endpoint, endpoint_metadata.
  destruct (bool_decide (_ ≠ "")); repeat (cbn [struct_field]; rewrite bool_decide_true by done); done.
Qed.

(** ** A request and its messages *)

(** The headers of a request, its body in any number of chunks, each with what the handler
    finds when it arrives. *)
Record request_messages `{MapOrder} := mkRequestMessages {
  rm_headers : Env * list Header;
  rm_chunks : list (Env * string);
  rm_last : Env * string
}.

Definition request_events `{MapOrder} (r : request_messages) : list event :=
  Recv (rm_headers r).1 (RequestHeaders (mkHttpHeaders (rm_headers r).2 false))
  :: ((λ ec : Env * string, Recv ec.1 (RequestBody (mkHttpBody ec.2 false))) <$> rm_chunks r)
  ++ [Recv (rm_last r).1 (RequestBody (mkHttpBody (rm_last r).2 true))].

Definition request_text `{MapOrder} (r : request_messages) : string :=
  foldl (λ s ec, s +:+ ec.2) "" (rm_chunks r) +:+ (rm_last r).2.

(** Nothing is ready to be sent. *)
Record nothing_ready (c : RequestContext) : Prop := {
  nr_reqHeader : rc_reqHeaderResp c = None;
  nr_reqBody : rc_reqBodyResp c = None;
  nr_reqTrailer : rc_reqTrailerResp c = None;
  nr_respHeader : rc_respHeaderResp c = None;
  nr_respBody : rc_respBodyResp c = None;
  nr_respTrailer : rc_respTrailerResp c = None
}.

Lemma update_nothing `{MapOrder} env c w :
  nothing_ready c → updateStateAndSendIfNeeded env c w = Val (c, w, None).
Proof.
  intros [H1 H2 H3 H4 H5 H6].
  assert (∀ st f, f c = None → in_state st f c = false) as Hoff.
  { intros st f Hf. unfold in_state. rewrite Hf, (bool_decide_false (is_Some _)) by (by intros [? ?]).
    apply andb_false_r. }
  unfold updateStateAndSendIfNeeded, send_request_headers, send_request_body, send_request_trailers,
    send_response_headers, send_response_body, send_response_trailers, send_block.
  by do 6 (rewrite Hoff by done; cbn [and_then]).
Qed.

(** The context after the headers. *)
Definition received_at (t : Time) : RequestContext := set_RequestReceivedTimestamp t zero_context.

Lemma received_nothing t : nothing_ready (received_at t).
Proof. by split. Qed.

Lemma chunk_collected `{MapOrder} s ovf env b t body w :
  stream_handle s ovf env (RequestBody (mkHttpBody b false))
    (mkStreamState (received_at t) body None None None w)
  = Val (Continue (mkStreamState (received_at t) (body +:+ b) None None None w)).
Proof.
  unfold stream_handle. cbn [stream_switch hb_Body hb_EndOfStream]. run_outcome.
  by rewrite update_nothing by apply received_nothing.
Qed.

Lemma headers_collected `{MapOrder} s ovf env hs w :
  stream_handle s ovf env (RequestHeaders (mkHttpHeaders hs false)) (stream_start w)
  = Val (Continue (mkStreamState (received_at (env_now env)) "" None None None w)).
Proof.
  unfold stream_handle. cbn [stream_switch stream_start]. unfold HandleRequestHeaders.
  cbn [hh_EndOfStream]. run_outcome. by rewrite update_nothing by apply received_nothing.
Qed.

Lemma chunks_collected `{MapOrder} s ovf (chunks : list (Env * string)) evs t body w :
  Process_loop (stream_handle s ovf) ss_err stream_deferred
    (((λ ec : Env * string, Recv ec.1 (RequestBody (mkHttpBody ec.2 false))) <$> chunks) ++ evs)
    (mkStreamState (received_at t) body None None None w)
  = Process_loop (stream_handle s ovf) ss_err stream_deferred evs
      (mkStreamState (received_at t) (foldl (λ s ec, s +:+ ec.2) body chunks) None None None w).
Proof.
  revert body. induction chunks as [|[env b] chunks IH]; intros body; [done|].
  rewrite fmap_cons. cbn [app Process_loop loop_turn fst snd]. rewrite chunk_collected. run_outcome. apply IH.
Qed.

(** Until its last message a request is only collected. *)
Lemma request_collected `{MapOrder} s ovf r w :
  Process s ovf (request_events r) w
  = Process_loop (stream_handle s ovf) ss_err stream_deferred
      [Recv (rm_last r).1 (RequestBody (mkHttpBody (rm_last r).2 true))]
      (mkStreamState (received_at (env_now (rm_headers r).1))
         (foldl (λ s ec, s +:+ ec.2) "" (rm_chunks r)) None None None w).
Proof.
  unfold Process, request_events. cbn [Process_loop loop_turn]. rewrite headers_collected. run_outcome.
  by rewrite chunks_collected.
Qed.

(** ** Failure *)

(** The stream ends with one immediate response, or with an error when it cannot be sent;
    the error is counted once, under no model, and nothing else is recorded. *)
Definition failed_with `{MapOrder} (env : Env) (run : outcome (turn stream_state)) (w : world)
    (code : string) (status : Z) : Prop :=
  ∃ st, run = Val (Return (send_failed <$> env_send env (immediate status)) st)
    ∧ w_sent (ss_world st)
      = w_sent w ++ match env_send env (immediate status) with None => [immediate status] | Some _ => [] end
    ∧ requestErrCounter (w_reg (ss_world st)) = add_at ("", "", code) 1 (requestErrCounter (w_reg w))
    ∧ requestCounter (w_reg (ss_world st)) = requestCounter (w_reg w)
    ∧ runningRequests (w_reg (ss_world st)) = runningRequests (w_reg w).

(** The stream ends with an error and nothing is sent; it is counted all the same. *)
Definition failed_unanswered (run : outcome (turn stream_state)) (w : world) (code : string) : Prop :=
  ∃ e st, run = Val (Return (Some e) st)
    ∧ w_sent (ss_world st) = w_sent w
    ∧ requestErrCounter (w_reg (ss_world st)) = add_at ("", "", code) 1 (requestErrCounter (w_reg w))
    ∧ requestCounter (w_reg (ss_world st)) = requestCounter (w_reg w)
    ∧ runningRequests (w_reg (ss_world st)) = runningRequests (w_reg w).

(** What the deferred function counts for a request that failed before it had a model. *)
Lemma deferred_counts t c body rb rsb e w :
  c = received_at t ∨ (∃ wid, c = set_WorkerInstanceID wid (received_at t)) → CanonicalCode e ≠ "" →
  ss_world (stream_deferred (mkStreamState c body rb rsb (Some e) w))
  = record (RecordRequestErrCounter "" "" (CanonicalCode e)) w.
Proof.
  intros Hc He. unfold stream_deferred.
  destruct Hc as [->|[wid ->]]; cbn -[CanonicalCode record]; by rewrite (bool_decide_false (CanonicalCode e = "")).
Qed.

Section failure.
Context `{MapOrder} (s : ServerConfig) (ovf : float64 → Z) (r : request_messages) (w : world).
Let env := (rm_last r).1.
Let start := received_at (env_now (rm_headers r).1).
Let rb := (UnmarshalMap (request_text r) None).1.

(** The context a failed request leaves: as the headers left it, up to the worker id. *)
Definition untouched_context (c : RequestContext) : Prop :=
  c = start ∨ ∃ wid, c = set_WorkerInstanceID wid start.

Lemma failed_request code msg status c rb' :
  code ≠ "" → BuildErrResponse (EppError code msg) = inl (immediate status) →
  HandleRequestBody s env rb start = Val (Some (EppError code msg), c, rb') → untouched_context c →
  failed_with env (Process s ovf (request_events r) w) w code status.
Proof.
  intros Hcode Hbuild Hh Hc. rewrite request_collected. unfold failed_with.
  cbn [Process_loop loop_turn]. unfold stream_handle. cbn [stream_switch hb_Body hb_EndOfStream].
  fold (request_text r). fold rb. fold start. fold env. rewrite Hh. run_outcome. rewrite Hbuild.
  unfold Send. destruct (env_send env (immediate status)) as [e|]; run_outcome;
    (eexists; split; [done|]).
  all: rewrite (deferred_counts (env_now (rm_headers r).1)) by done.
  all: cbn [w_sent record w_reg CanonicalCode]; rewrite ?app_nil_r; unfold RecordRequestErrCounter;
    by rewrite bool_decide_false.
Qed.

Lemma unanswered_request c rb' :
  HandleRequestBody s env rb start = Val (Some errPoolNotSynced, c, rb') → untouched_context c →
  failed_unanswered (Process s ovf (request_events r) w) w Unknown.
Proof.
  intros Hh Hc. rewrite request_collected. unfold failed_unanswered.
  cbn [Process_loop loop_turn]. unfold stream_handle. cbn [stream_switch hb_Body hb_EndOfStream].
  fold (request_text r). fold rb. fold start. fold env. rewrite Hh. run_outcome.
  destruct (BuildErrResponse errPoolNotSynced) as [?|e] eqn:Hb; [by vm_compute in Hb|]. run_outcome.
  eexists _, _. split; [done|]. rewrite (deferred_counts (env_now (rm_headers r).1)) by done. done.
Qed.
End failure.

Lemma resolve_model_error draw obj model e :
  resolve_model draw obj model = Val (inr e) → ∃ msg, e = EppError BadConfiguration msg.
Proof.
  unfold resolve_model. destruct (TargetModels _); [done|].
  destruct (RandomWeightedDraw draw obj); simpl; [|done]. case_bool_decide; intros; simplify_eq. eauto.
Qed.

(** The body marshals whenever it came from a text. *)
Lemma forwarded_marshals body m e model target :
  UnmarshalMap body None = (Some m, e) →
  ∃ bytes, MarshalMap (Some (forwarded model target (Some m))) = inl bytes.
Proof.
  intros Hu%unmarshal_floats. unfold MarshalMap.
  rewrite floats_ok_supported by (by apply forwarded_floats). by eexists.
Qed.

(** * Claims *)

(** C2: the forwarded body is the request body with the target model in place of
    the model.  When a request whose body unmarshals is handled without error, the
    bytes sent on unmarshal again, without error, to a map whose model is the target
    (which is the requested model or one of its target models) and whose other fields
    are those of the request, whatever they are, floating-point numbers included. *)
Theorem forwarded_body_preserved `{MapOrder} s env body m e c c' rb' bytes :
  UnmarshalMap body None = (Some m, e) →
  HandleRequestBody s env (Some m) c = Val (None, c', rb') →
  rc_reqBodyResp c' = Some (request_body_response bytes) →
  valid_utf8 (rc_ResolvedTargetModel c') →
  ∃ m', UnmarshalMap bytes None = (Some m', None)
    ∧ field "model" m = Some (VString (rc_Model c'))
    ∧ field "model" m' = Some (VString (rc_ResolvedTargetModel c'))
    ∧ ∀ k, k ≠ "model" → field k m' = field k m.
Proof.
  intros Hun (model & obj & target & bytes' & picked & pool & c1 & Hm & _ & _ & Hb & _ & _ & _ & ->)%HandleRequestBody_success Hr Hu.
  simpl in Hr, Hu. simplify_eq.
  apply body_model_Some in Hm as (m0 & [= <-] & Hm).
  destruct (forwarded_fields model target m Hm) as [Hf1 Hf2].
  pose proof (unmarshal_fields_ok body m e Hun) as Hok. pose proof (unmarshal_floats body m e Hun) as Hfl.
  exists (forwarded model target (Some m)). split; [|done].
  unfold MarshalMap in Hb. rewrite floats_ok_supported in Hb by (by apply forwarded_floats).
  simplify_eq. apply unmarshal_marshal; [|by apply forwarded_floats].
  by apply forwarded_ok.
Qed.

(** C3: a request handled without error is sent to a pod of the datastore.  The
    endpoint is the address of a listed pod with the pool's port; the destination
    header and the dynamic metadata both carry it; the content length is the length
    of the body that is sent on; and the route cache is cleared. *)
Theorem request_sent_to_listed_pod `{MapOrder} s env rb c c' rb' :
  HandleRequestBody s env rb c = Val (None, c', rb') →
  ∃ o pool bytes hs md,
    o ∈ PodGetAll (env_ds_schedule env) ∧ ds_pool (env_ds_pool env) = Some pool
    ∧ rc_TargetEndpoint c' = endpoint_of (Address (pm_pod o)) pool
    ∧ rc_reqBodyResp c' = Some (request_body_response bytes)
    ∧ rc_reqHeaderResp c'
      = Some (mkProcessingResponse (Some (RespRequestHeaders (mkCommonResponse (Some hs) None true)))
                (Some md))
    ∧ header_value (destinationEndpointHintKey s) hs = Some (rc_TargetEndpoint c')
    ∧ metadata_endpoint s md = Some (rc_TargetEndpoint c')
    ∧ ("Content-Length", Itoa (Z.of_nat (String.length bytes))) ∈ hs.
Proof.
  intros (model & obj & target & bytes & picked & pool & c1 & _ & _ & _ & Hb & Hin & Hp & _ & ->)%HandleRequestBody_success.
  apply list_elem_of_fmap in Hin as (o & Heq & Ho). apply MarshalMap_ne in Hb.
  eexists o, pool, bytes, _, _. split; [done|]. split; [done|]. split; [by rewrite <-Heq|].
  split; [done|]. split; [done|]. split; [simpl; by rewrite bool_decide_true|].
  split; [apply endpoint_metadata_found|].
  unfold request_headers. rewrite !elem_of_app. right. left.
  rewrite (proj2 (Z.ltb_lt _ _)) by (destruct bytes; [done|simpl; lia]). by left.
Qed.

(** C5: a request that cannot be served is answered and counted.  However its body is cut
    into messages: one without a model string (unparsable bodies included) gets 400, a
    model without an InferenceModel or with an empty target name 404, and a request the
    scheduler refuses 429.  The stream then ends, without error when the answer could be
    sent, and the error counter goes up by one, under its code but under empty model
    names.  When the pool is gone after the request was scheduled, the stream ends with an
    error and without an answer, and the error is counted as unknown. *)
Theorem failed_requests_answered `{MapOrder} s ovf r w :
  let env := (rm_last r).1 in
  let rb := (UnmarshalMap (request_text r) None).1 in
  let run := Process s ovf (request_events r) w in
  (body_model rb = None → failed_with env run w BadRequest 400)
  ∧ (∀ model, body_model rb = Some model → ModelGet model (env_ds env) = None →
       failed_with env run w BadConfiguration 404)
  ∧ (∀ model obj e, body_model rb = Some model → ModelGet model (env_ds env) = Some obj →
       resolve_model (env_Int31n env) obj model = Val (inr e) →
       failed_with env run w BadConfiguration 404)
  ∧ (∀ model obj target, body_model rb = Some model → ModelGet model (env_ds env) = Some obj →
       resolve_model (env_Int31n env) obj model = Val (inl target) →
       match @scheduler_Schedule _ (env_scheduler env) (mkLLMRequest model ∅ target (IsCritical obj)) with
       | Val (inr e) => failed_with env run w InferencePoolResourceExhausted 429
       | Val (inl _) => ds_pool (env_ds_pool env) = None → failed_unanswered run w Unknown
       | Panic _ => False
       end).
Proof.
  cbv zeta. set (start := received_at (env_now (rm_headers r).1)). split; [|split; [|split]].
  - intros Hm. eapply failed_request; [done|done| |by left]. rewrite HandleRequestBody_eq, Hm. done.
  - intros model Hm Hobj. eapply failed_request; [done|done| |by left].
    rewrite HandleRequestBody_eq, Hm, Hobj. done.
  - intros model obj e Hm Hobj Hres. destruct (resolve_model_error _ _ _ _ Hres) as [msg ->].
    eapply failed_request; [done|done| |by left]. rewrite HandleRequestBody_eq, Hm, Hobj, Hres. done.
  - intros model obj target Hm Hobj Hres.
    destruct (UnmarshalMap (request_text r) None) as [rb ue] eqn:Hu. simpl in Hm.
    pose proof Hm as Hm'. apply body_model_Some in Hm' as (m & -> & Hf).
    destruct (forwarded_marshals (request_text r) m ue model target Hu) as [bytes Hb].
    pose proof (HandleRequestBody_eq s (rm_last r).1 (Some m) start) as Heq.
    rewrite Hm, Hobj, Hres in Heq. cbn [mbind outcome_bind] in Heq. cbv zeta in Heq. rewrite Hb in Heq.
    pose proof (scheduler_total (Scheduler:=env_scheduler (rm_last r).1)
                  (mkLLMRequest model ∅ target (IsCritical obj))) as Ht.
    destruct (scheduler_Schedule _) as [[picked|e]|]; [| |done]; cbn [mbind outcome_bind] in Heq.
    + intros Hp. unfold PoolGet in Heq. rewrite Hp in Heq. eapply unanswered_request.
      * rewrite Hu. exact Heq.
      * apply with_worker_cases.
    + eapply failed_request; [done|done| |apply with_worker_cases]. rewrite Hu. exact Heq.
Qed.

(** C4: handling a request body never panics.  For every body and every store whose models
    pass the validation of the CRD, the handler returns: with a target; or with an error
    that is answered with 400, 404 or 429; or, when there is no pool at its last look, with
    the error that the pool is not synced, for which there is no answer. *)
Theorem request_handling_total `{MapOrder} s env body rb e c :
  draws_ok env → UnmarshalMap body None = (rb, e) →
  (∀ k m, ModelGet k (env_ds env) = Some m → valid_target_models (TargetModels (im_Spec m))) →
  ∃ err c' rb', HandleRequestBody s env rb c = Val (err, c', rb')
    ∧ match err with
      | None => True
      | Some e' =>
          (∃ status, status ∈ [400; 404; 429] ∧ BuildErrResponse e' = inl (immediate status))
          ∨ (e' = errPoolNotSynced ∧ ds_pool (env_ds_pool env) = None ∧ ∃ e'', BuildErrResponse e' = inr e'')
      end.
Proof.
  intros [Hd _] Hu Hvalid. rewrite HandleRequestBody_eq.
  assert (∀ code msg status, BuildErrResponse (EppError code msg) = inl (immediate status) →
    status ∈ [400; 404; 429] →
    ∃ status', status' ∈ [400; 404; 429] ∧ BuildErrResponse (EppError code msg) = inl (immediate status'))
    as Hans by eauto.
  destruct (body_model rb) as [model|] eqn:Hm;
    [|eexists _, _, _; split; [done|]; left; by eapply (Hans _ _ 400); [|left]].
  destruct (ModelGet model (env_ds env)) as [obj|] eqn:Hobj;
    [|eexists _, _, _; split; [done|]; left; by eapply (Hans _ _ 404); [|right; left]].
  destruct (resolve_model_total (env_Int31n env) obj model (Hvalid _ _ Hobj) Hd) as ([target|re] & -> & Hre);
    run_outcome; cbv zeta.
  2: { destruct (Hre re eq_refl) as [msg ->]. eexists _, _, _. split; [done|]. left.
       by eapply (Hans _ _ 404); [|right; left]. }
  apply body_model_Some in Hm as (m & -> & _).
  destruct (forwarded_marshals body m e model target Hu) as [bytes ->].
  pose proof (scheduler_total (Scheduler:=env_scheduler env)
                (mkLLMRequest model ∅ target (IsCritical obj))) as Ht.
  destruct (scheduler_Schedule _) as [[picked|se]|]; [| |done]; run_outcome.
  - unfold PoolGet. destruct (ds_pool (env_ds_pool env)); eexists _, _, _; (split; [done|]); [done|].
    right. split; [done|]. split; [done|]. by eexists.
  - eexists _, _, _. split; [done|]. left. by eapply (Hans _ _ 429); [|right; right; left].
Qed.

(** A request without a body (its headers end the stream) goes to a listed pod on
    the pool's port, with no content length; when no pod is listed the random draw
    panics. *)
Theorem header_only_requests `{MapOrder} s env h c :
  draws_ok env → hh_EndOfStream h = true →
  (PodGetAll (env_ds env) = [] → HandleRequestHeaders s env h c = Panic InvalidArgument)
  ∧ (∀ pool, PodGetAll (env_ds env) ≠ [] → ds_pool (env_ds_pool env) = Some pool →
      ∃ o c' hs md, o ∈ PodGetAll (env_ds env)
        ∧ HandleRequestHeaders s env h c = Val (None, c')
        ∧ rc_reqHeaderResp c'
          = Some (mkProcessingResponse (Some (RespRequestHeaders (mkCommonResponse (Some hs) None true)))
                    (Some md))
        ∧ hs = [(destinationEndpointHintKey s, endpoint_of (Address (pm_pod o)) pool)]
               ++ (if bool_decide (rc_WorkerInstanceID c ≠ "")
                   then [("x-worker-instance-id", rc_WorkerInstanceID c)] else [])
        ∧ metadata_endpoint s md = Some (endpoint_of (Address (pm_pod o)) pool)).
Proof.
  intros [_ Hd] Heos. unfold HandleRequestHeaders, GetRandomPod. rewrite Heos.
  split; [by intros ->|]. intros pool Hne Hpool. unfold PoolGet. rewrite Hpool.
  destruct (PodGetAll (env_ds env)) as [|p ps]; [done|].
  destruct (lookup_lt_is_Some_2 (p :: ps) (env_Intn env (length (p :: ps)))) as [o Ho];
    [apply Hd; simpl; lia|].
  unfold index. rewrite Ho. run_outcome. eexists o, _, _, _.
  split; [by eapply list_elem_of_lookup_2|]. split; [done|]. split; [done|]. split; [done|].
  apply endpoint_metadata_found.
Qed.

(** * Witnesses *)

Definition example_fields (model : string) : fields :=
  [("model", VString model); ("prompt", VString "hi")].

Definition example_run : RequestContext * option fields :=
  match HandleRequestBody example_config example_env (Some (example_fields "m")) zero_context with
  | Val (_, c, rb) => (c, rb)
  | Panic _ => (zero_context, None)
  end.

Definition example_handled : RequestContext := example_run.1.

Lemma example_runs :
  HandleRequestBody example_config example_env (Some (example_fields "m")) zero_context
  = Val (None, example_handled, example_run.2).
Proof. vm_compute. reflexivity. Qed.

Lemma forwarded_body_preserved_witness :
  ∃ m', UnmarshalMap (print (VMap (example_fields "m"))) None = (Some m', None)
    ∧ field "model" (example_fields "m") = Some (VString (rc_Model example_handled))
    ∧ field "model" m' = Some (VString (rc_ResolvedTargetModel example_handled))
    ∧ ∀ k, k ≠ "model" → field k m' = field k (example_fields "m").
Proof.
  eapply (forwarded_body_preserved example_config example_env (example_body "m")).
  - vm_compute. reflexivity.
  - apply example_runs.
  - vm_compute. reflexivity.
  - vm_compute. reflexivity.
Defined.

Lemma request_sent_to_listed_pod_witness :
  rc_TargetEndpoint example_handled = "10.0.0.1:8000"
  ∧ ∃ o pool bytes hs md,
    o ∈ PodGetAll (env_ds_schedule example_env) ∧ ds_pool (env_ds_pool example_env) = Some pool
    ∧ rc_TargetEndpoint example_handled = endpoint_of (Address (pm_pod o)) pool
    ∧ rc_reqBodyResp example_handled = Some (request_body_response bytes)
    ∧ rc_reqHeaderResp example_handled
      = Some (mkProcessingResponse (Some (RespRequestHeaders (mkCommonResponse (Some hs) None true)))
                (Some md))
    ∧ header_value (destinationEndpointHintKey example_config) hs
      = Some (rc_TargetEndpoint example_handled)
    ∧ metadata_endpoint example_config md = Some (rc_TargetEndpoint example_handled)
    ∧ ("Content-Length", Itoa (Z.of_nat (String.length bytes))) ∈ hs.
Proof.
  split; [vm_compute; reflexivity|].
  eapply (request_sent_to_listed_pod example_config example_env (Some (example_fields "m")) zero_context).
  apply example_runs.
Defined.

(** A body in three messages, and what the server does with it. *)
Definition example_request_messages (a b c : string) : request_messages :=
  mkRequestMessages _ (example_env, []) [(example_env, a); (example_env, b)] (example_env, c).

Lemma failed_requests_answered_witness :
  failed_with example_env (Process example_config (λ _, 0)
    (request_events (example_request_messages "{" (quote_string "model" +:+ ":") (quote_string "unknown" +:+ "}")))
    (mkWorld empty_registry [])) (mkWorld empty_registry []) BadConfiguration 404.
Proof.
  refine (proj1 (proj2 (failed_requests_answered example_config (λ _, 0)
    (example_request_messages "{" (quote_string "model" +:+ ":") (quote_string "unknown" +:+ "}"))
    (mkWorld empty_registry []))) "unknown" _ _).
  - vm_compute. reflexivity.
  - vm_compute. reflexivity.
Defined.

Lemma request_handling_total_witness :
  ∃ err c' rb', HandleRequestBody example_config example_env (Some (example_fields "m")) zero_context
                = Val (err, c', rb')
    ∧ match err with
      | None => True
      | Some e' =>
          (∃ status, status ∈ [400; 404; 429] ∧ BuildErrResponse e' = inl (immediate status))
          ∨ (e' = errPoolNotSynced ∧ ds_pool (env_ds_pool example_env) = None
             ∧ ∃ e'', BuildErrResponse e' = inr e'')
      end.
Proof.
  eapply (request_handling_total example_config example_env (example_body "m")).
  - split; simpl; lia.
  - vm_compute. reflexivity.
  - intros k m Hm. assert (m = example_model "a" 5) as ->.
    { change (ModelGet k (env_ds example_env))
        with (<["m" := example_model "a" 5]> (∅ : gmap string InferenceModel) !! k) in Hm.
      apply lookup_insert_Some in Hm as [[_ Hm]|[_ Hm]]; [done|by rewrite lookup_empty in Hm]. }
    repeat split; [left; constructor|constructor|simpl; lia].
Defined.

Definition empty_env : Env :=
  mkEnv _ NewDatastore NewDatastore NewDatastore
    (default_scheduler least_draws defaultConfig NewDatastore 0) 0 (λ _, 0)
    (λ _, 0%nat) (λ _, FePostFailed (LibraryError "")) (λ _, None).

Lemma header_only_requests_witness :
  HandleRequestHeaders example_config empty_env (mkHttpHeaders [] true) zero_context
  = Panic InvalidArgument.
Proof.
  apply (header_only_requests example_config empty_env (mkHttpHeaders [] true) zero_context).
  - split; simpl; lia.
  - reflexivity.
  - vm_compute. reflexivity.
Defined.
