(* ===== verification/ResponseProofs.v ===== *)
(** * What the streaming server does with response bodies *)

From S2P Require Import Prelude GoInt GoStrings Float64 Utf8 JsonNumber Json JsonProofs.
From S2P Require Import Api Errors BackendMetrics Metrics ExtProc Frontend Scheduling Datastore.
From S2P Require Import DatastoreProofs Handlers HandlersProofs Streaming StreamingProofs.

Local Open Scope Z_scope.

(** ** One response message *)

(** The response headers were answered, nothing is pending. *)
Record in_response (st : stream_state) : Prop := {
  ir_state : rc_RequestState (ss_ctx st) = HeaderResponseResponseComplete;
  ir_body : rc_respBodyResp (ss_ctx st) = None;
  ir_trailer : rc_respTrailerResp (ss_ctx st) = None;
  ir_err : ss_err st = None
}.

Section blocks.
Context `{MapOrder} (env : Env).

Lemma block_skipped guard msg after c w :
  guard c = false → send_block env guard msg after c w = Val (c, w, None).
Proof. unfold send_block. by intros ->. Qed.

Lemma block_sent guard msg after c w c' w' :
  guard c = true → env_send env (default nil_response (msg c)) = None →
  after c (mkWorld (w_reg w) (w_sent w ++ [default nil_response (msg c)])) = Val (c', w') →
  send_block env guard msg after c w = Val (c', w', None).
Proof. unfold send_block, Send. intros -> -> Ha. by rewrite Ha. Qed.

Lemma in_state_other st f c : rc_RequestState c ≠ st → in_state st f c = false.
Proof. intros Hst. unfold in_state. by rewrite bool_decide_false. Qed.

Lemma in_state_none st f c : f c = None → in_state st f c = false.
Proof.
  intros Hf. unfold in_state. rewrite Hf, (bool_decide_false (is_Some _)) by (by intros [? ?]).
  apply andb_false_r.
Qed.
End blocks.

(** In that state exactly the prepared response body is sent. *)
Lemma update_response_body `{MapOrder} env c w body eos :
  rc_RequestState c = HeaderResponseResponseComplete → rc_respTrailerResp c = None →
  rc_respBodyResp c = Some (response_body_response body eos) →
  (∀ m, env_send env m = None) →
  ∃ c', updateStateAndSendIfNeeded env c w
        = Val (c', mkWorld (w_reg w) (w_sent w ++ [response_body_response body eos]), None)
    ∧ rc_respBodyResp c' = None ∧ rc_respTrailerResp c' = None
    ∧ rc_modelServerStreaming c' = rc_modelServerStreaming c
    ∧ (eos = false → rc_RequestState c' = HeaderResponseResponseComplete).
Proof.
  intros Hst Htr Hb Hsend. unfold updateStateAndSendIfNeeded.
  unfold send_request_headers. rewrite block_skipped by (apply in_state_other; by rewrite Hst).
  unfold send_request_body. cbn [and_then].
  rewrite block_skipped by (apply in_state_other; by rewrite Hst).
  unfold send_request_trailers. cbn [and_then].
  rewrite block_skipped by (apply in_state_other; by rewrite Hst).
  unfold send_response_headers. cbn [and_then].
  rewrite block_skipped by (apply in_state_other; by rewrite Hst).
  unfold send_response_body. cbn [and_then].
  erewrite block_sent; [|apply in_state_true; by eauto|by rewrite Hb|by rewrite Hb].
  cbn [and_then]. unfold send_response_trailers.
  rewrite block_skipped by (apply in_state_none; by destruct eos).
  eexists. split; [done|]. by destruct eos.
Qed.

(** ** Response messages *)

Lemma handle_response `{MapOrder} s ovf env b st c' w' body rb rsb bytes eos :
  stream_switch s ovf env (ResponseBody b) st = Val (mkStreamState c' body rb rsb None w') →
  rc_RequestState c' = HeaderResponseResponseComplete → rc_respTrailerResp c' = None →
  rc_respBodyResp c' = Some (response_body_response bytes eos) →
  (∀ m, env_send env m = None) →
  ∃ c2, stream_handle s ovf env (ResponseBody b) st
        = Val (Continue (mkStreamState c2 body rb rsb None
            (mkWorld (w_reg w') (w_sent w' ++ [response_body_response bytes eos]))))
    ∧ rc_respBodyResp c2 = None ∧ rc_respTrailerResp c2 = None
    ∧ rc_modelServerStreaming c2 = rc_modelServerStreaming c'
    ∧ (eos = false → rc_RequestState c2 = HeaderResponseResponseComplete).
Proof.
  intros Hsw Hst Htr Hb Hsend. unfold stream_handle. rewrite Hsw. run_outcome.
  destruct (update_response_body env c' w' bytes eos) as (c2 & -> & Hrest); [done..|].
  run_outcome. by exists c2.
Qed.

(** One chunk of a streamed response. *)
Lemma handle_chunk `{MapOrder} s ovf env b st :
  in_response st → rc_modelServerStreaming (ss_ctx st) = true → (∀ m, env_send env m = None) →
  ∃ st', stream_handle s ovf env (ResponseBody b) st = Val (Continue st')
    ∧ w_sent (ss_world st')
      = w_sent (ss_world st) ++ [response_body_response (hb_Body b) (hb_EndOfStream b)]
    ∧ (hb_EndOfStream b = false → in_response st' ∧ rc_modelServerStreaming (ss_ctx st') = true).
Proof.
  destruct st as [c body rb rsb err w]. intros [Hst Hb Htr Herr] Hms Hsend. simpl in *. subst err.
  destruct (stream_switch s ovf env (ResponseBody b) (mkStreamState c body rb rsb None w))
    as [[c' body' rb' rsb' err' w']|] eqn:Hsw; cbn [stream_switch] in Hsw; rewrite Hms in Hsw;
    [|by destruct (hb_EndOfStream b)].
  assert (rc_RequestState c' = HeaderResponseResponseComplete ∧ rc_respTrailerResp c' = None
    ∧ rc_respBodyResp c' = Some (response_body_response (hb_Body b) (hb_EndOfStream b))
    ∧ rc_modelServerStreaming c' = true ∧ err' = None ∧ w_sent w' = w_sent w)
    as (H1 & H2 & H3 & H4 & -> & H6).
  { destruct (hb_EndOfStream b); simplify_eq; repeat split; try done; apply model_streaming_sent. }
  destruct (handle_response s ovf env b (mkStreamState c body rb rsb None w)
              c' w' body' rb' rsb' (hb_Body b) (hb_EndOfStream b))
    as (c2 & -> & Hb2 & Ht2 & Hm2 & Hs2); try done.
  { cbn [stream_switch]. by rewrite Hms. }
  eexists. split; [done|]. split; [by rewrite <-H6|]. intros Heos. split; [split; auto|].
  by rewrite <-H4.
Qed.

Definition chunk_event `{MapOrder} (eb : Env * HttpBody) : event := Recv eb.1 (ResponseBody eb.2).

Definition chunk_response `{MapOrder} (eb : Env * HttpBody) : ProcessingResponse :=
  response_body_response (hb_Body eb.2) (hb_EndOfStream eb.2).

(** Every send succeeds. *)
Definition sends_ok `{MapOrder} (env : Env) : Prop := ∀ m, env_send env m = None.

Lemma chunks_passed `{MapOrder} s ovf chunks st :
  in_response st → rc_modelServerStreaming (ss_ctx st) = true →
  Forall (λ eb, sends_ok eb.1) chunks →
  Forall (λ eb, hb_EndOfStream eb.2 = false) (take (length chunks - 1) chunks) →
  ∃ st', Process_loop (stream_handle s ovf) ss_err stream_deferred (chunk_event <$> chunks) st
         = Val (Continue st')
    ∧ w_sent (ss_world st') = w_sent (ss_world st) ++ (chunk_response <$> chunks).
Proof.
  intros Hin Hms Hsend. revert st Hin Hms. induction Hsend as [|[env b] chunks Hs Hsend IH];
    intros st Hin Hms Heos.
  { exists st. split; [done|]. cbn. by rewrite app_nil_r. }
  rewrite fmap_cons. cbn [Process_loop loop_turn chunk_event fst snd].
  destruct (handle_chunk s ovf env b st Hin Hms Hs) as (st' & -> & Hsent & Hnext).
  run_outcome. destruct chunks as [|eb chunks].
  - exists st'. split; [done|]. done.
  - simpl in Heos. apply Forall_cons in Heos as [He Heos]. simpl in He.
    destruct (Hnext He) as [Hin' Hms']. destruct (IH st' Hin' Hms') as (st2 & Hp & Hs2).
    { simpl. by rewrite Nat.sub_0_r in *. }
    exists st2. split; [exact Hp|]. rewrite Hs2, Hsent. by rewrite <-(assoc_L (++)).
Qed.

(** ** Buffered responses *)

Lemma read_usage_frame ovf resp c c' :
  read_usage ovf resp c = Val c' → c' = c ∨ ∃ u, c' = set_Usage u c.
Proof.
  unfold read_usage. intros Hu. repeat case_match; simplify_eq; auto.
  destruct (usage_int ovf _ "prompt_tokens"); simpl in *; [|done].
  destruct (usage_int ovf _ "completion_tokens"); simpl in *; [|done].
  destruct (usage_int ovf _ "total_tokens"); simpl in *; [|done]. simplify_eq. eauto.
Qed.

(** The last message of a response, after [text] was collected. *)
Lemma handle_whole `{MapOrder} s ovf env st last bytes c1 :
  in_response st → rc_modelServerStreaming (ss_ctx st) = false → sends_ok env →
  ss_responseBody st = None →
  MarshalMap (UnmarshalMap (ss_body st +:+ last) None).1 = inl bytes →
  read_usage ovf (UnmarshalMap (ss_body st +:+ last) None).1 (ss_ctx st) = Val c1 →
  ∃ st', stream_handle s ovf env (ResponseBody (mkHttpBody last true)) st = Val (Continue st')
    ∧ w_sent (ss_world st') = w_sent (ss_world st) ++ [response_body_response bytes true].
Proof.
  destruct st as [c body rb rsb err w]. intros [Hst Hb Htr Herr] Hms Hsend Hrsb Hmar Hu.
  simpl in *. subst. apply read_usage_frame in Hu as Hf.
  destruct (stream_switch s ovf env (ResponseBody (mkHttpBody last true)) (mkStreamState c body rb None None w))
    as [[c' body' rb' rsb' err' w']|] eqn:Hsw; cbn [stream_switch hb_Body hb_EndOfStream] in Hsw;
    rewrite Hms in Hsw; unfold HandleResponseBody in Hsw; rewrite Hmar, Hu in Hsw;
    [|done].
  assert (rc_RequestState c' = HeaderResponseResponseComplete ∧ rc_respTrailerResp c' = None
    ∧ rc_respBodyResp c' = Some (response_body_response bytes true) ∧ err' = None
    ∧ w_sent w' = w_sent w) as (H1 & H2 & H3 & -> & H5).
  { simpl in Hsw. simplify_eq. simpl. by destruct Hf as [->|[u ->]]. }
  destruct (handle_response s ovf env (mkHttpBody last true) (mkStreamState c body rb None None w)
              c' w' body' rb' rsb' bytes true) as (c2 & -> & _); try done.
  { cbn [stream_switch hb_Body hb_EndOfStream]. rewrite Hms.
    unfold HandleResponseBody. by rewrite Hmar, Hu. }
  eexists. split; [done|]. simpl. by rewrite H5.
Qed.

(** A message before the last is collected. *)
Lemma update_in_response `{MapOrder} env c w :
  rc_RequestState c = HeaderResponseResponseComplete → rc_respBodyResp c = None →
  updateStateAndSendIfNeeded env c w = Val (c, w, None).
Proof.
  intros Hst Hb. unfold updateStateAndSendIfNeeded.
  unfold send_request_headers. rewrite block_skipped by (apply in_state_other; by rewrite Hst). cbn [and_then].
  unfold send_request_body. rewrite block_skipped by (apply in_state_other; by rewrite Hst). cbn [and_then].
  unfold send_request_trailers. rewrite block_skipped by (apply in_state_other; by rewrite Hst). cbn [and_then].
  unfold send_response_headers. rewrite block_skipped by (apply in_state_other; by rewrite Hst). cbn [and_then].
  unfold send_response_body. rewrite block_skipped by (by apply in_state_none). cbn [and_then].
  unfold send_response_trailers. by rewrite block_skipped by (apply in_state_other; by rewrite Hst).
Qed.

Lemma json_piece `{MapOrder} s ovf env st b :
  in_response st → rc_modelServerStreaming (ss_ctx st) = false →
  stream_handle s ovf env (ResponseBody (mkHttpBody b false)) st
  = Val (Continue (mkStreamState (ss_ctx st) (ss_body st +:+ b) (ss_requestBody st) (ss_responseBody st)
                     None (ss_world st))).
Proof.
  destruct st as [c body rb rsb err w]. intros [Hst Hb Htr Herr] Hms. simpl in *. subst err.
  unfold stream_handle. cbn [stream_switch hb_Body hb_EndOfStream]. rewrite Hms. run_outcome.
  by rewrite update_in_response.
Qed.

(** A response in messages, each with what the handler finds when it arrives. *)
Definition piece_event `{MapOrder} (eb : Env * string) : event :=
  Recv eb.1 (ResponseBody (mkHttpBody eb.2 false)).

Definition response_events `{MapOrder} (pieces : list (Env * string)) (last : Env * string) : list event :=
  (piece_event <$> pieces) ++ [Recv last.1 (ResponseBody (mkHttpBody last.2 true))].

Definition response_text `{MapOrder} (pieces : list (Env * string)) (last : Env * string) : string :=
  foldl (λ s eb, s +:+ eb.2) "" pieces +:+ last.2.

Lemma pieces_collected `{MapOrder} s ovf pieces evs st :
  in_response st → rc_modelServerStreaming (ss_ctx st) = false →
  Process_loop (stream_handle s ovf) ss_err stream_deferred ((piece_event <$> pieces) ++ evs) st
  = Process_loop (stream_handle s ovf) ss_err stream_deferred evs
      (mkStreamState (ss_ctx st) (foldl (λ s eb, s +:+ eb.2) (ss_body st) pieces) (ss_requestBody st)
         (ss_responseBody st) None (ss_world st)).
Proof.
  intros Hin Hms. revert st Hin Hms. induction pieces as [|[env b] pieces IH]; intros st Hin Hms.
  { destruct st, Hin as [? ? ? Herr]. simpl in Herr. by subst. }
  rewrite fmap_cons. cbn [app]. unfold piece_event at 1. cbn [Process_loop loop_turn fst snd].
  rewrite json_piece by done. run_outcome. rewrite IH; [done|by destruct Hin|done].
Qed.

(** ** Usage *)

(** The usage object has its three token counts, or there is none. *)
Definition usage_complete (m : fields) : bool :=
  match field "usage" m with
  | None | Some VNil => true
  | Some (VMap usg) =>
      forallb (λ k, match field k usg with Some (VFloat _) => true | _ => false end)
        ["prompt_tokens"; "completion_tokens"; "total_tokens"]
  | Some _ => false
  end.

Lemma read_usage_complete ovf m c :
  if usage_complete m then ∃ c', read_usage ovf (Some m) c = Val c'
  else read_usage ovf (Some m) c = Panic FailedTypeAssertion.
Proof.
  unfold usage_complete, read_usage. change (default [] (Some m)) with m.
  destruct (field "usage" m) as [[]|]; eauto. simpl. unfold usage_int.
  repeat (case_match; simpl; eauto; try done).
Qed.

(** * Claims *)

(** C27: a streamed response passes through untouched: once the response headers
    were answered, the chunks of the model server's event stream are sent to Envoy
    one for one, in order, with the same bytes and the same end-of-stream mark. *)
Theorem streamed_chunks_unchanged `{MapOrder} s ovf chunks st :
  in_response st → rc_modelServerStreaming (ss_ctx st) = true →
  Forall (λ eb, sends_ok eb.1) chunks →
  Forall (λ eb, hb_EndOfStream eb.2 = false) (take (length chunks - 1) chunks) →
  ∃ st', Process_loop (stream_handle s ovf) ss_err stream_deferred (chunk_event <$> chunks) st
         = Val (Continue st')
    ∧ w_sent (ss_world st') = w_sent (ss_world st) ++ (chunk_response <$> chunks).
Proof. apply chunks_passed. Qed.


(** * Witnesses *)

(** A stream whose response headers were answered. *)
Definition responding (streaming : bool) : stream_state :=
  mkStreamState
    (set_modelServerStreaming streaming (set_RequestState HeaderResponseResponseComplete zero_context))
    "" None None None (mkWorld empty_registry []).

Lemma responding_in_response b : in_response (responding b).
Proof. by split. Qed.

Lemma streamed_chunks_unchanged_witness :
  ∃ st', Process_loop (stream_handle example_config (λ _, 0)) ss_err stream_deferred
      (chunk_event <$> [(example_env, mkHttpBody "data: 1" false);
                        (example_env, mkHttpBody "data: [DONE]" true)]) (responding true)
      = Val (Continue st')
    ∧ w_sent (ss_world st')
      = [] ++ (chunk_response <$> [(example_env, mkHttpBody "data: 1" false);
                                   (example_env, mkHttpBody "data: [DONE]" true)]).
Proof.
  apply (streamed_chunks_unchanged example_config (λ _, 0) _ (responding true)).
  - apply responding_in_response.
  - reflexivity.
  - repeat constructor; done.
  - repeat constructor.
Defined.

