(* ===== verification/Conversation.v ===== *)
(** * The answers of the streaming server to a whole conversation

    [speak] says which conversations Envoy can hold with the server (the request headers
    first, the pieces of a body after its headers, the response headers once, nothing of
    a body after its last piece), and which kinds of messages each message is answered
    with.  The receive loop is shown to give exactly these answers. *)

From S2P Require Import Prelude GoInt GoStrings Float64 Utf8 JsonNumber Json JsonProofs.
From S2P Require Import Api Errors BackendMetrics Metrics ExtProc Frontend Scheduling Datastore.
From S2P Require Import DatastoreProofs Handlers HandlersProofs Streaming StreamingProofs ResponseProofs.

Local Open Scope Z_scope.

(** ** The protocol *)

(** How far the request, or the response, has come. *)
Inductive side := Waiting | Open | Closed.

#[global] Instance side_eq_dec : EqDecision side.
Proof. solve_decision. Defined.

Record talk := mkTalk { t_request : side; t_response : side; t_streaming : bool }.

Definition talk_start : talk := mkTalk Waiting Waiting false.

Definition closed_if (eos : bool) : side := if eos then Closed else Open.

(** The model server announces an event stream. *)
Definition event_stream (h : HttpHeaders) : bool :=
  existsb (λ '(key, value), bool_decide (key = "content-type") && Contains value "text/event-stream")
    (hh_Headers h).

(** A request body is answered unless the response has begun. *)
Definition unless_replied (t : talk) (ks : list kind) : list kind :=
  if decide (t_response t = Waiting) then ks else [].

(** One message of the conversation: what it is answered with, and [None] when it has no
    place there. *)
Definition speak (t : talk) (req : ProcessingRequest) : option (talk * list kind) :=
  let '(mkTalk request response streaming) := t in
  match req, request, response with
  | RequestHeaders h, Waiting, Waiting =>
      Some (mkTalk (closed_if (hh_EndOfStream h)) Waiting streaming,
            if hh_EndOfStream h then [KReqHeaders] else [])
  | RequestBody b, Open, _ =>
      Some (mkTalk (closed_if (hb_EndOfStream b)) response streaming,
            unless_replied t (if hb_EndOfStream b then [KReqHeaders; KReqBody] else []))
  | RequestTrailers, Open, _ => Some (mkTalk Closed response streaming, [])
  | ResponseHeaders h, (Open | Closed), Waiting =>
      Some (mkTalk request (closed_if (hh_EndOfStream h)) (event_stream h), [KRespHeaders])
  | ResponseBody b, _, Open =>
      Some (mkTalk request (closed_if (hb_EndOfStream b)) streaming,
            if streaming || hb_EndOfStream b then [KRespBody (hb_EndOfStream b)] else [])
  | ResponseTrailers, _, Open => Some (mkTalk request Closed streaming, [])
  | _, _, _ => None
  end.

(** The answers to the messages received, as long as messages are received. *)
Fixpoint answers `{MapOrder} (t : talk) (evs : list event) : option (list kind) :=
  match evs with
  | Recv _ req :: evs =>
      match speak t req with
      | Some (t, ks) => (ks ++.) <$> answers t evs
      | None => None
      end
  | _ => Some []
  end.

(** ** What a block sends *)

Definition sent_kinds (w : world) : list kind := kind_of <$> w_sent w.

(** Some send fails. *)
Definition send_fails `{MapOrder} (env : Env) : Prop := ∃ m, is_Some (env_send env m).

(** From [w], the messages [ks] are sent and the context becomes [c], unless a send
    fails: then the messages before it were sent. *)
Definition sends `{MapOrder} (env : Env) (w : world) (ks : list kind) (c : RequestContext) (r : send_result) : Prop :=
  match r with
  | Val (c', w', None) => sent_kinds w' = sent_kinds w ++ ks ∧ c' = c
  | Val (_, w', Some _) => send_fails env ∧ ∃ ks', ks' `prefix_of` ks ∧ sent_kinds w' = sent_kinds w ++ ks'
  | Panic _ => False
  end.

Section blocks.
Context `{MapOrder} (env : Env).

Lemma sends_then w ks1 ks2 c1 c2 r f :
  sends env w ks1 c1 r → (∀ w', sends env w' ks2 c2 (f c1 w')) → sends env w (ks1 ++ ks2) c2 (and_then r f).
Proof.
  destruct r as [[[c' w'] [e|]]|]; [| |done].
  - intros (Hf & ks & Hpre & Hks) _. split; [done|]. exists ks. split; [|done]. by apply prefix_app_r.
  - intros [Hks ->] Hf. specialize (Hf w'). cbn [and_then].
    destruct (f c1 w') as [[[c2' w2] [e|]]|]; [| |done].
    + destruct Hf as (Hf & ks & Hpre & Hk2). split; [done|]. exists (ks1 ++ ks). split; [by apply prefix_app|].
      by rewrite Hk2, Hks, (assoc_L (++)).
    + destruct Hf as [Hk2 ->]. split; [|done]. by rewrite Hk2, Hks, (assoc_L (++)).
Qed.

Lemma sends_skip guard msg after w c : guard c = false → sends env w [] c (send_block env guard msg after c w).
Proof. intros Hg. rewrite block_skipped by done. split; [by rewrite app_nil_r|done]. Qed.

Lemma sends_one guard msg after w c c' k :
  guard c = true → kind_of (default nil_response (msg c)) = k →
  (∀ w, ∃ w', after c w = Val (c', w') ∧ w_sent w' = w_sent w) →
  sends env w [k] c' (send_block env guard msg after c w).
Proof.
  intros Hg Hk Ha. unfold send_block. rewrite Hg. unfold Send. destruct (env_send env _) as [e|] eqn:Hsend.
  { split; [by eexists; rewrite Hsend|]. exists []. split; [apply prefix_nil|by rewrite app_nil_r]. }
  destruct (Ha (mkWorld (w_reg w) (w_sent w ++ [default nil_response (msg c)]))) as (w' & -> & Hs).
  split; [|done]. unfold sent_kinds. rewrite Hs. cbn [w_sent]. by rewrite fmap_app, <-Hk.
Qed.

(** [updateStateAndSendIfNeeded], block by block. *)
Lemma update_sends w c k1 c1 k2 c2 k3 c3 k4 c4 k5 c5 k6 c6 :
  (∀ w, sends env w k1 c1 (send_request_headers env c w)) →
  (∀ w, sends env w k2 c2 (send_request_body env c1 w)) →
  (∀ w, sends env w k3 c3 (send_request_trailers env c2 w)) →
  (∀ w, sends env w k4 c4 (send_response_headers env c3 w)) →
  (∀ w, sends env w k5 c5 (send_response_body env c4 w)) →
  (∀ w, sends env w k6 c6 (send_response_trailers env c5 w)) →
  sends env w (((((k1 ++ k2) ++ k3) ++ k4) ++ k5) ++ k6) c6 (updateStateAndSendIfNeeded env c w).
Proof. intros. by repeat (eapply sends_then; [|done]). Qed.
End blocks.

(** ** The state of the stream during the conversation *)

(** Nothing is ready to be sent. *)
Record quiet (c : RequestContext) : Prop := {
  q_reqHeader : rc_RequestState c = RequestReceived → rc_reqHeaderResp c = None;
  q_reqBody : rc_RequestState c = HeaderRequestResponseComplete → rc_reqBodyResp c = None;
  q_respHeader : rc_RequestState c ≠ ResponseRecieved;
  q_respBody : rc_respBodyResp c = None
}.

Definition replied (c : RequestContext) : Prop :=
  rc_RequestState c = HeaderResponseResponseComplete ∨ rc_RequestState c = BodyResponseResponsesComplete.

(** The state [Process] is in when the conversation has come to [t]. *)
Record at_talk (t : talk) (c : RequestContext) (responseBody : option fields) : Prop := {
  at_ok : ctx_ok c;
  at_quiet : quiet c;
  at_request : t_request t ≠ Closed → rc_reqBodyResp c = None;
  at_start : t_request t ≠ Closed → t_response t = Waiting → rc_RequestState c = RequestReceived;
  at_open : t_response t = Open → rc_RequestState c = HeaderResponseResponseComplete;
  at_replied : t_response t ≠ Waiting → replied c;
  at_responseBody : t_response t ≠ Closed → responseBody = None;
  at_streaming : rc_modelServerStreaming c = t_streaming t;
  at_waiting : t_response t = Waiting → t_streaming t = false
}.

Section update.
Context `{MapOrder} (env : Env).

Lemma in_state_not st f c : (rc_RequestState c = st → f c = None) → in_state st f c = false.
Proof.
  intros Hf. destruct (decide (rc_RequestState c = st)); [apply in_state_none; auto|by apply in_state_other].
Qed.

Ltac skip := intros; apply sends_skip, in_state_not; simpl; try done.

Lemma update_quiet c w :
  ctx_ok c → quiet c → sends env w [] c (updateStateAndSendIfNeeded env c w).
Proof.
  intros [] []. apply (update_sends env w c [] c [] c [] c [] c [] c [] c); skip.
Qed.

Lemma update_request_headers c w :
  ctx_ok c → rc_RequestState c = RequestReceived →
  is_Some (rc_reqHeaderResp c) → rc_reqBodyResp c = None →
  sends env w [KReqHeaders] (set_RequestState HeaderRequestResponseComplete c)
    (updateStateAndSendIfNeeded env c w).
Proof.
  intros Hok Hst [m Hm] Hb. set (c' := set_RequestState _ c).
  apply (update_sends env w c [KReqHeaders] c' [] c' [] c' [] c' [] c' [] c'); [|skip..].
  - intros w'. apply sends_one; [by apply in_state_true|rewrite Hm; by apply (ok_reqHeader _ Hok)|eauto].
Qed.

Lemma update_request_body c w :
  ctx_ok c → rc_RequestState c = RequestReceived →
  is_Some (rc_reqHeaderResp c) → is_Some (rc_reqBodyResp c) →
  sends env w [KReqHeaders; KReqBody]
    (set_reqBodyResp None (set_RequestRunning true (set_RequestState BodyRequestResponsesComplete c)))
    (updateStateAndSendIfNeeded env c w).
Proof.
  intros Hok Hst [m Hm] [b Hb]. set (c1 := set_RequestState HeaderRequestResponseComplete c).
  set (c2 := set_reqBodyResp _ _).
  apply (update_sends env w c [KReqHeaders] c1 [KReqBody] c2 [] c2 [] c2 [] c2 [] c2); [| |skip..].
  - intros w'. apply sends_one; [by apply in_state_true|rewrite Hm; by apply (ok_reqHeader _ Hok)|eauto].
  - intros w'. apply sends_one; [by apply in_state_true|simpl; rewrite Hb; by apply (ok_reqBody _ Hok)|].
    intros w2. by eexists.
  - intros _. apply (ok_reqTrailer _ Hok).
Qed.

Lemma update_response_headers c w :
  ctx_ok c → rc_RequestState c = ResponseRecieved → is_Some (rc_respHeaderResp c) →
  rc_respBodyResp c = None →
  sends env w [KRespHeaders] (set_RequestState HeaderResponseResponseComplete c)
    (updateStateAndSendIfNeeded env c w).
Proof.
  intros Hok Hst [m Hm] Hb. set (c' := set_RequestState _ c).
  apply (update_sends env w c [] c [] c [] c [KRespHeaders] c' [] c' [] c'); [skip..| |skip|skip];
    try by rewrite Hst.
  intros w'. apply sends_one; [by apply in_state_true|rewrite Hm; by apply (ok_respHeader _ Hok)|eauto].
Qed.

Lemma update_response_piece c w body eos :
  ctx_ok c → rc_RequestState c = HeaderResponseResponseComplete →
  rc_respBodyResp c = Some (response_body_response body eos) →
  sends env w [KRespBody eos]
    (set_respBodyResp None (if eos then set_RequestState BodyResponseResponsesComplete c else c))
    (updateStateAndSendIfNeeded env c w).
Proof.
  intros Hok Hst Hb. set (c' := set_respBodyResp _ _).
  apply (update_sends env w c [] c [] c [] c [] c [KRespBody eos] c' [] c'); [skip..| |skip];
    try by rewrite Hst.
  - intros w'. apply sends_one; [by apply in_state_true; eauto|by rewrite Hb|].
    intros w2. rewrite Hb. by eexists.
  - intros _. destruct eos; apply (ok_respTrailer _ Hok).
Qed.
End update.

(** ** One turn *)

Definition st_talk (t : talk) (st : stream_state) : Prop :=
  ss_err st = None ∧ at_talk t (ss_ctx st) (ss_responseBody st).

(** The answers of a turn; when it ends the stream they break off, or an immediate
    response takes their place.  It does so only with an error or when a send fails. *)
Definition turn_answers `{MapOrder} (env : Env) (t : talk) (ks : list kind) (w : world) (r : outcome (turn stream_state)) : Prop :=
  match r with
  | Val (Continue st) => st_talk t st ∧ sent_kinds (ss_world st) = sent_kinds w ++ ks
  | Val (Return _ st) =>
      (is_Some (ss_err st) ∨ send_fails env)
      ∧ ∃ ks', sent_kinds (ss_world st) = sent_kinds w ++ ks' ∧ (ks' `prefix_of` ks ∨ ks' = [KImmediate])
  | Panic _ => True
  end.

Section turn.
Context `{MapOrder} (s : ServerConfig) (ovf : float64 → Z) (env : Env).

Lemma turn_error req st c body rb rsb e w t ks :
  stream_switch s ovf env req st = Val (mkStreamState c body rb rsb (Some e) w) →
  w_sent w = w_sent (ss_world st) → turn_answers env t ks (ss_world st) (stream_handle s ovf env req st).
Proof.
  intros Hsw Hs. unfold stream_handle. rewrite Hsw. run_outcome.
  assert (sent_kinds w = sent_kinds (ss_world st) ++ []) as Hk by (unfold sent_kinds; by rewrite Hs, app_nil_r).
  destruct (BuildErrResponse e) as [m|e'] eqn:Hb;
    [|split; [by left|by exists []; eauto using prefix_nil]].
  unfold Send. destruct (env_send env m) as [e'|]; (split; [by left|]);
    [by exists []; eauto using prefix_nil|].
  destruct (BuildErr_kind e m Hb) as [code ->]. exists [KImmediate]. split; [|by right].
  unfold sent_kinds. cbn [ss_world w_sent]. by rewrite fmap_app, Hs.
Qed.

Lemma turn_sends req st c body rb rsb w t ks c' :
  stream_switch s ovf env req st = Val (mkStreamState c body rb rsb None w) →
  w_sent w = w_sent (ss_world st) →
  sends env w ks c' (updateStateAndSendIfNeeded env c w) → at_talk t c' rsb →
  turn_answers env t ks (ss_world st) (stream_handle s ovf env req st).
Proof.
  intros Hsw Hs Hsends Hat. unfold stream_handle. rewrite Hsw. run_outcome.
  assert (sent_kinds w = sent_kinds (ss_world st)) as Hk by (unfold sent_kinds; by rewrite Hs).
  destruct (updateStateAndSendIfNeeded env c w) as [[[c2 w2] [e|]]|]; run_outcome; [| |done].
  - destruct Hsends as (Hf & ks' & Hpre & Hk2). split; [by right|]. exists ks'. rewrite <-Hk. auto.
  - destruct Hsends as [Hk2 ->]. split; [done|]. by rewrite <-Hk.
Qed.

Lemma headers_streaming hs c :
  rc_modelServerStreaming (foldl response_header c hs)
  = rc_modelServerStreaming c
    || existsb (λ '(key, value), bool_decide (key = "content-type") && Contains value "text/event-stream") hs.
Proof.
  revert c. induction hs as [|[k v] hs IH]; intros c; cbn [foldl existsb]; [by rewrite orb_false_r|].
  rewrite IH. unfold response_header. rewrite orb_assoc. f_equal.
  destruct (bool_decide_reflect (k = "status")) as [->|]; simpl.
  - destruct (negb _); simpl; by rewrite orb_false_r.
  - destruct (bool_decide (k = "content-type") && _); simpl; by rewrite ?orb_true_r, ?orb_false_r.
Qed.

(** A turn that sends nothing and leaves the context as it is. *)
Lemma turn_quiet req st c body rb w t :
  stream_switch s ovf env req st = Val (mkStreamState c body rb (ss_responseBody st) None w) →
  w_sent w = w_sent (ss_world st) → at_talk t c (ss_responseBody st) →
  turn_answers env t [] (ss_world st) (stream_handle s ovf env req st).
Proof. intros Hsw Hs Hat. eapply turn_sends; try done. by apply update_quiet; destruct Hat. Qed.

Lemma talk_request_headers h st b t' ks :
  speak (mkTalk Waiting Waiting b) (RequestHeaders h) = Some (t', ks) → st_talk (mkTalk Waiting Waiting b) st →
  turn_answers env t' ks (ss_world st) (stream_handle s ovf env (RequestHeaders h) st).
Proof.
  intros [= <- <-] [Herr Hat]. destruct st as [c body rb rsb err w]. simpl in Herr, Hat. subst err.
  destruct Hat as [Hok Hq Hreq Hst Hop Hrep Hrb Hstr Hw]; simpl in *.
  specialize (Hst ltac:(done) eq_refl). specialize (Hreq ltac:(done)).
  unfold closed_if. destruct (hh_EndOfStream h) eqn:Heos.
  - destruct (stream_switch s ovf env (RequestHeaders h) (mkStreamState c body rb rsb None w))
      as [st1|] eqn:Hsw; [|unfold stream_handle; by rewrite Hsw].
    pose proof Hsw as Hsw'. cbn [stream_switch] in Hsw'. unfold HandleRequestHeaders in Hsw'.
    rewrite Heos in Hsw'. destruct (GetRandomPod _ _) as [pod|]; simpl in Hsw'; [|done].
    destruct (PoolGet _) as [pool|e]; cbn [mbind outcome_bind] in Hsw'; simplify_eq; [|by eapply turn_error; [exact Hsw|]].
    eapply turn_sends; [exact Hsw|done| |].
    + apply update_request_headers; [|done|by eexists|done]. destruct Hok; split; try done. by intros m [= <-].
    + split; simpl; try done; [|split; simpl; try done; by destruct Hq].
      destruct Hok; split; try done. by intros m [= <-].
  - eapply turn_quiet; [|done|].
    + cbn [stream_switch]. unfold HandleRequestHeaders. by rewrite Heos.
    + split; simpl; try done; [by destruct Hok|by destruct Hq].
Qed.

(** A request body that comes after the response has begun is handled and not answered. *)
Lemma at_handled resp b c rsb c1 model target pod endpoint bytes :
  let c' := handled s c1 model target pod endpoint bytes in
  at_talk (mkTalk Open resp b) c rsb → resp ≠ Waiting → body_frame c c' → at_talk (mkTalk Closed resp b) c' rsb.
Proof.
  intros c' [Hok Hq Hreq Hst Hop Hrep Hrb Hstr Hw] Hresp Hf.
  assert (ctx_ok c') as Hok' by (by eapply handled_ok). clearbody c'. destruct Hf as [Fst _ _ _ Fb _ Fstr].
  assert (replied c') as Hrep'.
  { unfold replied. rewrite Fst. by apply Hrep. }
  split; simpl in *; try done.
  - destruct Hq. split; rewrite ?Fst, ?Fb; try done;
      intros Hs; destruct Hrep' as [Hr|Hr]; rewrite Fst in Hr; congruence.
  - rewrite Fst. auto.
  - congruence.
Qed.

Lemma talk_request_body b st resp str t' ks :
  speak (mkTalk Open resp str) (RequestBody b) = Some (t', ks) → st_talk (mkTalk Open resp str) st →
  turn_answers env t' ks (ss_world st) (stream_handle s ovf env (RequestBody b) st).
Proof.
  intros [= <- <-] [Herr Hat]. destruct st as [c body rb rsb err w]. simpl in Herr, Hat. subst err.
  unfold closed_if, unless_replied. destruct (hb_EndOfStream b) eqn:Heos; cbn [t_response].
  - destruct (stream_switch s ovf env (RequestBody b) (mkStreamState c body rb rsb None w))
      as [st1|] eqn:Hsw; [|unfold stream_handle; by rewrite Hsw].
    pose proof Hsw as Hsw'. cbn [stream_switch] in Hsw'. rewrite Heos in Hsw'.
    destruct (HandleRequestBody _ _ _ _) as [[[e c'] rb']|] eqn:Hh; cbn [mbind outcome_bind] in Hsw'; [|done].
    apply HandleRequestBody_inv in Hh as [Hf Hc]. simplify_eq.
    destruct e as [e|]; [by eapply turn_error; [exact Hsw|]|].
    destruct Hc as [(e' & ? & _)|(_ & c1 & model & target & pod & ep & bytes & ->)]; [done|].
    assert (ctx_ok (handled s c1 model target pod ep bytes)) as Hok' by (by eapply handled_ok; [|destruct Hat]).
    destruct (decide (resp = Waiting)) as [->|Hresp]; (eapply turn_sends; [exact Hsw|done| |]).
    + apply update_request_body; [done| |by eexists|by eexists]. rewrite (bf_state _ _ Hf). by apply Hat.
    + destruct Hat as [_ Hq _ _ _ _ Hrb Hstr Hw], Hf as [_ _ _ _ Fb _ Fstr], Hok'. simpl in *.
      split; simpl in *; try done; try congruence; (split; simpl; try done).
      rewrite Fb. by apply Hq.
    + apply update_quiet; [done|]. eapply at_quiet, (at_handled resp str); eauto.
    + eapply (at_handled resp str); eauto.
  - replace (if decide (resp = Waiting) then [] else []) with (@nil kind) by (by case_decide).
    eapply turn_quiet; [|done|exact Hat]. cbn [stream_switch]. by rewrite Heos.
Qed.

(** Trailers are not answered. *)
Lemma at_request_over resp str c rsb :
  at_talk (mkTalk Open resp str) c rsb → at_talk (mkTalk Closed resp str) c rsb.
Proof. intros []. by split. Qed.

Lemma at_response_over req str c rsb :
  at_talk (mkTalk req Open str) c rsb → at_talk (mkTalk req Closed str) c rsb.
Proof. intros []. split; try done. simpl in *. auto. Qed.

Lemma talk_response_headers h st req str t' ks :
  speak (mkTalk req Waiting str) (ResponseHeaders h) = Some (t', ks) → st_talk (mkTalk req Waiting str) st →
  turn_answers env t' ks (ss_world st) (stream_handle s ovf env (ResponseHeaders h) st).
Proof.
  intros Hsp [Herr Hat]. destruct st as [c body rb rsb err w]. simpl in Herr, Hat. subst err.
  assert (t' = mkTalk req (closed_if (hh_EndOfStream h)) (event_stream h) ∧ ks = [KRespHeaders]) as [-> ->]
    by (by destruct req; simplify_eq/=).
  destruct Hat as [Hok Hq Hreq Hst Hop Hrep Hrb Hstr Hw]; simpl in *.
  destruct (foldl_response_header (hh_Headers h) c) as (H1 & H2 & H3 & H4 & H5 & H6 & H7 & _).
  pose proof (headers_streaming (hh_Headers h) c) as Hstream.
  eapply turn_sends; [done|done| |].
  - apply update_response_headers; [|done|by eexists|by simpl; rewrite H4; apply Hq].
    destruct Hok. split; simpl; rewrite ?H1, ?H2, ?H3, ?H4, ?H5; try done. by intros m [= <-].
  - split; simpl; try done.
    + destruct Hok. split; simpl; rewrite ?H1, ?H2, ?H3, ?H4, ?H5; try done. by intros m [= <-].
    + split; simpl; try done. rewrite H4. apply Hq.
    + by rewrite H2.
    + by destruct (hh_EndOfStream h).
    + by left.
    + intros _. by apply Hrb.
    + rewrite Hstream, Hstr, Hw by done. done.
    + by destruct (hh_EndOfStream h).
Qed.

(** The context with a response body prepared. *)
Record piece_frame (c c1 : RequestContext) (body : string) (eos : bool) : Prop := {
  pf_state : rc_RequestState c1 = rc_RequestState c;
  pf_reqHeader : rc_reqHeaderResp c1 = rc_reqHeaderResp c;
  pf_reqBody : rc_reqBodyResp c1 = rc_reqBodyResp c;
  pf_reqTrailer : rc_reqTrailerResp c1 = rc_reqTrailerResp c;
  pf_respHeader : rc_respHeaderResp c1 = rc_respHeaderResp c;
  pf_respTrailer : rc_respTrailerResp c1 = rc_respTrailerResp c;
  pf_streaming : rc_modelServerStreaming c1 = rc_modelServerStreaming c;
  pf_respBody : rc_respBodyResp c1 = Some (response_body_response body eos)
}.

(** The turn that prepares it sends it. *)
Lemma turn_piece b st req str c1 body rb rsb w text eos :
  st_talk (mkTalk req Open str) st → piece_frame (ss_ctx st) c1 text eos →
  stream_switch s ovf env (ResponseBody b) st = Val (mkStreamState c1 body rb rsb None w) →
  w_sent w = w_sent (ss_world st) → (eos = false → rsb = ss_responseBody st) →
  turn_answers env (mkTalk req (closed_if eos) str) [KRespBody eos] (ss_world st)
    (stream_handle s ovf env (ResponseBody b) st).
Proof.
  intros [_ [Hok Hq Hreq Hst Hop Hrep Hrb Hstr Hw]] [P1 P2 P3 P4 P5 P6 P7 P8] Hsw Hs Hrsb. simpl in *.
  specialize (Hop eq_refl). assert (ctx_ok c1) as Hok1 by (by eapply resp_body_ok).
  eapply turn_sends; [exact Hsw|done|apply (update_response_piece env c1 w text eos); [done|congruence|done]|].
  unfold closed_if. destruct eos; split; simpl; try done; try congruence.
  - by destruct Hok1.
  - by rewrite P3.
  - by right.
  - by destruct Hok1.
  - split; simpl; try done; by rewrite P1, Hop.
  - by rewrite P3.
  - left. simpl. congruence.
  - intros _. rewrite Hrsb by done. auto.
Qed.

Lemma marshal_unmarshalled text : ∃ bytes, MarshalMap (UnmarshalMap text None).1 = inl bytes.
Proof.
  destruct (UnmarshalMap text None) as [[m|] e] eqn:Hu; [|by eexists].
  unfold MarshalMap. cbn [fst]. rewrite (unmarshal_supported text m e Hu). by eexists.
Qed.

Lemma talk_response_body b st req str t' ks :
  speak (mkTalk req Open str) (ResponseBody b) = Some (t', ks) → st_talk (mkTalk req Open str) st →
  turn_answers env t' ks (ss_world st) (stream_handle s ovf env (ResponseBody b) st).
Proof.
  intros Hsp Ht. pose proof Ht as [Herr Hat].
  assert (t' = mkTalk req (closed_if (hb_EndOfStream b)) str
    ∧ ks = if str || hb_EndOfStream b then [KRespBody (hb_EndOfStream b)] else []) as [-> ->]
    by (by destruct req; simplify_eq/=).
  pose proof (at_streaming _ _ _ Hat) as Hstr. pose proof (at_responseBody _ _ _ Hat ltac:(done)) as Hrsb.
  destruct st as [c body rb rsb err w]. simpl in Herr, Hstr, Hrsb. subst err rsb.
  destruct str; cbn [orb].
  - destruct (hb_EndOfStream b) eqn:Heos;
      (eapply (turn_piece _ _ _ _ _ _ _ _ _ (hb_Body b)); [exact Ht| | | |]);
      lazymatch goal with
      | |- stream_switch _ _ _ _ _ = _ => cbn [stream_switch]; by rewrite Hstr, Heos
      | _ => idtac
      end; try done; apply model_streaming_sent.
  - destruct (hb_EndOfStream b) eqn:Heos.
    + destruct (marshal_unmarshalled (body +:+ hb_Body b)) as [bytes Hm].
      destruct (read_usage ovf (UnmarshalMap (body +:+ hb_Body b) None).1 c) as [c1|p] eqn:Hu; [|].
      * apply read_usage_frame in Hu as Hf.
        eapply (turn_piece _ _ _ _ _ _ _ _ _ bytes true); [exact Ht| | | |].
        2: { cbn [stream_switch]. rewrite Hstr, Heos. unfold HandleResponseBody. rewrite Hm, Hu.
             run_outcome. reflexivity. }
        all: by destruct Hf as [->|[u ->]].
      * unfold stream_handle. cbn [stream_switch]. rewrite Hstr, Heos. unfold HandleResponseBody.
        by rewrite Hm, Hu.
    + eapply turn_quiet; [|done|exact Hat]. cbn [stream_switch]. by rewrite Hstr, Heos.
Qed.
End turn.

(** ** Whole conversations *)

(** The answers break off, perhaps with an immediate response. *)
Definition broken_off (sent ks : list kind) : Prop :=
  ∃ ks', ks' `prefix_of` ks ∧ (sent = ks' ∨ sent = ks' ++ [KImmediate]).

Lemma broken_off_app ks0 sent ks : broken_off sent ks → broken_off (ks0 ++ sent) (ks0 ++ ks).
Proof.
  intros (ks' & Hp & Hs). exists (ks0 ++ ks'). split; [by apply prefix_app|].
  destruct Hs as [->| ->]; [by left|right]. by rewrite (assoc_L (++)).
Qed.

(** Something other than the handlers ends the stream: its end, a failed receive, a
    cancelled context, a failed send. *)
Definition interrupted `{MapOrder} (evs : list event) : Prop :=
  Exists (λ ev, match ev with Recv env _ => send_fails env | _ => True end) evs.

Lemma deferred_err st : ss_err (stream_deferred st) = ss_err st.
Proof. destruct st. simpl. by repeat case_match. Qed.

Section conversation.
Context `{MapOrder} (s : ServerConfig) (ovf : float64 → Z).

Lemma talk_turn env req t st t' ks :
  speak t req = Some (t', ks) → st_talk t st →
  turn_answers env t' ks (ss_world st) (stream_handle s ovf env req st).
Proof.
  destruct t as [rq rp str]. intros Hsp Ht. destruct req as [h|b| |h|b| |].
  - destruct rq, rp; try done. by eapply talk_request_headers.
  - destruct rq; try done. by eapply talk_request_body.
  - destruct rq; try done. simplify_eq/=. destruct Ht as [Herr Hat], st. simpl in *. subst.
    eapply turn_quiet; [done|done|]. by apply at_request_over.
  - destruct rp; try by destruct rq. by eapply talk_response_headers.
  - destruct rp; try by destruct rq. by eapply talk_response_body.
  - destruct rp; try by destruct rq. assert (t' = mkTalk rq Closed str ∧ ks = []) as [-> ->]
      by (by destruct rq; simplify_eq/=).
    destruct Ht as [Herr Hat], st. simpl in *. subst.
    eapply turn_quiet; [done|done|]. by apply at_response_over.
  - by destruct rq.
Qed.

Lemma loop_answers evs t st ks :
  answers t evs = Some ks → st_talk t st →
  match Process_loop (stream_handle s ovf) ss_err stream_deferred evs st with
  | Val (Continue st') => sent_kinds (ss_world st') = sent_kinds (ss_world st) ++ ks
  | Val (Return _ st') =>
      (is_Some (ss_err st') ∨ interrupted evs)
      ∧ ∃ sent, sent_kinds (ss_world st') = sent_kinds (ss_world st) ++ sent ∧ broken_off sent ks
  | Panic _ => True
  end.
Proof.
  assert (∀ st, sent_kinds (ss_world (stream_deferred st)) = sent_kinds (ss_world st)) as Hdef
    by (intros st'; unfold sent_kinds; by rewrite deferred_sent).
  assert (∀ st, ∃ sent, sent_kinds (ss_world (stream_deferred st)) = sent_kinds (ss_world st) ++ sent
                        ∧ broken_off sent []) as Hstop.
  { intros st'. exists []. rewrite Hdef, app_nil_r. split; [done|]. exists []. auto using prefix_nil. }
  revert t st ks. induction evs as [|ev evs IH]; intros t st ks Ha Ht.
  { injection Ha as <-. cbn. by rewrite app_nil_r. }
  cbn [Process_loop]. destruct ev as [e| |e|env req]; cbn [loop_turn mbind outcome_bind].
  { injection Ha as <-. split; [right; by left|auto]. }
  { injection Ha as <-. split; [right; by left|auto]. }
  { injection Ha as <-. case_bool_decide; run_outcome; (split; [right; by left|auto]). }
  cbn [answers] in Ha. destruct (speak t req) as [[t' ks1]|] eqn:Hsp; [|done].
  destruct (answers t' evs) as [ks2|] eqn:Ha2; [|done]. injection Ha as <-.
  pose proof (talk_turn env req t st t' ks1 Hsp Ht) as Hturn.
  destruct (stream_handle s ovf env req st) as [[st'|err st']|]; run_outcome; [| |done].
  - destruct Hturn as [Ht' Hk]. specialize (IH t' st' ks2 Ha2 Ht').
    destruct (Process_loop _ _ _ evs st') as [[st2|err st2]|]; [| |done].
    + by rewrite IH, Hk, (assoc_L (++)).
    + destruct IH as (Hwhy & sent & Hk2 & Hb). split; [destruct Hwhy; [by left|right; by right]|].
      exists (ks1 ++ sent). split; [by rewrite Hk2, Hk, (assoc_L (++))|].
      by apply broken_off_app.
  - destruct Hturn as (Hwhy & ks' & Hk & Hks'). rewrite deferred_err.
    split; [destruct Hwhy; [by left|right; by left]|]. exists ks'. rewrite Hdef. split; [done|].
    destruct Hks' as [Hp| ->].
    + exists ks'. split; [by apply prefix_app_r|by left].
    + exists []. split; [apply prefix_nil|by right].
Qed.

Lemma start_talk r : st_talk talk_start (stream_start (mkWorld r [])).
Proof. by repeat split. Qed.
End conversation.

(** * Claims *)

(** C1: the server answers a conversation message by message.  Whatever the messages
    carry, as long as they come in the order of the external-processing protocol, the
    messages sent are exactly the answers due.  Request headers without a body are
    answered when they arrive; a request body is answered when its last piece arrives,
    with the headers and then the body, unless the response began before; response headers
    are answered at once; an event stream piece by piece; any other response once, with its
    last piece; trailers never.  The loop goes on until a handler reports an error, a send
    or a receive fails, the context is cancelled or the stream ends; then the answers break
    off, and the only message that can follow them is one immediate response.  (A handler
    may also panic, which this statement leaves aside.) *)
Theorem conversation_answered `{MapOrder} s ovf evs r ks :
  answers talk_start evs = Some ks →
  match Process s ovf evs (mkWorld r []) with
  | Val (Continue st) => sent_kinds (ss_world st) = ks
  | Val (Return _ st) =>
      broken_off (sent_kinds (ss_world st)) ks ∧ (is_Some (ss_err st) ∨ interrupted evs)
  | Panic _ => True
  end.
Proof.
  intros Ha. pose proof (loop_answers s ovf evs _ _ _ Ha (start_talk r)) as Hl. unfold Process.
  destruct (Process_loop _ _ _ _ _) as [[st|err st]|]; [done| |done].
  by destruct Hl as (Hwhy & sent & -> & Hb).
Qed.

(** * Witnesses *)

(** A request in two pieces, answered by an event stream. *)
Definition example_conversation : list event :=
  [Recv example_env (RequestHeaders (mkHttpHeaders [] false));
   Recv example_env (RequestBody (mkHttpBody (example_body "m") false));
   Recv example_env (RequestBody (mkHttpBody "" true));
   Recv example_env (ResponseHeaders (mkHttpHeaders [("content-type", "text/event-stream")] false));
   Recv example_env (ResponseBody (mkHttpBody "data: 1" false));
   Recv example_env (ResponseBody (mkHttpBody "data: [DONE]" true))].

Lemma conversation_answered_witness :
  answers talk_start example_conversation
    = Some [KReqHeaders; KReqBody; KRespHeaders; KRespBody false; KRespBody true]
  ∧ match Process example_config (λ _, 0) example_conversation (mkWorld empty_registry []) with
    | Val (Continue st) =>
        sent_kinds (ss_world st) = [KReqHeaders; KReqBody; KRespHeaders; KRespBody false; KRespBody true]
    | Val (Return _ st) =>
        broken_off (sent_kinds (ss_world st)) [KReqHeaders; KReqBody; KRespHeaders; KRespBody false; KRespBody true]
        ∧ (is_Some (ss_err st) ∨ interrupted example_conversation)
    | Panic _ => True
    end.
Proof.
  split; [reflexivity|]. apply (conversation_answered example_config (λ _, 0)). reflexivity.
Defined.

(** That conversation is answered to its end. *)
Example conversation_completed :
  match Process example_config (λ _, 0) example_conversation (mkWorld empty_registry []) with
  | Val (Continue st) => length (w_sent (ss_world st)) = 5%nat
  | _ => False
  end.
Proof. vm_compute. reflexivity. Qed.
