(* ===== verification/ServerProofs.v ===== *)
(** * Properties of the buffered server *)

From S2P Require Import Prelude GoInt GoStrings Float64 Utf8 JsonNumber Json JsonProofs.
From S2P Require Import Api Errors BackendMetrics Metrics ExtProc Frontend Scheduling Datastore.
From S2P Require Import DatastoreProofs Handlers HandlersProofs Server Streaming StreamingProofs RequestProofs.

Local Open Scope Z_scope.

(** The decision a server took about a request. *)
Record decision := mkDecision {
  dec_model : string;
  dec_target : string;
  dec_pod : string;
  dec_endpoint : string
}.

Definition decided (c : RequestContext) : decision :=
  mkDecision (rc_Model c) (rc_ResolvedTargetModel c) (rc_TargetPod c) (rc_TargetEndpoint c).

(** The outcome of a request body, as an error or a decision. *)
Definition buffered_outcome (r : outcome ((ProcessingResponse + error) * RequestContext))
  : outcome (decision + error) :=
  match r with
  | Val (inl _, c) => Val (inl (decided c))
  | Val (inr e, _) => Val (inr e)
  | Panic p => Panic p
  end.

Definition streaming_outcome (r : outcome (option error * RequestContext * option fields))
  : outcome (decision + error) :=
  match r with
  | Val (None, c, _) => Val (inl (decided c))
  | Val (Some e, _, _) => Val (inr e)
  | Panic p => Panic p
  end.

(** ** Response headers *)

Lemma one_rune_not_200 (c : ascii) : encode_rune (ord c) ≠ "200".
Proof. by destruct c as [[] [] [] [] [] [] [] []]; vm_compute. Qed.

(** The loop never stops early, and keeps an error once it has seen one. *)
Lemma headers_loop_error hs c c' :
  Server.response_headers_loop hs c = Val c' →
  rc_ResponseStatusCode c = ModelServerError ∨ (∃ v, ("status", v) ∈ hs) →
  rc_ResponseStatusCode c' = ModelServerError.
Proof.
  revert c. induction hs as [|[k v] hs IH]; intros c; cbn [Server.response_headers_loop].
  { intros [= <-] [?|[v ?%elem_of_nil]]; done. }
  destruct (decide (k = "status")) as [->|Hk].
  - rewrite (bool_decide_true ("status" = "status")), (bool_decide_false ("status" = "content-type"))
      by done.
    destruct v as [|x v]; [done|]. rewrite bool_decide_false by apply one_rune_not_200.
    cbn. intros Hl _. apply (IH _ Hl). by left.
  - rewrite (bool_decide_false (k = "status")) by done. run_outcome.
    intros Hl Hor. destruct (bool_decide (k = "content-type")); cbn in Hl; apply (IH _ Hl).
    + destruct Hor as [Hc|(v' & [Heq|Hin]%elem_of_cons)]; [|congruence|eauto].
      left. by destruct (Contains v "text/event-stream").
    + destruct Hor as [Hc|(v' & [Heq|Hin]%elem_of_cons)]; [auto|congruence|eauto].
Qed.

(** ** The error variable *)

(** Between turns the variable [err] is nil. *)
Lemma finish_turn_err `{MapOrder} env resp err c w st :
  finish_turn env resp err c w = Continue st → sv_err st = None ∧ sv_ctx st = c.
Proof.
  unfold finish_turn, Send. intros Hf. repeat case_match; simplify_eq; done.
Qed.

Lemma buffered_error_context `{MapOrder} s env b c e c' :
  Server.HandleRequestBody s env b c = Val (inr e, c') → c' = c.
Proof.
  unfold Server.HandleRequestBody. intros Hh.
  destruct (UnmarshalMap (hb_Body b) None) as [rb [je|]]; [by simplify_eq|].
  destruct (body_model rb) as [model|]; [|by simplify_eq].
  destruct (ModelGet model (env_ds env)) as [obj|]; [|by simplify_eq].
  destruct (resolve_model _ _ _) as [[target|e']|]; cbn [mbind outcome_bind] in Hh;
    [|by simplify_eq|done].
  cbv zeta in Hh. destruct (if bool_decide (model = target) then _ else _) as [sent|je]; [|by simplify_eq].
  destruct (scheduler_Schedule _) as [[picked|e']|]; cbn [mbind outcome_bind] in Hh;
    [|by simplify_eq|done].
  destruct (PoolGet (env_ds_pool env)); by simplify_eq.
Qed.

(** * Claims *)

(** C26: the two servers take the same decisions.  For every request body that
    unmarshals, with the same store, scheduler and draws, the buffered and the
    streaming server fail with the same error or agree on the model, the target
    model, the pod and the endpoint. *)
Theorem servers_agree `{MapOrder} s env body rb c :
  UnmarshalMap body None = (rb, None) →
  buffered_outcome (Server.HandleRequestBody s env (mkHttpBody body true) c)
  = streaming_outcome (Streaming.HandleRequestBody s env rb c).
Proof.
  intros Hu. rewrite HandleRequestBody_eq. unfold Server.HandleRequestBody. cbn [hb_Body].
  rewrite Hu. destruct (body_model rb) as [model|] eqn:Hm; [|done].
  destruct (ModelGet model (env_ds env)) as [obj|]; [|done].
  destruct (resolve_model _ _ _) as [[target|e]|]; run_outcome; [|done|done].
  apply body_model_Some in Hm as (m & -> & _).
  destruct (forwarded_marshals body m None model target Hu) as [bytes Hb]. cbv zeta. rewrite Hb.
  assert (∃ sent, (if bool_decide (model = target) then inl body
     else MarshalMap (Some (set_field "model" (VString target) (default [] (Some m))))) = inl sent)
    as [sent ->].
  { unfold forwarded in Hb. destruct (bool_decide (model = target)); eauto. }
  destruct (scheduler_Schedule _) as [[picked|e]|]; run_outcome; [|done|done].
  by destruct (PoolGet (env_ds_pool env)).
Qed.

(** The buffered server does not count request errors.  A request answered with
    an immediate error response, followed by the end of the stream, leaves the error
    counter as it was, although each failed request is meant to be counted once. *)
Theorem buffered_errors_not_counted `{MapOrder} s env body w e c resp :
  env_send env resp = None →
  Server.HandleRequestBody s env (mkHttpBody body true) zero_context = Val (inr e, c) →
  BuildErrResponse e = inl resp →
  ∃ st, Server.Process s [Recv env (RequestBody (mkHttpBody body true)); RecvEOF] w
        = Val (Return None st)
    ∧ w_sent (sv_world st) = w_sent w ++ [resp]
    ∧ requestErrCounter (w_reg (sv_world st)) = requestErrCounter (w_reg w).
Proof.
  intros Hsend Hh Hb. pose proof (buffered_error_context _ _ _ _ _ _ Hh) as ->.
  unfold Server.Process. cbn [Process_loop loop_turn server_handle server_start sv_ctx].
  rewrite Hh. run_outcome. unfold finish_turn. rewrite Hb. cbv zeta. unfold Send.
  simpl from_option. rewrite Hsend. run_outcome. eexists. split; [done|]. done.
Qed.

(** In the buffered server every response that carries a status header counts
    as a model server error, 200 included: the code compares one byte of the value
    with the text 200.  An empty value panics. *)
Theorem buffered_status_always_error h c :
  (∀ resp c', Server.HandleResponseHeaders h c = Val (resp, c') → (∃ v, ("status", v) ∈ hh_Headers h) →
     rc_ResponseStatusCode c' = ModelServerError)
  ∧ (∀ hs, hh_Headers h = ("status", "") :: hs →
     Server.HandleResponseHeaders h c = Panic IndexOutOfRange).
Proof.
  unfold Server.HandleResponseHeaders. split.
  - intros resp c' Hh Hin. destruct (Server.response_headers_loop _ c) as [c1|] eqn:Hl; simpl in Hh; [|done].
    simplify_eq. eapply headers_loop_error; eauto.
  - intros hs ->. done.
Qed.

(** * Witnesses *)

Lemma servers_agree_witness :
  buffered_outcome (Server.HandleRequestBody example_config example_env
                      (mkHttpBody (example_body "m") true) zero_context)
  = streaming_outcome (Streaming.HandleRequestBody example_config example_env
                         (Some (example_fields "m")) zero_context)
  ∧ streaming_outcome (Streaming.HandleRequestBody example_config example_env
                         (Some (example_fields "m")) zero_context)
    = Val (inl (mkDecision "m" "m" "ns/p1" "10.0.0.1:8000")).
Proof.
  split; [|vm_compute; reflexivity].
  apply (servers_agree example_config example_env (example_body "m")). vm_compute. reflexivity.
Defined.

Lemma buffered_errors_not_counted_witness :
  ∃ st, Server.Process example_config
          [Recv example_env (RequestBody (mkHttpBody (example_body "unknown") true)); RecvEOF]
          (mkWorld empty_registry []) = Val (Return None st)
    ∧ w_sent (sv_world st) = [] ++ [immediate 404]
    ∧ requestErrCounter (w_reg (sv_world st)) = ∅.
Proof.
  eapply (buffered_errors_not_counted example_config example_env (example_body "unknown")
            (mkWorld empty_registry []) (no_model_object "unknown") zero_context).
  - reflexivity.
  - vm_compute. reflexivity.
  - vm_compute. reflexivity.
Defined.

Lemma buffered_status_always_error_witness :
  ∃ resp c', Server.HandleResponseHeaders (mkHttpHeaders [("status", "200")] false) zero_context
             = Val (resp, c') ∧ rc_ResponseStatusCode c' = ModelServerError.
Proof.
  eexists _, _. split; [vm_compute; reflexivity|].
  eapply (buffered_status_always_error (mkHttpHeaders [("status", "200")] false) zero_context).
  - vm_compute. reflexivity.
  - exists "200". left.
Defined.
