(* ===== verification/Controllers.v ===== *)
(** * pkg/epp/controller: the three reconcilers

    [inferencemodel_reconciler.go], [inferencepool_reconciler.go] and
    [pod_reconciler.go].  A reconcile reads one object through the API client and
    brings the datastore up to date; it returns the error to retry with, if any. *)

From S2P Require Import Prelude GoInt Float64 Api Errors BackendMetrics Datastore.

Local Open Scope Z_scope.

Section controllers.
Context `{MapOrder} `{Labels} (c : Client).

(** ** InferenceModel *)

(** [handleModelDeleted] *)
Definition handleModelDeleted (req : NamespacedName) (ds : datastore)
  : outcome (option error * datastore) :=
  let '(existing, ds) := ModelDelete req ds in
  match existing with
  | None => Val (None, ds)
  | Some m =>
      r ← ModelResync c (im_ModelName m) ds;
      let '((updated, err), ds) := r in
      Val (err, ds)
  end.

(** [InferenceModelReconciler.Reconcile] *)
Definition ModelReconcile (poolName : NamespacedName) (req : NamespacedName) (ds : datastore)
  : outcome (option error * datastore) :=
  match Get_model c req with
  | GetError e => Val (Some e, ds)
  | NotFound => handleModelDeleted req ds
  | Found infModel =>
      if negb (Time_ptr_IsZero (om_DeletionTimestamp (im_ObjectMeta infModel)))
         || bool_decide (por_Name (PoolRef (im_Spec infModel)) ≠ nn_Name poolName)
      then handleModelDeleted req ds
      else Val (None, (ModelSetIfOlder infModel ds).2)
  end.

(** [eventPredicate] and the event filter: an update passes when either side
    refers to the pool. *)
Definition eventPredicate (poolName : NamespacedName) (m : InferenceModel) : bool :=
  bool_decide (por_Name (PoolRef (im_Spec m)) = nn_Name poolName).

Inductive model_event :=
  | CreateEvent (m : InferenceModel)
  | UpdateEvent (old new : InferenceModel)
  | DeleteEvent (m : InferenceModel)
  | GenericEvent (m : InferenceModel).

Definition event_filter (poolName : NamespacedName) (e : model_event) : bool :=
  match e with
  | CreateEvent m | DeleteEvent m | GenericEvent m => eventPredicate poolName m
  | UpdateEvent old new => eventPredicate poolName old || eventPredicate poolName new
  end.

(** [indexInferenceModelsByModelName] on an InferenceModel. *)
Definition indexInferenceModelsByModelName (m : InferenceModel) : list string := [im_ModelName m].

(** ** InferencePool *)

(** [InferencePoolReconciler.updateDatastore]; [reflect.DeepEqual] tells a nil selector
    from an empty one. *)
Definition pool_updateDatastore (newPool : InferencePool) (ds : datastore) : outcome datastore :=
  let oldPool := PoolGet ds in
  let ds := PoolSet newPool ds in
  let resync :=
    match oldPool with
    | inr _ => true
    | inl old => negb (bool_decide (ips_Selector (ip_Spec newPool) = ips_Selector (ip_Spec old)))
    end in
  if resync then PodResyncAll c newPool ds else Val ds.

(** [InferencePoolReconciler.Reconcile] *)
Definition PoolReconcile (req : NamespacedName) (ds : datastore)
  : outcome (option error * datastore) :=
  match Get_pool c req with
  | NotFound => Val (None, Clear ds)
  | GetError e => Val (Some e, ds)
  | Found infPool =>
      if negb (Time_ptr_IsZero (om_DeletionTimestamp (ip_ObjectMeta infPool)))
      then Val (None, Clear ds)
      else ds ← pool_updateDatastore infPool ds; Val (None, ds)
  end.

(** ** Pod *)

(** [podIsReady] of pod_reconciler.go is written out again there. *)
Fixpoint reconciler_conditions (conditions : list PodCondition) : bool :=
  match conditions with
  | [] => false
  | condition :: conditions =>
      if bool_decide (pc_Type condition = PodReady)
      then bool_decide (pc_Status condition = ConditionTrue)
      else reconciler_conditions conditions
  end.

Definition reconciler_podIsReady (pod : CorePod) : bool := reconciler_conditions (pod_Conditions pod).

Lemma reconciler_podIsReady_same pod : reconciler_podIsReady pod = podIsReady pod.
Proof. done. Qed.

(** [PodReconciler.updateDatastore]: the tests in their order. *)
Definition pod_updateDatastore (pod : CorePod) (ds : datastore) : outcome datastore :=
  remove ← (if negb (Time_ptr_IsZero (om_DeletionTimestamp (pod_ObjectMeta pod))) then Val true
            else matched ← PoolLabelsMatch (om_Labels (pod_ObjectMeta pod)) ds;
                 Val (negb matched || negb (podIsReady pod)));
  if (remove : bool) then PodDelete (pod_key pod) ds
  else Val (PodUpdateOrAddIfNotExist pod ds).2.

(** [PodReconciler.Reconcile] *)
Definition PodReconcile (req : NamespacedName) (ds : datastore)
  : outcome (option error * datastore) :=
  match PoolGet ds with
  | inr _ => Val (None, ds)
  | inl pool =>
      match Get_pod c req with
      | NotFound => ds ← PodDelete req ds; Val (None, ds)
      | GetError e => Val (Some e, ds)
      | Found pod => ds ← pod_updateDatastore pod ds; Val (None, ds)
      end
  end.
End controllers.
