(* ===== verification/Concurrent.v ===== *)
(** * The reconcilers, the datastore and the refresh goroutines, interleaved

    controller-runtime runs the three reconcilers concurrently, one request of each at a
    time; every pod object has a refresh goroutine.  They share the datastore.  The pool
    and the models are guarded by [poolAndModelsMu], so an operation on them is one step;
    the pods are in a [sync.Map] whose [Load], [Store], [LoadAndDelete] and [Clear] are
    atomic, each its own step, and an object's pod and metrics are atomic pointers.  A
    goroutine is a stack of frames, a frame being what is left of one Go function up to
    its next shared access. *)

From S2P Require Import Prelude GoInt Float64 Api Errors BackendMetrics Datastore Controllers.

Local Open Scope Z_scope.

Inductive frame :=
  (** [InferenceModelReconciler.Reconcile]: [Get], then the store *)
  | ModelRec (req : NamespacedName)
  | ModelSet (m : InferenceModel)
  | ModelGone (req : NamespacedName)
  | ModelRefile (name : string)
  (** [InferencePoolReconciler.Reconcile]: [Get], [PoolGet], [PoolSet], or [Clear] *)
  | PoolRec (req : NamespacedName)
  | PoolOld (pool : InferencePool)
  | PoolPut (pool : InferencePool) (resync : bool)
  | PoolClear
  (** [PodReconciler.Reconcile]: [PoolGet], [Get], the tests of [updateDatastore] *)
  | PodRec (req : NamespacedName)
  | PodFetch (req : NamespacedName)
  | PodTest (pod : CorePod)
  (** [PodUpdateOrAddIfNotExist]: [Load], [NewPodMetrics], [Store], [UpdatePod] *)
  | AddLoad (pod : CorePod)
  | AddNew (pod : CorePod)
  | AddStore (pod : CorePod) (l : loc)
  | AddUpdate (pod : CorePod) (l : loc)
  (** [PodDelete]: [LoadAndDelete], [StopRefreshLoop] *)
  | DelTake (n : NamespacedName)
  | DelStop (l : loc)
  (** [PodResyncAll]: [List], the first loop, [Range] *)
  | ResyncList (pool : InferencePool)
  | ResyncAdd (active : gset string) (items : list CorePod)
  | ResyncRange (active : gset string) (start : gmap NamespacedName loc)
      (seen : gset NamespacedName) (found : list (NamespacedName * loc))
  (** the refresh goroutine: the [select], [PoolGet] and the fetch, the update *)
  | LoopSelect (l : loc)
  | LoopFetch (l : loc)
  | LoopStore (l : loc) (m : Metrics).

(** What a step is told by the world: the time, the entry [Range] looks at next, and
    what the metrics client returns. *)
Record oracle := mkOracle {
  or_now : Time;
  or_pick : option NamespacedName;
  or_fetched : option Metrics
}.

(** What a step does: the store, the frames that replace the one that ran, and the
    goroutines it starts. *)
Record effect := mkEffect {
  ef_store : datastore;
  ef_frames : list frame;
  ef_spawn : list (list frame)
}.

Definition go_on (ds : datastore) (fs : list frame) : option (outcome effect) :=
  Some (Val (mkEffect ds fs [])).

(** [sync.Map.Range] visits no key twice; for a key stored or deleted meanwhile it may
    give any value the key has had since the call began, so it may miss a key only when
    the entry it had then is no longer there. *)
Definition range_may_end (pods start : gmap NamespacedName loc) (seen : gset NamespacedName) : bool :=
  forallb (λ kl : NamespacedName * loc,
             negb (bool_decide (pods !! kl.1 = Some kl.2)) || bool_decide (kl.1 ∈ seen))
    (map_to_list start).

Section exec.
Context `{MapOrder} `{Labels}.
(** [PoolNamespacedName] of the model reconciler *)
Variable poolName : NamespacedName.

(** The model reconciler: [Reconcile] and [handleModelDeleted]. *)
Definition model_step (c : Client) (f : frame) (ds : datastore) : option (outcome effect) :=
  match f with
  | ModelRec req =>
      match Get_model c req with
      | GetError _ => go_on ds []
      | NotFound => go_on ds [ModelGone req]
      | Found m =>
          if negb (Time_ptr_IsZero (om_DeletionTimestamp (im_ObjectMeta m)))
             || bool_decide (por_Name (PoolRef (im_Spec m)) ≠ nn_Name poolName)
          then go_on ds [ModelGone req]
          else go_on ds [ModelSet m]
      end
  | ModelSet m => go_on (ModelSetIfOlder m ds).2 []
  | ModelGone req =>
      match ModelDelete req ds with
      | (None, ds) => go_on ds []
      | (Some m, ds) => go_on ds [ModelRefile (im_ModelName m)]
      end
  | ModelRefile name =>
      Some (r ← ModelResync c name ds; Val (mkEffect r.2 [] []))
  | _ => None
  end.

(** The pool reconciler: [Reconcile] and [updateDatastore]. *)
Definition pool_step (c : Client) (f : frame) (ds : datastore) : option (outcome effect) :=
  match f with
  | PoolRec req =>
      match Get_pool c req with
      | NotFound => go_on ds [PoolClear]
      | GetError _ => go_on ds []
      | Found p =>
          if negb (Time_ptr_IsZero (om_DeletionTimestamp (ip_ObjectMeta p)))
          then go_on ds [PoolClear] else go_on ds [PoolOld p]
      end
  | PoolOld p =>
      go_on ds [PoolPut p match PoolGet ds with
                          | inr _ => true
                          | inl old => negb (bool_decide (ips_Selector (ip_Spec p) = ips_Selector (ip_Spec old)))
                          end]
  | PoolPut p resync => go_on (PoolSet p ds) (if resync then [ResyncList p] else [])
  | PoolClear => go_on (Clear ds) []
  | _ => None
  end.

(** The pod reconciler: [Reconcile] and [updateDatastore]. *)
Definition pod_step (c : Client) (f : frame) (ds : datastore) : option (outcome effect) :=
  match f with
  | PodRec req =>
      match PoolGet ds with
      | inr _ => go_on ds []
      | inl _ => go_on ds [PodFetch req]
      end
  | PodFetch req =>
      match Get_pod c req with
      | NotFound => go_on ds [DelTake req]
      | GetError _ => go_on ds []
      | Found pod => go_on ds [PodTest pod]
      end
  | PodTest pod =>
      Some (if negb (Time_ptr_IsZero (om_DeletionTimestamp (pod_ObjectMeta pod)))
            then Val (mkEffect ds [DelTake (pod_key pod)] [])
            else matched ← PoolLabelsMatch (om_Labels (pod_ObjectMeta pod)) ds;
                 Val (mkEffect ds [if negb matched || negb (podIsReady pod)
                                   then DelTake (pod_key pod) else AddLoad pod] []))
  | _ => None
  end.

(** [PodUpdateOrAddIfNotExist]; [NewPodMetrics] starts the refresh goroutine. *)
Definition add_step (f : frame) (ds : datastore) : option (outcome effect) :=
  match f with
  | AddLoad pod =>
      match ds_pods ds !! pod_key pod with
      | None => go_on ds [AddNew pod]
      | Some l => go_on ds [AddUpdate pod l]
      end
  | AddNew pod =>
      let l := fresh (dom (ds_heap ds)) in
      Some (Val (mkEffect (set_heap (<[l := NewPodMetrics pod]> (ds_heap ds)) ds)
                   [AddStore pod l] [[LoopSelect l]]))
  | AddStore pod l => go_on (set_pods (<[pod_key pod := l]> (ds_pods ds)) ds) [AddUpdate pod l]
  | AddUpdate pod l => go_on (set_heap (alter (UpdatePod pod) l (ds_heap ds)) ds) []
  | _ => None
  end.

(** [PodDelete] *)
Definition delete_step (f : frame) (ds : datastore) : option (outcome effect) :=
  match f with
  | DelTake n =>
      match ds_pods ds !! n with
      | None => go_on ds []
      | Some l => go_on (set_pods (delete n (ds_pods ds)) ds) [DelStop l]
      end
  | DelStop l =>
      Some (o ← deref (ds_heap ds !! l);
            o ← StopRefreshLoop o;
            Val (mkEffect (set_heap (<[l := o]> (ds_heap ds)) ds) [] []))
  | _ => None
  end.

(** [PodResyncAll] *)
Definition resync_all_step (c : Client) (w : oracle) (f : frame) (ds : datastore) : option (outcome effect) :=
  match f with
  | ResyncList pool =>
      match List_pods c (stripLabelKeyAliasFromLabelMap (Selector (ip_Spec pool)))
              (ip_Namespace pool) with
      | inr _ => go_on ds []
      | inl items => go_on ds [ResyncAdd ∅ items]
      end
  | ResyncAdd active [] => go_on ds [ResyncRange active (ds_pods ds) ∅ []]
  | ResyncAdd active (pod :: items) =>
      if podIsReady pod
      then go_on ds [AddLoad pod; ResyncAdd ({[om_Name (pod_ObjectMeta pod)]} ∪ active) items]
      else go_on ds [ResyncAdd active items]
  | ResyncRange active start seen found =>
      match or_pick w, found with
      | Some k, _ =>
          if bool_decide (k ∈ seen) then None
          else match ds_pods ds !! k with
               | None => None
               | Some l => go_on ds [ResyncRange active start ({[k]} ∪ seen) (found ++ [(k, l)])]
               end
      | None, (k, l) :: found =>
          Some (o ← deref (ds_heap ds !! l);
                let n := Pod_NamespacedName (pm_pod o) in
                Val (mkEffect ds
                       ((if bool_decide (nn_Name n ∈ active) then [] else [DelTake n])
                        ++ [ResyncRange active start seen found]) []))
      | None, [] =>
          if range_may_end (ds_pods ds) start seen then go_on ds [] else None
      end
  | _ => None
  end.

(** The refresh goroutine: [startRefreshLoop] and [refreshMetrics]. *)
Definition loop_step (cancelled : bool) (w : oracle) (f : frame) (ds : datastore) : option (outcome effect) :=
  match f with
  | LoopSelect l =>
      Some (o ← deref (ds_heap ds !! l);
            Val (mkEffect ds (if pm_done o || cancelled then [] else [LoopFetch l]) []))
  | LoopFetch l =>
      match PoolGet ds, or_fetched w with
      | inl _, Some m => go_on ds [LoopStore l (set_UpdateTime (or_now w) m)]
      | _, _ => go_on ds [LoopSelect l]
      end
  | LoopStore l m => go_on (set_heap (alter (pm_set_metrics m) l (ds_heap ds)) ds) [LoopSelect l]
  | _ => None
  end.

(** One step of a goroutine whose next frame is [f]: [None] when the oracle asks for
    something that cannot happen. *)
Definition exec (c : Client) (cancelled : bool) (w : oracle) (f : frame) (ds : datastore)
  : option (outcome effect) :=
  match f with
  | ModelRec _ | ModelSet _ | ModelGone _ | ModelRefile _ => model_step c f ds
  | PoolRec _ | PoolOld _ | PoolPut _ _ | PoolClear => pool_step c f ds
  | PodRec _ | PodFetch _ | PodTest _ => pod_step c f ds
  | AddLoad _ | AddNew _ | AddStore _ _ | AddUpdate _ _ => add_step f ds
  | DelTake _ | DelStop _ => delete_step f ds
  | ResyncList _ | ResyncAdd _ _ | ResyncRange _ _ _ _ => resync_all_step c w f ds
  | LoopSelect _ | LoopFetch _ | LoopStore _ _ => loop_step cancelled w f ds
  end.

(** ** The system *)

(** What the API server answers now and what it answered before, whether the parent
    context is cancelled, the store, and the goroutines: the reconcilers of models, of
    the pool and of pods, then the refresh goroutines. *)
Record system := mkSystem {
  sy_api : Client;
  sy_past : list Client;
  sy_cancelled : bool;
  sy_store : datastore;
  sy_threads : list (list frame)
}.

Definition system_start (c : Client) : system := mkSystem c [] false NewDatastore [[]; []; []].

(** A request for controller [i]. *)
Definition request (i : nat) (req : NamespacedName) : option frame :=
  match i with
  | 0 => Some (ModelRec req)
  | 1 => Some (PoolRec req)
  | 2 => Some (PodRec req)
  | _ => None
  end%nat.

(** Goroutine [i] makes a step. *)
Definition run_frame (i : nat) (w : oracle) (s : system) : option (outcome system) :=
  match sy_threads s !! i with
  | Some (f :: rest) =>
      r ← exec (sy_api s) (sy_cancelled s) w f (sy_store s);
      Some (e ← r;
            Val (mkSystem (sy_api s) (sy_past s) (sy_cancelled s) (ef_store e)
                   (<[i := ef_frames e ++ rest]> (sy_threads s) ++ ef_spawn e)))
  | _ => None
  end.

(** What can happen next: a goroutine runs, the API server changes, a controller is
    given a request, the parent context is cancelled. *)
Inductive action :=
  | Run (i : nat) (w : oracle)
  | ApiChange (c : Client)
  | Enqueue (i : nat) (req : NamespacedName)
  | Cancel.

Definition perform (a : action) (s : system) : option (outcome system) :=
  match a with
  | Run i w => run_frame i w s
  | ApiChange c =>
      Some (Val (mkSystem c (sy_api s :: sy_past s) (sy_cancelled s) (sy_store s) (sy_threads s)))
  | Enqueue i req =>
      f ← request i req;
      t ← sy_threads s !! i;
      Some (Val (mkSystem (sy_api s) (sy_past s) (sy_cancelled s) (sy_store s)
                   (<[i := t ++ [f]]> (sy_threads s))))
  | Cancel => Some (Val (mkSystem (sy_api s) (sy_past s) true (sy_store s) (sy_threads s)))
  end.

Definition system_step (s s' : system) : Prop := ∃ a, perform a s = Some (Val s').

Definition reachable (s : system) : Prop := ∃ c, rtc system_step (system_start c) s.

(** Running a list of actions. *)
Fixpoint play (acts : list action) (s : system) : option system :=
  match acts with
  | [] => Some s
  | a :: acts => match perform a s with Some (Val s') => play acts s' | _ => None end
  end.

Lemma play_steps acts s s' : play acts s = Some s' → rtc system_step s s'.
Proof.
  revert s. induction acts as [|a acts IH]; simpl; intros s Hp; [by simplify_eq|].
  destruct (perform a s) as [[s1|]|] eqn:Ha; [|done|done].
  eapply rtc_l; [by exists a|]. by apply IH.
Qed.
End exec.
