(* ===== verification/ControllersProofs.v ===== *)
(** * Properties of the reconcilers *)

From S2P Require Import Prelude GoInt Float64 Api Errors BackendMetrics Datastore DatastoreProofs.
From S2P Require Import Controllers.

Local Open Scope Z_scope.

(** ** Pods *)

(** A pod the pool serves: not being deleted, ready, labelled as selected. *)
Definition eligible `{MapOrder} `{Labels} (pool : InferencePool) (pod : CorePod) : bool :=
  Time_ptr_IsZero (om_DeletionTimestamp (pod_ObjectMeta pod))
  && selector_matches (stripLabelKeyAliasFromLabelMap (Selector (ip_Spec pool)))
       (om_Labels (pod_ObjectMeta pod))
  && podIsReady pod.

Lemma pod_update_ok `{MapOrder} `{Labels} pod ds pool :
  ds_wf ds → ds_pool ds = Some pool →
  ∃ ds', pod_updateDatastore pod ds = Val ds' ∧ ds_wf ds'
    ∧ view ds' = if eligible pool pod then spec_update (view ds) pod
                 else delete (pod_key pod) (view ds).
Proof.
  intros Hwf Hpool. unfold pod_updateDatastore, eligible, PoolLabelsMatch, selectorFromInferencePoolSelector. rewrite Hpool.
  destruct (PodDelete_ok ds (pod_key pod) Hwf) as (ds1 & Hdel & Hwf1 & _ & _ & _ & Hv1 & _).
  destruct (Time_ptr_IsZero _); cbn [negb mbind outcome_bind deref andb]; [|eauto].
  destruct (selector_matches _ _); cbn [negb mbind outcome_bind mret outcome_ret andb orb]; [|eauto].
  destruct (podIsReady pod); cbn [negb]; [|eauto].
  eexists. split; [done|]. split; [by apply PodUpdate_wf|by apply PodUpdate_view].
Qed.

Lemma spec_update_twice v pod : spec_update (spec_update v pod) pod = spec_update v pod.
Proof. unfold spec_update. rewrite lookup_insert_eq. simpl. by rewrite insert_insert_eq. Qed.

(** The same, as a proposition: the pool's selector is contained in the labels. *)
Definition serves (pool : InferencePool) (pod : CorePod) : Prop :=
  om_DeletionTimestamp (pod_ObjectMeta pod) ∈ [None; Some 0]
  ∧ Selector (ip_Spec pool) ⊆ om_Labels (pod_ObjectMeta pod) ∧ podIsReady pod = true.

Lemma eligible_iff `{MapOrder} `{Labels} pool pod : eligible pool pod = true ↔ serves pool pod.
Proof.
  unfold eligible, serves. rewrite !andb_true_iff, stripLabel_id, selector_matches_spec.
  assert (Time_ptr_IsZero (om_DeletionTimestamp (pod_ObjectMeta pod)) = true
          ↔ om_DeletionTimestamp (pod_ObjectMeta pod) ∈ [None; Some 0]) as ->; [|tauto].
  rewrite !elem_of_cons, elem_of_nil. unfold Time_ptr_IsZero, Time_IsZero.
  destruct (om_DeletionTimestamp _) as [t|]; [|naive_solver].
  rewrite Z.eqb_eq. naive_solver.
Qed.

(** A ready pod that is listed is there after a resync. *)
Lemma spec_updates_present ps v k :
  is_Some (v !! k) ∨ k ∈ pod_key <$> ps → is_Some (foldl spec_update v ps !! k).
Proof.
  revert v. induction ps as [|p ps IH]; intros v Hk; simpl in *; [set_solver|]. apply IH.
  unfold spec_update. rewrite lookup_insert. case_decide as Heq; [left; eauto|].
  destruct Hk as [Hk|Hk]; [by left|]. right. set_solver.
Qed.

Lemma spec_resync_present items v p :
  podIsReady p = true → p ∈ items → is_Some (spec_resync items v !! pod_key p).
Proof.
  intros Hr Hin. unfold spec_resync. set (ready := filter _ items).
  assert (p ∈ ready) as Hp by (by apply list_elem_of_filter).
  destruct (spec_updates_present ready v (pod_key p)) as [pm Hpm];
    [right; by apply list_elem_of_fmap_2|].
  exists pm. apply map_lookup_filter_Some. split; [done|]. apply list_elem_of_fmap. by exists p.
Qed.

(** ** Pods *)

Lemma pod_reconcile_ok `{MapOrder} `{Labels} c n ds pool :
  ds_wf ds → ds_pool ds = Some pool → (∀ p, Get_pod c n = Found p → pod_key p = n) →
  ∃ err ds', PodReconcile c n ds = Val (err, ds') ∧ ds_wf ds'
    ∧ match Get_pod c n with
      | Found p => (serves pool p → view ds' = spec_update (view ds) p)
                   ∧ (¬ serves pool p → view ds' = delete n (view ds)) ∧ err = None
      | NotFound => view ds' = delete n (view ds) ∧ err = None
      | GetError e => ds' = ds ∧ err = Some e
      end.
Proof.
  intros Hwf Hpool Hkey. unfold PodReconcile, PoolGet. rewrite Hpool.
  destruct (Get_pod c n) as [p| |e]; [| |by eexists _, _].
  - specialize (Hkey p eq_refl). destruct (pod_update_ok p ds pool Hwf Hpool) as (ds' & -> & Hwf' & Hv).
    run_outcome. exists None, ds'. split; [done|]. split; [done|].
    rewrite <-(eligible_iff pool p). rewrite Hkey in Hv. destruct (eligible pool p).
    + split; [done|]. split; [|done]. naive_solver.
    + split; [naive_solver|done].
  - destruct (PodDelete_ok ds n Hwf) as (ds' & -> & Hwf' & _ & _ & _ & Hv & _).
    run_outcome. by exists None, ds'.
Qed.

(** Reconciling a list of pods. *)
Fixpoint reconcile_pods `{MapOrder} `{Labels} (c : Client) (reqs : list NamespacedName) (ds : datastore)
  : outcome datastore :=
  match reqs with
  | [] => Val ds
  | n :: reqs => r ← PodReconcile c n ds; reconcile_pods c reqs r.2
  end.

Section pods.
Context `{MapOrder} `{Labels} (c : Client) (pool : InferencePool) (objs : gmap NamespacedName CorePod).
Hypothesis Hkeys : ∀ n p, objs !! n = Some p → pod_key p = n.
Hypothesis Hget : ∀ n, Get_pod c n = match objs !! n with Some p => Found p | None => NotFound end.

(** The store agrees with the API server about the pod [n]. *)
Definition agrees (v : gmap NamespacedName PodMetrics) (n : NamespacedName) : Prop :=
  match objs !! n with
  | Some p => (serves pool p → ∃ pm, v !! n = Some pm ∧ GetPod pm = toInternalPod p)
              ∧ (¬ serves pool p → v !! n = None)
  | None => v !! n = None
  end.

Lemma pool_kept n ds err ds' :
  ds_wf ds → ds_pool ds = Some pool → PodReconcile c n ds = Val (err, ds') → ds_pool ds' = Some pool.
Proof.
  intros Hwf Hpool Hr. unfold PodReconcile, PoolGet in Hr. rewrite Hpool in Hr.
  destruct (Get_pod c n) as [p| |e]; [| |by simplify_eq].
  - destruct (pod_updateDatastore p ds) as [ds1|] eqn:Hu; [|done]. simplify_eq/=.
    unfold pod_updateDatastore in Hu.
    destruct (if negb _ then _ else _) as [[]|]; [| |done]; cbn [mbind outcome_bind] in Hu.
    + destruct (PodDelete_ok ds (pod_key p) Hwf) as (ds2 & Hd & _ & Hp & _). congruence.
    + simplify_eq. unfold PodUpdateOrAddIfNotExist. by destruct (ds_pods ds !! _).
  - destruct (PodDelete_ok ds n Hwf) as (ds2 & Hd & _ & Hp & _). rewrite Hd in Hr. simplify_eq/=. congruence.
Qed.

Lemma reconcile_agrees n ds :
  ds_wf ds → ds_pool ds = Some pool →
  ∃ err ds', PodReconcile c n ds = Val (err, ds') ∧ ds_wf ds' ∧ ds_pool ds' = Some pool
    ∧ agrees (view ds') n ∧ ∀ k, k ≠ n → view ds' !! k = view ds !! k.
Proof.
  intros Hwf Hpool. destruct (pod_reconcile_ok c n ds pool Hwf Hpool) as (err & ds' & Hr & Hwf' & Hv).
  { intros p Hp. rewrite Hget in Hp. destruct (objs !! n) as [p'|] eqn:Hn; [|done]. simplify_eq. by apply Hkeys. }
  exists err, ds'. split; [done|]. split; [done|]. split; [by apply (pool_kept n ds err)|].
  rewrite Hget in Hv. unfold agrees. destruct (objs !! n) as [p|] eqn:Hn.
  - destruct Hv as (Hyes & Hno & _). pose proof (Hkeys n p Hn) as Hkey.
    destruct (decide (eligible pool p = true)) as [He|He]; rewrite eligible_iff in He.
    + rewrite (Hyes He). unfold spec_update. rewrite Hkey. split.
      * split; [intros _; rewrite lookup_insert_eq; by eexists|done].
      * intros k Hk. by rewrite lookup_insert_ne.
    + rewrite (Hno He). split; [by rewrite lookup_delete_eq|]. intros k Hk. by rewrite lookup_delete_ne.
  - destruct Hv as [Hv _]. rewrite Hv. split; [by rewrite lookup_delete_eq|].
    intros k Hk. by rewrite lookup_delete_ne.
Qed.

Lemma reconcile_pods_agree reqs ds :
  ds_wf ds → ds_pool ds = Some pool →
  ∃ ds', reconcile_pods c reqs ds = Val ds' ∧ ds_wf ds' ∧ (∀ n, n ∈ reqs → agrees (view ds') n)
    ∧ ∀ n, n ∉ reqs → view ds' !! n = view ds !! n.
Proof.
  revert ds. induction reqs as [|n reqs IH]; intros ds Hwf Hpool; simpl.
  { exists ds. split; [done|]. split; [done|]. split; [by intros ? ?%not_elem_of_nil|done]. }
  destruct (reconcile_agrees n ds Hwf Hpool) as (err & ds1 & -> & Hwf1 & Hpool1 & Hag & Hother). run_outcome. cbn [snd].
  destruct (IH ds1 Hwf1 Hpool1) as (ds' & -> & Hwf' & Hall & Hrest). exists ds'.
  split; [done|]. split; [done|]. split.
  - intros k Hk. destruct (decide (k ∈ reqs)) as [?|Hnk]; [by apply Hall|].
    apply elem_of_cons in Hk as [->|?]; [|done]. unfold agrees. by rewrite (Hrest n Hnk).
  - intros k Hk. rewrite Hrest by set_solver. apply Hother. set_solver.
Qed.
End pods.

(** ** Models *)

(** What the API server has, and how the client reads it: every object under its own name,
    and a listing by model name in the pool's namespace, where all of them are, returns
    those of that model name in some order. *)
Record api_models (c : Client) (pool : InferencePool) (objs : gmap NamespacedName InferenceModel) : Prop := {
  am_key : ∀ n m, objs !! n = Some m → im_key m = n;
  am_get : ∀ n, Get_model c n = match objs !! n with Some m => Found m | None => NotFound end;
  am_list : ∀ name, ∃ items, List_models c name (ip_Namespace pool) = inl items
    ∧ ∀ m, m ∈ items ↔ objs !! im_key m = Some m ∧ im_ModelName m = name
}.

(** A model the pool serves: referring to it and not being deleted. *)
Definition of_pool (pool : InferencePool) (m : InferenceModel) : Prop :=
  por_Name (PoolRef (im_Spec m)) = ip_Name pool
  ∧ om_DeletionTimestamp (im_ObjectMeta m) ∈ [None; Some 0].

Lemma live_timestamp t : Time_ptr_IsZero t = true ↔ t ∈ [None; Some 0].
Proof.
  rewrite !elem_of_cons, elem_of_nil. unfold Time_ptr_IsZero, Time_IsZero.
  destruct t as [t|]; [|naive_solver]. rewrite Z.eqb_eq. naive_solver.
Qed.

Lemma candidate_iff name pool m :
  resync_candidate name (ip_Name pool) m = true ↔ im_ModelName m = name ∧ of_pool pool m.
Proof.
  unfold resync_candidate, of_pool.
  rewrite !andb_true_iff, !bool_decide_eq_true, live_timestamp. tauto.
Qed.

(** What is filed is filed once, and was not created anew since: the API server's object of
    that name, if there is one, has the same model name and creation time. *)
Record filed_once (objs : gmap NamespacedName InferenceModel) (models : gmap string InferenceModel) : Prop := {
  fo_name : ∀ k e, models !! k = Some e → im_ModelName e = k;
  fo_once : ∀ k1 k2 e1 e2, models !! k1 = Some e1 → models !! k2 = Some e2 → im_key e1 = im_key e2 → k1 = k2;
  fo_same : ∀ k e m, models !! k = Some e → objs !! im_key e = Some m →
    im_ModelName m = k ∧ im_created m = im_created e
}.

(** The oldest object of the pool under each model name, and nothing else. *)
Definition oldest_filed (pool : InferencePool) (objs : gmap NamespacedName InferenceModel)
    (models : gmap string InferenceModel) : Prop :=
  ∀ k, match models !! k with
       | Some m => objs !! im_key m = Some m ∧ im_ModelName m = k ∧ of_pool pool m
                   ∧ ∀ n m', objs !! n = Some m' → im_ModelName m' = k → of_pool pool m'
                             → im_created m <= im_created m'
       | None => ∀ n m', objs !! n = Some m' → im_ModelName m' = k → ¬ of_pool pool m'
       end.

Section converge.
Context `{MapOrder} (c : Client) (poolName : NamespacedName) (pool : InferencePool)
  (objs : gmap NamespacedName InferenceModel).
Hypothesis Hpool : ip_Name pool = nn_Name poolName.
Hypothesis Hobjs : api_models c pool objs.
(** The objects filed at the start. *)
Variable known : gset NamespacedName.

(** The names in [seen] were reconciled. *)
Record settled (seen : gset NamespacedName) (ds : datastore) : Prop := {
  se_pool : ds_pool ds = Some pool;
  se_filed : filed_once objs (ds_models ds);
  se_known : ∀ k e, ds_models ds !! k = Some e → is_Some (objs !! im_key e) ∨ im_key e ∈ known;
  se_seen : ∀ k e, ds_models ds !! k = Some e → im_key e ∈ seen →
    objs !! im_key e = Some e ∧ of_pool pool e;
  se_old : ∀ n m, n ∈ seen → objs !! n = Some m → of_pool pool m →
    ∃ e, ds_models ds !! im_ModelName m = Some e ∧ im_created e <= im_created m
}.

(** Filing an object of the API server keeps what is filed in order. *)
Lemma filed_insert models n m :
  filed_once objs models → objs !! n = Some m → filed_once objs (<[im_ModelName m := m]> models).
Proof.
  intros [Hname Honce Hsame] Hn. pose proof (am_key _ _ _ Hobjs _ _ Hn) as Hk.
  assert (∀ k e, models !! k = Some e → im_key e = im_key m → k = im_ModelName m) as Hat.
  { intros k e He Hke. destruct (Hsame k e m He) as [? _]; [by rewrite Hke, Hk|done]. }
  split.
  - intros k e [[<- <-]|[_ He]]%lookup_insert_Some; [done|by apply Hname].
  - intros k1 k2 e1 e2 [[<- <-]|[_ H1]]%lookup_insert_Some [[<- <-]|[_ H2]]%lookup_insert_Some Heq;
      [done|symmetry; by eapply Hat|by eapply Hat|by eapply Honce].
  - intros k e m' [[<- <-]|[_ He]]%lookup_insert_Some Hm'; [|by eapply Hsame].
    rewrite Hk, Hn in Hm'. by simplify_eq.
Qed.

Lemma settled_set seen ds n m :
  settled seen ds → objs !! n = Some m → of_pool pool m →
  settled ({[n]} ∪ seen) (ModelSetIfOlder m ds).2.
Proof.
  intros [Hp Hf Hkn Hseen Hold] Hn Hm. pose proof (am_key _ _ _ Hobjs _ _ Hn) as Hk.
  destruct (ModelSet_cases m ds) as [[-> Hle]|[-> (e & He & Hne & Hlt)]]; simpl.
  - split; simpl; [done|by eapply filed_insert|..].
    + intros k e [[<- <-]|[_ He]]%lookup_insert_Some; [left; rewrite Hk; eauto|by eapply Hkn].
    + intros k e [[<- <-]|[Hnk He]]%lookup_insert_Some; [by rewrite Hk|].
      intros [Heq%elem_of_singleton|?]%elem_of_union; [|by eapply Hseen].
      destruct (fo_same _ _ Hf k e m He) as [? _]; [by rewrite Heq|done].
    + intros n' m' Hn' Hm' Hof. rewrite lookup_insert. case_decide as Heq.
      2: { apply elem_of_union in Hn' as [->%elem_of_singleton|Hn']; [by simplify_eq|by eapply Hold]. }
      exists m. split; [done|]. apply elem_of_union in Hn' as [->%elem_of_singleton|Hn']; [simplify_eq; lia|].
      destruct (Hold n' m' Hn' Hm' Hof) as (e & He & Hce). rewrite <-Heq in He.
      destruct (Hle e He) as [Hke|]; [|lia].
      destruct (fo_same _ _ Hf _ e m He) as [_ ?]; [by rewrite Hke, Hk|lia].
  - split; [done|done|done| |].
    + intros k e' He' [Heq%elem_of_singleton|?]%elem_of_union; [|by eapply Hseen].
      destruct (fo_same _ _ Hf k e' m He') as [<- _]; [by rewrite Heq|].
      assert (e' = e) as -> by congruence. by destruct Hne; rewrite Heq.
    + intros n' m' [->%elem_of_singleton|Hn']%elem_of_union Hm' Hof; [|by eapply Hold].
      simplify_eq. exists e. split; [done|lia].
Qed.

(** After a deletion the name is filed anew. *)
Lemma settled_refiled seen ds n e :
  settled seen ds → ds_models ds !! im_ModelName e = Some e → im_key e = n →
  (∀ m, objs !! n = Some m → ¬ of_pool pool m) →
  ∃ updated ds', ModelResync c (im_ModelName e) (set_models (delete (im_ModelName e) (ds_models ds)) ds)
                 = Val ((updated, None), ds')
    ∧ settled ({[n]} ∪ seen) ds'.
Proof.
  intros [Hp Hf Hkn Hseen Hold] He Hk Hgone. unfold ModelResync. cbn [ds_pool set_models]. rewrite Hp.
  cbn [deref mbind outcome_bind].
  destruct (am_list _ _ _ Hobjs (im_ModelName e)) as (items & -> & Hitems).
  assert (filed_once objs (delete (im_ModelName e) (ds_models ds))) as Hf'.
  { destruct Hf as [Hname Honce Hsame].
    split; intros; repeat match goal with Hd : delete _ _ !! _ = Some _ |- _ =>
      apply lookup_delete_Some in Hd as [_ Hd] end; eauto. }
  assert (∀ k e', delete (im_ModelName e) (ds_models ds) !! k = Some e' → im_key e' ≠ n) as Hnot.
  { intros k e' [Hne He']%lookup_delete_Some Hke. apply Hne. eapply (fo_once _ _ Hf); [done..|congruence]. }
  pose proof (resync_fold (im_ModelName e) (ip_Name pool) items None) as Hr.
  destruct (foldl _ None items) as [r|].
  - destruct Hr as ([?|[Hin [Hrn Hrp]%candidate_iff]] & Hmin & _); [done|].
    apply Hitems in Hin as [Hr _]. rewrite <-Hrn in *. eexists _, _. split; [done|].
    split; simpl; [done|by eapply filed_insert|..].
    + intros k e' [[<- <-]|[_ [_ He']%lookup_delete_Some]]%lookup_insert_Some; [left; eauto|by eapply Hkn].
    + intros k e' [[<- <-]|[_ He']]%lookup_insert_Some Hs; [done|].
      apply elem_of_union in Hs as [Hs%elem_of_singleton|Hs]; [by destruct (Hnot k e' He')|].
      apply lookup_delete_Some in He' as [_ He']. by eapply Hseen.
    + intros n' m' Hn' Hm' Hof. rewrite lookup_insert. case_decide as Heq.
      * exists r. split; [done|]. apply Hmin; [|by apply candidate_iff].
        apply Hitems. by rewrite (am_key _ _ _ Hobjs _ _ Hm').
      * rewrite lookup_delete_ne by done.
        apply elem_of_union in Hn' as [->%elem_of_singleton|Hn']; [by destruct (Hgone m')|by eapply Hold].
  - destruct Hr as [_ Hnone]. eexists _, _. split; [done|].
    split; simpl; [done|done|..].
    + intros k e' [_ He']%lookup_delete_Some. by eapply Hkn.
    + intros k e' He' [Hs%elem_of_singleton|Hs]%elem_of_union; [by destruct (Hnot k e' He')|].
      apply lookup_delete_Some in He' as [_ He']. by eapply Hseen.
    + intros n' m' Hn' Hm' Hof. destruct (decide (im_ModelName e = im_ModelName m')) as [Heq|Hne].
      * assert (resync_candidate (im_ModelName e) (ip_Name pool) m' = false) as Hc.
        { apply Hnone, Hitems. by rewrite (am_key _ _ _ Hobjs _ _ Hm'). }
        apply not_true_iff_false in Hc. destruct Hc. by apply candidate_iff.
      * rewrite lookup_delete_ne by done.
        apply elem_of_union in Hn' as [->%elem_of_singleton|Hn']; [by destruct (Hgone m')|by eapply Hold].
Qed.

Lemma settled_gone seen ds n :
  settled seen ds → (∀ m, objs !! n = Some m → ¬ of_pool pool m) →
  ∃ ds', handleModelDeleted c n ds = Val (None, ds') ∧ settled ({[n]} ∪ seen) ds'.
Proof.
  intros Hs Hgone. unfold handleModelDeleted. pose proof (se_filed _ _ Hs) as Hf.
  pose proof (ModelDelete_filed n ds (fo_name _ _ Hf)) as Hd.
  destruct (ModelDelete n ds) as [[e|] ds1].
  - destruct Hd as (He & Hk & ->). destruct (settled_refiled seen ds n e Hs He Hk Hgone) as (updated & ds' & -> & Hs').
    run_outcome. eauto.
  - destruct Hd as [-> Hno]. exists ds. split; [done|]. destruct Hs as [Hp _ Hkn Hseen Hold].
    split; [done|done|done| |].
    + intros k e He [Hs%elem_of_singleton|Hs]%elem_of_union; [by destruct (Hno k e He)|by eapply Hseen].
    + intros n' m' [->%elem_of_singleton|Hn']%elem_of_union Hm' Hof; [by destruct (Hgone m')|by eapply Hold].
Qed.

Lemma reconcile_settled seen ds n :
  settled seen ds →
  ∃ ds', ModelReconcile c poolName n ds = Val (None, ds') ∧ settled ({[n]} ∪ seen) ds'.
Proof.
  intros Hs. unfold ModelReconcile. rewrite (am_get _ _ _ Hobjs).
  destruct (objs !! n) as [m|] eqn:Hn; [|by apply settled_gone; [|congruence]].
  destruct (_ || _) eqn:Hg.
  - apply settled_gone; [done|]. intros m' Hm' [Hr Ht]. simplify_eq. apply live_timestamp in Ht.
    rewrite Ht in Hg. simpl in Hg. apply bool_decide_eq_true in Hg. congruence.
  - apply orb_false_iff in Hg as [Ht%negb_false_iff Hr%bool_decide_eq_false]. eexists. split; [done|].
    apply settled_set; [done|done|]. split; [|by apply live_timestamp].
    rewrite Hpool. destruct (decide (por_Name (PoolRef (im_Spec m)) = nn_Name poolName)); [done|by destruct Hr].
Qed.

(** The reconciler run on a sequence of requests. *)
Fixpoint reconcile_all (reqs : list NamespacedName) (ds : datastore) : outcome datastore :=
  match reqs with
  | [] => Val ds
  | n :: reqs => r ← ModelReconcile c poolName n ds; reconcile_all reqs r.2
  end.

Lemma reconcile_all_settled reqs seen ds :
  settled seen ds →
  ∃ ds', reconcile_all reqs ds = Val ds' ∧ settled (list_to_set reqs ∪ seen) ds'.
Proof.
  revert seen ds. induction reqs as [|n reqs IH]; intros seen ds Hs; simpl.
  { exists ds. split; [done|]. by rewrite (left_id_L ∅ (∪)). }
  destruct (reconcile_settled seen ds n Hs) as (ds1 & -> & Hs1). simpl.
  destruct (IH _ _ Hs1) as (ds' & -> & Hs'). exists ds'. split; [done|].
  by rewrite (comm_L (∪) {[n]}), <-(assoc_L (∪)) .
Qed.

Lemma settled_oldest seen ds :
  settled seen ds → (∀ n, is_Some (objs !! n) ∨ n ∈ known → n ∈ seen) →
  oldest_filed pool objs (ds_models ds).
Proof.
  intros [_ Hf Hkn Hseen Hold] Hall k. destruct (ds_models ds !! k) as [e|] eqn:He.
  - destruct (Hseen k e He) as [Ho Hp]; [by apply Hall, (Hkn k)|].
    pose proof (fo_name _ _ Hf _ _ He) as Hname. do 3 (split; [done|]).
    intros n m' Hm' Hk Hof. destruct (Hold n m') as (e' & He' & ?); [apply Hall; eauto|done..|].
    rewrite Hk in He'. by simplify_eq.
  - intros n m' Hm' Hk Hof. destruct (Hold n m') as (e' & He' & _); [apply Hall; eauto|done..|]. congruence.
Qed.
End converge.

(** ** The pool *)

Lemma pool_set_wf pool ds : ds_wf ds → ds_wf (PoolSet pool ds).
Proof. intros Hwf. split; [apply (wf_models _ Hwf)|apply (wf_pods _ Hwf)]. Qed.

Lemma pool_set_view pool ds : view (PoolSet pool ds) = view ds.
Proof. done. Qed.

(** * Claims *)

(** C22: reconciling a pod makes the store agree with the API server about it.  With
    the pool synced, a pod that is ready, not being deleted and labelled as the pool
    selects is in the store afterwards, with the metrics it had; any other pod, or one
    the API server does not know, is not; every other pod is as before. *)
Theorem pod_reconcile_spec `{MapOrder} `{Labels} c n ds pool :
  ds_wf ds → ds_pool ds = Some pool → (∀ p, Get_pod c n = Found p → pod_key p = n) →
  ∃ err ds', PodReconcile c n ds = Val (err, ds') ∧ ds_wf ds'
    ∧ match Get_pod c n with
      | Found p => (serves pool p → view ds' = spec_update (view ds) p)
                   ∧ (¬ serves pool p → view ds' = delete n (view ds)) ∧ err = None
      | NotFound => view ds' = delete n (view ds) ∧ err = None
      | GetError e => ds' = ds ∧ err = Some e
      end.
Proof. apply pod_reconcile_ok. Qed.

(** The pod store converges.  From any well-formed store with the pool, whatever the order
    of the reconcile requests and however often they repeat, once every pod of the API
    server and of the store was reconciled the store holds exactly the pods that are ready,
    not being deleted and selected by the pool, each with its current address. *)
Theorem pods_converge `{MapOrder} `{Labels} c pool (objs : gmap NamespacedName CorePod) reqs ds :
  ds_wf ds → ds_pool ds = Some pool → (∀ n p, objs !! n = Some p → pod_key p = n) →
  (∀ n, Get_pod c n = match objs !! n with Some p => Found p | None => NotFound end) →
  (∀ n, is_Some (objs !! n) ∨ is_Some (view ds !! n) → n ∈ reqs) →
  ∃ ds', reconcile_pods c reqs ds = Val ds' ∧ ds_wf ds'
    ∧ ∀ n q, GetPod <$> view ds' !! n = Some q ↔ ∃ p, objs !! n = Some p ∧ serves pool p ∧ q = toInternalPod p.
Proof.
  intros Hwf Hpool Hkeys Hget Hall.
  destruct (reconcile_pods_agree c pool objs Hkeys Hget reqs ds Hwf Hpool) as (ds' & Hr & Hwf' & Hag & Hrest).
  exists ds'. split; [done|]. split; [done|]. intros n q.
  destruct (decide (n ∈ reqs)) as [Hn|Hn].
  - specialize (Hag n Hn). unfold agrees in Hag. destruct (objs !! n) as [p|] eqn:Hp.
    + destruct Hag as [Hyes Hno]. destruct (decide (eligible pool p = true)) as [He|He]; rewrite eligible_iff in He.
      * destruct (Hyes He) as (pm & -> & Hpm). simpl. rewrite Hpm. naive_solver.
      * rewrite (Hno He). naive_solver.
    + rewrite Hag. naive_solver.
  - rewrite (Hrest n Hn). destruct (objs !! n) as [p|] eqn:Hp; [by destruct Hn; apply Hall; left|].
    destruct (view ds !! n) as [pm|] eqn:Hv; [destruct Hn; apply Hall; right; eauto|]. naive_solver.
Qed.

(** C20: the model store converges.  Take any store with the pool whose models are filed
    once each and were not created anew since (what it holds may be gone from the API
    server, being deleted, moved to another pool or out of date).  Whatever the order of
    the reconcile requests and however often they repeat, once every InferenceModel of the
    API server and of the store was reconciled the store holds for each model name the
    oldest object that refers to the pool and is not being deleted, as the API server has
    it, and nothing else. *)
Theorem models_converge `{MapOrder} c poolName pool objs reqs ds :
  ip_Name pool = nn_Name poolName → api_models c pool objs →
  ds_pool ds = Some pool → filed_once objs (ds_models ds) →
  (∀ n, is_Some (objs !! n) ∨ (∃ k e, ds_models ds !! k = Some e ∧ im_key e = n) → n ∈ reqs) →
  ∃ ds', reconcile_all c poolName reqs ds = Val ds' ∧ oldest_filed pool objs (ds_models ds').
Proof.
  intros Hname Hobjs Hp Hf Hall.
  set (known := list_to_set (im_key <$> (map_to_list (ds_models ds)).*2) : gset NamespacedName).
  assert (∀ n, n ∈ known ↔ ∃ k e, ds_models ds !! k = Some e ∧ im_key e = n) as Hknown.
  { intros n. unfold known. rewrite elem_of_list_to_set, list_elem_of_fmap. split.
    - intros (e & -> & ([k e'] & -> & He%elem_of_map_to_list)%list_elem_of_fmap). eauto.
    - intros (k & e & He & <-). exists e. split; [done|]. apply list_elem_of_fmap. exists (k, e).
      split; [done|]. by apply elem_of_map_to_list. }
  destruct (reconcile_all_settled c poolName pool objs Hname Hobjs known reqs ∅ ds) as (ds' & -> & Hs).
  { split; [done|done| |set_solver..]. intros k e He. right. apply Hknown. eauto. }
  exists ds'. split; [done|]. eapply settled_oldest; [done|].
  intros n Hn. apply elem_of_union_l, elem_of_list_to_set, Hall. destruct Hn as [?|?%Hknown]; auto.
Qed.

(** The pods after a full resync. *)
Definition resynced (c : Client) (pool : InferencePool) (v : gmap NamespacedName PodMetrics)
  : gmap NamespacedName PodMetrics :=
  match List_pods c (Selector (ip_Spec pool)) (ip_Namespace pool) with
  | inr _ => v
  | inl items => spec_resync items v
  end.

(** C23: reconciling the pool.  A pool that is gone or being deleted clears the store;
    a first pool or a changed selector replaces the pods by a full resync; otherwise
    only the pool changes, and the pods and models stay. *)
Theorem pool_reconcile_spec `{MapOrder} c n ds :
  ds_wf ds →
  ∃ err ds', PoolReconcile c n ds = Val (err, ds') ∧ ds_wf ds'
    ∧ match Get_pool c n with
      | GetError e => ds' = ds ∧ err = Some e
      | NotFound => ds' = Clear ds ∧ err = None
      | Found p =>
          err = None ∧
          if Time_ptr_IsZero (om_DeletionTimestamp (ip_ObjectMeta p)) then
            ds_pool ds' = Some p ∧ ds_models ds' = ds_models ds
            ∧ view ds' = match ds_pool ds with
                         | None => resynced c p (view ds)
                         | Some old =>
                             if decide (ips_Selector (ip_Spec p) = ips_Selector (ip_Spec old))
                             then view ds else resynced c p (view ds)
                         end
          else ds' = Clear ds
      end.
Proof.
  intros Hwf. unfold PoolReconcile. destruct (Get_pool c n) as [p| |e].
  2:{ eexists _, _. split; [done|]. by split; [split|]. }
  2:{ by eexists _, _. }
  destruct (Time_ptr_IsZero _); cbn [negb].
  2:{ eexists _, _. split; [done|]. by split; [split|]. }
  destruct (PodResync_ok c p (PoolSet p ds) (pool_set_wf p ds Hwf))
    as (ds1 & Hr & Hwf1 & Hp1 & Hm1 & _ & Hv1).
  rewrite stripLabel_id, pool_set_view in Hv1. fold (resynced c p (view ds)) in Hv1.
  unfold pool_updateDatastore, PoolGet. destruct (ds_pool ds) as [old|].
  - destruct (decide (ips_Selector (ip_Spec p) = ips_Selector (ip_Spec old))) as [e|e];
      [rewrite bool_decide_true by done|rewrite bool_decide_false by done]; cbn [negb]; rewrite ?Hr;
      run_outcome; eexists _, _; (split; [done|]).
    + split; [by apply pool_set_wf|done].
    + done.
  - rewrite Hr. run_outcome. by eexists _, _.
Qed.

(** The API server has no object [n] that the pool serves: it is gone, being deleted, or
    refers to another pool. *)
Definition withdrawn (c : Client) (poolName n : NamespacedName) : Prop :=
  match Get_model c n with
  | NotFound => True
  | GetError _ => False
  | Found m => om_DeletionTimestamp (im_ObjectMeta m) ∉ [None; Some 0]
               ∨ por_Name (PoolRef (im_Spec m)) ≠ nn_Name poolName
  end.

Lemma withdrawn_deletes `{MapOrder} c poolName n ds :
  withdrawn c poolName n → ModelReconcile c poolName n ds = handleModelDeleted c n ds.
Proof.
  unfold withdrawn, ModelReconcile. destruct (Get_model c n) as [m| |e]; [|done|done].
  rewrite <-live_timestamp. intros [Ht%not_true_is_false|Hr]; [by rewrite Ht|].
  rewrite (bool_decide_true (_ ≠ _)) by done. by rewrite orb_true_r.
Qed.

(** C24: withdrawing an InferenceModel, on every branch.  The object is filed under one
    name, and is now gone from the API server, being deleted or of another pool.  Without
    a synced pool the reconciler panics.  Otherwise the entry is removed, no other name
    changes, and: when the listing fails the name stays empty and the error is returned;
    when it succeeds the name is filed under the oldest remaining candidate, or stays
    empty when there is no candidate. *)
Theorem model_deletion_backfills `{MapOrder} c poolName n ds m :
  ds_wf ds → withdrawn c poolName n → ds_models ds !! im_ModelName m = Some m → im_key m = n →
  (∀ k m', ds_models ds !! k = Some m' → im_key m' = n → m' = m) →
  match ds_pool ds with
  | None => ModelReconcile c poolName n ds = Panic NilDereference
  | Some pool =>
      ∃ err ds', ModelReconcile c poolName n ds = Val (err, ds')
        ∧ (∀ k, k ≠ im_ModelName m → ModelGet k ds' = ModelGet k ds)
        ∧ match List_models c (im_ModelName m) (ip_Namespace pool) with
          | inr e => ModelGet (im_ModelName m) ds' = None ∧ ∃ msg, err = Some (WrapError msg e)
          | inl items =>
              err = None
              ∧ match ModelGet (im_ModelName m) ds' with
                | None => ∀ m', m' ∈ items → resync_candidate (im_ModelName m) (ip_Name pool) m' = false
                | Some m0 => m0 ∈ items ∧ resync_candidate (im_ModelName m) (ip_Name pool) m0 = true
                    ∧ ∀ m', m' ∈ items → resync_candidate (im_ModelName m) (ip_Name pool) m' = true
                            → im_created m0 <= im_created m'
                end
          end
  end.
Proof.
  intros Hwf Hgone Hm Hk Huniq. rewrite withdrawn_deletes by done. unfold handleModelDeleted.
  pose proof (ModelDelete_cases n ds Hwf) as Hd.
  destruct (ModelDelete n ds) as [[m1|] ds1]; [|by destruct Hd as [_ Hd]; destruct (Hd _ _ Hm)].
  destruct Hd as (Hm1 & Hk1 & ->). assert (m1 = m) as -> by (by eapply Huniq).
  unfold ModelResync. cbn [ds_pool set_models].
  destruct (ds_pool ds) as [pool|]; cbn [deref mbind outcome_bind]; [|done].
  destruct (List_models c _ _) as [items|e].
  2: { eexists _, _. split; [done|]. unfold ModelGet. cbn [ds_models set_models].
       split; [intros k Hne; by rewrite lookup_delete_ne|]. rewrite lookup_delete_eq. eauto. }
  pose proof (resync_fold (im_ModelName m) (ip_Name pool) items None) as Hf.
  destruct (foldl _ None items) as [m0|]; cbn [mret outcome_ret mbind outcome_bind];
    eexists _, _; (split; [done|]); unfold ModelGet; cbn [ds_models set_models].
  - split; [intros k Hne; by rewrite lookup_insert_ne, lookup_delete_ne|]. split; [done|].
    rewrite lookup_insert_eq. destruct Hf as ([?|[Hin Hc]] & Hmin & _); [done|]. done.
  - split; [intros k Hne; by rewrite lookup_delete_ne|]. split; [done|]. rewrite lookup_delete_eq.
    by destruct Hf.
Qed.

(** A pod that is being deleted but still ready: a resync puts it into the store, a
    reconcile of the pod takes it out. *)
Theorem terminating_pod_disagreement `{MapOrder} `{Labels} c pool ds p items :
  ds_wf ds → ds_pool ds = Some pool → podIsReady p = true →
  Time_ptr_IsZero (om_DeletionTimestamp (pod_ObjectMeta p)) = false →
  List_pods c (stripLabelKeyAliasFromLabelMap (Selector (ip_Spec pool))) (ip_Namespace pool) = inl items →
  p ∈ items → Get_pod c (pod_key p) = Found p →
  (∃ ds', PodResyncAll c pool ds = Val ds' ∧ is_Some (view ds' !! pod_key p))
  ∧ ∃ ds', PodReconcile c (pod_key p) ds = Val (None, ds') ∧ view ds' !! pod_key p = None.
Proof.
  intros Hwf Hpool Hready Hdel Hlist Hin Hget. split.
  - destruct (PodResync_ok c pool ds Hwf) as (ds' & Hds' & _ & _ & _ & _ & Hv). rewrite Hlist in Hv.
    exists ds'. split; [done|]. rewrite Hv. by apply spec_resync_present.
  - unfold PodReconcile, PoolGet. rewrite Hpool, Hget.
    destruct (pod_update_ok p ds pool Hwf Hpool) as (ds' & -> & _ & Hv). run_outcome. exists ds'.
    split; [done|]. unfold eligible in Hv. rewrite Hdel in Hv. simpl in Hv. by rewrite Hv, lookup_delete_eq.
Qed.

(** * Witnesses *)

(** An API server that finds one pod, the pool, and two models of one name. *)
Definition example_objects : gmap NamespacedName InferenceModel :=
  <[mkNamespacedName "ns" "a" := example_model "a" 5]>
    (<[mkNamespacedName "ns" "b" := example_model "b" 3]> ∅).

Definition finding_client : Client := {|
  List_models _ _ := inl [example_model "b" 3];
  List_pods _ _ := inl [example_core_pod "p2"];
  Get_model n := match example_objects !! n with Some m => Found m | None => NotFound end;
  Get_pool _ := Found example_pool;
  Get_pod _ := Found (example_core_pod "p2")
|}.

Lemma pod_reconcile_spec_witness :
  ∃ err ds', @PodReconcile _ inclusion_labels finding_client (mkNamespacedName "ns" "p2") example_store
             = Val (err, ds') ∧ ds_wf ds'
    ∧ (serves example_pool (example_core_pod "p2")
         → view ds' = spec_update (view example_store) (example_core_pod "p2"))
    ∧ (¬ serves example_pool (example_core_pod "p2")
         → view ds' = delete (mkNamespacedName "ns" "p2") (view example_store)) ∧ err = None.
Proof.
  apply (@pod_reconcile_spec _ inclusion_labels finding_client (mkNamespacedName "ns" "p2")
           example_store example_pool).
  - eapply reachable_wf, example_reachable.
  - reflexivity.
  - intros p [= <-]. reflexivity.
Defined.

(** The API server has three models of one name, one of them being deleted; the store has
    a fourth, which is gone. *)
Definition deleted_model : InferenceModel :=
  mkInferenceModel (mkObjectMeta "d" "ns" ∅ 1 (Some 9)) (im_Spec (example_model "d" 1)).

Definition served_models : gmap NamespacedName InferenceModel :=
  <[mkNamespacedName "ns" "a" := example_model "a" 5]>
    (<[mkNamespacedName "ns" "b" := example_model "b" 3]>
      (<[mkNamespacedName "ns" "d" := deleted_model]> ∅)).

Definition models_client : Client := {|
  List_models name _ := inl (filter (λ m, im_ModelName m = name) (map_to_list served_models).*2);
  List_pods _ _ := inl [];
  Get_model n := match served_models !! n with Some m => Found m | None => NotFound end;
  Get_pool _ := Found example_pool;
  Get_pod _ := NotFound
|}.

Definition stale_store : datastore := mkDatastore (Some example_pool) {["m" := example_model "z" 0]} ∅ ∅.

Lemma stale_store_models k e : ds_models stale_store !! k = Some e → k = "m" ∧ e = example_model "z" 0.
Proof. cbn [ds_models stale_store]. by intros [<- <-]%lookup_singleton_Some. Qed.

Lemma served_models_keys n m : served_models !! n = Some m → im_key m = n.
Proof.
  unfold served_models. intros Hm.
  repeat (apply lookup_insert_Some in Hm as [[<- <-]|[_ Hm]]; [reflexivity|]). by rewrite lookup_empty in Hm.
Qed.

Lemma models_converge_witness :
  ∃ ds', reconcile_all models_client (mkNamespacedName "ns" "pool")
           (mkNamespacedName "ns" <$> ["a"; "z"; "d"; "b"]) stale_store = Val ds'
    ∧ oldest_filed example_pool served_models (ds_models ds').
Proof.
  apply (models_converge models_client (mkNamespacedName "ns" "pool") example_pool served_models).
  - reflexivity.
  - split; [apply served_models_keys|reflexivity|]. intros name. eexists. split; [reflexivity|].
    intros m. rewrite list_elem_of_filter, list_elem_of_fmap. split.
    + intros (Hn & [n m'] & -> & Hm%elem_of_map_to_list). cbn [snd] in *.
      by rewrite (served_models_keys _ _ Hm).
    + intros [Hm Hn]. split; [done|]. exists (im_key m, m). split; [done|]. by apply elem_of_map_to_list.
  - reflexivity.
  - split.
    + by intros k e [-> ->]%stale_store_models.
    + by intros k1 k2 e1 e2 [-> ->]%stale_store_models [-> ->]%stale_store_models.
    + intros k e m [-> ->]%stale_store_models Hm. by vm_compute in Hm.
  - intros n [[m Hm]|(k & e & [-> ->]%stale_store_models & <-)].
    + unfold served_models in Hm.
      repeat (apply lookup_insert_Some in Hm as [[<- _]|[_ Hm]];
              [apply (bool_decide_unpack _); by vm_compute|]). by rewrite lookup_empty in Hm.
    + apply (bool_decide_unpack _). by vm_compute.
Defined.

(** An object that was deleted and created anew is filed again without a comparison of
    the creation times: the older object of the same model name, already reconciled, stays
    out. *)
Example recreated_model_overrides :
  ModelGet "m" <$> reconcile_all finding_client (mkNamespacedName "ns" "pool")
    [mkNamespacedName "ns" "b"; mkNamespacedName "ns" "a"]
    (mkDatastore (Some example_pool) {["m" := example_model "a" 1]} ∅ ∅)
  = Val (Some (example_model "a" 5))
  ∧ example_objects !! mkNamespacedName "ns" "b" = Some (example_model "b" 3).
Proof. split; by vm_compute. Qed.

Lemma pool_reconcile_spec_witness :
  ∃ err ds', PoolReconcile finding_client (mkNamespacedName "ns" "pool") NewDatastore = Val (err, ds')
    ∧ ds_wf ds' ∧ err = None ∧ ds_pool ds' = Some example_pool ∧ ds_models ds' = ∅
    ∧ view ds' = resynced finding_client example_pool (view NewDatastore).
Proof.
  apply (pool_reconcile_spec finding_client (mkNamespacedName "ns" "pool") NewDatastore).
  apply (reachable_wf no_fetch), rtc_refl.
Defined.

Lemma model_deletion_backfills_witness :
  ∃ err ds', ModelReconcile example_client (mkNamespacedName "ns" "pool") (mkNamespacedName "ns" "a")
           example_store = Val (err, ds')
    ∧ (∀ k, k ≠ "m" → ModelGet k ds' = ModelGet k example_store)
    ∧ err = None
    ∧ match ModelGet "m" ds' with
      | None => ∀ m', m' ∈ [example_model "a" 5; example_model "b" 3]
                      → resync_candidate "m" "pool" m' = false
      | Some m0 => m0 ∈ [example_model "a" 5; example_model "b" 3]
          ∧ resync_candidate "m" "pool" m0 = true
          ∧ ∀ m', m' ∈ [example_model "a" 5; example_model "b" 3]
                  → resync_candidate "m" "pool" m' = true → im_created m0 <= im_created m'
      end.
Proof.
  apply (model_deletion_backfills example_client (mkNamespacedName "ns" "pool")
           (mkNamespacedName "ns" "a") example_store (example_model "a" 5)).
  - eapply reachable_wf, example_reachable.
  - done.
  - reflexivity.
  - reflexivity.
  - intros k m' Hk _.
    change (<["m" := example_model "a" 5]> (∅ : gmap string InferenceModel) !! k = Some m') in Hk.
    apply lookup_insert_Some in Hk as [[_ <-]|[_ Hk]]; [done|by rewrite lookup_empty in Hk].
Defined.

(** The API server has two pods, one of which is not ready; the store has a third. *)
Definition unready_pod : CorePod := mkCorePod (example_meta "p4" 1) "10.0.0.4" [].

Definition example_pods : gmap NamespacedName CorePod :=
  <[mkNamespacedName "ns" "p2" := example_core_pod "p2"]> (<[mkNamespacedName "ns" "p4" := unready_pod]> ∅).

Definition pods_client : Client := {|
  List_models _ _ := inl [];
  List_pods _ _ := inl [];
  Get_model _ := NotFound;
  Get_pool _ := Found example_pool;
  Get_pod n := match example_pods !! n with Some p => Found p | None => NotFound end
|}.

Definition pod_requests : list NamespacedName :=
  [mkNamespacedName "ns" "p1"; mkNamespacedName "ns" "p4"; mkNamespacedName "ns" "p2"].

Lemma example_pods_cases n p :
  example_pods !! n = Some p →
  (n = mkNamespacedName "ns" "p2" ∧ p = example_core_pod "p2")
  ∨ (n = mkNamespacedName "ns" "p4" ∧ p = unready_pod).
Proof.
  unfold example_pods. intros [[<- <-]|[_ Hn]]%lookup_insert_Some; [by left|].
  apply lookup_insert_Some in Hn as [[<- <-]|[_ Hn]]; [by right|]. by rewrite lookup_empty in Hn.
Qed.

Lemma pods_converge_witness :
  ∃ ds', @reconcile_pods _ inclusion_labels pods_client pod_requests example_store = Val ds' ∧ ds_wf ds'
    ∧ ∀ n q, GetPod <$> view ds' !! n = Some q
             ↔ ∃ p, example_pods !! n = Some p ∧ serves example_pool p ∧ q = toInternalPod p.
Proof.
  apply (@pods_converge _ inclusion_labels pods_client example_pool example_pods pod_requests example_store).
  - eapply reachable_wf, example_reachable.
  - reflexivity.
  - intros n p Hn. by destruct (example_pods_cases n p Hn) as [[-> ->]|[-> ->]].
  - reflexivity.
  - intros n [[p Hn]|[pm Hn]].
    + destruct (example_pods_cases n p Hn) as [[-> _]|[-> _]]; apply (bool_decide_unpack _); by vm_compute.
    + assert (dom (view example_store) ⊆ list_to_set pod_requests) as Hsub
        by (apply (bool_decide_unpack _); by vm_compute).
      apply elem_of_dom_2 in Hn. apply Hsub in Hn. by rewrite elem_of_list_to_set in Hn.
Defined.
