(* ===== verification/ConcurrentProofs.v ===== *)
(** * Invariants of the interleaved system

    Ownership: an object whose refresh goroutine runs belongs to one party at most, the
    store's map or one goroutine that has just created it or just taken it out.  From it
    follow the absence of double closes and the exact causes of leaks.  [range_inv] says
    how far a resync has come with its removals.  The claims are in [Interleavings]. *)

From S2P Require Import Prelude GoInt Float64 Api Errors BackendMetrics Datastore DatastoreProofs.
From S2P Require Import Controllers ControllersProofs Concurrent.

Local Open Scope Z_scope.

(** ** Objects *)

Definition obj_name (o : podMetrics) : NamespacedName := Pod_NamespacedName (pm_pod o).

(** The object at [l] is that of the pod [k]. *)
Definition named (h : gmap loc podMetrics) (l : loc) (k : NamespacedName) : Prop :=
  ∃ o, h !! l = Some o ∧ obj_name o = k.

Definition running (h : gmap loc podMetrics) (l : loc) : Prop :=
  ∃ o, h !! l = Some o ∧ refresher_running o = true.

(** Objects stay, under their names; a closed channel stays closed. *)
Definition heap_evolves (h h' : gmap loc podMetrics) : Prop :=
  ∀ l o, h !! l = Some o → ∃ o', h' !! l = Some o' ∧ obj_name o' = obj_name o
    ∧ (refresher_running o' = true → refresher_running o = true).

Global Instance heap_evolves_preorder : PreOrder heap_evolves.
Proof.
  split; [intros h l o Ho; eauto|]. intros h1 h2 h3 H12 H23 l o Ho.
  destruct (H12 l o Ho) as (o2 & Ho2 & Hn2 & Hr2). destruct (H23 l o2 Ho2) as (o3 & Ho3 & Hn3 & Hr3).
  exists o3. split; [done|]. split; [congruence|auto].
Qed.

Lemma evolves_insert h l o o' :
  h !! l = Some o → obj_name o' = obj_name o →
  (refresher_running o' = true → refresher_running o = true) → heap_evolves h (<[l := o']> h).
Proof.
  intros Ho Hn Hr l1 o1 H1. rewrite lookup_insert. case_decide as Hl; [subst l1|eauto].
  exists o'. by simplify_eq.
Qed.

Lemma evolves_alter h l f :
  (∀ o, h !! l = Some o → obj_name (f o) = obj_name o) →
  (∀ o, refresher_running (f o) = refresher_running o) → heap_evolves h (alter f l h).
Proof.
  intros Hn Hr l1 o1 H1. destruct (decide (l = l1)) as [->|Hne].
  - rewrite lookup_alter_eq, H1. exists (f o1). split; [done|]. split; [by apply Hn|]. by rewrite Hr.
  - rewrite lookup_alter_ne by done. eauto.
Qed.

Lemma evolves_fresh h o : heap_evolves h (<[fresh (dom h) := o]> h).
Proof.
  intros l o1 H1. rewrite lookup_insert_ne; [eauto|]. intros <-.
  apply (is_fresh (dom h)). by apply elem_of_dom_2 in H1.
Qed.

Lemma named_evolves h h' l k : heap_evolves h h' → named h l k → named h' l k.
Proof. intros He (o & Ho & Hn). destruct (He l o Ho) as (o' & Ho' & Hn' & _). exists o'. by split; [|congruence]. Qed.

Lemma named_inj h l k1 k2 : named h l k1 → named h l k2 → k1 = k2.
Proof. intros (o1 & ? & ?) (o2 & ? & ?). by simplify_eq. Qed.

Lemma running_alter h l1 l f :
  (∀ o, refresher_running (f o) = refresher_running o) → running h l → running (alter f l1 h) l.
Proof.
  intros Hf (o & Ho & Hr). destruct (decide (l1 = l)) as [->|Hne].
  - exists (f o). rewrite lookup_alter_eq, Ho, Hf. by split.
  - exists o. by rewrite lookup_alter_ne.
Qed.

(** ** Ownership *)

(** What a frame needs of the heap. *)
Definition frame_ok (h : gmap loc podMetrics) (f : frame) : Prop :=
  match f with
  | AddStore pod l | AddUpdate pod l => named h l (pod_key pod)
  | DelStop l | LoopSelect l | LoopFetch l | LoopStore l _ => ∃ k, named h l k
  | ResyncRange _ start _ found =>
      (∀ k l, start !! k = Some l → named h l k) ∧ ∀ k l, (k, l) ∈ found → named h l k
  | _ => True
  end.

(** The object a frame is about to store or to stop. *)
Definition holds (f : frame) : option loc :=
  match f with AddStore _ l | DelStop l => Some l | _ => None end.

Definition holder (ts : list (list frame)) (i : nat) (l : loc) : Prop :=
  ∃ f rest, ts !! i = Some (f :: rest) ∧ holds f = Some l.

Record owned (ds : datastore) (ts : list (list frame)) : Prop := {
  ow_pods : pods_keyed ds;
  ow_frames : ∀ i t, ts !! i = Some t → Forall (frame_ok (ds_heap ds)) t;
  ow_tails : ∀ i f rest, ts !! i = Some (f :: rest) → Forall (λ g, holds g = None) rest;
  ow_held : ∀ i l, holder ts i l →
    running (ds_heap ds) l ∧ (∀ k, ds_pods ds !! k ≠ Some l) ∧ ∀ j, holder ts j l → j = i
}.

Lemma frame_ok_evolves h h' f : heap_evolves h h' → frame_ok h f → frame_ok h' f.
Proof.
  intros He. destruct f; simpl; try done; eauto using named_evolves.
  all: intros [k Hk]; first [exists k; by eapply named_evolves|split; eauto using named_evolves].
Qed.

Lemma lookup_threads {ts spawn : list (list frame)} {i j t new} :
  (<[i := new]> ts ++ spawn) !! j = Some t →
  (j = i ∧ t = new) ∨ (j ≠ i ∧ ts !! j = Some t) ∨ ((length ts <= j)%nat ∧ t ∈ spawn).
Proof.
  intros Hj. apply lookup_app_Some in Hj as [Hj|[Hlen Hj]].
  - apply list_lookup_insert_Some in Hj as [(-> & -> & _)|[? ?]]; auto.
  - rewrite length_insert in Hlen. right. right. split; [done|]. by eapply list_elem_of_lookup_2.
Qed.

(** Who holds what after goroutine [i] replaced its frame. *)
Lemma holder_after ts i f rest fs spawn j l :
  ts !! i = Some (f :: rest) → Forall (λ g, holds g = None) rest →
  Forall (Forall (λ g, holds g = None)) spawn →
  holder (<[i := fs ++ rest]> ts ++ spawn) j l →
  (j = i ∧ ∃ g fs', fs = g :: fs' ∧ holds g = Some l) ∨ (j ≠ i ∧ holder ts j l).
Proof.
  intros Hi Hrest Hsp (g & rest' & Hj & Hg).
  destruct (lookup_threads Hj) as [[-> Heq]|[[Hne Hj']|[_ Hin]]].
  - left. split; [done|]. destruct fs as [|g' fs']; simpl in Heq.
    + subst rest. apply Forall_cons in Hrest as [Hg' _]. congruence.
    + injection Heq as <- _. eauto.
  - right. split; [done|]. by exists g, rest'.
  - rewrite Forall_forall in Hsp. specialize (Hsp _ Hin). apply Forall_cons in Hsp as [Hg' _]. congruence.
Qed.

(** A step of goroutine [i] keeps the invariant when it keeps the store's half and hands
    its object on or gets one nobody has. *)
Lemma owned_run ds ts i f rest ds' fs spawn :
  owned ds ts → ts !! i = Some (f :: rest) →
  heap_evolves (ds_heap ds) (ds_heap ds') → pods_keyed ds' →
  Forall (frame_ok (ds_heap ds')) fs → Forall (λ g, holds g = None) (tail fs) →
  Forall (Forall (λ g, frame_ok (ds_heap ds') g ∧ holds g = None)) spawn →
  (∀ g l, head fs = Some g → holds g = Some l →
     running (ds_heap ds') l ∧ (∀ k, ds_pods ds' !! k ≠ Some l) ∧ ∀ j, j ≠ i → ¬ holder ts j l) →
  (∀ j l, j ≠ i → holder ts j l → running (ds_heap ds') l ∧ ∀ k, ds_pods ds' !! k ≠ Some l) →
  owned ds' (<[i := fs ++ rest]> ts ++ spawn).
Proof.
  intros [Hp Hf Ht Hh] Hi He Hp' Hfs Htl Hsp Hnew Hold.
  assert (Forall (Forall (λ g, holds g = None)) spawn) as Hsp'.
  { eapply Forall_impl; [done|]. intros t Hx. eapply Forall_impl; [done|]. by intros g []. }
  pose proof (Ht _ _ _ Hi) as Hrest. split; [done|..].
  - intros j t Hj. destruct (lookup_threads Hj) as [[-> ->]|[[_ Hj']|[_ Hin]]].
    + apply Forall_app. split; [done|]. specialize (Hf _ _ Hi). apply Forall_cons in Hf as [_ Hf].
      eapply Forall_impl; [apply Hf|]. eauto using frame_ok_evolves.
    + eapply Forall_impl; [by eapply Hf|]. eauto using frame_ok_evolves.
    + rewrite Forall_forall in Hsp. eapply Forall_impl; [by apply Hsp|]. by intros g [].
  - intros j g rest' Hj. destruct (lookup_threads Hj) as [[-> Heq]|[[_ Hj']|[_ Hin]]].
    + destruct fs as [|g' fs']; simpl in Heq.
      * subst rest. by apply Forall_cons in Hrest as [_ ?].
      * injection Heq as <- ->. by apply Forall_app.
    + by eapply Ht.
    + rewrite Forall_forall in Hsp'. specialize (Hsp' _ Hin). by apply Forall_cons in Hsp' as [_ ?].
  - intros j l Hj. destruct (holder_after _ _ _ _ _ _ _ _ Hi Hrest Hsp' Hj) as [[-> (g & fs' & -> & Hg)]|[Hne Hj']].
    + destruct (Hnew g l eq_refl Hg) as (? & ? & Hother). split; [done|]. split; [done|].
      intros j' Hj'. destruct (holder_after _ _ _ _ _ _ _ _ Hi Hrest Hsp' Hj') as [[-> _]|[Hne Hj'']]; [done|].
      by destruct (Hother j' Hne).
    + destruct (Hold j l Hne Hj') as [? ?]. split; [done|]. split; [done|].
      intros j' Hj2. destruct (holder_after _ _ _ _ _ _ _ _ Hi Hrest Hsp' Hj2) as [[-> (g & fs' & -> & Hg)]|[_ Hj3]].
      * destruct (Hnew g l eq_refl Hg) as (_ & _ & Hother). by destruct (Hother j Hne).
      * by apply (Hh j l Hj').
Qed.

(** The common case: the pods and the objects stay as they are and no object changes
    hands. *)
Lemma owned_quiet ds ts i f rest ds' fs :
  owned ds ts → ts !! i = Some (f :: rest) →
  ds_heap ds' = ds_heap ds → ds_pods ds' = ds_pods ds →
  Forall (λ g, frame_ok (ds_heap ds) g ∧ holds g = None) fs →
  owned ds' (<[i := fs ++ rest]> ts ++ []).
Proof.
  intros Hinv Hi Hheap Hpods Hfs.
  assert (Forall (frame_ok (ds_heap ds)) fs ∧ Forall (λ g, holds g = None) fs) as [Hok Hno].
  { split; (eapply Forall_impl; [done|]); by intros g []. }
  eapply owned_run; eauto; rewrite ?Hheap, ?Hpods; try done.
  - intros k l Hk. rewrite Hheap. rewrite Hpods in Hk. by apply (ow_pods _ _ Hinv).
  - by destruct fs; [|apply Forall_cons in Hno as [_ ?]].
  - intros g l Hg Hl. destruct fs as [|g' fs]; simplify_eq/=. apply Forall_cons in Hno as [? _]. congruence.
  - intros j l _ Hj. destruct (ow_held _ _ Hinv j l Hj) as (? & ? & _). done.
Qed.

(** ** Every step keeps the invariant *)

(** The pods and their objects, which the operations on the pool and the models do not
    touch. *)
Definition same_pods (ds ds' : datastore) : Prop :=
  ds_heap ds' = ds_heap ds ∧ ds_pods ds' = ds_pods ds.

Lemma model_set_pods m ds : same_pods ds (ModelSetIfOlder m ds).2.
Proof. unfold ModelSetIfOlder. repeat case_match; by split. Qed.

Lemma model_delete_pods `{MapOrder} n ds : same_pods ds (ModelDelete n ds).2.
Proof. unfold ModelDelete. repeat case_match; by split. Qed.

Lemma model_resync_pods c name ds r ds' : ModelResync c name ds = Val (r, ds') → same_pods ds ds'.
Proof.
  unfold ModelResync. destruct (deref _) as [pool|]; [|done]. run_outcome.
  repeat case_match; intros [= _ <-]; by split.
Qed.

Section invariant.
Context `{MapOrder} `{Labels} (poolName : NamespacedName).

Lemma own_new ds ts i pod rest :
  owned ds ts → ts !! i = Some (AddNew pod :: rest) →
  let l := fresh (dom (ds_heap ds)) in
  owned (set_heap (<[l := NewPodMetrics pod]> (ds_heap ds)) ds)
    (<[i := [AddStore pod l] ++ rest]> ts ++ [[LoopSelect l]]).
Proof.
  intros Hinv Hi l. pose proof (heap_fresh ds) as Hfresh. fold l in Hfresh.
  assert (named (<[l := NewPodMetrics pod]> (ds_heap ds)) l (pod_key pod)) as Hnamed.
  { exists (NewPodMetrics pod). by rewrite lookup_insert_eq. }
  assert (∀ l', running (ds_heap ds) l' → l' ≠ l ∧ running (<[l := NewPodMetrics pod]> (ds_heap ds)) l') as Hrun.
  { intros l' (o & Ho & Hr). assert (l' ≠ l) by congruence. split; [done|].
    exists o. by rewrite lookup_insert_ne. }
  eapply owned_run; [exact Hinv|exact Hi|..]; simpl; try solve [reflexivity|done|by constructor].
  - apply evolves_fresh.
  - intros k l' Hk. destruct (ow_pods _ _ Hinv k l' Hk) as (o & Ho & ?). exists o.
    simpl. by rewrite lookup_insert_ne by congruence.
  - apply Forall_singleton, Forall_singleton. split; [|done]. simpl. eauto.
  - intros g l' [= <-] [= <-]. split; [|split].
    + exists (NewPodMetrics pod). by rewrite lookup_insert_eq.
    + intros k Hk. destruct (ow_pods _ _ Hinv k l Hk) as (o & Ho & ?). congruence.
    + intros j _ Hj. destruct (ow_held _ _ Hinv j l Hj) as ((o & Ho & _) & _). congruence.
  - intros j l' _ Hj. destruct (ow_held _ _ Hinv j l' Hj) as (Hr & ? & _). split; [by apply Hrun|done].
Qed.

Lemma own_store ds ts i pod l rest :
  owned ds ts → ts !! i = Some (AddStore pod l :: rest) →
  owned (set_pods (<[pod_key pod := l]> (ds_pods ds)) ds)
    (<[i := [AddUpdate pod l] ++ rest]> ts ++ []).
Proof.
  intros Hinv Hi. pose proof (ow_frames _ _ Hinv _ _ Hi) as Hok. apply Forall_cons in Hok as [Hok _].
  assert (holder ts i l) as Hhold by (by exists (AddStore pod l), rest).
  destruct (ow_held _ _ Hinv i l Hhold) as ((o & Ho & Hr) & Hnot & Huniq).
  eapply owned_run; [exact Hinv|exact Hi|..]; simpl; try solve [reflexivity|done|by constructor].
  - intros k l' Hk. simpl in *. rewrite lookup_insert in Hk. case_decide as Hkk; simplify_eq.
    + destruct Hok as (o' & Ho' & Hn). exists o. by simplify_eq.
    + by apply (ow_pods _ _ Hinv).
  - intros g l' [= <-]. done.
  - intros j l' Hne Hj. destruct (ow_held _ _ Hinv j l' Hj) as (? & Hnot' & Huniq'). split; [done|].
    intros k. rewrite lookup_insert. case_decide; [|done]. intros [= <-]. by apply Hne, Huniq.
Qed.

Lemma own_alter ds ts i f rest l g fs :
  owned ds ts → ts !! i = Some (f :: rest) → holds f = None →
  (∀ o, ds_heap ds !! l = Some o → obj_name (g o) = obj_name o) →
  (∀ o, refresher_running (g o) = refresher_running o) →
  Forall (frame_ok (alter g l (ds_heap ds))) fs → Forall (λ g, holds g = None) fs →
  owned (set_heap (alter g l (ds_heap ds)) ds) (<[i := fs ++ rest]> ts ++ []).
Proof.
  intros Hinv Hi Hf Hn Hr Hfs Hno. eapply owned_run; [exact Hinv|exact Hi|..]; simpl; try solve [reflexivity|done|by constructor].
  - by apply evolves_alter.
  - intros k l' Hk. destruct (ow_pods _ _ Hinv k l' Hk) as (o & Ho & Hk' & Hrun). simpl.
    destruct (decide (l = l')) as [->|Hne].
    + exists (g o). rewrite lookup_alter_eq, Ho, Hr. split; [done|]. split; [|done].
      rewrite <-Hk'. by apply (Hn o).
    + exists o. by rewrite lookup_alter_ne.
  - by destruct fs; [|apply Forall_cons in Hno as [_ ?]].
  - intros g' l' Hg Hl. destruct fs as [|g'' fs]; simplify_eq/=. apply Forall_cons in Hno as [? _]. congruence.
  - intros j l' _ Hj. destruct (ow_held _ _ Hinv j l' Hj) as (? & ? & _).
    split; [by apply running_alter|done].
Qed.

Lemma own_take ds ts i n l rest :
  owned ds ts → ts !! i = Some (DelTake n :: rest) → ds_pods ds !! n = Some l →
  owned (set_pods (delete n (ds_pods ds)) ds) (<[i := [DelStop l] ++ rest]> ts ++ []).
Proof.
  intros Hinv Hi Hn. destruct (ow_pods _ _ Hinv n l Hn) as (o & Ho & Hk & Hr).
  eapply owned_run; [exact Hinv|exact Hi|..]; simpl; try solve [reflexivity|done|by constructor].
  - intros k l' Hk'. simpl in Hk'. apply lookup_delete_Some in Hk' as [_ Hk']. by apply (ow_pods _ _ Hinv).
  - apply Forall_singleton. simpl. by exists n, o.
  - intros g l' [= <-] [= <-]. split; [by exists o|]. split.
    + intros k [Hne Hk']%lookup_delete_Some.
      destruct (ow_pods _ _ Hinv k l Hk') as (o' & Ho' & Hk2 & _). congruence.
    + intros j _ Hj. destruct (ow_held _ _ Hinv j l Hj) as (_ & Hnot & _). by destruct (Hnot n).
  - intros j l' _ Hj. destruct (ow_held _ _ Hinv j l' Hj) as (? & Hnot & _). split; [done|].
    intros k [_ Hk']%lookup_delete_Some. by destruct (Hnot k).
Qed.

Lemma own_stop ds ts i l rest :
  owned ds ts → ts !! i = Some (DelStop l :: rest) →
  ∃ o, ds_heap ds !! l = Some o ∧ pm_done o = false
    ∧ owned (set_heap (<[l := mkpodMetrics (pm_pod o) (pm_metrics o) (pm_started o) true]> (ds_heap ds)) ds)
        (<[i := [] ++ rest]> ts ++ []).
Proof.
  intros Hinv Hi. assert (holder ts i l) as Hhold by (by exists (DelStop l), rest).
  destruct (ow_held _ _ Hinv i l Hhold) as ((o & Ho & Hr) & Hnot & Huniq).
  exists o. split; [done|]. split.
  { unfold refresher_running in Hr. by to_prop. }
  eapply owned_run; [exact Hinv|exact Hi|..]; simpl; try solve [reflexivity|done|by constructor].
  - eapply evolves_insert; [done|done|]. by intros [_ ?%negb_true_iff]%andb_true_iff.
  - intros k l' Hk. destruct (ow_pods _ _ Hinv k l' Hk) as (o' & Ho' & ?). exists o'.
    simpl. rewrite lookup_insert_ne; [done|]. intros <-. by destruct (Hnot k).
  - intros j l' Hne Hj. destruct (ow_held _ _ Hinv j l' Hj) as ((o' & Ho' & Hr') & ? & Huniq').
    split; [|done]. exists o'. rewrite lookup_insert_ne; [done|]. intros <-. by apply Hne, Huniq.
Qed.

Lemma own_clear ds ts i rest :
  owned ds ts → ts !! i = Some (PoolClear :: rest) → owned (Clear ds) (<[i := [] ++ rest]> ts ++ []).
Proof.
  intros Hinv Hi. eapply owned_run; [exact Hinv|exact Hi|..]; simpl; try solve [reflexivity|done|by constructor].
  intros j l _ Hj. destruct (ow_held _ _ Hinv j l Hj) as (? & ? & _). split; [done|]. intros k.
  by rewrite lookup_empty.
Qed.

(** Frames that touch neither the pods nor the objects and need nothing of them. *)
Ltac quiet_step := cbn [ef_store ef_frames ef_spawn];
  (eapply owned_quiet; [match goal with Hinv : owned _ _ |- _ => exact Hinv end
                       |match goal with Hi : _ !! _ = Some (_ :: _) |- _ => exact Hi end|done|done|]).

Ltac quiet := intros Hinv Hi Hex; simpl in Hex; unfold go_on in Hex; repeat case_match; simplify_eq;
  quiet_step; by repeat constructor.

(** A step of this frame keeps the ownership of the objects. *)
Definition keeps_owned (f : frame) : Prop := ∀ c cancelled w ds ts i rest e,
  owned ds ts → ts !! i = Some (f :: rest) → exec poolName c cancelled w f ds = Some (Val e) →
  owned (ef_store e) (<[i := ef_frames e ++ rest]> ts ++ ef_spawn e).

Lemma keeps_set m : keeps_owned (ModelSet m).
Proof.
  intros c cancelled w ds ts i rest e Hinv Hi Hex. injection Hex as <-. destruct (model_set_pods m ds).
  by quiet_step.
Qed.

Lemma keeps_gone req : keeps_owned (ModelGone req).
Proof.
  intros c cancelled w ds ts i rest e Hinv Hi Hex. simpl in Hex. destruct (model_delete_pods req ds).
  destruct (ModelDelete req ds) as [[m|] ds']; injection Hex as <-; cbn [snd] in *;
    quiet_step; by repeat constructor.
Qed.

Lemma keeps_refile name : keeps_owned (ModelRefile name).
Proof.
  intros c cancelled w ds ts i rest e Hinv Hi Hex. simpl in Hex.
  destruct (ModelResync c name ds) as [[r ds']|] eqn:Hr; [|done]. simpl in Hex; simplify_eq.
  apply model_resync_pods in Hr as []. by quiet_step.
Qed.

Lemma keeps_range active start seen found : keeps_owned (ResyncRange active start seen found).
Proof.
  intros c cancelled w ds ts i rest e Hinv Hi Hex. simpl in Hex.
  pose proof (ow_frames _ _ Hinv _ _ Hi) as Hok. apply Forall_cons in Hok as [[Hs Hf] _].
  destruct (or_pick w) as [k|].
  + case_bool_decide; [done|]. destruct (ds_pods ds !! k) as [l|] eqn:Hk; [|done].
    injection Hex as <-. quiet_step.
    apply Forall_singleton. split; [|done]. split; [done|].
    intros k' l' [?|Hin]%elem_of_app; [by apply Hf|]. apply list_elem_of_singleton in Hin. simplify_eq.
    destruct (ow_pods _ _ Hinv _ _ Hk) as (o & ? & ? & _). by exists o.
  + destruct found as [|[k l] found]; [destruct (range_may_end _ _ _); [|done]|].
    * injection Hex as <-. by quiet_step.
    * destruct (ds_heap ds !! l) as [o|]; [|done]. simpl in Hex; simplify_eq.
      quiet_step. apply Forall_app. split.
      { case_bool_decide; by repeat constructor. }
      apply Forall_singleton. split; [|done]. split; [done|]. intros k' l' Hin. apply Hf. by right.
Qed.

Lemma keeps_resync active items : keeps_owned (ResyncAdd active items).
Proof.
  intros c cancelled w ds ts i rest e Hinv Hi Hex. simpl in Hex. destruct items as [|pod items].
  + injection Hex as <-. quiet_step.
    apply Forall_singleton. split; [|done]. split; [|by intros ?? ?%not_elem_of_nil].
    intros k l Hk. destruct (ow_pods _ _ Hinv _ _ Hk) as (o & ? & ? & _). by exists o.
  + destruct (podIsReady pod); injection Hex as <-;
      quiet_step; by repeat constructor.
Qed.

Lemma keeps_select l : keeps_owned (LoopSelect l).
Proof.
  intros c cancelled w ds ts i rest e Hinv Hi Hex. simpl in Hex.
  pose proof (ow_frames _ _ Hinv _ _ Hi) as Hok. apply Forall_cons in Hok as [Hl _].
  destruct (ds_heap ds !! l) as [o|]; [|done]. simpl in Hex; simplify_eq.
  quiet_step. case_match; by repeat constructor.
Qed.

Lemma keeps_fetch l : keeps_owned (LoopFetch l).
Proof.
  intros c cancelled w ds ts i rest e Hinv Hi Hex. simpl in Hex.
  pose proof (ow_frames _ _ Hinv _ _ Hi) as Hok. apply Forall_cons in Hok as [Hl _].
  unfold go_on in Hex. repeat case_match; simplify_eq;
    quiet_step; by apply Forall_singleton.
Qed.

Lemma keeps_store l m : keeps_owned (LoopStore l m).
Proof.
  intros c cancelled w ds ts i rest e Hinv Hi Hex. injection Hex as <-.
  pose proof (ow_frames _ _ Hinv _ _ Hi) as Hok. apply Forall_cons in Hok as [[k Hl] _].
  eapply own_alter; eauto; try done; [|by apply Forall_singleton]. apply Forall_singleton. exists k.
  eapply named_evolves; [by apply evolves_alter|done].
Qed.

Lemma exec_owned c cancelled w ds ts i f rest e :
  owned ds ts → ts !! i = Some (f :: rest) → exec poolName c cancelled w f ds = Some (Val e) →
  owned (ef_store e) (<[i := ef_frames e ++ rest]> ts ++ ef_spawn e).
Proof.
  destruct f as [req|m|req|name|req|pool|pool b| |req|req|pod|pod|pod|pod l|pod l|n|l|pool
                |active items|active start seen found|l|l|l m]; try by quiet.
  - by apply keeps_set.
  - by apply keeps_gone.
  - by apply keeps_refile.
  - (* PoolClear *) intros Hinv Hi Hex. injection Hex as <-. by apply own_clear.
  - (* PodTest *) intros Hinv Hi Hex. simpl in Hex.
    destruct (negb _); [|destruct (PoolLabelsMatch _ ds) as [matched|]; [|done]];
      simpl in Hex; simplify_eq; quiet_step;
      repeat case_match; by repeat constructor.
  - (* AddLoad *) intros Hinv Hi Hex. simpl in Hex.
    destruct (ds_pods ds !! pod_key pod) as [l|] eqn:Hl; injection Hex as <-;
      quiet_step; apply Forall_singleton; [|done].
    split; [|done]. destruct (ow_pods _ _ Hinv _ _ Hl) as (o & ? & ? & _). by exists o.
  - (* AddNew *) intros Hinv Hi Hex. injection Hex as <-. by apply own_new.
  - (* AddStore *) intros Hinv Hi Hex. injection Hex as <-. by apply own_store.
  - (* AddUpdate *) intros Hinv Hi Hex. injection Hex as <-. pose proof (ow_frames _ _ Hinv _ _ Hi) as Hok.
    apply Forall_cons in Hok as [(o & Ho & Hn) _]. eapply own_alter; eauto.
    intros o' Ho'. simplify_eq. done.
  - (* DelTake *) intros Hinv Hi Hex. simpl in Hex.
    destruct (ds_pods ds !! n) as [l|] eqn:Hl; injection Hex as <-; [by apply own_take|].
    by quiet_step.
  - (* DelStop *) intros Hinv Hi Hex. simpl in Hex.
    destruct (own_stop ds ts i l rest Hinv Hi) as (o & Ho & Hdone & Hown).
    rewrite Ho in Hex. simpl in Hex. unfold StopRefreshLoop in Hex. rewrite Hdone in Hex.
    by injection Hex as <-.
  - by apply keeps_resync.
  - by apply keeps_range.
  - by apply keeps_select.
  - by apply keeps_fetch.
  - by apply keeps_store.
Qed.

(** The only panics are those of a pool that is not there. *)
Lemma exec_panic c cancelled w ds ts i f rest p :
  owned ds ts → ts !! i = Some (f :: rest) → exec poolName c cancelled w f ds = Some (Panic p) →
  ds_pool ds = None ∧ p = NilDereference
  ∧ ((∃ pod, f = PodTest pod) ∨ (∃ name, f = ModelRefile name)).
Proof.
  intros Hinv Hi Hex. pose proof (ow_frames _ _ Hinv _ _ Hi) as Hok. apply Forall_cons in Hok as [Hok _].
  destruct f; simpl in Hex, Hok; unfold go_on in Hex; try (by repeat case_match).
  - unfold ModelResync in Hex. destruct (ds_pool ds); simpl in Hex; [by repeat case_match|].
    simplify_eq. eauto.
  - destruct (negb _); [done|]. unfold PoolLabelsMatch in Hex.
    destruct (ds_pool ds); simpl in Hex; [done|]. simplify_eq. eauto.
  - destruct (own_stop ds ts i l rest Hinv Hi) as (o & Ho & Hdone & _).
    rewrite Ho in Hex. simpl in Hex. unfold StopRefreshLoop in Hex. by rewrite Hdone in Hex.
  - destruct (or_pick w); [by repeat case_match|]. destruct found as [|[k l] found]; [by case_match|].
    destruct Hok as [_ Hf]. destruct (Hf k l) as (o & Ho & _); [by left|]. by rewrite Ho in Hex.
  - destruct Hok as (k & o & Ho & _). by rewrite Ho in Hex.
Qed.

Lemma owned_start c : owned (sy_store (system_start c)) (sy_threads (system_start c)).
Proof.
  assert (∀ i t, sy_threads (system_start c) !! i = Some t → t = []) as Hnil
    by (intros [|[|[|i]]] t Ht; simplify_eq/=; done).
  split; [done|..].
  - intros i t ->%Hnil. done.
  - intros i f rest Hi%Hnil. done.
  - intros i l (f & rest & Hi%Hnil & _). done.
Qed.

(** A new request at the end of a queue. *)
Lemma owned_enqueue ds ts i t f :
  owned ds ts → ts !! i = Some t → holds f = None → (∀ h, frame_ok h f) →
  owned ds (<[i := t ++ [f]]> ts).
Proof.
  intros [Hp Hf Ht Hh] Hi Hno Hok.
  assert (∀ j l, holder (<[i := t ++ [f]]> ts) j l → holder ts j l) as Hback.
  { intros j l (g & rest & Hj & Hg). apply list_lookup_insert_Some in Hj as [(-> & Heq & _)|[_ Hj]].
    - destruct t as [|g' t]; simplify_eq/=. by exists g, t.
    - by exists g, rest. }
  split; [done|..].
  - intros j t' Hj. apply list_lookup_insert_Some in Hj as [(-> & <- & _)|[_ Hj]]; [|eauto].
    apply Forall_app. split; [by eapply Hf|by apply Forall_singleton].
  - intros j g rest Hj. apply list_lookup_insert_Some in Hj as [(-> & Heq & _)|[_ Hj]]; [|eauto].
    destruct t as [|g' t]; simplify_eq/=; [done|]. apply Forall_app. split; [by eapply Ht|by apply Forall_singleton].
  - intros j l Hj%Hback. destruct (Hh j l Hj) as (? & ? & Hu). split; [done|]. split; [done|]. eauto.
Qed.

Lemma step_owned a s s' :
  perform poolName a s = Some (Val s') →
  owned (sy_store s) (sy_threads s) → owned (sy_store s') (sy_threads s').
Proof.
  intros Ha Hinv. destruct a as [i w|c|i req|]; simpl in Ha; simplify_eq; try done.
  - unfold run_frame in Ha. destruct (sy_threads s !! i) as [[|f rest]|] eqn:Hi; try done.
    destruct (exec _ _ _ w f _) as [[e|]|] eqn:Hex; try done. simpl in Ha. simplify_eq. simpl.
    by eapply exec_owned.
  - destruct (request i req) as [f|] eqn:Hf; [|done]. simpl in Ha.
    destruct (sy_threads s !! i) as [t|] eqn:Hi; [|done]. simpl in Ha. simplify_eq. simpl.
    destruct i as [|[|[|i]]]; simplify_eq/=; by eapply owned_enqueue.
Qed.

Lemma reachable_owned s : reachable poolName s → owned (sy_store s) (sy_threads s).
Proof.
  intros [c Hs]. pose proof (owned_start c) as Hinv. induction Hs as [|s1 s2 s3 [a Ha] _ IH]; [done|].
  apply IH. by eapply step_owned.
Qed.

(** ** What a step may do to the pods *)

(** A frame that holds nothing; one that is about to create an object found none. *)
Definition quiet_frame (ds : datastore) (g : frame) : Prop :=
  holds g = None ∧ match g with AddNew pod => ds_pods ds !! pod_key pod = None | _ => True end.

Inductive pod_effect (ds : datastore) : frame → datastore → list frame → Prop :=
  | pe_quiet f ds' fs :
      same_pods ds ds' → holds f = None → (∀ n l, f = DelTake n → ds_pods ds !! n ≠ Some l) →
      f ≠ PoolClear → Forall (quiet_frame ds) fs →
      pod_effect ds f ds' fs
  | pe_clear : pod_effect ds PoolClear (Clear ds) []
  | pe_new pod l :
      l = fresh (dom (ds_heap ds)) →
      pod_effect ds (AddNew pod) (set_heap (<[l := NewPodMetrics pod]> (ds_heap ds)) ds) [AddStore pod l]
  | pe_store pod l :
      pod_effect ds (AddStore pod l) (set_pods (<[pod_key pod := l]> (ds_pods ds)) ds) [AddUpdate pod l]
  | pe_update pod l :
      pod_effect ds (AddUpdate pod l) (set_heap (alter (UpdatePod pod) l (ds_heap ds)) ds) []
  | pe_take n l :
      ds_pods ds !! n = Some l →
      pod_effect ds (DelTake n) (set_pods (delete n (ds_pods ds)) ds) [DelStop l]
  | pe_stop l o :
      ds_heap ds !! l = Some o → pm_done o = false →
      pod_effect ds (DelStop l)
        (set_heap (<[l := mkpodMetrics (pm_pod o) (pm_metrics o) (pm_started o) true]> (ds_heap ds)) ds) []
  | pe_metrics l m :
      pod_effect ds (LoopStore l m) (set_heap (alter (pm_set_metrics m) l (ds_heap ds)) ds) [LoopSelect l].

Ltac effect_quiet :=
  apply pe_quiet; [by split|done|done|done|repeat case_match; by repeat constructor].

Lemma exec_effect c cancelled w f ds e :
  exec poolName c cancelled w f ds = Some (Val e) → pod_effect ds f (ef_store e) (ef_frames e).
Proof.
  destruct f as [req|m|req|name|req|pool|pool b| |req|req|pod|pod|pod|pod l|pod l|n|l|pool
                |active items|active start seen found|l|l|l m]; intros Hex; simpl in Hex;
    unfold go_on in Hex; try (by repeat case_match; simplify_eq; constructor);
    try (repeat case_match; simplify_eq; by effect_quiet).
  - simplify_eq. apply pe_quiet; [by apply model_set_pods|done..].
  - destruct (model_delete_pods req ds). destruct (ModelDelete req ds) as [[m|] ds']; simplify_eq;
      (apply pe_quiet; [by split|done|done|done|by repeat constructor]).
  - destruct (ModelResync c name ds) as [[r ds']|] eqn:Hr; [|done]. simpl in Hex. simplify_eq.
    apply pe_quiet; [by eapply model_resync_pods|done..].
  - destruct (negb _); [|destruct (PoolLabelsMatch _ ds) as [matched|]; [|done]];
      simpl in Hex; simplify_eq; by effect_quiet.
  - destruct (ds_pods ds !! n) as [l|] eqn:Hl; simplify_eq; [by constructor|].
    apply pe_quiet; [done|done|congruence|done|done].
  - destruct (ds_heap ds !! l) as [o|] eqn:Ho; [|done]. simpl in Hex. unfold StopRefreshLoop in Hex.
    destruct (pm_done o) eqn:Hd; simpl in Hex; [done|]. simplify_eq. by constructor.
  - destruct (or_pick w) as [k|]; [repeat case_match; simplify_eq; by effect_quiet|].
    destruct found as [|[k l] found]; [case_match; simplify_eq; by effect_quiet|].
    destruct (ds_heap ds !! l) as [o|]; [|done]. simpl in Hex. simplify_eq. by effect_quiet.
  - destruct (ds_heap ds !! l) as [o|]; [|done]. simpl in Hex. simplify_eq. by effect_quiet.
Qed.

(** Frames that may wait below another one. *)
Definition waits (f : frame) : Prop :=
  match f with AddNew _ | AddStore _ _ | DelStop _ => False | _ => True end.

Lemma exec_shape c cancelled w f ds e :
  exec poolName c cancelled w f ds = Some (Val e) →
  Forall waits (tail (ef_frames e)) ∧ (ef_spawn e = [] ∨ ∃ l, ef_spawn e = [[LoopSelect l]]).
Proof.
  destruct f; simpl; unfold go_on, mbind, outcome_bind; intros Hex;
    repeat case_match; simplify_eq; split; eauto; by repeat constructor.
Qed.

(** A goroutine [i] ran [f], whose effect was [fs]. *)
Record ran (s s' : system) (i : nat) (f : frame) (rest fs : list frame) : Prop := {
  ran_top : sy_threads s !! i = Some (f :: rest);
  ran_effect : pod_effect (sy_store s) f (sy_store s') fs;
  ran_waits : Forall waits (tail fs);
  ran_threads : ∃ spawn, sy_threads s' = <[i := fs ++ rest]> (sy_threads s) ++ spawn
                         ∧ (spawn = [] ∨ ∃ l, spawn = [[LoopSelect l]]);
  ran_exec : ∃ w e, exec poolName (sy_api s) (sy_cancelled s) w f (sy_store s) = Some (Val e)
                    ∧ sy_store s' = ef_store e ∧ fs = ef_frames e;
  ran_api : sy_api s' = sy_api s ∧ sy_past s' = sy_past s
}.

(** The store is as it was, and goroutines at most got a request. *)
Record only_requests (s s' : system) : Prop := {
  or_store : sy_store s' = sy_store s;
  or_api : ∀ c, c ∈ sy_api s :: sy_past s → c ∈ sy_api s' :: sy_past s';
  or_old : ∀ j f rest, sy_threads s' !! j = Some (f :: rest) →
    (∃ req, request j req = Some f ∧ rest = [])
    ∨ ∃ rest', sy_threads s !! j = Some (f :: rest')
        ∧ (rest = rest' ∨ ∃ req g, request j req = Some g ∧ rest = rest' ++ [g]);
  or_new : ∀ j f rest, sy_threads s !! j = Some (f :: rest) →
    ∃ rest', sy_threads s' !! j = Some (f :: rest')
}.

Lemma request_waits i req f : request i req = Some f → waits f ∧ holds f = None ∧ ∀ pod, f ≠ AddNew pod.
Proof. destruct i as [|[|[|i]]]; intros ?; simplify_eq/=; done. Qed.

Lemma perform_cases a s s' :
  perform poolName a s = Some (Val s') → (∃ i f rest fs, ran s s' i f rest fs) ∨ only_requests s s'.
Proof.
  destruct a as [i w|c|i req|]; simpl; intros Ha; simplify_eq;
    try (right; split; [done|by intros c' Hc; simpl; rewrite ?elem_of_cons in *; tauto|by eauto 8..]).
  - left. unfold run_frame in Ha. destruct (sy_threads s !! i) as [[|f rest]|] eqn:Hi; try done.
    destruct (exec _ _ _ w f _) as [[e|]|] eqn:Hex; try done. simpl in Ha. simplify_eq. simpl.
    destruct (exec_shape _ _ _ _ _ _ Hex). exists i, f, rest, (ef_frames e).
    split; [done|by eapply exec_effect|done| |by eauto|done]. by exists (ef_spawn e).
  - right. destruct (request i req) as [g|] eqn:Hg; [|done]. simpl in Ha.
    destruct (sy_threads s !! i) as [t|] eqn:Hi; [|done]. simpl in Ha. simplify_eq. split; simpl.
    + done.
    + done.
    + intros j f rest Hj. apply list_lookup_insert_Some in Hj as [(-> & Heq & _)|[_ Hj]]; [|eauto].
      destruct t as [|f' t]; simplify_eq/=; [eauto|]. right. exists t. eauto 6.
    + intros j f rest Hj. destruct (decide (j = i)) as [->|Hne]; [|rewrite list_lookup_insert_ne; eauto].
      simplify_eq. exists (rest ++ [g]). by rewrite list_lookup_insert_eq by (by eapply lookup_lt_Some).
Qed.

(** Who holds what after a goroutine ran. *)
Lemma ran_holder s s' i f rest fs j l :
  owned (sy_store s) (sy_threads s) → ran s s' i f rest fs → holder (sy_threads s') j l →
  (j = i ∧ ∃ g fs', fs = g :: fs' ∧ holds g = Some l) ∨ (j ≠ i ∧ holder (sy_threads s) j l).
Proof.
  intros Hinv [Hi _ _ (spawn & -> & Hsp) _ _] Hj.
  eapply holder_after; [exact Hi|by eapply ow_tails| |exact Hj].
  destruct Hsp as [->|[l' ->]]; by repeat constructor.
Qed.

(** The other goroutines stay as they are. *)
Lemma ran_other s s' i f rest fs j t :
  ran s s' i f rest fs → j ≠ i → sy_threads s !! j = Some t → sy_threads s' !! j = Some t.
Proof.
  intros [_ _ _ (spawn & -> & _) _ _] Hne Hj. apply lookup_app_l_Some. by rewrite list_lookup_insert_ne.
Qed.

Lemma ran_self s s' i f rest fs :
  ran s s' i f rest fs → sy_threads s' !! i = Some (fs ++ rest).
Proof.
  intros [Hi _ _ (spawn & -> & _) _ _]. apply lookup_app_l_Some.
  rewrite list_lookup_insert_eq; [done|]. by eapply lookup_lt_Some.
Qed.

Lemma ran_lookup s s' i f rest fs j t :
  ran s s' i f rest fs → sy_threads s' !! j = Some t →
  (j = i ∧ t = fs ++ rest) ∨ (j ≠ i ∧ sy_threads s !! j = Some t) ∨ ∃ l, t = [LoopSelect l].
Proof.
  intros [Hi _ _ (spawn & -> & Hsp) _ _] Hj. destruct (lookup_threads Hj) as [?|[?|[_ Hin]]]; auto.
  right. right. destruct Hsp as [->|[l ->]]; [by apply not_elem_of_nil in Hin|].
  apply list_elem_of_singleton in Hin. eauto.
Qed.

(** ** Objects that are lost *)

(** The goroutine of the object at [l] runs, and nothing refers to the object any more
    but that goroutine. *)
Definition lost (s : system) (l : loc) : Prop :=
  running (ds_heap (sy_store s)) l ∧ (∀ k, ds_pods (sy_store s) !! k ≠ Some l)
  ∧ ∀ i, ¬ holder (sy_threads s) i l.

Lemma lost_effect ds f ds' fs l :
  pod_effect ds f ds' fs → holds f ≠ Some l →
  running (ds_heap ds) l → (∀ k, ds_pods ds !! k ≠ Some l) →
  running (ds_heap ds') l ∧ (∀ k, ds_pods ds' !! k ≠ Some l)
  ∧ ∀ g fs', fs = g :: fs' → holds g ≠ Some l.
Proof.
  intros He Hf Hrun Hpods. destruct He as [f ds' fs [Hh Hp] _ _ _ Hfs| |pod l' Hl|pod l'|pod l'|n l' Hn|l' o Ho Hd|l' m];
    simpl in *; try (by split; [|split]).
  - rewrite Hh, Hp. split; [done|]. split; [done|]. intros g fs' -> Hg.
    apply Forall_cons in Hfs as [[? _] _]. congruence.
  - split; [|split; [done|]].
    + destruct Hrun as (o & Ho & ?). exists o. rewrite lookup_insert_ne; [done|]. intros ->.
      by rewrite Hl, heap_fresh in Ho.
    + intros g fs' [= <- <-] [= ->]. destruct Hrun as (o & Ho & ?). by rewrite Hl, heap_fresh in Ho.
  - split; [done|]. split; [|by intros g fs' [= <- <-]]. intros k. rewrite lookup_insert.
    case_decide; [congruence|done].
  - split; [by apply running_alter|]. done.
  - split; [done|]. split.
    + intros k [_ Hk]%lookup_delete_Some. by apply (Hpods k).
    + intros g fs' [= <- <-] [= ->]. by apply (Hpods n).
  - split; [|done]. destruct Hrun as (o' & Ho' & ?). exists o'. by rewrite lookup_insert_ne by congruence.
  - split; [by apply running_alter|]. split; [done|]. by intros g fs' [= <- <-].
Qed.

(** A lost object stays lost, whatever happens. *)
Lemma lost_step a s s' l :
  owned (sy_store s) (sy_threads s) → perform poolName a s = Some (Val s') → lost s l → lost s' l.
Proof.
  intros Hinv Ha (Hrun & Hpods & Hheld).
  destruct (perform_cases a s s' Ha) as [(i & f & rest & fs & Hran)|[Hst _ Hold _]].
  - destruct (lost_effect _ _ _ _ l (ran_effect _ _ _ _ _ _ Hran)) as (Hrun' & Hpods' & Hnew); [|done|done|].
    { intros Hf. apply (Hheld i). exists f, rest. by split; [apply Hran|]. }
    split; [done|]. split; [done|]. intros j Hj.
    destruct (ran_holder _ _ _ _ _ _ _ _ Hinv Hran Hj) as [[-> (g & fs' & Hfs & Hg)]|[_ Hj']];
      [by eapply Hnew|by eapply Hheld].
  - split; [by rewrite Hst|]. split; [by rewrite Hst|]. intros j (g & rest & Hj & Hg).
    destruct (Hold j g rest Hj) as [(req & Hreq & _)|(rest' & Hj' & _)].
    + apply request_waits in Hreq as (_ & ? & _). congruence.
    + apply (Hheld j). by exists g, rest'.
Qed.

Lemma lost_forever s s' l :
  owned (sy_store s) (sy_threads s) → rtc (system_step poolName) s s' → lost s l → lost s' l.
Proof.
  intros Hinv Hs. induction Hs as [|s1 s2 s3 [a Ha] _ IH]; [done|]. intros Hlost.
  apply IH; [by eapply step_owned|by eapply lost_step].
Qed.

(** ** Adds that do not overlap *)

(** Goroutine [i] found no object for this pod and has not stored the one it creates. *)
Definition adding (ts : list (list frame)) (i : nat) (pod : CorePod) : Prop :=
  ∃ rest, ts !! i = Some (AddNew pod :: rest) ∨ ∃ l, ts !! i = Some (AddStore pod l :: rest).

(** Two goroutines are adding the same pod. *)
Definition overlap (s : system) : Prop :=
  ∃ i j pod1 pod2, i ≠ j ∧ adding (sy_threads s) i pod1 ∧ adding (sy_threads s) j pod2
    ∧ pod_key pod1 = pod_key pod2.

(** A step from and to a state without overlapping adds, not one of [Clear]. *)
Definition calm_step (s s' : system) : Prop :=
  system_step poolName s s' ∧ ¬ overlap s ∧ ¬ overlap s'
  ∧ ∀ i rest, sy_threads s !! i ≠ Some (PoolClear :: rest).

Record accounted (s : system) : Prop := {
  ac_waits : ∀ i f rest, sy_threads s !! i = Some (f :: rest) → Forall waits rest;
  ac_absent : ∀ i pod, adding (sy_threads s) i pod → ds_pods (sy_store s) !! pod_key pod = None;
  ac_running : ∀ l, running (ds_heap (sy_store s)) l →
    (∃ k, ds_pods (sy_store s) !! k = Some l) ∨ ∃ i, holder (sy_threads s) i l
}.

Lemma adding_after s s' i f rest fs j pod :
  accounted s → ran s s' i f rest fs → adding (sy_threads s') j pod →
  (j = i ∧ ((∃ fs', fs = AddNew pod :: fs') ∨ ∃ l fs', fs = AddStore pod l :: fs'))
  ∨ (j ≠ i ∧ adding (sy_threads s) j pod).
Proof.
  intros Hac Hran (rest' & Hj).
  assert (∃ g, sy_threads s' !! j = Some (g :: rest')
               ∧ (g = AddNew pod ∨ ∃ l, g = AddStore pod l)) as (g & Hg & Hadd)
    by (destruct Hj as [Hj|[l Hj]]; eauto).
  destruct (ran_lookup _ _ _ _ _ _ _ _ Hran Hg) as [[-> Heq]|[[Hne Hj']|[l Hl]]].
  - left. split; [done|]. destruct fs as [|g' fs]; simpl in Heq.
    + pose proof (ac_waits _ Hac _ _ _ (ran_top _ _ _ _ _ _ Hran)) as Hw. rewrite <-Heq in Hw.
      apply Forall_cons in Hw as [Hw _]. by destruct Hadd as [->|[l ->]].
    + injection Heq as <- _. destruct Hadd as [->|[l ->]]; eauto.
  - right. split; [done|]. exists rest'. destruct Hadd as [->|[l ->]]; eauto.
  - simplify_eq. by destruct Hadd as [?|[??]].
Qed.

Lemma holder_keep s s' i f rest fs j l :
  ran s s' i f rest fs → j ≠ i → holder (sy_threads s) j l → holder (sy_threads s') j l.
Proof. intros Hran Hne (g & rest' & Hj & Hg). exists g, rest'. split; [by eapply ran_other|done]. Qed.

Lemma running_alter_inv h l1 l f :
  (∀ o, refresher_running (f o) = refresher_running o) → running (alter f l1 h) l → running h l.
Proof.
  intros Hf (o & Ho & Hr). apply lookup_alter_Some in Ho as [(-> & o' & Ho' & ->)|[_ Ho]].
  - exists o'. by rewrite <-Hf.
  - by exists o.
Qed.

(** What runs after a step ran before or was just created; it stays where it was, or
    moves between the map and the goroutine. *)
Lemma accounted_running s s' i f rest fs l :
  accounted s → ran s s' i f rest fs → f ≠ PoolClear →
  running (ds_heap (sy_store s')) l →
  (∃ k, ds_pods (sy_store s') !! k = Some l) ∨ ∃ j, holder (sy_threads s') j l.
Proof.
  intros Hac Hran Hclear Hrun.
  assert (∀ g fs', fs = g :: fs' → holds g = Some l → ∃ j, holder (sy_threads s') j l) as Hself.
  { intros g fs' -> Hg. exists i, g, (fs' ++ rest). split; [by rewrite (ran_self _ _ _ _ _ _ Hran)|done]. }
  assert (∀ j, holder (sy_threads s) j l → holds f = Some l ∨ ∃ j, holder (sy_threads s') j l) as Hkeep.
  { intros j Hj. destruct (decide (j = i)) as [->|Hne]; [|right; exists j; by eapply holder_keep].
    destruct Hj as (g & rest' & Hi & Hg). rewrite (ran_top _ _ _ _ _ _ Hran) in Hi. simplify_eq. by left. }
  pose proof (ac_running _ Hac l) as Hbefore. pose proof (ran_top _ _ _ _ _ _ Hran) as Hi.
  destruct (ran_effect _ _ _ _ _ _ Hran) as [f ds' fs [Hh Hp] Hf _ _ _| |pod l' Hl|pod l'|pod l'|n l' Hn|l' o Ho Hd|l' m];
    simpl in *.
  - rewrite Hh in Hrun. rewrite Hp. destruct (Hbefore Hrun) as [?|[j Hj]]; [by left|].
    destruct (Hkeep j Hj); [congruence|by right].
  - done.
  - destruct (decide (l' = l)) as [->|Hne]; [right; by eapply Hself|].
    destruct Hrun as (o & Ho & Hr). rewrite lookup_insert_ne in Ho by done.
    destruct Hbefore as [?|[j Hj]]; [by exists o|by left|]. right. by destruct (Hkeep j Hj).
  - destruct (Hbefore Hrun) as [[k Hk]|[j Hj]].
    + left. exists k. rewrite lookup_insert_ne; [done|]. intros <-.
      rewrite (ac_absent _ Hac i pod) in Hk; [done|]. exists rest. eauto.
    + destruct (Hkeep j Hj) as [[= ->]|?]; [|by right]. left. exists (pod_key pod). by rewrite lookup_insert_eq.
  - apply running_alter_inv in Hrun; [|done]. destruct (Hbefore Hrun) as [?|[j Hj]]; [by left|].
    right. by destruct (Hkeep j Hj).
  - destruct (Hbefore Hrun) as [[k Hk]|[j Hj]]; [|right; by destruct (Hkeep j Hj)].
    destruct (decide (n = k)) as [<-|Hne]; [|left; exists k; by rewrite lookup_delete_ne].
    right. simplify_eq. by eapply Hself.
  - destruct Hrun as (o' & Ho' & Hr). apply lookup_insert_Some in Ho' as [[-> <-]|[Hne Ho']].
    { unfold refresher_running in Hr. simpl in Hr. by rewrite andb_false_r in Hr. }
    destruct Hbefore as [?|[j Hj]]; [by exists o'|by left|].
    right. destruct (Hkeep j Hj) as [[= ->]|?]; done.
  - apply running_alter_inv in Hrun; [|done]. destruct (Hbefore Hrun) as [?|[j Hj]]; [by left|].
    right. by destruct (Hkeep j Hj).
Qed.

Lemma accounted_step s s' : accounted s → calm_step s s' → accounted s'.
Proof.
  intros Hac ([a Ha] & Hno & _ & Hclear).
  destruct (perform_cases a s s' Ha) as [(i & f & rest & fs & Hran)|[Hst _ Hold Hnew]].
  - assert (f ≠ PoolClear) as Hf.
    { intros ->. eapply Hclear, (ran_top _ _ _ _ _ _ Hran). }
    pose proof (ac_waits _ Hac _ _ _ (ran_top _ _ _ _ _ _ Hran)) as Hw. split.
    + intros j g rest' Hj. destruct (ran_lookup _ _ _ _ _ _ _ _ Hran Hj) as [[-> Heq]|[[_ Hj']|[l Hl]]].
      * pose proof (ran_waits _ _ _ _ _ _ Hran). destruct fs as [|g' fs]; simpl in Heq.
        -- rewrite <-Heq in Hw. by apply Forall_cons in Hw as [_ ?].
        -- injection Heq as _ ->. by apply Forall_app.
      * by eapply ac_waits.
      * by simplify_eq.
    + intros j pod Hj. destruct (adding_after _ _ _ _ _ _ _ _ Hac Hran Hj) as [[-> Hfs]|[Hne Hj']].
      * pose proof (ran_top _ _ _ _ _ _ Hran) as Hi. pose proof (ac_absent _ Hac i pod) as Habs.
        destruct (ran_effect _ _ _ _ _ _ Hran) as [f ds' fs [_ Hp] _ _ _ Hq| | | | | | |];
          destruct Hfs as [[fs' Hfs]|(l1 & fs' & Hfs)]; simplify_eq/=.
        -- rewrite Hp. by apply Forall_cons in Hq as [[_ ?] _].
        -- by apply Forall_cons in Hq as [[? _] _].
        -- apply Habs. exists rest. by left.
      * pose proof (ac_absent _ Hac j pod Hj') as Habs. pose proof (ran_top _ _ _ _ _ _ Hran) as Hi.
        destruct (ran_effect _ _ _ _ _ _ Hran) as [f ds' fs [_ Hp] _ _ _ Hq| | |pod' l'| | | |];
          simpl; try done.
        -- by rewrite Hp.
        -- rewrite lookup_insert_ne; [done|]. intros Hkey. apply Hno. exists i, j, pod', pod.
           split; [done|]. split; [|by split]. exists rest. eauto.
        -- by rewrite lookup_delete_None; right.
    + intros l Hl. by eapply accounted_running.
  - assert (∀ j pod, adding (sy_threads s') j pod → adding (sy_threads s) j pod) as Hadd.
    { intros j pod (rest & Hj).
      destruct Hj as [Hj|[l Hj]]; destruct (Hold _ _ _ Hj) as [(req & Hreq & _)|(rest' & Hj' & _)];
        try (exists rest'; by eauto); apply request_waits in Hreq as (? & ? & ?); done. }
    split; rewrite ?Hst.
    + intros j f rest Hj. destruct (Hold _ _ _ Hj) as [(req & _ & ->)|(rest' & Hj' & [->|(req & g & Hg & ->)])];
        [done|by eapply ac_waits|].
      apply Forall_app. split; [by eapply ac_waits|]. apply Forall_singleton. by eapply request_waits.
    + intros j pod Hj. apply (ac_absent _ Hac j). by apply Hadd.
    + intros l Hl. destruct (ac_running _ Hac l Hl) as [?|[j (f & rest & Hj & Hf)]]; [by left|].
      right. destruct (Hnew _ _ _ Hj) as [rest' Hj']. by exists j, f, rest'.
Qed.

(** ** What a resync removes *)

(** No goroutine is about to store the object at [l]. *)
Definition placed (s : system) (l : loc) : Prop :=
  ∀ i pod rest, sy_threads s !! i ≠ Some (AddStore pod l :: rest).

(** The object is not in the map and will not be put there. *)
Definition gone (s : system) (l : loc) : Prop :=
  (∀ k, ds_pods (sy_store s) !! k ≠ Some l) ∧ placed s l.

Lemma placed_ran s s' i f rest fs l :
  owned (sy_store s) (sy_threads s) → ran s s' i f rest fs →
  is_Some (ds_heap (sy_store s) !! l) → placed s l → placed s' l.
Proof.
  intros Hinv Hran [o Ho] Hpl j pod rest' Hj.
  destruct (ran_lookup _ _ _ _ _ _ _ _ Hran Hj) as [[-> Heq]|[[_ Hj']|[l' Hl]]]; [|by eapply Hpl|done].
  pose proof (ow_tails _ _ Hinv _ _ _ (ran_top _ _ _ _ _ _ Hran)) as Htl.
  destruct fs as [|g fs]; simpl in Heq; [subst rest; by apply Forall_cons in Htl as [? _]|].
  injection Heq as <- _. pose proof (ran_effect _ _ _ _ _ _ Hran) as He. inversion He; subst.
  - match goal with Hq : Forall _ _ |- _ => by apply Forall_cons in Hq as [[? _] _] end.
  - by rewrite heap_fresh in Ho.
Qed.

Lemma gone_ran s s' i f rest fs l :
  owned (sy_store s) (sy_threads s) → ran s s' i f rest fs →
  is_Some (ds_heap (sy_store s) !! l) → gone s l → gone s' l.
Proof.
  intros Hinv Hran Hl [Hno Hpl]. split; [|by eapply placed_ran]. intros k Hk.
  pose proof (ran_top _ _ _ _ _ _ Hran) as Hi.
  destruct (ran_effect _ _ _ _ _ _ Hran) as [f ds' fs [_ Hp] _ _ _ Hq| | |pod' l'| |n l' Hn| |];
    simpl in Hk; try by apply (Hno k).
  - rewrite Hp in Hk. by apply (Hno k).
  - apply lookup_insert_Some in Hk as [[_ ->]|[_ Hk]]; [by eapply Hpl|by apply (Hno k)].
  - apply lookup_delete_Some in Hk as [_ Hk]. by apply (Hno k).
Qed.

(** What [Range] has looked at and does not want to keep is in hand, gone, or about to
    be deleted. *)
Definition range_inv (s : system) : Prop :=
  ∀ i t active start seen found, sy_threads s !! i = Some t → ResyncRange active start seen found ∈ t →
  ∀ k l, start !! k = Some l →
    placed s l ∧ (k ∈ seen → nn_Name k ∉ active → (k, l) ∈ found ∨ gone s l ∨ head t = Some (DelTake k)).

Lemma exec_range c cancelled w f ds e active start seen found :
  exec poolName c cancelled w f ds = Some (Val e) → ResyncRange active start seen found ∈ ef_frames e →
  (f = ResyncAdd active [] ∧ start = ds_pods ds ∧ seen = ∅ ∧ found = [])
  ∨ (∃ k l seen0 found0, f = ResyncRange active start seen0 found0 ∧ ds_pods ds !! k = Some l
       ∧ seen = {[k]} ∪ seen0 ∧ found = found0 ++ [(k, l)])
  ∨ (∃ k l o, f = ResyncRange active start seen ((k, l) :: found) ∧ ds_heap ds !! l = Some o
       ∧ (nn_Name (obj_name o) ∈ active ∨ head (ef_frames e) = Some (DelTake (obj_name o)))).
Proof.
  intros Hex Hin.
  destruct f as [| | | | | | | | | | | | | | | | | |a items|a st se fo| | |];
    try (exfalso; simpl in Hex; unfold go_on, mbind, outcome_bind, deref in Hex;
         repeat (case_match; simplify_eq/=); simplify_eq/=; set_solver).
  - simpl in Hex. unfold go_on in Hex. destruct items as [|pod items]; [|case_match]; simplify_eq/=.
    + apply list_elem_of_singleton in Hin. simplify_eq. by left.
    + set_solver.
    + set_solver.
  - right. simpl in Hex. destruct (or_pick w) as [k|].
    + left. case_bool_decide; [done|]. destruct (ds_pods ds !! k) as [l|] eqn:Hk; [|done].
      injection Hex as <-. apply list_elem_of_singleton in Hin. simplify_eq. by do 4 eexists.
    + right. destruct fo as [|[k l] fo].
      { destruct (range_may_end _ _ _); [|done]. injection Hex as <-. by apply not_elem_of_nil in Hin. }
      destruct (ds_heap ds !! l) as [o|] eqn:Ho; [|done]. simpl in Hex. injection Hex as <-. simpl in *.
      exists k, l, o. case_bool_decide; simpl in *; set_solver.
Qed.

(** What the map held under [k] when [Range] began can only be there under [k]. *)
Lemma start_named s i t active start seen found k l :
  owned (sy_store s) (sy_threads s) → sy_threads s !! i = Some t → ResyncRange active start seen found ∈ t →
  start !! k = Some l → named (ds_heap (sy_store s)) l k.
Proof.
  intros Hinv Hi Hin Hk. pose proof (ow_frames _ _ Hinv _ _ Hi) as Hok. rewrite Forall_forall in Hok.
  destruct (Hok _ Hin) as [Hst _]. by apply Hst.
Qed.

Lemma pods_named s k l :
  owned (sy_store s) (sy_threads s) → ds_pods (sy_store s) !! k = Some l →
  named (ds_heap (sy_store s)) l k.
Proof. intros Hinv Hk. destruct (ow_pods _ _ Hinv _ _ Hk) as (o & ? & ? & _). by exists o. Qed.

Lemma range_inv_new s s' i f rest fs active start seen found k l :
  owned (sy_store s) (sy_threads s) → range_inv s → ran s s' i f rest fs →
  ResyncRange active start seen found ∈ fs → start !! k = Some l →
  placed s l ∧ (k ∈ seen → nn_Name k ∉ active →
    (k, l) ∈ found ∨ gone s l ∨ head (fs ++ rest) = Some (DelTake k)).
Proof.
  intros Hinv Hr Hran Hin Hk. pose proof (ran_top _ _ _ _ _ _ Hran) as Hi.
  destruct (ran_exec _ _ _ _ _ _ Hran) as (w & e & Hex & _ & ->).
  destruct (exec_range _ _ _ _ _ _ _ _ _ _ Hex Hin)
    as [(-> & -> & -> & ->)|[(k0 & l0 & seen0 & found0 & -> & Hk0 & -> & ->)|(k1 & l1 & o & -> & Ho & Hact)]].
  - split; [|by intros ?%elem_of_empty]. intros j pod rest' Hj.
    destruct (ow_held _ _ Hinv j l) as (_ & Hno & _); [by eexists _, _|]. by apply (Hno k).
  - destruct (Hr _ _ _ _ _ _ Hi ltac:(by left) k l Hk) as [Hpl Hdone]. split; [done|].
    intros Hseen Hact. destruct (decide (k = k0)) as [->|Hne].
    + destruct (decide (l = l0)) as [->|Hnl]; [left; set_solver|]. right. left. split; [|done].
      intros k' Hk'. pose proof (pods_named _ _ _ Hinv Hk') as H1.
      pose proof (start_named _ _ _ _ _ _ _ _ _ Hinv Hi ltac:(by left) Hk) as H2.
      rewrite (named_inj _ _ _ _ H1 H2) in Hk'. congruence.
    + destruct Hdone as [?|[?|[=]]]; [set_solver|done|left; set_solver|by right; left].
  - destruct (Hr _ _ _ _ _ _ Hi ltac:(by left) k l Hk) as [Hpl Hdone]. split; [done|].
    intros Hseen Hna. destruct Hdone as [Hf|[?|[=]]]; [done|done| |by right; left].
    apply elem_of_cons in Hf as [[= -> ->]|?]; [|by left].
    pose proof (start_named _ _ _ _ _ _ _ _ _ Hinv Hi ltac:(by left) Hk) as (o' & Ho' & Hname).
    simplify_eq. destruct Hact as [?|Hhd]; [done|]. right. right.
    destruct (ef_frames e) as [|g fs]; [done|]. by simplify_eq/=.
Qed.

(** What [Range] began with is in the heap. *)
Lemma range_start_alloc s s' i f rest fs active start seen found k l :
  owned (sy_store s) (sy_threads s) → ran s s' i f rest fs →
  ResyncRange active start seen found ∈ fs ++ rest → start !! k = Some l →
  is_Some (ds_heap (sy_store s) !! l).
Proof.
  intros Hinv Hran Hin Hk. pose proof (ran_top _ _ _ _ _ _ Hran) as Hi.
  enough (named (ds_heap (sy_store s)) l k) as (o & ? & _) by eauto.
  apply elem_of_app in Hin as [Hin|Hin].
  - destruct (ran_exec _ _ _ _ _ _ Hran) as (w & e & Hex & _ & ->).
    destruct (exec_range _ _ _ _ _ _ _ _ _ _ Hex Hin)
      as [(-> & -> & -> & ->)|[(k0 & l0 & seen0 & found0 & -> & _)|(k1 & l1 & o & -> & _)]];
      [by apply pods_named|eapply start_named; eauto; by left..].
  - eapply start_named; eauto. by right.
Qed.

Lemma range_inv_ran s s' i f rest fs :
  owned (sy_store s) (sy_threads s) → range_inv s → ran s s' i f rest fs → range_inv s'.
Proof.
  intros Hinv Hr Hran j t active start seen found Hj Hin k l Hk.
  pose proof (ran_top _ _ _ _ _ _ Hran) as Hi.
  destruct (ran_lookup _ _ _ _ _ _ _ _ Hran Hj) as [[-> ->]|[[Hne Hj']|[l' ->]]]; [| |set_solver].
  - pose proof (range_start_alloc _ _ _ _ _ _ _ _ _ _ _ _ Hinv Hran Hin Hk) as Hl.
    apply elem_of_app in Hin as [Hin|Hin].
    + destruct (range_inv_new _ _ _ _ _ _ _ _ _ _ _ _ Hinv Hr Hran Hin Hk) as [Hpl Hdone].
      split; [by eapply placed_ran|]. intros Hs Ha.
      destruct (Hdone Hs Ha) as [?|[?|?]]; [by left|right; left; by eapply gone_ran|by right; right].
    + assert (ResyncRange active start seen found ∈ f :: rest) as Hin' by (by right).
      destruct (Hr _ _ _ _ _ _ Hi Hin' k l Hk) as [Hpl Hdone].
      split; [by eapply placed_ran|]. intros Hs Ha.
      destruct (Hdone Hs Ha) as [?|[?|[= ->]]]; [by left|right; left; by eapply gone_ran|]. right. left.
      split; [|by eapply placed_ran]. intros k' Hk'.
      pose proof (start_named _ _ _ _ _ _ _ _ _ Hinv Hi Hin' Hk) as Hname.
      pose proof (ran_effect _ _ _ _ _ _ Hran) as He.
      inversion He as [f' ds1 fs1 [_ Hp] _ Hmiss| | | | |n l' Hn Hf' Hds| |]; subst.
      * rewrite Hp in Hk'. pose proof (named_inj _ _ _ _ Hname (pods_named _ _ _ Hinv Hk')) as ->.
        by apply (Hmiss k' l eq_refl).
      * rewrite <-Hds in Hk'. simpl in Hk'. apply lookup_delete_Some in Hk' as [Hne Hk'].
        by pose proof (named_inj _ _ _ _ Hname (pods_named _ _ _ Hinv Hk')).
  - destruct (start_named _ _ _ _ _ _ _ _ _ Hinv Hj' Hin Hk) as (o & Ho & _).
    destruct (Hr _ _ _ _ _ _ Hj' Hin k l Hk) as [Hpl Hdone].
    split; [by eapply placed_ran|]. intros Hs Ha.
    destruct (Hdone Hs Ha) as [?|[?|?]]; [by left|right; left; by eapply gone_ran|by right; right].
Qed.

Lemma range_inv_requests s s' : range_inv s → only_requests s s' → range_inv s'.
Proof.
  intros Hr [Hst _ Hold Hnew] i t active start seen found Hi Hin k l Hk.
  assert (∀ l', placed s l' → placed s' l') as Hpl.
  { intros l' Hp j pod rest Hj. destruct (Hold _ _ _ Hj) as [(req & Hreq & _)|(rest' & Hj' & _)].
    - by apply request_waits in Hreq as [? _].
    - by eapply Hp. }
  destruct t as [|f rest]; [by apply not_elem_of_nil in Hin|].
  assert (∃ rest', sy_threads s !! i = Some (f :: rest') ∧ ResyncRange active start seen found ∈ f :: rest')
    as (rest' & Hi' & Hin').
  { destruct (Hold _ _ _ Hi) as [(req & Hreq & ->)|(rest' & Hi' & Hrest)].
    - apply list_elem_of_singleton in Hin as <-. by destruct i as [|[|[|i]]]; simplify_eq/=.
    - exists rest'. split; [done|]. destruct Hrest as [->|(req & g & Hg & ->)]; [done|].
      rewrite app_comm_cons in Hin. apply elem_of_app in Hin as [?|Hin]; [done|].
      apply list_elem_of_singleton in Hin as <-. by destruct i as [|[|[|i]]]; simplify_eq/=. }
  destruct (Hr _ _ _ _ _ _ Hi' Hin' k l Hk) as [Hp Hdone]. split; [by apply Hpl|]. intros Hs Ha.
  destruct (Hdone Hs Ha) as [?|[[Hno ?]|?]]; [by left|right; left|by right; right].
  split; [by rewrite Hst|by apply Hpl].
Qed.

Lemma reachable_range s : reachable poolName s → range_inv s.
Proof.
  intros [c Hs]. assert (range_inv (system_start c)) as Hstart.
  { intros [|[|[|i]]] t active start seen found Hi Hin; simplify_eq/=; by apply not_elem_of_nil in Hin. }
  pose proof (owned_start c) as Hinv.
  induction Hs as [|s1 s2 s3 [a Ha] _ IH]; [done|]. apply IH; [|by eapply step_owned].
  destruct (perform_cases a s1 s2 Ha) as [(i & f & rest & fs & Hran)|Hreq];
    [by eapply range_inv_ran|by eapply range_inv_requests].
Qed.

Lemma gone_forever s s' l :
  owned (sy_store s) (sy_threads s) → is_Some (ds_heap (sy_store s) !! l) →
  rtc (system_step poolName) s s' → gone s l → gone s' l.
Proof.
  intros Hinv Hl Hs. induction Hs as [|s1 s2 s3 [a Ha] _ IH]; [done|]. intros Hg.
  destruct (perform_cases a s1 s2 Ha) as [(i & f & rest & fs & Hran)|[Hst _ Hold _]].
  - apply IH; [by eapply step_owned| |by eapply gone_ran].
    destruct Hl as [o Ho]. destruct (ran_exec _ _ _ _ _ _ Hran) as (w & e & Hex & -> & _).
    pose proof (exec_effect _ _ _ _ _ _ Hex) as He. inversion He as [f' ds1 fs1 [Hh _]| | | | | | |]; subst; simpl.
    + rewrite Hh. eauto.
    + eauto.
    + rewrite lookup_insert. case_decide; eauto.
    + eauto.
    + rewrite lookup_alter_is_Some. eauto.
    + eauto.
    + rewrite lookup_insert. case_decide; eauto.
    + rewrite lookup_alter_is_Some. eauto.
  - apply IH; [by eapply step_owned|by rewrite Hst|]. destruct Hg as [Hno Hp]. split; [by rewrite Hst|].
    intros j pod rest Hj. destruct (Hold _ _ _ Hj) as [(req & Hreq & _)|(rest' & Hj' & _)];
      [by apply request_waits in Hreq as [? _]|by eapply Hp].
Qed.

Lemma range_may_end_spec (pods start : gmap NamespacedName loc) seen k l :
  range_may_end pods start seen = true → start !! k = Some l → pods !! k = Some l → k ∈ seen.
Proof.
  unfold range_may_end. rewrite forallb_forall. intros Hall Hk Hp.
  specialize (Hall (k, l)). rewrite <-list_elem_of_In, elem_of_map_to_list in Hall. specialize (Hall Hk).
  simpl in Hall. apply orb_true_iff in Hall as [Hn|?]; by to_prop.
Qed.

(** A [Range] returns when it has nothing in hand and nothing left to visit. *)
Lemma range_ends s i active start seen found rest w s' :
  sy_threads s !! i = Some (ResyncRange active start seen found :: rest) →
  run_frame poolName i w s = Some (Val s') → sy_threads s' !! i = Some rest →
  found = [] ∧ range_may_end (ds_pods (sy_store s)) start seen = true.
Proof.
  intros Hi Hrun Hend. unfold run_frame in Hrun. rewrite Hi in Hrun.
  destruct (exec _ _ _ w _ _) as [[e|]|] eqn:Hex; [|done|done]. simpl in Hrun. simplify_eq. simpl in Hend.
  apply lookup_app_Some in Hend as [Hend|[Hlen _]];
    [|rewrite length_insert in Hlen; apply lookup_lt_Some in Hi; lia].
  rewrite list_lookup_insert_eq in Hend by (by eapply lookup_lt_Some). injection Hend as Hend.
  assert (ef_frames e = []) as Hfs by (by apply (app_inv_tail rest)). simpl in Hex.
  destruct (or_pick w) as [k0|].
  { case_bool_decide; [done|]. destruct (ds_pods (sy_store s) !! k0); [|done]. by injection Hex as <-. }
  destruct found as [|[k1 l1] found].
  - by destruct (range_may_end _ _ _).
  - destruct (ds_heap (sy_store s) !! l1); [|done]. injection Hex as <-. simpl in Hfs. by case_bool_decide.
Qed.
End invariant.
