(* ===== verification/Uninterrupted.v ===== *)
(** * The steps of a reconcile, run without interruption, are the reconcile

    [Concurrent] cuts the reconcilers and the pod operations at their shared accesses.
    When the frames of one request run on their own they can do what the definitions of
    [Datastore] and [Controllers] say in one piece, result and panic alike, which ties the
    two definitions of the same code together. *)

From S2P Require Import Prelude GoInt Float64 Api Errors BackendMetrics Datastore DatastoreProofs.
From S2P Require Import Controllers ControllersProofs Concurrent ConcurrentProofs.

Local Open Scope Z_scope.

Ltac exec_cbn :=
  cbn [exec model_step pool_step pod_step add_step delete_step resync_all_step loop_step].

Section solo.
Context `{MapOrder} `{Labels} (poolName : NamespacedName) (c : Client) (cancelled : bool).
Implicit Types (ds : datastore) (st rest : list frame).

(** One goroutine runs, the others do not. *)
Definition solo_step (x y : datastore * list frame) : Prop :=
  ∃ w f rest e, x.2 = f :: rest ∧ exec poolName c cancelled w f x.1 = Some (Val e)
                ∧ y = (ef_store e, ef_frames e ++ rest).

(** From [ds] the frames [st] run until [rest] is left, with this outcome. *)
Definition runs_to ds st (o : outcome datastore) rest : Prop :=
  match o with
  | Val ds' => rtc solo_step (ds, st) (ds', rest)
  | Panic p => ∃ ds' f st' w, rtc solo_step (ds, st) (ds', f :: st')
                 ∧ exec poolName c cancelled w f ds' = Some (Panic p)
  end.

Definition idle_world : oracle := mkOracle 0 None None.

Lemma solo_exec w f rest ds e :
  exec poolName c cancelled w f ds = Some (Val e) →
  solo_step (ds, f :: rest) (ef_store e, ef_frames e ++ rest).
Proof. intros Hex. by exists w, f, rest, e. Qed.

(** One step first. *)
Lemma runs_step w f ds ds1 fs spawn rest o rest' :
  exec poolName c cancelled w f ds = Some (Val (mkEffect ds1 fs spawn)) →
  runs_to ds1 (fs ++ rest) o rest' → runs_to ds (f :: rest) o rest'.
Proof.
  intros Hex Hr. apply (solo_exec w f rest) in Hex. destruct o as [ds'|p]; simpl in *.
  - by eapply rtc_l.
  - destruct Hr as (ds' & f' & st' & w' & Hs & Hp). exists ds', f', st', w'. split; [|done]. by eapply rtc_l.
Qed.

Lemma runs_panic w f ds p rest rest' :
  exec poolName c cancelled w f ds = Some (Panic p) → runs_to ds (f :: rest) (Panic p) rest'.
Proof. intros Hex. by exists ds, f, rest, w. Qed.

(** One part after the other. *)
Lemma runs_bind ds st o mid (k : datastore → outcome datastore) rest :
  runs_to ds st o mid → (∀ ds', o = Val ds' → runs_to ds' mid (k ds') rest) →
  runs_to ds st (o ≫= k) rest.
Proof.
  intros Ho Hk. destruct o as [ds'|p]; simpl in *; [|done]. specialize (Hk ds' eq_refl).
  destruct (k ds') as [ds''|p]; simpl in *; [by etrans|].
  destruct Hk as (ds1 & f & st' & w & Hs & Hp). exists ds1, f, st', w. split; [by etrans|done].
Qed.

Lemma runs_then ds st ds1 mid o rest :
  runs_to ds st (Val ds1) mid → runs_to ds1 mid o rest → runs_to ds st o rest.
Proof. intros H1 H2. apply (runs_bind ds st (Val ds1) mid (λ _, o) rest); [done|]. by intros ds' [= <-]. Qed.

(** ** Pods *)

Lemma runs_add pod ds rest :
  runs_to ds (AddLoad pod :: rest) (Val (PodUpdateOrAddIfNotExist pod ds).2) rest.
Proof.
  unfold PodUpdateOrAddIfNotExist. destruct (ds_pods ds !! pod_key pod) as [l|] eqn:Hl.
  - eapply (runs_step idle_world); [simpl; by rewrite Hl|].
    eapply (runs_step idle_world); [done|]. apply rtc_refl.
  - eapply (runs_step idle_world); [simpl; by rewrite Hl|].
    eapply (runs_step idle_world); [done|]. eapply (runs_step idle_world); [done|].
    eapply (runs_step idle_world); [done|]. apply rtc_refl.
Qed.

Lemma runs_delete n ds rest : runs_to ds (DelTake n :: rest) (PodDelete n ds) rest.
Proof.
  unfold PodDelete. destruct (ds_pods ds !! n) as [l|] eqn:Hl.
  - eapply (runs_step idle_world); [simpl; by rewrite Hl|]. cbv zeta. cbn [ds_heap set_pods app].
    destruct (ds_heap ds !! l) as [o|] eqn:Ho; cbn [deref mbind outcome_bind].
    + destruct (StopRefreshLoop o) as [o'|p] eqn:Hstop; cbn [mbind outcome_bind mret outcome_ret].
      * eapply (runs_step idle_world); [(exec_cbn; cbn [set_pods ds_heap]); rewrite Ho; cbn [deref mbind outcome_bind]; by rewrite Hstop|].
        apply rtc_refl.
      * eapply (runs_panic idle_world). (exec_cbn; cbn [set_pods ds_heap]). rewrite Ho.
        cbn [deref mbind outcome_bind]. by rewrite Hstop.
    + eapply (runs_panic idle_world). simpl. by rewrite Ho.
  - eapply (runs_step idle_world); [simpl; by rewrite Hl|]. apply rtc_refl.
Qed.

(** The first loop of a resync. *)
Lemma runs_resync_add items active ds rest :
  runs_to ds (ResyncAdd active items :: rest)
    (Val (foldl resync_add (active, ds) items).2)
    (ResyncAdd (foldl resync_add (active, ds) items).1 [] :: rest).
Proof.
  revert active ds. induction items as [|pod items IH]; intros active ds; [apply rtc_refl|].
  cbn [foldl]. unfold resync_add at 2 4. cbn [fst snd]. destruct (podIsReady pod) eqn:Hr.
  - eapply (runs_step idle_world); [simpl; by rewrite Hr|]. cbn [app].
    eapply runs_then; [apply runs_add|apply IH].
  - eapply (runs_step idle_world); [simpl; by rewrite Hr|]. apply IH.
Qed.

(** [Range] looks at every entry of the map, in its order, then calls the function on
    each. *)
Lemma runs_look active start seen found (kls : list (NamespacedName * loc)) ds rest :
  NoDup kls.*1 → (∀ k l, (k, l) ∈ kls → ds_pods ds !! k = Some l ∧ k ∉ seen) →
  runs_to ds (ResyncRange active start seen found :: rest) (Val ds)
    (ResyncRange active start (list_to_set kls.*1 ∪ seen) (found ++ kls) :: rest).
Proof.
  revert seen found. induction kls as [|[k l] kls IH]; intros seen found Hnd Hkls; cbn [fmap list_fmap].
  { rewrite app_nil_r. replace (list_to_set [] ∪ seen) with seen by set_solver. apply rtc_refl. }
  apply NoDup_cons in Hnd as [Hk Hnd]. destruct (Hkls k l) as [Hl Hs]; [left|].
  eapply (runs_step (mkOracle 0 (Some k) None)).
  { (exec_cbn; cbn [or_pick]). rewrite bool_decide_false by done. rewrite Hl. done. }
  cbn [app]. replace (list_to_set (k :: kls.*1) ∪ seen) with (list_to_set kls.*1 ∪ ({[k]} ∪ seen)) by set_solver.
  replace (found ++ (k, l) :: kls) with ((found ++ [(k, l)]) ++ kls) by (by rewrite <-app_assoc).
  apply IH; [done|]. intros k' l' Hin. destruct (Hkls k' l') as [? ?]; [by right|]. split; [done|].
  assert (k' ∈ kls.*1) by (apply list_elem_of_fmap; by exists (k', l')). set_solver.
Qed.

Lemma runs_calls active start seen kls ds rest :
  runs_to ds (ResyncRange active start seen kls :: rest) (foldM (resync_delete active) ds kls)
    (ResyncRange active start seen [] :: rest).
Proof.
  revert ds. induction kls as [|[k l] kls IH]; intros ds; cbn [foldM]; [apply rtc_refl|].
  eapply runs_bind; [|by intros; apply IH]. unfold resync_delete. cbn [snd].
  destruct (ds_heap ds !! l) as [o|] eqn:Ho; cbn [deref mbind outcome_bind].
  - case_bool_decide as Hact.
    + eapply (runs_step idle_world).
      { (exec_cbn; cbn [or_pick idle_world]). rewrite Ho. cbn [deref mbind outcome_bind].
        by rewrite bool_decide_true by done. }
      apply rtc_refl.
    + eapply (runs_step idle_world).
      { (exec_cbn; cbn [or_pick idle_world]). rewrite Ho. cbn [deref mbind outcome_bind].
        by rewrite bool_decide_false by done. }
      apply runs_delete.
  - eapply (runs_panic idle_world). (exec_cbn; cbn [or_pick idle_world]). by rewrite Ho.
Qed.

Lemma runs_resync pool ds rest :
  runs_to ds (ResyncList pool :: rest) (PodResyncAll c pool ds) rest.
Proof.
  unfold PodResyncAll. destruct (List_pods c _ _) as [items|e] eqn:Hl.
  2: { eapply (runs_step idle_world); [exec_cbn; by rewrite Hl|]. apply rtc_refl. }
  eapply (runs_step idle_world); [exec_cbn; by rewrite Hl|]. cbn [app].
  eapply runs_then; [apply runs_resync_add|].
  destruct (foldl resync_add (∅, ds) items) as [active ds1]. cbn [fst snd].
  eapply (runs_step idle_world); [done|]. cbn [app].
  eapply runs_then.
  { apply (runs_look active _ ∅ [] (map_range (ds_pods ds1))); [apply map_range_NoDup|].
    intros k l Hkl%map_range_elem. set_solver. }
  cbn [app]. set (seen := _ ∪ ∅).
  assert (foldM (resync_delete active) ds1 (map_range (ds_pods ds1))
          = (foldM (resync_delete active) ds1 (map_range (ds_pods ds1)) ≫= Val)) as ->
    by (by destruct (foldM _ _ _)).
  eapply runs_bind; [apply runs_calls|]. intros ds' Hds'.
  apply (runs_step idle_world _ ds' ds' [] []); [|apply rtc_refl]. (exec_cbn; cbn [or_pick idle_world]).
  assert (range_may_end (ds_pods ds') (ds_pods ds1) seen = true) as ->; [|done].
  apply forallb_forall. intros [k l] Hin. apply list_elem_of_In, elem_of_map_to_list in Hin. simpl.
  apply orb_true_iff. right. apply bool_decide_eq_true. apply elem_of_union_l, elem_of_list_to_set.
  apply list_elem_of_fmap. exists (k, l). split; [done|]. by apply map_range_elem.
Qed.

(** ** Reconcilers *)

Lemma runs_model_gone req ds rest :
  runs_to ds (ModelGone req :: rest) (snd <$> handleModelDeleted c req ds) rest.
Proof.
  unfold handleModelDeleted. destruct (ModelDelete req ds) as [[m|] ds1] eqn:Hd.
  - eapply (runs_step idle_world); [exec_cbn; by rewrite Hd|]. cbn [app].
    destruct (ModelResync c (im_ModelName m) ds1) as [[[updated err] ds2]|p] eqn:Hr;
      cbn [mbind outcome_bind fmap outcome_fmap].
    + eapply (runs_step idle_world); [exec_cbn; by rewrite Hr|]. apply rtc_refl.
    + eapply (runs_panic idle_world). exec_cbn. by rewrite Hr.
  - eapply (runs_step idle_world); [exec_cbn; by rewrite Hd|]. apply rtc_refl.
Qed.

Lemma runs_pod_test pod ds rest :
  runs_to ds (PodTest pod :: rest) (pod_updateDatastore pod ds) rest.
Proof.
  unfold pod_updateDatastore. destruct (negb (Time_ptr_IsZero _)) eqn:Hdel; cbn [mbind outcome_bind].
  - eapply (runs_step idle_world); [exec_cbn; by rewrite Hdel|]. apply runs_delete.
  - destruct (PoolLabelsMatch _ ds) as [matched|p] eqn:Hm; cbn [mbind outcome_bind].
    + eapply (runs_step idle_world).
      { exec_cbn. rewrite Hdel, Hm. cbn [mbind outcome_bind]. done. }
      destruct (negb matched || negb (podIsReady pod)); cbn [app]; [apply runs_delete|apply runs_add].
    + eapply (runs_panic idle_world). exec_cbn. by rewrite Hdel, Hm.
Qed.
End solo.

(** ** Whole reconciles *)

(** The definitions in steps and in one piece are of the same code: a reconcile that is
    not interrupted can do what its definition in one piece says.  From every store, the
    frames of a request for a model, for the pool or for a pod can run to the end with the
    store that the reconcile of [Controllers] returns, or to the panic it ends in. *)
Theorem uninterrupted_reconciles `{MapOrder} `{Labels} poolName c cancelled req ds :
  runs_to poolName c cancelled ds [ModelRec req] (snd <$> ModelReconcile c poolName req ds) []
  ∧ runs_to poolName c cancelled ds [PoolRec req] (snd <$> PoolReconcile c req ds) []
  ∧ runs_to poolName c cancelled ds [PodRec req] (snd <$> PodReconcile c req ds) [].
Proof.
  assert (∀ o : outcome datastore, snd <$> (d ← o; Val (@None error, d)) = o) as Hid by (by intros []).
  split; [|split].
  - unfold ModelReconcile. destruct (Get_model c req) as [m| |e] eqn:Hg.
    + destruct (_ || _) eqn:Ht.
      * eapply (runs_step _ _ _ idle_world); [exec_cbn; by rewrite Hg, Ht|]. apply runs_model_gone.
      * eapply (runs_step _ _ _ idle_world); [exec_cbn; by rewrite Hg, Ht|].
        eapply (runs_step _ _ _ idle_world); [done|]. apply rtc_refl.
    + eapply (runs_step _ _ _ idle_world); [exec_cbn; by rewrite Hg|]. apply runs_model_gone.
    + eapply (runs_step _ _ _ idle_world); [exec_cbn; by rewrite Hg|]. apply rtc_refl.
  - unfold PoolReconcile. destruct (Get_pool c req) as [p| |e] eqn:Hg.
    + destruct (negb _) eqn:Ht.
      * eapply (runs_step _ _ _ idle_world); [exec_cbn; by rewrite Hg, Ht|].
        eapply (runs_step _ _ _ idle_world); [done|]. apply rtc_refl.
      * eapply (runs_step _ _ _ idle_world); [exec_cbn; by rewrite Hg, Ht|].
        eapply (runs_step _ _ _ idle_world); [done|]. eapply (runs_step _ _ _ idle_world); [done|].
        rewrite Hid. unfold pool_updateDatastore. cbv zeta. destruct (match PoolGet ds with inl _ => _ | inr _ => _ end);
          [apply runs_resync|apply rtc_refl].
    + eapply (runs_step _ _ _ idle_world); [exec_cbn; by rewrite Hg|].
      eapply (runs_step _ _ _ idle_world); [done|]. apply rtc_refl.
    + eapply (runs_step _ _ _ idle_world); [exec_cbn; by rewrite Hg|]. apply rtc_refl.
  - unfold PodReconcile. destruct (PoolGet ds) as [pool|e] eqn:Hp.
    2: { eapply (runs_step _ _ _ idle_world); [exec_cbn; by rewrite Hp|]. apply rtc_refl. }
    eapply (runs_step _ _ _ idle_world); [exec_cbn; by rewrite Hp|]. cbn [app].
    destruct (Get_pod c req) as [p| |e] eqn:Hg;
      (eapply (runs_step _ _ _ idle_world); [exec_cbn; by rewrite Hg|]); rewrite ?Hid.
    + apply runs_pod_test.
    + apply runs_delete.
    + apply rtc_refl.
Qed.
