(* ===== verification/Interleavings.v ===== *)
(** * What interleaving does to the datastore

    Theorems on every run of the system of [Concurrent]: which steps can panic, when no
    refresh goroutine leaks, what a resync removes.  Three schedules go wrong: two adds of
    one pod leak a goroutine, a pod reconcile undoes a change of the selector, and one
    panics when the pool is deleted under it. *)

From S2P Require Import Prelude GoInt Float64 Api Errors BackendMetrics Datastore DatastoreProofs.
From S2P Require Import Controllers ControllersProofs Concurrent ConcurrentProofs.

Local Open Scope Z_scope.

(** * Claims *)

Section claims.
Context `{MapOrder} `{Labels} (poolName : NamespacedName).

(** C14: however the reconcilers and the refresh goroutines interleave, the only step
    that can panic is one that reads the pool after it was cleared: the label test of a
    pod, or the backfill of a model.  In particular no [done] channel is closed twice and
    no object is missing. *)
Theorem interleaved_panics s i w p :
  reachable poolName s → run_frame poolName i w s = Some (Panic p) →
  p = NilDereference ∧ ds_pool (sy_store s) = None
  ∧ ∃ f rest, sy_threads s !! i = Some (f :: rest)
      ∧ ((∃ pod, f = PodTest pod) ∨ ∃ name, f = ModelRefile name).
Proof.
  intros Hs Hp. apply reachable_owned in Hs. unfold run_frame in Hp.
  destruct (sy_threads s !! i) as [[|f rest]|] eqn:Hi; try done.
  destruct (exec _ _ _ w f _) as [[e|p']|] eqn:Hex; try done. simpl in Hp. simplify_eq.
  destruct (exec_panic poolName _ _ _ _ _ _ _ _ _ Hs Hi Hex) as (? & ? & ?). eauto 6.
Qed.

(** C16: refresh goroutines are accounted for.  In every run without [Clear] in which no
    two goroutines add the same pod at the same time, the objects whose refresh goroutine
    runs are exactly those the store lists and those a goroutine is storing or stopping. *)
Theorem calm_runs_do_not_leak c s l :
  rtc (calm_step poolName) (system_start c) s →
  running (ds_heap (sy_store s)) l
  ↔ (∃ k, ds_pods (sy_store s) !! k = Some l) ∨ ∃ i, holder (sy_threads s) i l.
Proof.
  intros Hs. assert (accounted s) as Hac.
  { assert (accounted (system_start c)) as Hstart.
    { split.
      - intros [|[|[|i]]] f rest Hi; simplify_eq/=.
      - intros [|[|[|i]]] pod (rest & [Hi|[l' Hi]]); simplify_eq/=.
      - by intros l' (o & Ho & _). }
    induction Hs; eauto using accounted_step. }
  assert (reachable poolName s) as Hreach%reachable_owned.
  { exists c. clear Hac. induction Hs as [|s1 s2 s3 [Hstep _] _ IH]; [done|]. by eapply rtc_l. }
  split; [apply (ac_running _ Hac)|]. intros [[k Hk]|[i Hi]].
  - destruct (ow_pods _ _ Hreach _ _ Hk) as (o & ? & _ & ?). by exists o.
  - by destruct (ow_held _ _ Hreach i l Hi).
Qed.

(** C15: a full resync removes what it should, whatever runs meanwhile.  An object that
    was in the store when the resync began its second loop and whose pod's name is not
    active is not in the store when the loop ends, nor ever after. *)
Theorem resync_removes_stale s i active start seen found rest w s' s'' k l :
  reachable poolName s → sy_threads s !! i = Some (ResyncRange active start seen found :: rest) →
  run_frame poolName i w s = Some (Val s') → sy_threads s' !! i = Some rest →
  start !! k = Some l → nn_Name k ∉ active → rtc (system_step poolName) s' s'' →
  ∀ k', ds_pods (sy_store s'') !! k' ≠ Some l.
Proof.
  intros Hs Hi Hrun Hend Hk Hact Hs''.
  pose proof (reachable_owned poolName s Hs) as Hinv. pose proof (reachable_range poolName s Hs) as Hr.
  destruct (Hr _ _ _ _ _ _ Hi ltac:(by left) k l Hk) as [Hpl Hdone].
  destruct (start_named _ _ _ _ _ _ _ _ _ Hinv Hi ltac:(by left) Hk) as (o & Ho & Hname).
  assert (gone s l) as Hg.
  { destruct (range_ends poolName _ _ _ _ _ _ _ _ _ Hi Hrun Hend) as [-> Hmay].
    destruct (decide (k ∈ seen)) as [Hseen|Hseen].
    - destruct (Hdone Hseen Hact) as [Hin|[?|[=]]]; [by apply not_elem_of_nil in Hin|done].
    - split; [|done]. intros k' Hk'. apply Hseen. eapply range_may_end_spec; [done..|].
      by rewrite <-(named_inj _ _ _ _ (pods_named _ _ _ Hinv Hk') (ex_intro _ o (conj Ho Hname))). }
  apply (gone_forever poolName s s'' l); [done|by eauto| |done].
  eapply rtc_l; [by exists (Run i w)|done].
Qed.
End claims.

(** ** Two interleavings that go wrong *)

Local Existing Instance inclusion_labels.

Definition labelled (name : string) (labels : gmap string string) : ObjectMeta :=
  mkObjectMeta name "ns" labels 1 None.

(** A ready pod with label [app = a], and a pool that selects a value of [app]. *)
Definition pod_a : CorePod :=
  mkCorePod (labelled "p" {["app" := "a"]}) "10.0.0.1" [mkPodCondition PodReady ConditionTrue].

Definition pool_for (value : string) : InferencePool :=
  mkInferencePool (labelled "pool" ∅)
    (mkInferencePoolSpec (Some {["app" := value]}) 8000 (mkEndpointPickerConfig None)).

(** The API server with that pod and that pool. *)
Definition api_for (value : string) : Client := {|
  List_models _ _ := inl [];
  List_pods sel _ := inl (filter (λ p, sel ⊆ om_Labels (pod_ObjectMeta p)) [pod_a]);
  Get_model _ := NotFound;
  Get_pool _ := Found (pool_for value);
  Get_pod n := if bool_decide (n = pod_key pod_a) then Found pod_a else NotFound
|}.

(** The API server after the pool was deleted. *)
Definition api_without_pool : Client := {|
  List_models _ _ := inl [];
  List_pods _ _ := inl [pod_a];
  Get_model _ := NotFound;
  Get_pool _ := NotFound;
  Get_pod n := if bool_decide (n = pod_key pod_a) then Found pod_a else NotFound
|}.

Definition pool_key : NamespacedName := mkNamespacedName "ns" "pool".

Definition runs (i n : nat) : list action := replicate n (Run i (mkOracle 0 None None)).

(** What is left of playing a schedule from the start. *)
Definition played (c : Client) (acts : list action) : system :=
  default (system_start c) (play pool_key acts (system_start c)).

Lemma played_play c acts :
  bool_decide (is_Some (play pool_key acts (system_start c))) = true →
  play pool_key acts (system_start c) = Some (played c acts).
Proof. intros [s Hs]%bool_decide_eq_true. unfold played. by rewrite Hs. Qed.

Lemma played_reachable c acts :
  bool_decide (is_Some (play pool_key acts (system_start c))) = true → reachable pool_key (played c acts).
Proof. intros Hp%played_play. exists c. by eapply play_steps. Qed.

Definition visit (i : nat) (k : NamespacedName) : list action := [Run i (mkOracle 0 (Some k) None)].

(** The three reconcilers have nothing to do. *)
Definition idle (s : system) : Prop := ∀ i, (i < 3)%nat → sy_threads s !! i = Some [].

Lemma idle_check s : take 3 (sy_threads s) = [[]; []; []] → idle s.
Proof.
  intros Ht i Hi. rewrite <-(lookup_take_lt _ 3) by done. rewrite Ht.
  destruct i as [|[|[|i]]]; [done..|lia].
Qed.

(** The resync of the pool reconciler and the pod reconciler both look for the pod and
    find nothing; both create an object and store it. *)
Definition leak_schedule : list action :=
  [Enqueue 1 pool_key] ++ runs 1 5 ++ [Enqueue 2 (pod_key pod_a)] ++ runs 2 3
  ++ runs 1 1 ++ runs 2 1 ++ runs 1 2 ++ runs 2 2
  ++ runs 2 1 ++ runs 1 2 ++ visit 1 (pod_key pod_a) ++ runs 1 2.

Definition leaked : system := played (api_for "a") leak_schedule.

Lemma leaked_lost : lost leaked 1.
Proof.
  assert (ds_pods (sy_store leaked) = {[pod_key pod_a := 2%positive]}) as Hpods by (vm_compute; reflexivity).
  assert (sy_threads leaked = [[]; []; []; [LoopSelect 1]; [LoopSelect 2]]) as Hts by (vm_compute; reflexivity).
  split; [|split].
  - eexists. split; [by vm_compute|done].
  - intros k. rewrite Hpods. intros Hk%lookup_singleton_Some. by destruct Hk.
  - intros i (f & rest & Hi & Hf). rewrite Hts in Hi. clear Hts Hpods.
    by destruct i as [|[|[|[|[|i]]]]]; simplify_eq/=.
Qed.

(** Two adds of one pod that overlap leak a goroutine.  The pool reconciler's resync
    and the pod reconciler can both miss the pod, create an object each and store them one
    over the other.  The first object is lost for good: whatever happens later, its
    refresh goroutine runs, and no deletion can reach it. *)
Theorem overlapping_adds_leak :
  ∃ s l, reachable pool_key s ∧ idle s
    ∧ ∀ s', rtc (system_step pool_key) s s' →
        running (ds_heap (sy_store s')) l ∧ ∀ k, ds_pods (sy_store s') !! k ≠ Some l.
Proof.
  assert (reachable pool_key leaked) as Hr by (apply played_reachable; by vm_compute).
  exists leaked, 1%positive. split; [done|]. split; [apply idle_check; by vm_compute|].
  intros s' Hs'. apply reachable_owned in Hr.
  by destruct (lost_forever pool_key leaked s' 1 Hr Hs' leaked_lost) as (? & ? & _).
Qed.

(** Before the pod is ready: the API server lists no pod. *)
Definition api_empty (value : string) : Client := {|
  List_models _ _ := inl [];
  List_pods _ _ := inl [];
  Get_model _ := NotFound;
  Get_pool _ := Found (pool_for value);
  Get_pod _ := NotFound
|}.

(** The pod reconciler tests the pod against the old pool; the pool changes and its
    resync finds no pod to remove; then the pod reconciler stores the pod. *)
Definition diverged : system :=
  played (api_empty "a")
    ([Enqueue 1 pool_key] ++ runs 1 6
     ++ [ApiChange (api_for "a"); Enqueue 2 (pod_key pod_a)] ++ runs 2 3
     ++ [ApiChange (api_for "b"); Enqueue 1 pool_key] ++ runs 1 6
     ++ runs 2 4).

(** C17: a change of the pool's selector can be undone by a pod reconcile that is under
    way.  All reconcilers are idle, the store has the pool the API server has, and still
    it lists a pod that pool does not select; only another event for the pod would remove
    it. *)
Theorem resync_race_diverges :
  ∃ s pool pod, reachable pool_key s ∧ idle s
    ∧ ds_pool (sy_store s) = Some pool ∧ Get_pool (sy_api s) pool_key = Found pool
    ∧ Get_pod (sy_api s) (pod_key pod) = Found pod ∧ ¬ serves pool pod
    ∧ is_Some (ds_pods (sy_store s) !! pod_key pod).
Proof.
  exists diverged, (pool_for "b"), pod_a.
  split; [apply played_reachable; by vm_compute|]. split; [apply idle_check; by vm_compute|].
  split; [by vm_compute|]. split; [by vm_compute|]. split; [by vm_compute|].
  split; [|eexists; by vm_compute].
  intros (_ & Hsub & _). apply (map_subseteq_spec _ _) with (i := "app") (x := "b") in Hsub; by vm_compute in Hsub.
Qed.

(** The pool is deleted between the two looks a pod reconcile takes at it. *)
Definition raced : system :=
  played (api_empty "a")
    ([Enqueue 1 pool_key] ++ runs 1 6
     ++ [ApiChange (api_for "a"); Enqueue 2 (pod_key pod_a)] ++ runs 2 2
     ++ [ApiChange api_without_pool; Enqueue 1 pool_key] ++ runs 1 2).

Lemma raced_reachable : reachable pool_key raced.
Proof. apply played_reachable. by vm_compute. Defined.

(** A pod reconcile that found the pool panics when the pool is cleared before it tests
    the labels. *)
Theorem pod_reconcile_race_panics :
  ∃ s w, reachable pool_key s ∧ run_frame pool_key 2 w s = Some (Panic NilDereference).
Proof.
  exists raced, (mkOracle 0 None None). split; [apply raced_reachable|]. by vm_compute.
Qed.

(** * Witnesses *)

Lemma interleaved_panics_witness :
  NilDereference = NilDereference ∧ ds_pool (sy_store raced) = None
  ∧ ∃ f rest, sy_threads raced !! 2%nat = Some (f :: rest)
      ∧ ((∃ pod, f = PodTest pod) ∨ ∃ name, f = ModelRefile name).
Proof.
  apply (interleaved_panics pool_key raced 2 (mkOracle 0 None None) NilDereference).
  - apply raced_reachable.
  - by vm_compute.
Defined.

(** Runs in which only the pool reconciler adds and nothing is cleared. *)
Definition calm_top (i : nat) (t : list frame) : bool :=
  match t with
  | PoolClear :: _ => false
  | AddNew _ :: _ | AddStore _ _ :: _ => bool_decide (i = 1%nat)
  | _ => true
  end.

Definition calm (s : system) : bool := forallb id (imap calm_top (sy_threads s)).

Lemma calm_lookup s i t : calm s = true → sy_threads s !! i = Some t → calm_top i t = true.
Proof.
  unfold calm. rewrite forallb_forall. intros Hall Hi. apply Hall, list_elem_of_In.
  apply list_elem_of_lookup. exists i. by rewrite list_lookup_imap, Hi.
Qed.

Lemma calm_no_overlap s : calm s = true → ¬ overlap s.
Proof.
  intros Hc (i & j & pod1 & pod2 & Hne & Hi & Hj & _).
  assert (∀ i pod, adding (sy_threads s) i pod → i = 1%nat) as Hone.
  { intros i' pod (rest & [Hi'|[l Hi']]); apply (calm_lookup s) in Hi'; simpl in Hi'; by to_prop. }
  by rewrite (Hone i pod1 Hi), (Hone j pod2 Hj) in Hne.
Qed.

Fixpoint calm_play (acts : list action) (s : system) : bool :=
  match acts with
  | [] => true
  | a :: acts =>
      calm s && match perform pool_key a s with
                | Some (Val s') => calm s' && calm_play acts s'
                | _ => false
                end
  end.

Lemma calm_play_steps acts s s' :
  calm_play acts s = true → play pool_key acts s = Some s' → rtc (calm_step pool_key) s s'.
Proof.
  revert s. induction acts as [|a acts IH]; simpl; intros s Hc Hp; [by simplify_eq|].
  destruct (perform pool_key a s) as [[s1|]|] eqn:Ha; [|done|done]. to_prop.
  eapply rtc_l; [|by apply IH]. split; [by exists a|]. split; [by apply calm_no_overlap|].
  split; [by apply calm_no_overlap|]. intros i rest Hi. by apply (calm_lookup s) in Hi.
Qed.

(** The pool is synced and its pod is added. *)
Definition synced : system := played (api_for "a") ([Enqueue 1 pool_key] ++ runs 1 9).

Lemma calm_runs_do_not_leak_witness :
  running (ds_heap (sy_store synced)) 1
  ↔ (∃ k, ds_pods (sy_store synced) !! k = Some 1%positive) ∨ ∃ i, holder (sy_threads synced) i 1.
Proof.
  apply (calm_runs_do_not_leak pool_key (api_for "a") synced 1%positive).
  apply (calm_play_steps ([Enqueue 1 pool_key] ++ runs 1 9)).
  - by vm_compute.
  - apply played_play. by vm_compute.
Defined.

(** After the selector changed, the resync is about to end. *)
Definition resyncing : system :=
  played (api_for "a")
    ([Enqueue 1 pool_key] ++ runs 1 10 ++ visit 1 (pod_key pod_a) ++ runs 1 2
     ++ [ApiChange (api_for "b"); Enqueue 1 pool_key] ++ runs 1 5
     ++ visit 1 (pod_key pod_a) ++ runs 1 3).

Definition resynced : system :=
  match run_frame pool_key 1 (mkOracle 0 None None) resyncing with
  | Some (Val s) => s
  | _ => resyncing
  end.

Lemma resynced_step : run_frame pool_key 1 (mkOracle 0 None None) resyncing = Some (Val resynced).
Proof.
  assert (match run_frame pool_key 1 (mkOracle 0 None None) resyncing with
          | Some (Val _) => true | _ => false end = true) as Hok by (vm_compute; reflexivity).
  unfold resynced. by destruct (run_frame _ _ _ _) as [[s|]|].
Qed.

Lemma resync_removes_stale_witness :
  run_frame pool_key 1 (mkOracle 0 None None) resyncing = Some (Val resynced)
  ∧ ∀ k', ds_pods (sy_store resynced) !! k' ≠ Some 1%positive.
Proof.
  split; [apply resynced_step|].
  apply (resync_removes_stale pool_key resyncing 1 ∅ {[pod_key pod_a := 1%positive]}
           {[pod_key pod_a]} [] [] (mkOracle 0 None None) resynced resynced (pod_key pod_a) 1%positive).
  - apply played_reachable. by vm_compute.
  - by vm_compute.
  - apply resynced_step.
  - by vm_compute.
  - by rewrite lookup_singleton_eq.
  - apply not_elem_of_empty.
  - apply rtc_refl.
Defined.
