(* ===== verification/Convergence.v ===== *)
(** * The pod store converges while everything else keeps running

    [resync_race_diverges] shows that a pod reconcile under way can undo a change of the
    pool.  Here is what holds otherwise: while the pool stays as it is and the API server
    answers the same, the work queue of the pod reconciler empties and leaves the store
    with exactly the pods the pool serves, however its steps interleave with the model
    reconciler and the refresh goroutines. *)

From S2P Require Import Prelude GoInt Float64 Api Errors BackendMetrics Datastore DatastoreProofs.
From S2P Require Import Controllers ControllersProofs Concurrent ConcurrentProofs Interleavings.

Local Open Scope Z_scope.

(** ** What runs where *)

Definition model_frame (f : frame) : bool :=
  match f with ModelRec _ | ModelSet _ | ModelGone _ | ModelRefile _ => true | _ => false end.

Definition loop_frame (f : frame) : bool :=
  match f with LoopSelect _ | LoopFetch _ | LoopStore _ _ => true | _ => false end.

(** Goroutine 0 is the model reconciler, those from 3 on are the refresh goroutines. *)
Definition role (i : nat) (f : frame) : bool :=
  match i with
  | 0 => model_frame f
  | 1 | 2 => true
  | _ => loop_frame f
  end%nat.

Definition in_role (ts : list (list frame)) : Prop :=
  ∀ i t f, ts !! i = Some t → f ∈ t → role i f = true.

(** ** Runs in which the pool and the API server stay as they are *)

Definition steady (a : action) : bool :=
  match a with
  | ApiChange _ => false
  | Enqueue i _ => negb (i =? 1)%nat
  | _ => true
  end.

(** The steps of the pod reconciler, and the requests it is given. *)
Definition turn (a : action) : nat := match a with Run 2 _ => 1 | _ => 0 end.
Definition arrival (a : action) : nat := match a with Enqueue 2 _ => 1 | _ => 0 end.

Definition turns (acts : list action) : nat := sum_list (turn <$> acts).
Definition arrivals (acts : list action) : nat := sum_list (arrival <$> acts).

(** The steps a frame has ahead of it at most. *)
Definition cost (f : frame) : nat :=
  match f with
  | PodRec _ => 7
  | PodFetch _ => 6
  | PodTest _ => 5
  | AddLoad _ => 4
  | AddNew _ => 3
  | AddStore _ _ | DelTake _ => 2
  | AddUpdate _ _ | DelStop _ => 1
  | _ => 0
  end.

Definition work (t : list frame) : nat := sum_list (cost <$> t).

(** The pod a frame of the pod reconciler has yet to settle. *)
Definition concerns (f : frame) : option NamespacedName :=
  match f with
  | PodRec n | PodFetch n | DelTake n => Some n
  | PodTest pod | AddLoad pod | AddNew pod | AddStore pod _ | AddUpdate pod _ => Some (pod_key pod)
  | _ => None
  end.

Definition waiting (f : frame) : Prop := ∃ req, f = PodRec req.

(** What the store lists for [n]. *)
Definition listed (ds : datastore) (n : NamespacedName) : option Pod :=
  l ← ds_pods ds !! n; pm_pod <$> ds_heap ds !! l.

Lemma listed_view ds n : GetPod <$> view ds !! n = listed ds n.
Proof.
  rewrite view_lookup. unfold listed. destruct (ds_pods ds !! n) as [l|]; [|done]. simpl.
  by destruct (ds_heap ds !! l).
Qed.

Section converge.
Context `{MapOrder} `{Labels} (poolName : NamespacedName).

Lemma exec_role c cancelled w i f ds e g :
  role i f = true → exec poolName c cancelled w f ds = Some (Val e) →
  g ∈ ef_frames e → role i g = true.
Proof.
  intros Hf Hex Hg. destruct i as [|[|[|i]]]; [|done|done|]; simpl in *.
  all: destruct f; try done; simpl in Hex; unfold go_on, mbind, outcome_bind, deref in Hex;
    repeat (case_match; simplify_eq/=); set_solver.
Qed.

Lemma in_role_step a s s' :
  perform poolName a s = Some (Val s') → in_role (sy_threads s) → in_role (sy_threads s').
Proof.
  intros Ha Hrole. destruct a as [i w|c|i req|]; simpl in Ha; simplify_eq; [| done | |done].
  - unfold run_frame in Ha. destruct (sy_threads s !! i) as [[|f rest]|] eqn:Hi; try done.
    destruct (exec _ _ _ w f _) as [[e|]|] eqn:Hex; try done. simpl in Ha. simplify_eq.
    intros j t g Hj Hg. simpl in Hj. destruct (lookup_threads Hj) as [[-> ->]|[[_ Hj']|[Hlen Hin]]].
    + apply elem_of_app in Hg as [Hg|Hg].
      * eapply exec_role; [|done|done]. eapply Hrole; [done|]. by left.
      * eapply Hrole; [done|]. by right.
    + by eapply Hrole.
    + destruct (exec_shape _ _ _ _ _ _ _ Hex) as [_ [Hsp|[l Hsp]]]; rewrite Hsp in Hin; [set_solver|].
      apply list_elem_of_singleton in Hin as ->. apply list_elem_of_singleton in Hg as ->.
      destruct j as [|[|[|j]]]; [|done..]. apply lookup_lt_Some in Hi. lia.
  - destruct (request i req) as [f|] eqn:Hf; [|done]. simpl in Ha.
    destruct (sy_threads s !! i) as [t|] eqn:Hi; [|done]. simpl in Ha. simplify_eq.
    intros j t' g Hj Hg. apply list_lookup_insert_Some in Hj as [(-> & <- & _)|[_ Hj]]; [|by eapply Hrole].
    apply elem_of_app in Hg as [Hg|Hg]; [by eapply Hrole|]. apply list_elem_of_singleton in Hg as ->.
    by destruct j as [|[|[|j]]]; simplify_eq/=.
Qed.

Lemma reachable_in_role s : reachable poolName s → in_role (sy_threads s).
Proof.
  intros [c Hs]. assert (in_role (sy_threads (system_start c))) as Hstart.
  { intros [|[|[|i]]] t f Hi Hf; simplify_eq/=; by apply not_elem_of_nil in Hf. }
  induction Hs as [|s1 s2 s3 [a Ha] _ IH]; [done|]. apply IH. by eapply in_role_step.
Qed.

(** ** The others leave the pods and the pool alone *)

Record untouched (ds ds' : datastore) : Prop := {
  un_pool : ds_pool ds' = ds_pool ds;
  un_pods : ds_pods ds' = ds_pods ds;
  un_listed : ∀ n, listed ds' n = listed ds n
}.

Lemma untouched_same ds ds' : ds_pool ds' = ds_pool ds → same_pods ds ds' → untouched ds ds'.
Proof. intros Hp [Hh Hm]. split; [done|done|]. intros n. unfold listed. by rewrite Hm, Hh. Qed.

(** Heap updates that change no pod. *)
Lemma listed_alter ds l g n :
  (∀ o, pm_pod (g o) = pm_pod o) → listed (set_heap (alter g l (ds_heap ds)) ds) n = listed ds n.
Proof.
  intros Hg. unfold listed. simpl. destruct (ds_pods ds !! n) as [l'|]; [|done]. simpl.
  rewrite lookup_alter. case_decide as Hl; [|done]. subst. destruct (ds_heap ds !! l') as [o|]; [|done].
  simpl. by rewrite Hg.
Qed.

Lemma model_untouched c cancelled w f ds e :
  model_frame f = true → exec poolName c cancelled w f ds = Some (Val e) → untouched ds (ef_store e).
Proof.
  intros Hf Hex. destruct f as [req|m|req|name| | | | | | | | | | | | | | | | | | |]; try done; simpl in Hex;
    unfold go_on in Hex.
  - repeat case_match; simplify_eq; by apply untouched_same.
  - simplify_eq. apply untouched_same; [|apply model_set_pods]. simpl.
    unfold ModelSetIfOlder. by repeat case_match.
  - pose proof (model_delete_pods req ds) as Hp.
    assert (ds_pool (ModelDelete req ds).2 = ds_pool ds) as Hpool
      by (unfold ModelDelete; by repeat case_match).
    destruct (ModelDelete req ds) as [[m|] ds1]; simplify_eq; by apply untouched_same.
  - destruct (ModelResync c name ds) as [[r ds1]|] eqn:Hr; [|done]. simpl in Hex. simplify_eq.
    apply untouched_same; [|by eapply model_resync_pods]. revert Hr. unfold ModelResync.
    destruct (deref _) as [pool|]; [|done]. run_outcome. by repeat case_match; intros [= _ <-].
Qed.

Lemma loop_untouched c cancelled w f ds e :
  loop_frame f = true → exec poolName c cancelled w f ds = Some (Val e) → untouched ds (ef_store e).
Proof.
  intros Hf Hex. destruct f as [| | | | | | | | | | | | | | | | | | | |l|l|l m]; try done; simpl in Hex;
    unfold go_on in Hex.
  - destruct (ds_heap ds !! l); [|done]. simpl in Hex. simplify_eq. by apply untouched_same.
  - repeat case_match; simplify_eq; by apply untouched_same.
  - simplify_eq. split; [done|done|]. intros n. by apply listed_alter.
Qed.

(** ** The pod reconciler on its course *)

Variable c : Client.
Variable pool : InferencePool.
Variable objs : gmap NamespacedName CorePod.
Hypothesis Hkeys : ∀ n p, objs !! n = Some p → pod_key p = n.
Hypothesis Hget : ∀ n, Get_pod c n = match objs !! n with Some p => Found p | None => NotFound end.

(** What the store should list for [n]. *)
Definition wanted (n : NamespacedName) : option Pod :=
  p ← objs !! n; if eligible pool p then Some (toInternalPod p) else None.

Lemma wanted_serves n q :
  wanted n = Some q ↔ ∃ p, objs !! n = Some p ∧ serves pool p ∧ q = toInternalPod p.
Proof.
  unfold wanted. destruct (objs !! n) as [p|]; simpl; [|naive_solver].
  destruct (eligible pool p) eqn:He.
  - apply eligible_iff in He. naive_solver.
  - split; [done|]. intros (p' & [= <-] & Hs & _). apply eligible_iff in Hs. congruence.
Qed.

(** What the first frame of the pod reconciler has found out so far. *)
Definition on_course (ds : datastore) (f : frame) : Prop :=
  match f with
  | PodRec _ | PodFetch _ | DelStop _ => True
  | PodTest pod => objs !! pod_key pod = Some pod
  | AddLoad pod | AddNew pod | AddStore pod _ => wanted (pod_key pod) = Some (toInternalPod pod)
  | AddUpdate pod l =>
      wanted (pod_key pod) = Some (toInternalPod pod) ∧ ds_pods ds !! pod_key pod = Some l
  | DelTake n => wanted n = None
  | _ => False
  end.

(** The queue [t] of the pod reconciler: the first request under way, the others waiting;
    every pod that no request of the queue is for is listed as it should be. *)
Record course (ds : datastore) (t : list frame) : Prop := {
  co_pool : ds_pool ds = Some pool;
  co_front : ∀ f rest, t = f :: rest → on_course ds f ∧ Forall waiting rest;
  co_agree : ∀ n, n ∉ omap concerns t → listed ds n = wanted n
}.

Lemma course_untouched ds ds' t : untouched ds ds' → course ds t → course ds' t.
Proof.
  intros [Hp Hm Hl] [Hpool Hfront Hag]. split; [congruence| |].
  - intros f rest Ht. destruct (Hfront f rest Ht) as [Hf Hw]. split; [|done].
    destruct f; simpl in *; rewrite ?Hm; done.
  - intros n Hn. rewrite Hl. by apply Hag.
Qed.

(** One step of the first frame [f] that replaces it with [fs]. *)
Lemma course_move ds ds' f fs rest :
  course ds (f :: rest) → ds_pool ds' = ds_pool ds →
  (∀ g, fs = [g] → on_course ds' g) → (length fs <= 1)%nat →
  (∀ n, Some n ≠ concerns f → listed ds' n = listed ds n) →
  (∀ n, concerns f = Some n → n ∉ omap concerns fs → listed ds' n = wanted n) →
  course ds' (fs ++ rest).
Proof.
  intros [Hpool Hfront Hag] Hp Hfs Hlen Hother Hthis. destruct (Hfront f rest eq_refl) as [_ Hw].
  split; [congruence| |].
  - intros g rest' Heq. destruct fs as [|g' [|g'' fs]]; simpl in *; [|by simplify_eq; auto|lia].
    subst rest. apply Forall_cons in Hw as [[req ->] Hw]. done.
  - intros n Hn. rewrite omap_app, not_elem_of_app in Hn. destruct Hn as [Hn1 Hn2].
    destruct (decide (concerns f = Some n)) as [Hc|Hc]; [by apply Hthis|].
    rewrite Hother by congruence. apply Hag. simpl. destruct (concerns f) as [k|]; [|done].
    apply not_elem_of_cons. split; [congruence|done].
Qed.

(** A step that changes nothing and goes on with a frame about the same pod. *)
Lemma course_next ds f g rest :
  course ds (f :: rest) → on_course ds g → concerns g = concerns f → course ds (g :: rest).
Proof.
  intros Hc Hg Heq. apply (course_move ds ds f [g] rest); try done.
  - by intros g' [= <-].
  - intros n Hn. simpl. rewrite Heq, Hn. intros Hin. by destruct Hin; left.
Qed.

(** The first frame can always run, and what it leaves is less work. *)
Definition advances (ds : datastore) (f : frame) (rest : list frame) : Prop :=
  ∀ cancelled w, ∃ e, exec poolName c cancelled w f ds = Some (Val e)
    ∧ course (ef_store e) (ef_frames e ++ rest) ∧ (work (ef_frames e) < cost f)%nat.

(** It goes on with the frame [g] and the store as it was. *)
Lemma advances_to ds f g rest :
  course ds (f :: rest) → (∀ cancelled w, exec poolName c cancelled w f ds = go_on ds [g]) →
  on_course ds g → concerns g = concerns f → (cost g < cost f)%nat → advances ds f rest.
Proof.
  intros Hc Hex Hg Heq Hcost cancelled w. eexists. split; [by rewrite Hex|].
  split; [by eapply course_next|]. unfold work. simpl. lia.
Qed.

Lemma advances_fetch ds req rest : course ds (PodFetch req :: rest) → advances ds (PodFetch req) rest.
Proof.
  intros Hc. destruct (objs !! req) as [p|] eqn:Hp.
  - apply (advances_to _ _ (PodTest p)); [done|intros; simpl; by rewrite Hget, Hp| | |simpl; lia]; simpl.
    + by rewrite (Hkeys _ _ Hp).
    + by rewrite (Hkeys _ _ Hp).
  - apply (advances_to _ _ (DelTake req)); [done|intros; simpl; by rewrite Hget, Hp| |done|simpl; lia].
    simpl. unfold wanted. by rewrite Hp.
Qed.

Lemma advances_test ds pod rest : course ds (PodTest pod :: rest) → advances ds (PodTest pod) rest.
Proof.
  intros Hc. destruct (co_front _ _ Hc _ _ eq_refl) as [Hp _]. simpl in Hp.
  pose proof (co_pool _ _ Hc) as Hpool.
  apply (advances_to _ _ (if eligible pool pod then AddLoad pod else DelTake (pod_key pod))); [done| | | |].
  - intros cancelled w. simpl. unfold PoolLabelsMatch, selectorFromInferencePoolSelector, eligible. rewrite Hpool.
    destruct (Time_ptr_IsZero _); [|done]. cbn [negb deref mbind outcome_bind mret outcome_ret andb].
    by destruct (selector_matches _ _), (podIsReady pod).
  - destruct (eligible pool pod) eqn:He; simpl; unfold wanted; rewrite Hp; simpl; by rewrite He.
  - by destruct (eligible pool pod).
  - destruct (eligible pool pod); simpl; lia.
Qed.

Lemma advances_load ds pod rest : course ds (AddLoad pod :: rest) → advances ds (AddLoad pod) rest.
Proof.
  intros Hc. destruct (co_front _ _ Hc _ _ eq_refl) as [Hp _]. simpl in Hp.
  destruct (ds_pods ds !! pod_key pod) as [l|] eqn:Hl.
  - apply (advances_to _ _ (AddUpdate pod l)); [done|intros; simpl; by rewrite Hl|done|done|simpl; lia].
  - apply (advances_to _ _ (AddNew pod)); [done|intros; simpl; by rewrite Hl|done|done|simpl; lia].
Qed.

Lemma advances_new ds pod rest :
  pods_keyed ds → course ds (AddNew pod :: rest) → advances ds (AddNew pod) rest.
Proof.
  intros Hk Hc cancelled w. eexists. split; [done|]. cbn [ef_store ef_frames]. split; [|unfold work; simpl; lia].
  destruct (co_front _ _ Hc _ _ eq_refl) as [Hp _].
  apply (course_move ds _ (AddNew pod)); try done.
  - by intros g [= <-].
  - intros n _. unfold listed. simpl. destruct (ds_pods ds !! n) as [l|] eqn:Hn; [|done]. simpl.
    destruct (Hk n l Hn) as (o & Ho & _). rewrite lookup_insert_ne; [done|]. intros <-.
    by rewrite heap_fresh in Ho.
  - simpl. intros n [= <-]. set_solver.
Qed.

Lemma advances_store ds pod l rest :
  course ds (AddStore pod l :: rest) → advances ds (AddStore pod l) rest.
Proof.
  intros Hc cancelled w. eexists. split; [done|]. cbn [ef_store ef_frames]. split; [|unfold work; simpl; lia].
  destruct (co_front _ _ Hc _ _ eq_refl) as [Hp _].
  apply (course_move ds _ (AddStore pod l)); try done.
  - intros g [= <-]. simpl. by rewrite lookup_insert_eq.
  - intros n Hn. unfold listed. simpl in *. by rewrite lookup_insert_ne by congruence.
  - simpl. intros n [= <-]. set_solver.
Qed.

Lemma advances_update ds pod l rest :
  pods_keyed ds → course ds (AddUpdate pod l :: rest) → advances ds (AddUpdate pod l) rest.
Proof.
  intros Hk Hc cancelled w. eexists. split; [done|]. cbn [ef_store ef_frames]. split; [|unfold work; simpl; lia].
  destruct (co_front _ _ Hc _ _ eq_refl) as [[Hp Hl] _]. destruct (Hk _ _ Hl) as (o & Ho & Hname & _).
  apply (course_move ds _ (AddUpdate pod l)); try done; simpl; [lia| |].
  - intros n Hn. unfold listed. simpl. destruct (ds_pods ds !! n) as [l'|] eqn:Hn'; [|done]. simpl.
    rewrite lookup_alter_ne; [done|]. intros <-. destruct (Hk _ _ Hn') as (o' & Ho' & Hname' & _). congruence.
  - intros n [= <-] _. rewrite Hp. unfold listed. simpl. rewrite Hl. simpl. by rewrite lookup_alter_eq, Ho.
Qed.

Lemma advances_take ds n rest : course ds (DelTake n :: rest) → advances ds (DelTake n) rest.
Proof.
  intros Hc cancelled w. destruct (co_front _ _ Hc _ _ eq_refl) as [Hp _]. simpl in Hp. simpl.
  destruct (ds_pods ds !! n) as [l|] eqn:Hl; (eexists; split; [done|]); cbn [ef_store ef_frames];
    (split; [|unfold work; simpl; lia]); apply (course_move ds _ (DelTake n)); try done; simpl; try lia.
  - by intros g [= <-].
  - intros k Hk. unfold listed. simpl. by rewrite lookup_delete_ne by congruence.
  - intros k [= <-] _. unfold listed. simpl. by rewrite lookup_delete_eq.
  - intros k [= <-] _. unfold listed. by rewrite Hl.
Qed.

Lemma advances_stop ds ts i l rest :
  owned ds ts → ts !! i = Some (DelStop l :: rest) → course ds (DelStop l :: rest) →
  advances ds (DelStop l) rest.
Proof.
  intros Hinv Hi Hc cancelled w. destruct (own_stop ds ts i l rest Hinv Hi) as (o & Ho & Hd & _).
  eexists. split; [simpl; rewrite Ho; simpl; unfold StopRefreshLoop; by rewrite Hd|].
  cbn [ef_store ef_frames]. split; [|unfold work; simpl; lia].
  apply (course_move ds _ (DelStop l)); try done; simpl; [lia|].
  intros n _. unfold listed. simpl. destruct (ds_pods ds !! n) as [l'|]; [|done]. simpl.
  rewrite lookup_insert. case_decide as Hl; [|done]. subst. by rewrite Ho.
Qed.

Lemma course_advances ds ts i f rest :
  owned ds ts → ts !! i = Some (f :: rest) → course ds (f :: rest) → advances ds f rest.
Proof.
  intros Hinv Hi Hc. pose proof (ow_pods _ _ Hinv) as Hk.
  destruct (co_front _ _ Hc _ _ eq_refl) as [Hf _]. destruct f; try done.
  - apply (advances_to _ _ (PodFetch req)); [done| |done|done|simpl; lia].
    intros. simpl. unfold PoolGet. by rewrite (co_pool _ _ Hc).
  - by apply advances_fetch.
  - by apply advances_test.
  - by apply advances_load.
  - by apply advances_new.
  - by apply advances_store.
  - by apply advances_update.
  - by apply advances_take.
  - by eapply advances_stop.
Qed.

(** ** The whole system on its course *)

Record on_track (s : system) (t : list frame) : Prop := {
  ot_reach : reachable poolName s;
  ot_api : sy_api s = c;
  ot_pool : sy_threads s !! 1%nat = Some [];
  ot_queue : sy_threads s !! 2%nat = Some t;
  ot_course : course (sy_store s) t
}.

Lemma other_threads {ts spawn : list (list frame)} {i j new t} :
  i ≠ j → ts !! j = Some t → (<[i := new]> ts ++ spawn) !! j = Some t.
Proof. intros Hne Hj. apply lookup_app_l_Some. by rewrite list_lookup_insert_ne. Qed.

Lemma own_thread {ts spawn : list (list frame)} {i new t} :
  ts !! i = Some t → (<[i := new]> ts ++ spawn) !! i = Some new.
Proof. intros Hi. apply lookup_app_l_Some. apply list_lookup_insert_eq. by eapply lookup_lt_Some. Qed.

Lemma work_app t1 t2 : work (t1 ++ t2) = (work t1 + work t2)%nat.
Proof. unfold work. by rewrite fmap_app, sum_list_with_app. Qed.

Lemma work_requests reqs : work (PodRec <$> reqs) = (7 * length reqs)%nat.
Proof.
  induction reqs as [|n reqs IH]; [done|].
  change (work (PodRec <$> n :: reqs)) with (7 + work (PodRec <$> reqs))%nat. simpl. lia.
Qed.

(** A step of the pod reconciler. *)
Lemma track_turn s t w s' :
  on_track s t → run_frame poolName 2 w s = Some (Val s') → reachable poolName s' →
  ∃ t', on_track s' t' ∧ (S (work t') <= work t)%nat.
Proof.
  intros [Hr Hapi H1 H2 Hc] Hrun Hr'. unfold run_frame in Hrun. rewrite H2 in Hrun.
  destruct t as [|f rest]; [done|]. rewrite Hapi in Hrun.
  destruct (course_advances _ _ _ _ _ (reachable_owned _ _ Hr) H2 Hc (sy_cancelled s) w) as (e & Hex & Hc' & Hw).
  rewrite Hex in Hrun. simpl in Hrun. simplify_eq. exists (ef_frames e ++ rest). split.
  - split; [done|done| | |done]; simpl; [by apply other_threads|by eapply own_thread].
  - change (work (f :: rest)) with (cost f + work rest)%nat. rewrite work_app. lia.
Qed.

(** A step of the model reconciler or of a refresh goroutine. *)
Lemma track_other s t i w s' :
  on_track s t → run_frame poolName i w s = Some (Val s') → reachable poolName s' → i ≠ 2%nat →
  on_track s' t.
Proof.
  intros [Hr Hapi H1 H2 Hc] Hrun Hr' Hne. pose proof (reachable_in_role s Hr) as Hrole. unfold run_frame in Hrun.
  destruct (sy_threads s !! i) as [[|f rest]|] eqn:Hi; try done.
  destruct (exec _ _ _ w f _) as [[e|]|] eqn:Hex; try done. simpl in Hrun. simplify_eq.
  assert (i ≠ 1%nat) by (intros ->; congruence). pose proof (Hrole _ _ f Hi ltac:(by left)) as Hf.
  split; [done|done|by apply other_threads|by apply other_threads|]. simpl.
  eapply course_untouched; [|done]. destruct i as [|[|[|i]]]; [|done|done|].
  - by eapply model_untouched.
  - by eapply loop_untouched.
Qed.

(** A request at the end of the queue. *)
Lemma course_enqueue ds t req : course ds t → course ds (t ++ [PodRec req]).
Proof.
  intros [Hp Hfront Hag]. split; [done| |].
  - intros f rest Ht. destruct t as [|g t]; injection Ht as <- <-; [by split; [|constructor]|].
    destruct (Hfront g t eq_refl) as [Hf Hw]. split; [done|]. apply Forall_app. split; [done|].
    apply Forall_singleton. by exists req.
  - intros n Hn. rewrite omap_app, not_elem_of_app in Hn. apply Hag, Hn.
Qed.

Lemma track_step a s t s' :
  on_track s t → steady a = true → perform poolName a s = Some (Val s') →
  ∃ t', on_track s' t' ∧ (turn a + work t' <= work t + 7 * arrival a)%nat.
Proof.
  intros Ht Hst Ha. assert (reachable poolName s') as Hr'.
  { destruct (ot_reach _ _ Ht) as [c0 Hs]. exists c0. eapply rtc_r; [done|]. by exists a. }
  destruct a as [i w|c'|i req|]; [|done| |].
  - destruct (decide (i = 2%nat)) as [->|Hne].
    + destruct (track_turn _ _ _ _ Ht Ha Hr') as (t' & Ht' & Hw). exists t'. split; [done|]. simpl. lia.
    + exists t. split; [by eapply track_other|]. by destruct i as [|[|[|i]]]; simpl; lia.
  - destruct Ht as [Hr Hapi H1 H2 Hc]. simpl in Ha. destruct (request i req) as [f|] eqn:Hf; [|done]. simpl in Ha.
    destruct (sy_threads s !! i) as [ti|] eqn:Hi; [|done]. simpl in Ha. simplify_eq.
    destruct i as [|[|[|i]]]; try done; simpl in Hf; simplify_eq.
    + exists t. split; [|simpl; lia]. split; try done; simpl; by rewrite list_lookup_insert_ne.
    + exists (t ++ [PodRec req]). split.
      * split; [done|done| | |by apply course_enqueue]; simpl; [by rewrite list_lookup_insert_ne|].
        apply list_lookup_insert_eq. by eapply lookup_lt_Some.
      * rewrite work_app. simpl. unfold work at 2. simpl. lia.
  - exists t. split; [|simpl; lia]. simpl in Ha. simplify_eq. by destruct Ht.
Qed.

Lemma track_play acts s t s' :
  on_track s t → forallb steady acts = true → play poolName acts s = Some s' →
  ∃ t', on_track s' t' ∧ (turns acts + work t' <= work t + 7 * arrivals acts)%nat.
Proof.
  revert s t. induction acts as [|a acts IH]; intros s t Ht Hst Hp; simpl in *.
  { simplify_eq. exists t. split; [done|]. unfold turns, arrivals. simpl. lia. }
  apply andb_true_iff in Hst as [Ha Hst]. destruct (perform poolName a s) as [[s1|]|] eqn:Hs1; try done.
  destruct (track_step _ _ _ _ Ht Ha Hs1) as (t1 & Ht1 & Hw1). destruct (IH _ _ Ht1 Hst Hp) as (t' & Ht' & Hw').
  exists t'. split; [done|]. change (turns (a :: acts)) with (turn a + turns acts)%nat.
  change (arrivals (a :: acts)) with (arrival a + arrivals acts)%nat. lia.
Qed.

Lemma track_start s reqs :
  reachable poolName s → sy_api s = c → ds_pool (sy_store s) = Some pool →
  sy_threads s !! 1%nat = Some [] → sy_threads s !! 2%nat = Some (PodRec <$> reqs) →
  (∀ n, is_Some (objs !! n) ∨ is_Some (ds_pods (sy_store s) !! n) → n ∈ reqs) →
  on_track s (PodRec <$> reqs).
Proof.
  intros Hr Hapi Hpool H1 H2 Hall. split; [done|done|done|done|]. split; [done| |].
  - intros f rest Heq. assert (Forall waiting (f :: rest)) as Hw.
    { rewrite <-Heq. apply Forall_fmap, Forall_true. intros req. by exists req. }
    apply Forall_cons in Hw as [[req ->] Hw]. done.
  - intros n Hn. assert (n ∉ reqs) as Hn'.
    { intros Hin. apply Hn. apply list_elem_of_omap. exists (PodRec n). split; [|done].
      by apply list_elem_of_fmap_2. }
    unfold listed, wanted. destruct (ds_pods (sy_store s) !! n) eqn:Hl; [destruct Hn'; apply Hall; eauto|].
    destruct (objs !! n) eqn:Ho; [destruct Hn'; apply Hall; eauto|]. done.
Qed.

Lemma track_no_panic s t i w p : on_track s t → run_frame poolName i w s ≠ Some (Panic p).
Proof.
  intros [Hr _ _ _ Hc] Hp. unfold run_frame in Hp.
  destruct (sy_threads s !! i) as [[|f rest]|] eqn:Hi; try done.
  destruct (exec _ _ _ w f _) as [[e|p']|] eqn:Hex; try done.
  destruct (exec_panic poolName _ _ _ _ _ _ _ _ _ (reachable_owned _ _ Hr) Hi Hex) as [Hnone _].
  by rewrite (co_pool _ _ Hc) in Hnone.
Qed.

Lemma track_runs s f rest w :
  on_track s (f :: rest) → ∃ s', run_frame poolName 2 w s = Some (Val s').
Proof.
  intros [Hr Hapi _ H2 Hc]. unfold run_frame. rewrite H2, Hapi.
  destruct (course_advances _ _ _ _ _ (reachable_owned _ _ Hr) H2 Hc (sy_cancelled s) w) as (e & -> & _).
  by eexists.
Qed.
End converge.

(** * Claims *)


(** ** A run *)

Local Existing Instance inclusion_labels.

Definition pod_b : CorePod :=
  mkCorePod (labelled "q" {["app" := "a"]}) "10.0.0.2" [mkPodCondition PodReady ConditionTrue].

Definition replaced_pods : gmap NamespacedName CorePod := {[pod_key pod_b := pod_b]}.

Lemma replaced_pods_cases n p : replaced_pods !! n = Some p → n = pod_key pod_b ∧ p = pod_b.
Proof. unfold replaced_pods. by intros [-> ->]%lookup_singleton_Some. Qed.

(** The pod [pod_a] was replaced by [pod_b]. *)
Definition api_replaced : Client := {|
  List_models _ _ := inl [];
  List_pods _ _ := inl [pod_b];
  Get_model _ := NotFound;
  Get_pool _ := Found (pool_for "a");
  Get_pod n := match replaced_pods !! n with Some p => Found p | None => NotFound end
|}.

(** The store has [pod_a]; both pods have an event. *)
Definition before_replacement : system :=
  played (api_for "a")
    ([Enqueue 1 pool_key] ++ runs 1 10 ++ visit 1 (pod_key pod_a) ++ runs 1 2
     ++ [ApiChange api_replaced; Enqueue 2 (pod_key pod_a); Enqueue 2 (pod_key pod_b)]).

(** Refresh goroutines and the model reconciler run between the steps. *)
Definition replacement : list action :=
  runs 2 3 ++ runs 3 1 ++ [Enqueue 0 pool_key] ++ runs 2 3 ++ runs 0 1 ++ runs 2 3 ++ runs 3 1
  ++ runs 2 1 ++ runs 4 1 ++ runs 2 1.

Definition after_replacement : system :=
  default before_replacement (play pool_key replacement before_replacement).

Lemma replacement_plays : play pool_key replacement before_replacement = Some after_replacement.
Proof.
  assert (bool_decide (is_Some (play pool_key replacement before_replacement)) = true) as [s Hs]%bool_decide_eq_true
    by (by vm_compute).
  unfold after_replacement. by rewrite Hs.
Qed.

