(* ===== verification/SystemProofs.v ===== *)
(** * From the API server to a routed request

    In every run of the system of [Concurrent] what the datastore holds was reported by
    the API server: the pool, the models, and each pod, which was ready and selected by a
    pool that was reported.  A request handled against such a store is therefore sent to
    an address and a port the API server gave. *)

From S2P Require Import Prelude GoInt Float64 Json Api Errors BackendMetrics ExtProc.
From S2P Require Import Scheduling Datastore DatastoreProofs Frontend Handlers Streaming HandlersProofs RequestProofs.
From S2P Require Import Controllers ControllersProofs Concurrent ConcurrentProofs Interleavings.

Local Open Scope Z_scope.

Section provenance.
Context `{MapOrder} `{Labels} (poolName : NamespacedName).

(** ** What the API server has reported *)

Definition pool_reported (h : list Client) (pool : InferencePool) : Prop :=
  ∃ c req, c ∈ h ∧ Get_pool c req = Found pool.

Definition model_reported (h : list Client) (m : InferenceModel) : Prop :=
  ∃ c, c ∈ h ∧ ((∃ req, Get_model c req = Found m)
                ∨ ∃ name ns items, List_models c name ns = inl items ∧ m ∈ items).

(** A list of pods the API server gave for a pool it reported. *)
Definition listed (h : list Client) (items : list CorePod) : Prop :=
  ∃ c pool all, c ∈ h ∧ pool_reported h pool ∧ items ⊆ all
    ∧ List_pods c (Selector (ip_Spec pool)) (ip_Namespace pool) = inl all.

(** A ready pod: found and selected by a reported pool, or in a list for one. *)
Definition pod_reported (h : list Client) (p : CorePod) : Prop :=
  podIsReady p = true
  ∧ ((∃ c req pool, c ∈ h ∧ Get_pod c req = Found p ∧ pool_reported h pool ∧ serves pool p)
     ∨ ∃ items, listed h items ∧ p ∈ items).

Definition frame_reported (h : list Client) (f : frame) : Prop :=
  match f with
  | ModelSet m => model_reported h m
  | PoolOld p | PoolPut p _ | ResyncList p => pool_reported h p
  | PodTest p => ∃ c req, c ∈ h ∧ Get_pod c req = Found p
  | AddLoad p | AddNew p | AddStore p _ | AddUpdate p _ => pod_reported h p
  | ResyncAdd _ items => listed h items
  | _ => True
  end.

Record store_reported (h : list Client) (ds : datastore) : Prop := {
  sr_pool : ∀ pool, ds_pool ds = Some pool → pool_reported h pool;
  sr_models : ∀ k m, ds_models ds !! k = Some m → model_reported h m;
  sr_objects : ∀ l o, ds_heap ds !! l = Some o → ∃ p, pod_reported h p ∧ pm_pod o = toInternalPod p
}.

(** *** More reports *)

Lemma pool_reported_mono h h' p : h ⊆ h' → pool_reported h p → pool_reported h' p.
Proof. intros Hh (c & req & ? & ?). exists c, req. auto. Qed.

Lemma model_reported_mono h h' m : h ⊆ h' → model_reported h m → model_reported h' m.
Proof. intros Hh (c & ? & ?). exists c. auto. Qed.

Lemma listed_mono h h' items : h ⊆ h' → listed h items → listed h' items.
Proof.
  intros Hh (c & pool & all & ? & ? & ? & ?). exists c, pool, all.
  split; [by apply Hh|]. split; [by eapply pool_reported_mono|done].
Qed.

Lemma pod_reported_mono h h' p : h ⊆ h' → pod_reported h p → pod_reported h' p.
Proof.
  intros Hh [? [(c & req & pool & ? & ? & ? & ?)|(items & ? & ?)]]; (split; [done|]).
  - left. exists c, req, pool. split; [by apply Hh|]. split; [done|]. split; [by eapply pool_reported_mono|done].
  - right. exists items. eauto using listed_mono.
Qed.

Lemma frame_reported_mono h h' f : h ⊆ h' → frame_reported h f → frame_reported h' f.
Proof.
  intros Hh. destruct f; simpl;
    eauto using pool_reported_mono, model_reported_mono, listed_mono, pod_reported_mono.
  intros (c & req & ? & ?). eauto.
Qed.

Lemma store_reported_mono h h' ds : h ⊆ h' → store_reported h ds → store_reported h' ds.
Proof.
  intros Hh [Hp Hm Ho]. split.
  - eauto using pool_reported_mono.
  - eauto using model_reported_mono.
  - intros l o Hl. destruct (Ho l o Hl) as (p & ? & ?). eauto using pod_reported_mono.
Qed.

(** ** Steps keep it *)

Section exec.
Variables (c : Client) (past : list Client).
Notation h := (c :: past).
Implicit Types ds : datastore.

Lemma reported_models ds m :
  store_reported h ds → (∀ k x, m !! k = Some x → model_reported h x) → store_reported h (set_models m ds).
Proof. intros [Hp _ Ho] Hm. by split. Qed.

Lemma reported_heap ds f l :
  store_reported h ds → (∀ o, ∃ p, pod_reported h p ∧ pm_pod (f o) = toInternalPod p) ∨ (∀ o, pm_pod (f o) = pm_pod o) →
  store_reported h (set_heap (alter f l (ds_heap ds)) ds).
Proof.
  intros [Hp Hm Ho] Hf. split; [done|done|]. intros l' o Hl. simpl in Hl.
  apply lookup_alter_Some in Hl as [(-> & o' & Ho' & ->)|[_ Hl]]; [|eauto].
  destruct Hf as [Hf|Hf]; [apply Hf|]. rewrite Hf. eauto.
Qed.

Lemma reported_new ds l o p :
  store_reported h ds → pod_reported h p → pm_pod o = toInternalPod p →
  store_reported h (set_heap (<[l := o]> (ds_heap ds)) ds).
Proof.
  intros [Hp Hm Ho] Hrep Heq. split; [done|done|]. intros l' o' Hl. simpl in Hl.
  apply lookup_insert_Some in Hl as [[-> <-]|[_ Hl]]; eauto.
Qed.

Lemma reported_model_set ds m :
  store_reported h ds → model_reported h m → store_reported h (ModelSetIfOlder m ds).2.
Proof.
  intros Hst Hm. destruct (ModelSet_cases m ds) as [[-> _]|[-> _]]; [|done]. apply reported_models; [done|].
  intros k x [[_ <-]|[_ Hx]]%lookup_insert_Some; [done|]. by eapply sr_models.
Qed.

Lemma reported_model_delete ds n : store_reported h ds → store_reported h (ModelDelete n ds).2.
Proof.
  intros Hst. unfold ModelDelete. destruct (filter _ _) as [|[k m] l]; [done|]. apply reported_models; [done|].
  intros k' x [_ Hx]%lookup_delete_Some. by eapply sr_models.
Qed.

Lemma reported_model_resync ds name r ds' :
  store_reported h ds → ModelResync c name ds = Val (r, ds') → store_reported h ds'.
Proof.
  intros Hst. unfold ModelResync. destruct (deref _) as [pool|]; [|done]. run_outcome.
  destruct (List_models c name _) as [items|e] eqn:Hl; [|by intros [= _ <-]].
  pose proof (resync_fold name (ip_Name pool) items None) as Hf.
  destruct (foldl _ None items) as [m|]; intros [= _ <-]; [|done]. apply reported_models; [done|].
  intros k x [[_ <-]|[_ Hx]]%lookup_insert_Some; [|by eapply sr_models].
  destruct Hf as ([?|[Hin _]] & _); [done|]. exists c. split; [left|]. right. eauto 6.
Qed.

Lemma pod_test_reported ds pod matched :
  store_reported h ds → frame_reported h (PodTest pod) →
  Time_ptr_IsZero (om_DeletionTimestamp (pod_ObjectMeta pod)) = true →
  PoolLabelsMatch (om_Labels (pod_ObjectMeta pod)) ds = Val matched →
  matched = true → podIsReady pod = true → pod_reported h pod.
Proof.
  intros Hst (c' & req & Hc & Hget) Hdel Hmatch -> Hready. split; [done|]. left.
  unfold PoolLabelsMatch, selectorFromInferencePoolSelector in Hmatch. destruct (ds_pool ds) as [pool|] eqn:Hpool; [|done].
  injection Hmatch as Hmatch. exists c', req, pool. split; [done|]. split; [done|].
  split; [by apply (sr_pool _ _ Hst)|]. apply eligible_iff. unfold eligible. by rewrite Hdel, Hmatch, Hready.
Qed.

Lemma resync_add_reported active pod items ds e :
  store_reported h ds → listed h (pod :: items) →
  (if podIsReady pod
   then go_on ds [AddLoad pod; ResyncAdd ({[om_Name (pod_ObjectMeta pod)]} ∪ active) items]
   else go_on ds [ResyncAdd active items]) = Some (Val e) →
  store_reported h (ef_store e) ∧ Forall (frame_reported h) (ef_frames e).
Proof.
  intros Hst Hl Hex. assert (listed h items) as Hitems.
  { destruct Hl as (c' & pool & all & ? & ? & Hsub & ?). exists c', pool, all. set_solver. }
  destruct (podIsReady pod) eqn:Hr; injection Hex as <-; (split; [done|]); [|by apply Forall_singleton].
  apply Forall_cons. split; [|by apply Forall_singleton]. split; [done|]. right. exists (pod :: items).
  split; [done|left].
Qed.

Lemma exec_reported cancelled w f ds e :
  store_reported h ds → frame_reported h f → exec poolName c cancelled w f ds = Some (Val e) →
  store_reported h (ef_store e) ∧ Forall (frame_reported h) (ef_frames e).
Proof.
  intros Hst Hf Hex.
  destruct f as [req|m|req|name|req|pool|pool b| |req|req|pod|pod|pod|pod l|pod l|n|l|pool
                |active items|active start seen found|l|l|l m]; simpl in Hex, Hf;
    unfold go_on, mbind, outcome_bind, deref in Hex;
    try solve [repeat (case_match; simplify_eq/=); (split; [done|by repeat constructor])].
  - destruct (Get_model c req) as [m| |e'] eqn:Hm; [destruct (_ || _)| |]; simplify_eq;
      (split; [done|]); try by repeat constructor.
    apply Forall_singleton. exists c. split; [left|]. eauto.
  - simplify_eq. split; [by apply reported_model_set|done].
  - pose proof (reported_model_delete ds req Hst). destruct (ModelDelete req ds) as [[m|] ds']; simplify_eq;
      (split; [done|by repeat constructor]).
  - destruct (ModelResync c name ds) as [[r ds']|] eqn:Hr; [|done]. simplify_eq.
    split; [by eapply reported_model_resync|done].
  - destruct (Get_pool c req) as [p| |e'] eqn:Hm; [destruct (negb _)| |]; simplify_eq;
      (split; [done|]); try by repeat constructor.
    apply Forall_singleton. exists c, req. split; [left|done].
  - simplify_eq. split; [|destruct b; by repeat constructor].
    destruct Hst as [Hp Hm Ho]. split; [|done|done]. by intros p [= <-].
  - simplify_eq. split; [|done]. destruct Hst as [Hp Hm Ho]. split; [done| |done]. intros k m Hk.
    simpl in Hk. by rewrite lookup_empty in Hk.
  - destruct (Get_pod c req) as [p| |e'] eqn:Hm; simplify_eq; (split; [done|]); try by repeat constructor.
    apply Forall_singleton. exists c, req. split; [left|done].
  - destruct (Time_ptr_IsZero _) eqn:Hdel; simpl in Hex; [|simplify_eq; split; [done|by repeat constructor]].
    destruct (PoolLabelsMatch _ ds) as [matched|] eqn:Hmatch; [|done]. simplify_eq.
    split; [done|]. apply Forall_singleton. destruct (negb matched || negb (podIsReady pod)) eqn:Ht; [done|].
    to_prop. by eapply pod_test_reported.
  - destruct (ds_pods ds !! pod_key pod); simplify_eq; (split; [done|by apply Forall_singleton]).
  - simplify_eq. split; [by eapply reported_new|by apply Forall_singleton].
  - simplify_eq. split; [by destruct Hst|by apply Forall_singleton].
  - simplify_eq. split; [|done]. apply reported_heap; [done|]. left. intros o. by exists pod.
  - destruct (ds_pods ds !! n); simplify_eq; (split; [by destruct Hst|by repeat constructor]).
  - destruct (ds_heap ds !! l) as [o|] eqn:Ho; [|done]. unfold StopRefreshLoop in Hex.
    destruct (pm_done o); [done|]. simplify_eq. split; [|done].
    destruct (sr_objects _ _ Hst l o Ho) as (p & ? & ?). by eapply reported_new.
  - destruct (List_pods c _ _) as [items|e'] eqn:Hl; simplify_eq; (split; [done|]); [|done].
    apply Forall_singleton. rewrite stripLabel_id in Hl. exists c, pool, items. split; [left|done].
  - destruct items as [|pod items]; [simplify_eq; split; [done|by repeat constructor]|].
    by apply (resync_add_reported active pod items ds).
  - simplify_eq. split; [|by repeat constructor]. apply reported_heap; [done|]. by right.
Qed.
End exec.

(** ** In every run *)

Definition history (s : system) : list Client := sy_api s :: sy_past s.

Definition all_reported (s : system) : Prop :=
  store_reported (history s) (sy_store s)
  ∧ ∀ i t, sy_threads s !! i = Some t → Forall (frame_reported (history s)) t.

Lemma step_reported a s s' : perform poolName a s = Some (Val s') → all_reported s → all_reported s'.
Proof.
  intros Ha [Hst Hts].
  destruct (perform_cases poolName a s s' Ha) as [(i & f & rest & fs & Hran)|[Hsame Hapi Hold _]].
  - pose proof (Hts _ _ (ran_top _ _ _ _ _ _ _ Hran)) as Hi. apply Forall_cons in Hi as [Hf Hrest].
    destruct (ran_exec _ _ _ _ _ _ _ Hran) as (w & e & Hex & Hs' & ->).
    destruct (ran_api _ _ _ _ _ _ _ Hran) as [Hc Hp]. unfold all_reported, history. rewrite Hc, Hp, Hs'.
    destruct (exec_reported _ _ _ _ _ _ _ Hst Hf Hex) as [Hst' Hfs]. split; [done|]. intros j t Hj.
    destruct (ran_lookup _ _ _ _ _ _ _ _ _ Hran Hj) as [[-> ->]|[[_ Hj']|[l ->]]].
    + by apply Forall_app.
    + by apply (Hts j).
    + by apply Forall_singleton.
  - assert (history s ⊆ history s') as Hh by exact Hapi. split.
    { rewrite Hsame. by eapply store_reported_mono. }
    intros j [|f rest] Hj; [done|].
    destruct (Hold _ _ _ Hj) as [(req & Hreq & ->)|(rest' & Hj' & Hrest)].
    + apply Forall_singleton. by destruct j as [|[|[|j]]]; simplify_eq/=.
    + specialize (Hts _ _ Hj'). apply Forall_cons in Hts as [Hf Hr].
      assert (Forall (frame_reported (history s')) rest') as Hr'
        by (eapply Forall_impl; [exact Hr|]; intros g; by apply frame_reported_mono).
      apply Forall_cons. split; [by eapply frame_reported_mono|].
      destruct Hrest as [->|(req & g & Hg & ->)]; [done|]. apply Forall_app. split; [done|].
      apply Forall_singleton. by destruct j as [|[|[|j]]]; simplify_eq/=.
Qed.

Lemma reachable_reported s : reachable poolName s → all_reported s.
Proof.
  intros [c Hs]. assert (all_reported (system_start c)) as Hstart.
  { split; [by split|]. intros [|[|[|i]]] t Hi; by simplify_eq/=. }
  induction Hs as [|s1 s2 s3 [a Ha] _ IH]; [done|]. by apply IH, (step_reported a s1).
Qed.
End provenance.

(** * Claims *)

(** C13: from the API server to the request.  In every run of the reconcilers, with steps
    of theirs anywhere between the reads of the handler, a request handled without error
    is for an InferenceModel the API server reported, and is sent to the address of a pod
    it reported as ready, found under a pool it reported (selected by it, or listed for
    it) and listed when the request was scheduled, on the port of a pool it reported. *)
Theorem requests_follow_the_api `{MapOrder} `{Labels} poolName s1 s2 s3 cfg env rb c c' rb' :
  reachable poolName s1 → rtc (system_step poolName) s1 s2 → rtc (system_step poolName) s2 s3 →
  env_ds env = sy_store s1 → env_ds_schedule env = sy_store s2 → env_ds_pool env = sy_store s3 →
  HandleRequestBody cfg env rb c = Val (None, c', rb') →
  ∃ model m p pool,
    body_model rb = Some model ∧ ModelGet model (sy_store s1) = Some m ∧ model_reported (history s1) m
    ∧ pod_reported (history s2) p ∧ pool_reported (history s3) pool
    ∧ is_Some (ds_pods (sy_store s2) !! pod_key p)
    ∧ rc_TargetEndpoint c' = endpoint_of (pod_PodIP p) pool.
Proof.
  intros [c0 H1] H12 H23 E1 E2 E3
    (model & m & target & bytes & picked & pool & c1 & Hb & Hm & _ & _ & Hin & Hp & _ & ->)%HandleRequestBody_success.
  rewrite E1 in Hm. rewrite E2 in Hin. rewrite E3 in Hp.
  assert (reachable poolName s1) as R1 by (by exists c0).
  assert (reachable poolName s2) as R2 by (exists c0; by etrans).
  assert (reachable poolName s3) as R3 by (exists c0; etrans; [done|by etrans]).
  destruct (reachable_reported poolName s1 R1) as [[_ Hmodels _] _].
  destruct (reachable_reported poolName s2 R2) as [[_ _ Hobjs] _].
  destruct (reachable_reported poolName s3 R3) as [[Hpool _ _] _].
  pose proof (reachable_owned poolName s2 R2) as Hown.
  apply list_elem_of_fmap in Hin as (o & Hpk & (k & l & Hk & Ho)%PodGetAll_elem).
  destruct (Hobjs l o Ho) as (p & Hrep & Heq).
  destruct (ow_pods _ _ Hown k l Hk) as (o' & Ho' & Hname & _). simplify_eq.
  exists model, m, p, pool. split; [done|]. split; [done|]. split; [by eapply Hmodels|]. split; [done|].
  split; [by apply Hpool|]. split.
  - rewrite Heq in Hk. simpl in Hk. eauto.
  - change (rc_TargetEndpoint _) with (endpoint_of (Address (GetPod picked)) pool). by rewrite Hpk, Heq.
Qed.

(** * Witnesses *)

(** An API server with a model, the pool and a pod; all three are reconciled. *)
Definition api_with_model : Client := {|
  List_models _ _ := inl [];
  List_pods _ _ := inl [pod_a];
  Get_model _ := Found (example_model "a" 5);
  Get_pool _ := Found (pool_for "a");
  Get_pod _ := Found pod_a
|}.

Definition serving : system :=
  played api_with_model
    ([Enqueue 0 (mkNamespacedName "ns" "a"); Enqueue 1 pool_key] ++ runs 0 2 ++ runs 1 9).

Definition serving_env : Env :=
  mkEnv _ (sy_store serving) (sy_store serving) (sy_store serving)
    (default_scheduler least_draws defaultConfig (sy_store serving) 0) 0 (λ _, 0)
    (λ _, 0%nat) (λ _, FePostFailed (LibraryError "connection refused")) (λ _, None).

Definition served : RequestContext :=
  match HandleRequestBody example_config serving_env (Some (example_fields "m")) zero_context with
  | Val (_, c, _) => c
  | Panic _ => zero_context
  end.

Lemma serving_runs :
  ∃ rb', HandleRequestBody example_config serving_env (Some (example_fields "m")) zero_context
         = Val (None, served, rb').
Proof. eexists. vm_compute. reflexivity. Defined.

Lemma requests_follow_the_api_witness :
  ∃ model m p pool,
    body_model (Some (example_fields "m")) = Some model
    ∧ ModelGet model (sy_store serving) = Some m ∧ model_reported (history serving) m
    ∧ pod_reported (history serving) p ∧ pool_reported (history serving) pool
    ∧ is_Some (ds_pods (sy_store serving) !! pod_key p)
    ∧ rc_TargetEndpoint served = endpoint_of (pod_PodIP p) pool.
Proof.
  destruct serving_runs as [rb' Hrun].
  eapply (@requests_follow_the_api _ inclusion_labels pool_key serving serving serving example_config
            serving_env (Some (example_fields "m")) zero_context served rb').
  - apply played_reachable. by vm_compute.
  - apply rtc_refl.
  - apply rtc_refl.
  - reflexivity.
  - reflexivity.
  - reflexivity.
  - exact Hrun.
Defined.
