(* ===== verification/InformersProofs.v ===== *)
(** * Theorems on the shared informer factory

    The steps of the factory with its goroutines and callers, the invariant of every
    reachable state, and what it gives: informers are shared and started once, and
    Shutdown waits for every goroutine. *)

From S2P Require Import Prelude GoInt Informers.

Section system.
Context {ListOptions client_set : Type} `{MapOrder}.

Abbreviation factory := (@sharedInformerFactory ListOptions client_set).
Abbreviation inf := (@informer ListOptions client_set).
Abbreviation gor := (@goroutine ListOptions client_set).

(** ** States and steps *)

(** The factory; the goroutines that run and all that were ever started; the closed
    channels; the callers of Shutdown that wait and those it returned to. *)
Record fstate := mkState {
  fs_factory : factory;
  fs_running : list gor;
  fs_runs : list gor;
  fs_closed : gset chan;
  fs_waiting : nat;
  fs_returned : nat
}.

Definition initial (f : factory) : fstate := mkState f [] [] ∅ 0 0.

(** [f.wg.Done()]. *)
Definition wg_Done (f : factory) : factory :=
  mkFactory (client f) (namespace f) (tweakListOptions f) (defaultResync f) (customResync f)
    (transform f) (informers f) (startedInformers f) (Nat.pred (wg f)) (shuttingDown f) (next_id f).

Inductive factory_step : fstate → fstate → Prop :=
  | step_Start ch s f' gs :
      Start ch (fs_factory s) = (f', gs) →
      factory_step s (mkState f' (fs_running s ++ gs) (fs_runs s ++ gs) (fs_closed s)
                        (fs_waiting s) (fs_returned s))
  | step_InformerFor obj newFunc s :
      factory_step s (mkState (InformerFor obj newFunc (fs_factory s)).2 (fs_running s) (fs_runs s)
                        (fs_closed s) (fs_waiting s) (fs_returned s))
  | step_Shutdown s :
      factory_step s (mkState (Shutdown (fs_factory s)) (fs_running s) (fs_runs s) (fs_closed s)
                        (S (fs_waiting s)) (fs_returned s))
  | step_close ch s :
      factory_step s (mkState (fs_factory s) (fs_running s) (fs_runs s) ({[ch]} ∪ fs_closed s)
                        (fs_waiting s) (fs_returned s))
  | step_done i g s :
      fs_running s !! i = Some g → go_stop g ∈ fs_closed s →
      factory_step s (mkState (wg_Done (fs_factory s)) (delete i (fs_running s)) (fs_runs s)
                        (fs_closed s) (fs_waiting s) (fs_returned s))
  | step_return w s :
      fs_waiting s = S w → wg (fs_factory s) = 0%nat →
      factory_step s (mkState (fs_factory s) (fs_running s) (fs_runs s) (fs_closed s)
                        w (S (fs_returned s))).

(** ** Start *)

Lemma started_set t u (f : factory) :
  started (set_started t f) u = bool_decide (u = t) || started f u.
Proof.
  unfold started. simpl. destruct (decide (u = t)) as [->|Hne].
  - by rewrite lookup_insert_eq, bool_decide_true.
  - by rewrite lookup_insert_ne, bool_decide_false.
Qed.

(** What the loop leaves: a goroutine for each entry that was not started. *)
Definition spawned (ch : chan) (f : factory) (l : list (rtype * inf)) : list gor :=
  (λ kv, mkGoroutine kv.1 kv.2 ch) <$> filter (λ kv, started f kv.1 = false) l.

Lemma start_loop ch l (f : factory) gs :
  NoDup l.*1 →
  let r := foldl (start_one ch) (f, gs) l in
  r.2 = gs ++ spawned ch f l ∧ informers r.1 = informers f ∧ next_id r.1 = next_id f
  ∧ shuttingDown r.1 = shuttingDown f ∧ wg r.1 = (wg f + length (spawned ch f l))%nat
  ∧ ∀ t, started r.1 t = started f t || bool_decide (t ∈ l.*1).
Proof.
  revert f gs. induction l as [|[k i] l IH]; intros f gs Hnd; simpl.
  { rewrite app_nil_r, Nat.add_0_r. repeat split. intros t. by rewrite orb_false_r. }
  apply NoDup_cons in Hnd as [Hk Hnd].
  assert (∀ t, bool_decide (t ∈ (k :: l.*1)) = bool_decide (t = k) || bool_decide (t ∈ l.*1)) as Hin.
  { intros t. rewrite <-bool_decide_or. apply bool_decide_ext. by rewrite elem_of_cons. }
  unfold spawned in *. rewrite filter_cons. simpl. destruct (started f k) eqn:Hs.
  - rewrite decide_False by done. destruct (IH f gs Hnd) as (-> & -> & -> & -> & -> & Ht).
    repeat split. intros t. rewrite Ht, Hin. destruct (decide (t = k)) as [->|].
    + rewrite Hs. done.
    + by rewrite (bool_decide_false (t = k)).
  - rewrite decide_True by done.
    destruct (IH (set_started k f) (gs ++ [mkGoroutine k i ch]) Hnd) as (-> & -> & -> & -> & -> & Ht).
    assert (filter (λ kv, started (set_started k f) kv.1 = false) l
            = filter (λ kv, started f kv.1 = false) l) as ->.
    { apply filter_ext_elem. intros [k' i'] Hki. simpl. rewrite started_set, bool_decide_false; [done|].
      intros ->. apply Hk. apply list_elem_of_fmap. by exists (k, i'). }
    rewrite <-(assoc_L (++)). split; [done|]. repeat split; [rewrite fmap_cons; cbn [set_started wg length]; lia|].
    intros t. rewrite Ht, started_set, Hin. by destruct (bool_decide (t = k)), (started f t).
Qed.

Lemma Start_spec ch (f f' : factory) gs :
  Start ch f = (f', gs) →
  informers f' = informers f ∧ next_id f' = next_id f ∧ shuttingDown f' = shuttingDown f
  ∧ wg f' = (wg f + length gs)%nat
  ∧ (shuttingDown f = true → gs = [])
  ∧ NoDup (go_type <$> gs)
  ∧ (∀ t, started f' t = true ↔ started f t = true ∨ t ∈ go_type <$> gs)
  ∧ (∀ g, g ∈ gs → started f (go_type g) = false ∧ informers f !! go_type g = Some (go_informer g)).
Proof.
  unfold Start. destruct (shuttingDown f) eqn:Hsd.
  { intros [= <- <-]. repeat split; try done; try lia; try constructor; set_solver. }
  intros Hst. pose proof (start_loop ch (map_range (informers f)) f [] (map_range_NoDup _)) as Hl.
  rewrite Hst in Hl. simpl in Hl. destruct Hl as (-> & Hi & Hn & Hs & Hw & Ht).
  split; [done|]. split; [done|]. split; [congruence|]. split; [done|]. split; [done|].
  assert (∀ g, g ∈ spawned ch f (map_range (informers f)) →
    started f (go_type g) = false ∧ informers f !! go_type g = Some (go_informer g)) as Hg.
  { intros g (kv & -> & [? Hkv]%list_elem_of_filter)%list_elem_of_fmap. destruct kv as [k i].
    by apply map_range_elem in Hkv. }
  split; [|split; [|done]].
  - unfold spawned. rewrite <-list_fmap_compose.
    eapply sublist_NoDup; [apply (map_range_NoDup (informers f))|].
    apply (fmap_sublist fst), filter_sublist.
  - intros t. rewrite Ht, orb_true_iff, bool_decide_eq_true. split.
    + intros [?|Hin]; [by left|]. destruct (started f t) eqn:Hst'; [by left|]. right.
      apply list_elem_of_fmap in Hin as ([k i] & -> & Hin).
      apply list_elem_of_fmap. exists (mkGoroutine k i ch). split; [done|].
      apply list_elem_of_fmap. exists (k, i). split; [done|]. by apply list_elem_of_filter.
    + intros [?|Hin]; [by left|]. right.
      apply list_elem_of_fmap in Hin as (g & -> & Hgin).
      apply Hg in Hgin as [_ Hlook]. apply list_elem_of_fmap.
      exists (go_type g, go_informer g). split; [done|]. by apply map_range_elem.
Qed.

(** ** The invariant *)

Record factory_inv (s : fstate) : Prop := {
  fi_wg : wg (fs_factory s) = length (fs_running s);
  fi_runs : NoDup (go_type <$> fs_runs s);
  fi_started : ∀ t, started (fs_factory s) t = true ↔ t ∈ go_type <$> fs_runs s;
  fi_informers : ∀ g, g ∈ fs_runs s → informers (fs_factory s) !! go_type g = Some (go_informer g);
  fi_ids : ∀ t i, informers (fs_factory s) !! t = Some i → (inf_id i < next_id (fs_factory s))%nat;
  fi_distinct : ∀ t u i j, informers (fs_factory s) !! t = Some i →
    informers (fs_factory s) !! u = Some j → inf_id i = inf_id j → t = u;
  fi_shut : (0 < fs_waiting s + fs_returned s)%nat → shuttingDown (fs_factory s) = true;
  fi_returned : (0 < fs_returned s)%nat → fs_running s = []
}.

(** A factory as a constructor makes it. *)
Definition fresh_factory (f : factory) : Prop :=
  informers f = ∅ ∧ startedInformers f = ∅ ∧ wg f = 0%nat ∧ shuttingDown f = false.

Lemma initial_inv f : fresh_factory f → factory_inv (initial f).
Proof.
  intros (Hi & Hs & Hw & Hd). split; simpl; try done.
  - constructor.
  - intros t. unfold started. rewrite Hs, lookup_empty. simpl. split; [done|]. intros Ht. by apply not_elem_of_nil in Ht.
  - intros g Hg. by apply not_elem_of_nil in Hg.
  - intros t i. by rewrite Hi, lookup_empty.
  - intros t u i j. by rewrite Hi, lookup_empty.
  - lia.
Qed.

Lemma InformerFor_keeps obj newFunc (f : factory) :
  let f' := (InformerFor obj newFunc f).2 in
  informers f ⊆ informers f' ∧ startedInformers f' = startedInformers f ∧ wg f' = wg f
  ∧ shuttingDown f' = shuttingDown f.
Proof.
  unfold InformerFor. destruct (informers f !! obj) eqn:Ho; [done|]. simpl.
  split; [|done]. by apply insert_subseteq.
Qed.

Lemma InformerFor_inv obj newFunc s :
  factory_inv s →
  factory_inv (mkState (InformerFor obj newFunc (fs_factory s)).2 (fs_running s) (fs_runs s)
                 (fs_closed s) (fs_waiting s) (fs_returned s)).
Proof.
  intros [Hw Hr Hst Hi Hid Hdis Hsh Hret]. unfold InformerFor.
  destruct (informers (fs_factory s) !! obj) as [i0|] eqn:Ho; [by destruct s|].
  split; simpl; try done.
  - intros g Hg. pose proof (Hi g Hg) as Hgi. rewrite lookup_insert_ne; [done|]. congruence.
  - intros t i. rewrite lookup_insert_Some. intros [[<- <-]|[_ Hti]]; simpl; [lia|].
    apply Hid in Hti. lia.
  - intros t u i j. rewrite !lookup_insert_Some.
    intros [[<- <-]|[_ Hti]] [[<- <-]|[_ Huj]]; simpl; [done| | |by eapply Hdis].
    + apply Hid in Huj. lia.
    + apply Hid in Hti. lia.
Qed.

Lemma step_inv s s' : factory_inv s → factory_step s s' → factory_inv s'.
Proof.
  intros Hinv Hstep.
  destruct Hstep as [ch s f' gs Hst|obj nf s|s|ch s|i g s Hi Hcl|w s Hwt Hwg].
  - apply Start_spec in Hst as (Hinf & Hn & Hsd & Hwg & Hshut & Hnd & Hst & Hgs).
    destruct Hinv as [Hw Hr Hs Hi Hid Hdis Hsh Hret]. split; simpl; rewrite ?Hinf, ?Hn, ?Hsd; try done.
    + rewrite Hwg, Hw, length_app. done.
    + rewrite fmap_app. apply NoDup_app. split; [done|]. split; [|done]. intros t Ht Ht'.
      apply list_elem_of_fmap in Ht' as (g & -> & Hg). apply Hgs in Hg as [Hf _].
      apply Hs in Ht. congruence.
    + intros t. rewrite Hst, Hs, fmap_app, elem_of_app. done.
    + intros g [Hg|Hg]%elem_of_app; [by apply Hi|by apply Hgs].
    + intros Hpos. rewrite Hret by done. rewrite Hshut; [done|]. apply Hsh. lia.
  - by apply InformerFor_inv.
  - destruct Hinv as [Hw Hr Hs Hi Hid Hdis Hsh Hret]. by split.
  - destruct Hinv as [Hw Hr Hs Hi Hid Hdis Hsh Hret]. by split.
  - destruct Hinv as [Hw Hr Hs Hi' Hid Hdis Hsh Hret]. split; simpl; try done.
    + rewrite Hw, length_delete by done. pose proof (lookup_lt_Some _ _ _ Hi). lia.
    + intros Hpos. rewrite (Hret Hpos) in Hi. done.
  - destruct Hinv as [Hw Hr Hs Hi Hid Hdis Hsh Hret]. split; simpl; try done.
    + intros _. apply Hsh. lia.
    + intros _. apply length_zero_iff_nil. congruence.
Qed.

Lemma steps_inv s s' : factory_inv s → rtc factory_step s s' → factory_inv s'.
Proof. intros Hs Hr. induction Hr; eauto using step_inv. Qed.

(** ** What later steps keep *)

Lemma step_informers s s' : factory_step s s' → informers (fs_factory s) ⊆ informers (fs_factory s').
Proof.
  intros Hstep. destruct Hstep as [ch s f' gs Hst|obj nf s|s|ch s|i g s Hi Hcl|w s Hwt Hwg]; simpl; try done.
  - apply Start_spec in Hst as (-> & _). done.
  - apply InformerFor_keeps.
Qed.

Lemma step_shutdown_runs s s' :
  shuttingDown (fs_factory s) = true → factory_step s s' →
  shuttingDown (fs_factory s') = true ∧ fs_runs s' = fs_runs s
  ∧ (length (fs_running s') <= length (fs_running s))%nat.
Proof.
  intros Hsd Hstep.
  destruct Hstep as [ch s f' gs Hst|obj nf s|s|ch s|i g s Hi Hcl|w s Hwt Hwg]; simpl; try done.
  - apply Start_spec in Hst as (_ & _ & Hsd' & _ & Hgs & _). rewrite (Hgs Hsd), !app_nil_r.
    split; [congruence|done].
  - destruct (InformerFor_keeps obj nf (fs_factory s)) as (_ & _ & _ & ->). done.
  - rewrite length_delete by done. split; [done|]. split; [done|]. lia.
Qed.

Lemma steps_shutdown_runs s s' :
  shuttingDown (fs_factory s) = true → rtc factory_step s s' → fs_runs s' = fs_runs s.
Proof.
  intros Hsd Hr. revert Hsd. induction Hr as [|s s1 s' Hs Hr IH]; [done|]. intros Hsd.
  destruct (step_shutdown_runs s s1 Hsd Hs) as (Hsd1 & Heq & _). rewrite IH by done. done.
Qed.

(** ** Claims *)

(** C37: informers are shared and run once, and none outlives Shutdown.  In every state that
    calls, goroutines and closed channels can lead to from a new factory: no informer was
    started twice; what was started is the informer the factory hands out for its type,
    and it stays that one; once Shutdown was called nothing more is started, and once it
    has returned no goroutine of the factory runs, now or later. *)
Theorem informers_shared_and_stopped f s s' :
  fresh_factory f → rtc factory_step (initial f) s → rtc factory_step s s' →
  NoDup (inf_id ∘ go_informer <$> fs_runs s)
  ∧ (∀ g, g ∈ fs_runs s → informers (fs_factory s') !! go_type g = Some (go_informer g))
  ∧ (shuttingDown (fs_factory s) = true → fs_runs s' = fs_runs s)
  ∧ ((0 < fs_returned s)%nat → fs_running s' = []).
Proof.
  intros Hf Hs Hs'. pose proof (steps_inv _ _ (initial_inv f Hf) Hs) as Hinv.
  pose proof (steps_inv _ _ Hinv Hs') as Hinv'.
  assert (informers (fs_factory s) ⊆ informers (fs_factory s')) as Hsub.
  { clear -Hs'. induction Hs' as [|s s1 s' H1 _ IH]; [done|]. etrans; [by apply step_informers|done]. }
  split; [|split; [|split]].
  - apply (NoDup_fmap_2_strong (inf_id ∘ go_informer)).
    + intros g g' Hg Hg' Heq.
      pose proof (fi_informers _ Hinv g Hg) as Hi. pose proof (fi_informers _ Hinv g' Hg') as Hi'.
      pose proof (fi_distinct _ Hinv _ _ _ _ Hi Hi' Heq) as Ht.
      apply list_elem_of_lookup in Hg as [a Ha], Hg' as [b Hb].
      assert (a = b) as <-; [|congruence].
      eapply NoDup_lookup; [exact (fi_runs _ Hinv)| |]; rewrite list_lookup_fmap.
      * by rewrite Ha.
      * rewrite Hb. simpl. by rewrite Ht.
    + eapply NoDup_fmap_1, (fi_runs _ Hinv).
  - intros g Hg. eapply lookup_weaken; [by apply (fi_informers _ Hinv)|done].
  - intros Hsd. by apply steps_shutdown_runs.
  - intros Hret. apply (fi_returned _ Hinv').
    clear -Hret Hs'. induction Hs' as [|s s1 s' H1 _ IH]; [done|]. apply IH.
    destruct H1; simpl; lia.
Qed.

Lemma shutdown_finishes n s :
  factory_inv s → length (fs_running s) = n → (0 < fs_waiting s)%nat →
  (∀ g, g ∈ fs_running s → go_stop g ∈ fs_closed s) →
  ∃ s', rtc factory_step s s' ∧ fs_returned s' = S (fs_returned s).
Proof.
  revert s. induction n as [|n IH]; intros s Hinv Hlen Hw Hcl.
  - destruct (fs_waiting s) as [|w] eqn:Hwt; [lia|]. eexists. split.
    + apply rtc_once. eapply (step_return w); [done|]. by rewrite (fi_wg _ Hinv).
    + done.
  - destruct (fs_running s) as [|g l] eqn:Hr; [done|].
    assert (factory_step s (mkState (wg_Done (fs_factory s)) (delete 0%nat (fs_running s)) (fs_runs s)
      (fs_closed s) (fs_waiting s) (fs_returned s))) as Hstep.
    { apply (step_done 0 g); [by rewrite Hr|]. apply Hcl. by left. }
    rewrite Hr in Hstep. simpl in Hstep.
    edestruct IH as (s' & Hs' & Hret); [by eapply step_inv|simpl in *; lia|done| |].
    + simpl. intros g' Hg'. apply Hcl. by right.
    + exists s'. split; [by eapply rtc_l|done].
Qed.

(** Shutdown returns.  When a caller waits in Shutdown and the stop channels of the
    goroutines that still run are closed, the goroutines can end one after the other and
    Shutdown then returns; until it does, no step adds a goroutine to wait for. *)
Theorem shutdown_returns f s :
  fresh_factory f → rtc factory_step (initial f) s → (0 < fs_waiting s)%nat →
  (∀ g, g ∈ fs_running s → go_stop g ∈ fs_closed s) →
  (∃ s', rtc factory_step s s' ∧ fs_returned s' = S (fs_returned s))
  ∧ ∀ s', factory_step s s' → (length (fs_running s') <= length (fs_running s))%nat.
Proof.
  intros Hf Hs Hw Hcl. pose proof (steps_inv _ _ (initial_inv f Hf) Hs) as Hinv.
  split; [by eapply shutdown_finishes|]. intros s' Hstep.
  eapply step_shutdown_runs; [|exact Hstep]. apply (fi_shut _ Hinv). lia.
Qed.

(** ** The accessors share the factory's informers *)

(** A second request for a type returns the same informer and changes nothing, whatever
    constructor comes with it. *)
Lemma InformerFor_again obj nf nf' (f : factory) :
  let r := InformerFor obj nf f in InformerFor obj nf' r.2 = r.
Proof.
  simpl. unfold InformerFor. destruct (informers f !! obj) as [i|] eqn:Ho; simpl.
  - by rewrite Ho.
  - by rewrite lookup_insert_eq.
Qed.

(** The informer of the models of a factory, and of its pools. *)
Definition models_of (f : factory) : factory → informer * factory :=
  InferenceModels_Informer (version_InferenceModels (V1alpha2 (Inference f))).
Definition pools_of (f : factory) : factory → informer * factory :=
  InferencePools_Informer (version_InferencePools (V1alpha2 (Inference f))).

(** The generic accessor and the typed one return one informer, which lists and watches
    the namespace of the factory with the factory's options. *)
Lemma ForResource_shared (f : factory) :
  let r := ForResource (WithResource "inferencemodels") f in
  ∃ i, r = (Some (mkGeneric i (GroupResource (WithResource "inferencemodels"))), r.2)
    ∧ models_of r.2 r.2 = (i, r.2)
    ∧ (informers f !! InferenceModelType = None →
       lw_namespace (inf_listwatch i) = namespace f ∧ lw_tweak (inf_listwatch i) = tweakListOptions f
       ∧ inf_transform i = transform f
       ∧ inf_resync i = default (defaultResync f) (customResync f !! InferenceModelType)).
Proof.
  unfold ForResource. rewrite bool_decide_true by done. fold (models_of f). unfold models_of, InferenceModels_Informer.
  destruct (InformerFor InferenceModelType _ f) as [i f'] eqn:Hi. simpl. exists i. split; [done|]. split.
  - pose proof (InformerFor_again InferenceModelType
      (InferenceModels_defaultInformer (version_InferenceModels (V1alpha2 (Inference f))))
      (InferenceModels_defaultInformer (version_InferenceModels (V1alpha2 (Inference f')))) f) as Ha.
    cbv zeta in Ha. rewrite Hi in Ha. exact Ha.
  - intros Hn. unfold InformerFor in Hi. rewrite Hn in Hi. by simplify_eq/=.
Qed.

Lemma foldl_range_insert {A B} (g : A → B) (m : gmap rtype A) :
  foldl (λ out kv, <[kv.1 := g kv.2]> out) ∅ (map_range m) = g <$> m.
Proof.
  assert (∀ l (out : gmap rtype B),
    foldl (λ out (kv : rtype * A), <[kv.1 := g kv.2]> out) out l
    = foldl (λ out kv, <[kv.1 := kv.2]> out) out (prod_map id g <$> l)) as ->.
  { induction l as [|[k a] l IH]; intros out; [done|]. simpl. apply IH. }
  assert ((prod_map id g <$> map_range m).*1 = (map_range m).*1) as Hk.
  { rewrite <-list_fmap_compose. by apply list_fmap_ext. }
  pose proof (map_range_NoDup m) as Hnd.
  rewrite foldl_insert_union, (right_id_L ∅ (∪)) by (by rewrite Hk).
  rewrite list_to_map_fmap. f_equal. rewrite <-(list_to_map_to_list m) at 2.
  apply list_to_map_proper; [done|apply map_range_perm].
Qed.

Lemma foldl_range_filter {A} (p : rtype → bool) (m : gmap rtype A) t :
  foldl (λ out kv, if p kv.1 then <[kv.1 := kv.2]> out else out) (∅ : gmap rtype A) (map_range m) !! t
  = if p t then m !! t else None.
Proof.
  assert (∀ l (out : gmap rtype A), (∀ k a, (k, a) ∈ l → m !! k = Some a) →
    foldl (λ out kv, if p kv.1 then <[kv.1 := kv.2]> out else out) out l !! t
    = if p t && bool_decide (t ∈ l.*1) then m !! t else out !! t) as Hfold.
  { induction l as [|[k a] l IH]; intros out Hm; [simpl; by rewrite andb_false_r|].
    cbn [foldl fst snd]. rewrite fmap_cons. cbn [fst].
    rewrite IH by set_solver.
    assert (m !! k = Some a) as Hk by (apply Hm; by left).
    destruct (decide (t = k)) as [->|Hne].
    - rewrite (bool_decide_true (k ∈ k :: l.*1)) by (by left).
      destruct (p k); simpl; [|done]. rewrite Hk.
      destruct (bool_decide (k ∈ l.*1)); [done|]. by rewrite lookup_insert_eq.
    - assert (bool_decide (t ∈ k :: l.*1) = bool_decide (t ∈ l.*1)) as ->
        by (apply bool_decide_ext; rewrite elem_of_cons; naive_solver).
      destruct (p t && _); [done|]. destruct (p k); [by rewrite lookup_insert_ne|done]. }
  rewrite Hfold by (intros k a Hka; by apply map_range_elem). rewrite lookup_empty.
  destruct (p t); simpl; [|done]. case_bool_decide as Hin; [done|]. symmetry.
  destruct (m !! t) as [a|] eqn:Ht; [|done]. destruct Hin. apply list_elem_of_fmap.
  exists (t, a). split; [done|]. by apply map_range_elem.
Qed.

(** WaitForCacheSync reports on exactly the informers that were started. *)
Lemma WaitForCacheSync_spec synced (f : factory) t :
  WaitForCacheSync synced f !! t =
    i ← informers f !! t; if started f t then Some (synced i) else None.
Proof.
  unfold WaitForCacheSync. rewrite foldl_range_insert, lookup_fmap.
  rewrite (foldl_range_filter (started f) (informers f) t).
  destruct (started f t), (informers f !! t); done.
Qed.
End system.

(** * Witnesses *)

Definition example_factory : @sharedInformerFactory unit unit :=
  NewFilteredSharedInformerFactory tt 30 "default" None.

Lemma example_fresh : fresh_factory example_factory.
Proof. repeat split. Qed.

Definition with_informer : @sharedInformerFactory unit unit :=
  (models_of example_factory example_factory).2.

(** An informer was requested and started on channel 7, Shutdown was called and the
    channel closed. *)
Definition stopping : fstate :=
  let r := Start 7 with_informer in
  mkState (Shutdown r.1) ([] ++ r.2) ([] ++ r.2) ({[7]} ∪ ∅) 1 0.

Lemma stopping_reachable : rtc factory_step (initial example_factory) stopping.
Proof.
  eapply rtc_l; [apply (step_InformerFor InferenceModelType
    (λ c resync, NewFilteredInferenceModelInformer c "default" resync [NamespaceIndex] None))|].
  eapply rtc_l; [apply (step_Start 7 _ _ _ (surjective_pairing _))|].
  eapply rtc_l; [apply step_Shutdown|]. eapply rtc_l; [apply (step_close 7)|]. apply rtc_refl.
Qed.

Lemma stopping_running :
  ∃ g, fs_running stopping = [g] ∧ go_stop g = 7 ∧ wg (fs_factory stopping) = 1.
Proof. eexists. split; [vm_compute; reflexivity|]. split; vm_compute; reflexivity. Qed.

(** Then the goroutine ended and Shutdown returned. *)
Definition stopped : fstate :=
  mkState (wg_Done (fs_factory stopping)) (delete 0 (fs_running stopping)) (fs_runs stopping)
    (fs_closed stopping) 0 1.

Lemma stopped_reachable : rtc factory_step stopping stopped.
Proof.
  destruct stopping_running as (g & Hr & Hg & Hw).
  eapply rtc_l; [apply (step_done 0 g); [by rewrite Hr|rewrite Hg; set_solver]|].
  eapply rtc_l; [apply (step_return 0); [done|]; unfold wg_Done; cbn [fs_factory wg]; by rewrite Hw|].
  apply rtc_refl.
Qed.

Lemma informers_shared_and_stopped_witness :
  length (fs_runs stopping) = 1 ∧ fs_runs stopped = fs_runs stopping ∧ fs_running stopped = [].
Proof.
  pose proof (informers_shared_and_stopped example_factory stopping stopped
              example_fresh stopping_reachable stopped_reachable) as (_ & _ & Hruns & _).
  assert (rtc factory_step (initial example_factory) stopped) as Hreach
    by (etrans; [apply stopping_reachable|apply stopped_reachable]).
  pose proof (informers_shared_and_stopped example_factory stopped stopped example_fresh
              Hreach (rtc_refl _ _)) as (_ & _ & _ & Hend).
  split; [vm_compute; reflexivity|]. split; [by apply Hruns|]. apply Hend. apply Nat.lt_0_1.
Defined.

Lemma shutdown_returns_witness :
  (∃ s', rtc factory_step stopping s' ∧ fs_returned s' = 1)
  ∧ ∀ s', factory_step stopping s' → (length (fs_running s') <= length (fs_running stopping))%nat.
Proof.
  apply (shutdown_returns example_factory stopping example_fresh stopping_reachable);
    [apply Nat.lt_0_1|].
  intros g Hg. destruct stopping_running as (g0 & Hr & Hg0 & _). rewrite Hr in Hg.
  apply list_elem_of_singleton in Hg as ->. rewrite Hg0. set_solver.
Defined.
