(* ===== verification/Listers.v ===== *)
(** * client-go/listers, and the listers of the informers

    A lister reads the store of an informer, its indexer; [ResourceIndexer] of client-go
    is the record of what the generated code hands to it, and an indexer is named by the
    informer it belongs to.

    Theorem: the typed lister, the generic lister and the informer of one kind, taken from
    one factory in any order, read one store. *)

From S2P Require Import Prelude GoInt Api Informers InformersProofs.

(** [listers.ResourceIndexer]: an indexer, the resource it names in errors, and the
    namespace it is restricted to. *)
Record resource_indexer (Indexer : Type) := mkIndexer {
  ri_indexer : Indexer;
  ri_resource : string * string;
  ri_namespace : option string
}.
Arguments mkIndexer {Indexer}.
Arguments ri_indexer {Indexer}.
Arguments ri_resource {Indexer}.
Arguments ri_namespace {Indexer}.

Definition NewInferenceModelLister {Indexer} (indexer : Indexer) : resource_indexer Indexer :=
  mkIndexer indexer (Resource "inferencemodel") None.
Definition NewInferencePoolLister {Indexer} (indexer : Indexer) : resource_indexer Indexer :=
  mkIndexer indexer (Resource "inferencepool") None.

(** [listers.NewNamespaced]. *)
Definition InferenceModels_lister {Indexer} (s : resource_indexer Indexer) (namespace : string) :=
  mkIndexer (ri_indexer s) (ri_resource s) (Some namespace).
Definition InferencePools_lister {Indexer} (s : resource_indexer Indexer) (namespace : string) :=
  mkIndexer (ri_indexer s) (ri_resource s) (Some namespace).

Section listers.
Context {ListOptions client_set : Type}.
Abbreviation factory := (@sharedInformerFactory ListOptions client_set).
Abbreviation informer := (@informer ListOptions client_set).
Abbreviation typed_informer := (@typed_informer ListOptions).

(** [GetIndexer] of an informer: its store, which there is one of for each informer. *)
Definition GetIndexer (i : informer) : nat := inf_id i.

Definition InferenceModels_Lister (t : typed_informer) (f : factory) : resource_indexer nat * factory :=
  let '(i, f) := InferenceModels_Informer t f in (NewInferenceModelLister (GetIndexer i), f).
Definition InferencePools_Lister (t : typed_informer) (f : factory) : resource_indexer nat * factory :=
  let '(i, f) := InferencePools_Informer t f in (NewInferencePoolLister (GetIndexer i), f).

(** [cache.NewGenericLister] takes the indexer and the resource. *)
Definition genericInformer_Lister (g : genericInformer) : resource_indexer nat :=
  mkIndexer (GetIndexer (genericInformer_Informer g)) (gi_resource g) None.

(** ** What the accessors read *)

(** The ways a caller gets at the objects of a kind: the typed informer, its lister, and
    the generic informer with its lister, by resource. *)
Inductive access :=
  | ModelInformer (t : typed_informer)
  | ModelLister (t : typed_informer)
  | PoolInformer (t : typed_informer)
  | PoolLister (t : typed_informer)
  | Generic (r : GroupVersionResource).

(** The store an access reads; an unknown resource has none. *)
Definition read (a : access) (f : factory) : option nat * factory :=
  match a with
  | ModelInformer t => let '(i, f) := InferenceModels_Informer t f in (Some (GetIndexer i), f)
  | ModelLister t => let '(l, f) := InferenceModels_Lister t f in (Some (ri_indexer l), f)
  | PoolInformer t => let '(i, f) := InferencePools_Informer t f in (Some (GetIndexer i), f)
  | PoolLister t => let '(l, f) := InferencePools_Lister t f in (Some (ri_indexer l), f)
  | Generic r =>
      let '(g, f) := ForResource r f in ((λ g, ri_indexer (genericInformer_Lister g)) <$> g, f)
  end.

Definition kind_of (a : access) : option rtype :=
  match a with
  | ModelInformer _ | ModelLister _ => Some InferenceModelType
  | PoolInformer _ | PoolLister _ => Some InferencePoolType
  | Generic r => if bool_decide (r = WithResource "inferencemodels") then Some InferenceModelType
                 else if bool_decide (r = WithResource "inferencepools") then Some InferencePoolType
                 else None
  end.

(** The stores the accesses of a sequence read. *)
Fixpoint reads (l : list access) (f : factory) : list (option nat) :=
  match l with
  | [] => []
  | a :: l => let '(n, f) := read a f in n :: reads l f
  end.

(** The factory after them. *)
Definition after (l : list access) (f : factory) : factory := foldl (λ f a, (read a f).2) f l.

(** An access with a kind asks the factory for the informer of that kind, once. *)
Lemma read_informer a f t :
  kind_of a = Some t →
  ∃ nf, read a f = (Some (GetIndexer (InformerFor t nf f).1), (InformerFor t nf f).2).
Proof.
  unfold kind_of, read, ForResource, InferenceModels_Lister, InferencePools_Lister,
    InferenceModels_Informer, InferencePools_Informer.
  destruct a; repeat case_bool_decide; intros [= <-]; eexists;
    (destruct (InformerFor _ _ f) eqn:Hf; simpl; rewrite Hf; reflexivity).
Qed.

Lemma read_none a (f : factory) : kind_of a = None → read a f = (None, f).
Proof. destruct a; simpl; try done. unfold ForResource. repeat case_bool_decide; done. Qed.

(** Stores are numbered below the next one, each kind has its own. *)
Definition stores_ok (f : factory) : Prop :=
  (∀ t i, informers f !! t = Some i → (inf_id i < next_id f)%nat)
  ∧ ∀ t t' i i', informers f !! t = Some i → informers f !! t' = Some i' → inf_id i = inf_id i' → t = t'.

Lemma InformerFor_ok t nf f : stores_ok f → stores_ok (InformerFor t nf f).2.
Proof.
  intros [Hlt Hinj]. unfold InformerFor. destruct (informers f !! t) as [i|] eqn:Ht; [done|].
  split; simpl.
  - intros t' i [[<- <-]|[_ Hl%Hlt]]%lookup_insert_Some; simpl; lia.
  - intros t1 t2 i1 i2 [[<- <-]|[_ H1]]%lookup_insert_Some [[<- <-]|[_ H2]]%lookup_insert_Some; simpl;
      [done| | |by apply Hinj].
    + apply Hlt in H2. lia.
    + apply Hlt in H1. lia.
Qed.

Lemma read_ok a f : stores_ok f → stores_ok (read a f).2.
Proof.
  intros Hf. destruct (kind_of a) as [t|] eqn:Hk.
  - destruct (read_informer a f t Hk) as [nf ->]. by apply InformerFor_ok.
  - by rewrite read_none.
Qed.

(** After an access of a kind its informer is there, and later accesses keep it. *)
Lemma read_present a f t n :
  kind_of a = Some t → (read a f).1 = Some n →
  ∃ i, informers (read a f).2 !! t = Some i ∧ inf_id i = n.
Proof.
  intros Hk. destruct (read_informer a f t Hk) as [nf ->]. intros [= <-]. unfold InformerFor.
  destruct (informers f !! t) as [i|] eqn:Ht; simpl; [by exists i|].
  rewrite lookup_insert_eq. by eexists.
Qed.

Lemma read_keeps a (f : factory) t i : informers f !! t = Some i → informers (read a f).2 !! t = Some i.
Proof.
  intros Ht. destruct (kind_of a) as [t'|] eqn:Hk.
  - destruct (read_informer a f t' Hk) as [nf ->].
    destruct (InformerFor_keeps t' nf f) as [Hsub _]. by apply (lookup_weaken _ _ _ _ Ht).
  - by rewrite read_none.
Qed.

Lemma after_ok l f : stores_ok f → stores_ok (after l f).
Proof. revert f. induction l as [|a l IH]; intros f Hf; simpl; [done|]. by apply IH, read_ok. Qed.

Lemma after_keeps l (f : factory) t i : informers f !! t = Some i → informers (after l f) !! t = Some i.
Proof. revert f. induction l as [|a l IH]; intros f Hf; simpl; [done|]. by apply IH, read_keeps. Qed.

(** What an access of a sequence read is the store of its kind in the factory the sequence
    leaves. *)
Lemma reads_after l f k a n :
  l !! k = Some a → reads l f !! k = Some (Some n) →
  ∃ t i, kind_of a = Some t ∧ informers (after l f) !! t = Some i ∧ inf_id i = n.
Proof.
  revert f k. induction l as [|b l IH]; intros f [|k] Hl Hn; simplify_eq/=.
  - destruct (kind_of a) as [t|] eqn:Hk; [|by rewrite read_none in Hn].
    destruct (read a f) as [m g] eqn:Hr. simplify_eq/=.
    destruct (read_present a f t n) as (i & Hi & Hin); [done|by rewrite Hr|]. rewrite Hr in Hi.
    exists t, i. split; [done|]. split; [|done]. by apply after_keeps.
  - destruct (read b f) as [m g] eqn:Hr. simpl. by apply (IH g k).
Qed.

(** Whatever the order of the accesses to one factory, two accesses read the same store
    exactly when they are of the same kind: the typed informer, its lister and the
    generic lister of a resource always agree, and the stores of the two kinds are never
    mixed up. *)
Theorem accessors_share_stores l f j k a b n m :
  stores_ok f → l !! j = Some a → l !! k = Some b →
  reads l f !! j = Some (Some n) → reads l f !! k = Some (Some m) →
  (n = m ↔ kind_of a = kind_of b).
Proof.
  intros Hf Ha Hb Hn Hm.
  destruct (reads_after l f j a n Ha Hn) as (t & i & -> & Hi & <-).
  destruct (reads_after l f k b m Hb Hm) as (t' & i' & -> & Hi' & <-).
  split; [|intros [= <-]; congruence].
  intros Hid. f_equal. by eapply (proj2 (after_ok l f Hf)).
Qed.

(** A new factory has no store yet. *)
Lemma new_factory_ok c resync opts :
  (∀ opt, opt ∈ opts → ∀ f : factory, informers (opt f) = informers f) →
  stores_ok (NewSharedInformerFactoryWithOptions c resync opts).
Proof.
  intros Hopts. unfold stores_ok.
  assert (informers (NewSharedInformerFactoryWithOptions c resync opts) = ∅) as ->; [|set_solver].
  unfold NewSharedInformerFactoryWithOptions.
  assert (∀ f : factory, informers (foldl (λ f opt, opt f) f opts) = informers f) as ->; [|done].
  induction opts as [|opt opts IH]; intros f; simpl; [done|].
  rewrite IH by set_solver. apply Hopts. set_solver.
Qed.
End listers.

(** Models and pools through every accessor of one factory. *)
Lemma accessors_share_stores_witness :
  let f := NewSharedInformerFactory () 30%Z in
  let v := V1alpha2 (Inference f) in
  let l := [PoolLister (version_InferencePools v); Generic (WithResource "inferencemodels");
            Generic (WithResource "inferencepools"); ModelInformer (version_InferenceModels v);
            Generic (WithResource "gateways")] in
  reads l (f : @sharedInformerFactory nat ()) = [Some 0; Some 1; Some 0; Some 1; None]%nat
  ∧ kind_of (ListOptions := nat) (Generic (WithResource "inferencemodels"))
    = kind_of (ModelInformer (version_InferenceModels v)).
Proof.
  intros f v l. split; [by vm_compute|].
  refine (proj1 (accessors_share_stores l f 1 3 _ _ 1 1 _ eq_refl eq_refl eq_refl eq_refl) eq_refl).
  apply (new_factory_ok () 30%Z []). set_solver.
Defined.
