(* ===== verification/Clientset.v ===== *)
(** * client-go/clientset

    The generated clientset: construction from a configuration, the client of the group
    and its typed clients.  REST clients, rate limiters and discovery are the class
    [RestLibrary].

    Theorems: a clientset is made exactly when the library calls succeed and the burst of a
    configuration with a positive rate is positive; both of its clients then share one rate
    limiter, the caller's if there is one; the constructors that die panic exactly on an
    error. *)

From S2P Require Import Prelude GoInt Float64 Api Errors.

Local Open Scope Z_scope.

Section clientset.
Context {RateLimiter : Type}.

(** [rest.Config], the fields the generated code touches; a float32 rate is the binary64
    of the same value, [cfg_rest] stands for the fields that are only passed on. *)
Record rest_Config (Other : Type) := mkConfig {
  cfg_UserAgent : string;
  cfg_QPS : float64;
  cfg_Burst : Z;
  cfg_RateLimiter : option RateLimiter;
  cfg_GroupVersion : option (string * string);
  cfg_APIPath : string;
  cfg_NegotiatedSerializer : option string;
  cfg_rest : Other
}.
Arguments mkConfig {Other}.
Arguments cfg_UserAgent {Other}.
Arguments cfg_QPS {Other}.
Arguments cfg_Burst {Other}.
Arguments cfg_RateLimiter {Other}.
Arguments cfg_GroupVersion {Other}.
Arguments cfg_APIPath {Other}.
Arguments cfg_NegotiatedSerializer {Other}.
Arguments cfg_rest {Other}.

Context {Other HttpClient RestClient DiscoveryClient : Type}.
Abbreviation Config := (rest_Config Other).

Class RestLibrary := {
  DefaultKubernetesUserAgent : string;
  HTTPClientFor : Config → HttpClient + error;
  RESTClientForConfigAndClient : Config → HttpClient → RestClient + error;
  NewDiscoveryClientForConfigAndClient : Config → HttpClient → DiscoveryClient + error;
  NewDiscoveryClient : RestClient → DiscoveryClient;
  NewTokenBucketRateLimiter : float64 → Z → RateLimiter
}.

Context `{RestLibrary}.

(** ** typed/api/v1alpha2/api_client.go *)

(** [InferenceV1alpha2Client]; a nil receiver is [None]. *)
Record InferenceV1alpha2Client := mkClient { restClient : RestClient }.

Definition set_UserAgent (ua : string) (c : Config) : Config :=
  mkConfig ua (cfg_QPS c) (cfg_Burst c) (cfg_RateLimiter c) (cfg_GroupVersion c) (cfg_APIPath c)
    (cfg_NegotiatedSerializer c) (cfg_rest c).

Definition set_RateLimiter (r : RateLimiter) (c : Config) : Config :=
  mkConfig (cfg_UserAgent c) (cfg_QPS c) (cfg_Burst c) (Some r) (cfg_GroupVersion c) (cfg_APIPath c)
    (cfg_NegotiatedSerializer c) (cfg_rest c).

Definition default_user_agent (c : Config) : Config :=
  if bool_decide (cfg_UserAgent c = "") then set_UserAgent DefaultKubernetesUserAgent c else c.

(** [setConfigDefaults]; it has no error to return.  The serializer is that of the scheme
    without conversion. *)
Definition setConfigDefaults (config : Config) : Config :=
  default_user_agent
    (mkConfig (cfg_UserAgent config) (cfg_QPS config) (cfg_Burst config) (cfg_RateLimiter config)
       (Some SchemeGroupVersion) "/apis" (Some "scheme.Codecs") (cfg_rest config)).

(** The result type of a constructor that may fail, and the next step on success. *)
Definition and_then {A B} (r : A + error) (f : A → B + error) : B + error :=
  match r with inl a => f a | inr e => inr e end.

Definition api_NewForConfigAndClient (c : Config) (h : HttpClient) : InferenceV1alpha2Client + error :=
  and_then (RESTClientForConfigAndClient (setConfigDefaults c) h) (λ client, inl (mkClient client)).

Definition api_NewForConfig (c : Config) : InferenceV1alpha2Client + error :=
  let config := setConfigDefaults c in
  and_then (HTTPClientFor config) (api_NewForConfigAndClient config).

(** [panic(err)]. *)
Definition or_die {A} (r : A + error) : outcome A :=
  match r with inl a => Val a | inr e => Panic (ExplicitPanic (error_text e)) end.

Definition api_NewForConfigOrDie (c : Config) : outcome InferenceV1alpha2Client :=
  or_die (api_NewForConfig c).

Definition api_New (c : RestClient) : InferenceV1alpha2Client := mkClient c.

Definition RESTClient (c : option InferenceV1alpha2Client) : option RestClient :=
  restClient <$> c.

(** ** typed/api/v1alpha2/inferencemodel.go and inferencepool.go *)

(** [gentype.ClientWithListAndApply]: resource, REST client, parameter codec, namespace,
    and the kinds of the objects and lists it makes. *)
Record typed_client := mkTyped {
  tc_resource : string;
  tc_client : option RestClient;
  tc_namespace : string;
  tc_object : string;
  tc_list : string
}.

Definition newInferenceModels (c : option InferenceV1alpha2Client) (namespace : string) : typed_client :=
  mkTyped "inferencemodels" (RESTClient c) namespace "InferenceModel" "InferenceModelList".

Definition newInferencePools (c : option InferenceV1alpha2Client) (namespace : string) : typed_client :=
  mkTyped "inferencepools" (RESTClient c) namespace "InferencePool" "InferencePoolList".

Definition InferenceModels (c : option InferenceV1alpha2Client) (namespace : string) : typed_client :=
  newInferenceModels c namespace.
Definition InferencePools (c : option InferenceV1alpha2Client) (namespace : string) : typed_client :=
  newInferencePools c namespace.

(** ** clientset.go *)

Record Clientset := mkClientset {
  cs_DiscoveryClient : DiscoveryClient;
  cs_inferenceV1alpha2 : InferenceV1alpha2Client
}.

Definition InferenceV1alpha2 (c : Clientset) : InferenceV1alpha2Client := cs_inferenceV1alpha2 c.

Definition Discovery (c : option Clientset) : option DiscoveryClient := cs_DiscoveryClient <$> c.

Definition burst_error : error :=
  PlainError "burst is required to be greater than 0 when RateLimiter is not set and QPS is set to greater than 0".

(** The limiter both clients get. *)
Definition with_limiter (c : Config) : Config + error :=
  match cfg_RateLimiter c with
  | None =>
      if fltb fzero (cfg_QPS c) then
        if cfg_Burst c <=? 0 then inr burst_error
        else inl (set_RateLimiter (NewTokenBucketRateLimiter (cfg_QPS c) (cfg_Burst c)) c)
      else inl c
  | Some _ => inl c
  end.

Definition NewForConfigAndClient (c : Config) (httpClient : HttpClient) : Clientset + error :=
  and_then (with_limiter c) (λ config,
  and_then (api_NewForConfigAndClient config httpClient) (λ client,
  and_then (NewDiscoveryClientForConfigAndClient config httpClient) (λ discovery,
  inl (mkClientset discovery client)))).

Definition NewForConfig (c : Config) : Clientset + error :=
  let config := default_user_agent c in
  and_then (HTTPClientFor config) (NewForConfigAndClient config).

Definition NewForConfigOrDie (c : Config) : outcome Clientset := or_die (NewForConfig c).

Definition New (c : RestClient) : Clientset := mkClientset (NewDiscoveryClient c) (api_New c).

(** ** Theorems *)

Lemma and_then_inl {A B} (r : A + error) (f : A → B + error) b :
  and_then r f = inl b ↔ ∃ a, r = inl a ∧ f a = inl b.
Proof. destruct r; simpl; naive_solver. Qed.

(** Setting the defaults twice is setting them once. *)
Lemma setConfigDefaults_idemp c :
  DefaultKubernetesUserAgent ≠ "" → setConfigDefaults (setConfigDefaults c) = setConfigDefaults c.
Proof.
  intros Hua. unfold setConfigDefaults, default_user_agent. simpl.
  repeat (case_bool_decide; simpl); done.
Qed.

(** A clientset from a configuration: the limiter is the caller's or a token bucket of the
    configured rate and burst, which is positive; the REST client is made from the same
    configuration as the discovery client, with group, version and path of this API and a
    user agent. *)
Lemma NewForConfigAndClient_spec c h cs :
  NewForConfigAndClient c h = inl cs ↔
  ∃ config, with_limiter c = inl config
    ∧ RESTClientForConfigAndClient (setConfigDefaults config) h = inl (restClient (InferenceV1alpha2 cs))
    ∧ NewDiscoveryClientForConfigAndClient config h = inl (cs_DiscoveryClient cs).
Proof.
  unfold NewForConfigAndClient, api_NewForConfigAndClient. rewrite and_then_inl. split.
  - intros (config & Hl & Hc). apply and_then_inl in Hc as (client & Hr & Hc).
    apply and_then_inl in Hr as (rc & Hr & Hcl). apply and_then_inl in Hc as (d & Hd & Hcs).
    simplify_eq. eauto.
  - intros (config & Hl & Hr & Hd). exists config. split; [done|]. rewrite Hr. simpl. rewrite Hd. simpl.
    destruct cs as [d [r]]. done.
Qed.

Lemma with_limiter_spec c config :
  with_limiter c = inl config →
  cfg_UserAgent config = cfg_UserAgent c ∧ cfg_QPS config = cfg_QPS c ∧ cfg_Burst config = cfg_Burst c
  ∧ (∀ r, cfg_RateLimiter c = Some r → cfg_RateLimiter config = Some r)
  ∧ (cfg_RateLimiter c = None → fltb fzero (cfg_QPS c) = true →
     0 < cfg_Burst c
     ∧ cfg_RateLimiter config = Some (NewTokenBucketRateLimiter (cfg_QPS c) (cfg_Burst c)))
  ∧ (cfg_RateLimiter c = None → fltb fzero (cfg_QPS c) = false → cfg_RateLimiter config = None).
Proof.
  unfold with_limiter. destruct (cfg_RateLimiter c) as [r|] eqn:Hr.
  { intros [= <-]. repeat split; try done; congruence. }
  destruct (fltb fzero (cfg_QPS c)) eqn:Hq.
  - destruct (Z.leb_spec (cfg_Burst c) 0); [done|]. intros [= <-]. simpl. repeat split; try done.
  - intros [= <-]. repeat split; try done; congruence.
Qed.

(** The constructor that dies panics exactly when the other returns an error. *)
Lemma NewForConfigOrDie_spec c :
  (∃ cs, NewForConfigOrDie c = Val cs ∧ NewForConfig c = inl cs)
  ∨ ∃ e, NewForConfigOrDie c = Panic (ExplicitPanic (error_text e)) ∧ NewForConfig c = inr e.
Proof. unfold NewForConfigOrDie. destruct (NewForConfig c) as [cs|e]; [left|right]; eauto. Qed.

(** Without a limiter a positive rate needs a positive burst. *)
Lemma burst_required c h :
  cfg_RateLimiter c = None → fltb fzero (cfg_QPS c) = true → cfg_Burst c <= 0 →
  NewForConfigAndClient c h = inr burst_error.
Proof.
  intros Hr Hq Hb. unfold NewForConfigAndClient, with_limiter. rewrite Hr, Hq.
  by rewrite (proj2 (Z.leb_le _ _) Hb).
Qed.
End clientset.
