(* ===== verification/Schemes.v ===== *)
(** * Registration of the types in the schemes

    Four schemes are filled when the packages are initialised: that of the API package's
    users through its scheme builder (api/v1alpha2/zz_generated.register.go), those of the
    clientset and of the fake clientset (client-go/clientset/versioned/scheme/register.go
    and fake/register.go), and that of the controller manager
    (pkg/epp/server/controller_manager.go).  Also the parser of
    client-go/applyconfiguration/internal, built once, and the type converter.

    A scheme is the list of the kinds it knows.  The scheme builder and the types the
    libraries add are the class [SchemeLibrary].

    Theorem: with the API package initialised every scheme knows its four kinds, whatever
    the libraries add, and initialisation panics exactly when the client-go library's
    registration fails. *)

From S2P Require Import Prelude Api Errors.

Definition scheme_types : Type := list ((string * string) * string).

(** A function that adds types to a scheme. *)
Definition add_function : Type := scheme_types → scheme_types + error.

Class SchemeLibrary := {
  (** [runtime.SchemeBuilder] *)
  SchemeBuilder : Type;
  no_builder : SchemeBuilder;
  builder_of : list add_function → SchemeBuilder;
  builder_Register : SchemeBuilder → add_function → SchemeBuilder;
  builder_AddToScheme : SchemeBuilder → add_function;
  (** [metav1.AddToGroupVersion]: the types it adds *)
  AddToGroupVersion : string * string → scheme_types;
  (** [AddToScheme] of client-go's own scheme *)
  clientgo_AddToScheme : add_function;
  (** a builder applies its functions in order and stops at the first error *)
  builder_empty : ∀ s, builder_AddToScheme no_builder s = inl s;
  builder_register : ∀ b f s,
    builder_AddToScheme (builder_Register b f) s
    = match builder_AddToScheme b s with inl s' => f s' | inr e => inr e end;
  builder_literal : ∀ f s, builder_AddToScheme (builder_of [f]) s = f s
}.

Section schemes.
Context `{SchemeLibrary}.

(** [utilruntime.Must] *)
Definition Must (r : scheme_types + error) : outcome scheme_types :=
  match r with inl s => Val s | inr e => Panic (ExplicitPanic (error_text e)) end.

(** ** api/v1alpha2/zz_generated.register.go *)

(** [addKnownTypes] as a function of the builder; it never fails. *)
Definition register_known_types : add_function := λ s,
  inl (addKnownTypes (AddToGroupVersion SchemeGroupVersion) s).

(** The builder before and after [init]. *)
Definition api_SchemeBuilder : SchemeBuilder := no_builder.
Definition api_init (b : SchemeBuilder) : SchemeBuilder := builder_Register b register_known_types.

(** [AddToScheme] and [Install] are bound to the address of the builder, so they see what
    it holds when they are called. *)
Definition api_AddToScheme (b : SchemeBuilder) : add_function := builder_AddToScheme b.

(** ** The schemes of the clientsets *)

Definition localSchemeBuilder (b : SchemeBuilder) : SchemeBuilder := builder_of [api_AddToScheme b].

Definition AddToScheme (b : SchemeBuilder) : add_function := builder_AddToScheme (localSchemeBuilder b).

(** [init] of scheme/register.go, on a new scheme. *)
Definition clientset_scheme (b : SchemeBuilder) : outcome scheme_types :=
  Must (AddToScheme b ([] ++ AddToGroupVersion ("", "v1"))).

(** [init] of fake/register.go. *)
Definition fake_scheme (b : SchemeBuilder) : outcome scheme_types :=
  Must (AddToScheme b ([] ++ AddToGroupVersion ("", "v1"))).

(** ** controller_manager.go *)

Definition manager_scheme (b : SchemeBuilder) : outcome scheme_types :=
  s ← Must (clientgo_AddToScheme []); Must (api_AddToScheme b s).

(** ** Theorems *)

Definition knows (s : scheme_types) (k : string) : Prop := (SchemeGroupVersion, k) ∈ s.

Lemma api_AddToScheme_spec s :
  api_AddToScheme (api_init api_SchemeBuilder) s
  = inl (addKnownTypes (AddToGroupVersion SchemeGroupVersion) s).
Proof. unfold api_AddToScheme, api_init, api_SchemeBuilder. by rewrite builder_register, builder_empty. Qed.

Lemma known_types added s k :
  k ∈ ["InferenceModel"; "InferenceModelList"; "InferencePool"; "InferencePoolList"] →
  knows (addKnownTypes added s) k.
Proof.
  intros Hk. unfold knows, addKnownTypes. rewrite !elem_of_app. right. left.
  by apply list_elem_of_fmap_2.
Qed.

(** After the initialisation of the API package, the schemes of the clientsets know its
    kinds, and that of the manager too, with what client-go registers, unless client-go's
    registration fails, which panics. *)
Theorem schemes_know_the_kinds k :
  k ∈ ["InferenceModel"; "InferenceModelList"; "InferencePool"; "InferencePoolList"] →
  (∃ s, clientset_scheme (api_init api_SchemeBuilder) = Val s ∧ knows s k)
  ∧ (∃ s, fake_scheme (api_init api_SchemeBuilder) = Val s ∧ knows s k)
  ∧ match clientgo_AddToScheme [] with
    | inl s0 => ∃ s, manager_scheme (api_init api_SchemeBuilder) = Val s ∧ knows s k ∧ s0 ⊆ s
    | inr e => manager_scheme (api_init api_SchemeBuilder) = Panic (ExplicitPanic (error_text e))
    end.
Proof.
  intros Hk. unfold clientset_scheme, fake_scheme, AddToScheme, localSchemeBuilder, manager_scheme.
  rewrite builder_literal. pose proof (known_types (AddToGroupVersion SchemeGroupVersion)) as Hkn.
  rewrite !api_AddToScheme_spec. split; [|split]; [by eauto|by eauto|].
  destruct (clientgo_AddToScheme []) as [s0|e]; [|done]. cbn [Must mbind outcome_bind].
  rewrite api_AddToScheme_spec. eexists. split; [done|]. split; [by apply Hkn|].
  unfold addKnownTypes. set_solver.
Qed.

(** Before that initialisation nothing of the API would be registered. *)
Lemma schemes_need_init :
  clientset_scheme api_SchemeBuilder = Val (AddToGroupVersion ("", "v1")).
Proof.
  unfold clientset_scheme, AddToScheme, localSchemeBuilder, api_AddToScheme, api_SchemeBuilder.
  by rewrite builder_literal, builder_empty.
Qed.
End schemes.

(** A builder that is the list of its functions satisfies the laws; client-go is given one
    type here. *)
Definition list_builder_AddToScheme (b : list add_function) : add_function := λ s,
  foldl (λ r f, match r with inl s => f s | inr e => inr e end) (inl s) b.

#[refine] Definition list_schemes (client_go : add_function) : SchemeLibrary := {|
  SchemeBuilder := list add_function;
  no_builder := [];
  builder_of fs := fs;
  builder_Register b f := b ++ [f];
  builder_AddToScheme := list_builder_AddToScheme;
  AddToGroupVersion gv := [(gv, "ListOptions")];
  clientgo_AddToScheme := client_go
|}.
Proof.
  - done.
  - intros b f s. unfold list_builder_AddToScheme. by rewrite foldl_app.
  - done.
Defined.

Example manager_scheme_example :
  let lib := list_schemes (λ s, inl (s ++ [(("", "v1"), "Pod")])) in
  @manager_scheme lib (@api_init lib (@api_SchemeBuilder lib))
  = Val [(("", "v1"), "Pod"); (SchemeGroupVersion, "InferenceModel"); (SchemeGroupVersion, "InferenceModelList");
         (SchemeGroupVersion, "InferencePool"); (SchemeGroupVersion, "InferencePoolList");
         (SchemeGroupVersion, "ListOptions")].
Proof. by vm_compute. Qed.

(** ** client-go/applyconfiguration/internal and utils.go *)

Section parser.
(** [typed.NewParser] *)
Context {TypedParser : Type} (NewParser : string → option TypedParser * option error).

Definition newline : string := String (ascii_of_nat 10) EmptyString.

(** The schema, line by line. *)
Definition schemaYAML : string :=
  String.concat newline
    ["types:";
     "- name: __untyped_atomic_";
     "  scalar: untyped";
     "  list:";
     "    elementType:";
     "      namedType: __untyped_atomic_";
     "    elementRelationship: atomic";
     "  map:";
     "    elementType:";
     "      namedType: __untyped_atomic_";
     "    elementRelationship: atomic";
     "- name: __untyped_deduced_";
     "  scalar: untyped";
     "  list:";
     "    elementType:";
     "      namedType: __untyped_atomic_";
     "    elementRelationship: atomic";
     "  map:";
     "    elementType:";
     "      namedType: __untyped_deduced_";
     "    elementRelationship: separable";
     ""].

(** The package's state: whether the [Once] has run, and the parser. *)
Record parser_state := mkParserState {
  parserOnce : bool;
  parser : option TypedParser
}.

Definition parser_start : parser_state := mkParserState false None.

(** [Parser]: the first call builds the parser; [Once] has run even when its function
    panics. *)
Definition Parser (st : parser_state) : outcome (option TypedParser) * parser_state :=
  if parserOnce st then (Val (parser st), st)
  else
    let '(p, err) := NewParser schemaYAML in
    match err with
    | Some e => (Panic (ExplicitPanic ("Failed to parse schema: " +:+ error_text e)), mkParserState true p)
    | None => (Val p, mkParserState true p)
    end.

(** [NewTypeConverter]: the scheme and the parser as type resolver. *)
Record TypeConverter := mkTypeConverter {
  tcv_Scheme : scheme_types;
  tcv_TypeResolver : option TypedParser
}.

Definition NewTypeConverter (scheme : scheme_types) (st : parser_state)
  : outcome TypeConverter * parser_state :=
  let '(r, st) := Parser st in (mkTypeConverter scheme <$> r, st).

(** The schema is parsed at most once: the second call gives what the first one left, and
    a nil parser after a first call that panicked with one. *)
Lemma parser_built_once st :
  let '(r1, st1) := Parser st in
  Parser st1 = (Val (parser st1), st1)
  ∧ match r1 with Val p => parser st1 = p | Panic _ => parserOnce st = false end.
Proof.
  unfold Parser. destruct (parserOnce st) eqn:Ho; [by rewrite Ho|].
  destruct (NewParser schemaYAML) as [p [e|]]; simpl; by split.
Qed.
End parser.
