(* ===== verification/FakeClientset.v ===== *)
(** * client-go/clientset/versioned/fake: the clientset for tests

    [clientset_generated.go] and the fake client of the group with its typed clients
    ([typed/api/v1alpha2/fake]).  The object tracker and the reactions of client-go's
    testing package are the class [TestingLibrary]; trackers and [testing.Fake] objects are
    shared by pointer, so they live in a heap.

    Theorem: a clientset made from objects holds a tracker with exactly these objects
    added in order, and panics when one is refused; its discovery and its typed clients
    share one [Fake], whose reactions read that tracker when they are called. *)

From S2P Require Import Prelude Api Errors Schemes.

Section fake.
Context {Object Tracker Watch TypedParser RestClient : Type}.

(** Resource and kind within group and version. *)
Definition gvr : Type := (string * string) * string.

Class TestingLibrary := {
  NewObjectTracker : scheme_types → Tracker;
  NewFieldManagedObjectTracker : scheme_types → @TypeConverter TypedParser → Tracker;
  tracker_Add : Object → Tracker → Tracker + error;
  tracker_Watch : gvr → string → Tracker → Watch + error
}.
Context `{TestingLibrary}.

(** ** testing.Fake *)

Abbreviation ref := positive (only parsing).

(** Reactions are registered for a verb and a resource; both kinds read a tracker. *)
Inductive reactor :=
  | ObjectReaction (verb resource : string) (tracker : ref)
  | WatchReaction (resource : string) (tracker : ref).

(** The [Fake] objects with their chains of reactions, and the trackers. *)
Record fake_heap := mkFakeHeap {
  fh_fakes : gmap ref (list reactor);
  fh_trackers : gmap ref Tracker
}.

(** ** clientset_generated.go *)

(** [Clientset]: its own [Fake], the one its discovery client points to, its tracker. *)
Record FakeClientset := mkFakeClientset {
  fc_Fake : ref;
  fc_discovery : ref;
  fc_tracker : ref
}.

(** The loop over the objects. *)
Fixpoint add_objects (objects : list Object) (o : Tracker) : outcome Tracker :=
  match objects with
  | [] => Val o
  | obj :: objects =>
      match tracker_Add obj o with
      | inr e => Panic (ExplicitPanic (error_text e))
      | inl o => add_objects objects o
      end
  end.

(** The rest of the two constructors. *)
Definition wire (o : Tracker) (h : fake_heap) : FakeClientset * fake_heap :=
  let t := fresh (dom (fh_trackers h)) in
  let f := fresh (dom (fh_fakes h)) in
  (mkFakeClientset f f t,
   mkFakeHeap (<[f := [ObjectReaction "*" "*" t; WatchReaction "*" t]]> (fh_fakes h))
     (<[t := o]> (fh_trackers h))).

Definition NewSimpleClientset (scheme : scheme_types) (objects : list Object) (h : fake_heap)
  : outcome (FakeClientset * fake_heap) :=
  o ← add_objects objects (NewObjectTracker scheme);
  mret (wire o h).

Definition NewClientset (NewParser : string → option TypedParser * option error)
    (scheme : scheme_types) (objects : list Object) (st : parser_state) (h : fake_heap)
  : outcome (FakeClientset * fake_heap) * parser_state :=
  let '(conv, st) := NewTypeConverter NewParser scheme st in
  (conv ← conv;
   o ← add_objects objects (NewFieldManagedObjectTracker scheme conv);
   mret (wire o h), st).

Definition fake_Discovery (c : FakeClientset) : ref := fc_discovery c.
Definition fake_Tracker (c : FakeClientset) : ref := fc_tracker c.

(** The reaction to a watch: handled, the watch, the error. *)
Definition react_watch (t : ref) (resource : gvr) (ns : string) (h : fake_heap)
  : outcome (bool * option Watch * option error) :=
  o ← deref (fh_trackers h !! t);
  mret match tracker_Watch resource ns o with
       | inr e => (false, None, Some e)
       | inl w => (true, Some w, None)
       end.

(** ** The fake client of the group and its typed clients *)

(** [FakeInferenceV1alpha2]: a pointer to the [Fake]. *)
Record FakeInferenceV1alpha2 := mkFakeGroup { fg_Fake : ref }.

Definition fake_InferenceV1alpha2 (c : FakeClientset) : FakeInferenceV1alpha2 := mkFakeGroup (fc_Fake c).

(** A typed client: the [Fake], the namespace, the resource and the kind it acts on. *)
Record fake_typed := mkFakeTyped {
  ft_Fake : ref;
  ft_namespace : string;
  ft_resource : gvr;
  ft_kind : (string * string) * string
}.

Definition newFakeInferenceModels (fake : FakeInferenceV1alpha2) (namespace : string) : fake_typed :=
  mkFakeTyped (fg_Fake fake) namespace (SchemeGroupVersion, "inferencemodels")
    (SchemeGroupVersion, "InferenceModel").

Definition newFakeInferencePools (fake : FakeInferenceV1alpha2) (namespace : string) : fake_typed :=
  mkFakeTyped (fg_Fake fake) namespace (SchemeGroupVersion, "inferencepools")
    (SchemeGroupVersion, "InferencePool").

Definition fake_InferenceModels (c : FakeInferenceV1alpha2) (namespace : string) : fake_typed :=
  newFakeInferenceModels c namespace.
Definition fake_InferencePools (c : FakeInferenceV1alpha2) (namespace : string) : fake_typed :=
  newFakeInferencePools c namespace.

(** A [rest.Interface]: nil, or a pointer, which may itself be nil. *)
Inductive rest_interface := NilInterface | RestPointer (p : option RestClient).

(** [RESTClient] returns a nil pointer, which is not a nil interface. *)
Definition fake_RESTClient (c : FakeInferenceV1alpha2) : rest_interface := RestPointer None.

(** ** Theorems *)

(** The objects are added in order and the first refusal panics. *)
Lemma add_objects_spec objects o :
  match add_objects objects o with
  | Val o' => foldl (λ r obj, match r with inl t => tracker_Add obj t | inr e => inr e end) (inl o) objects = inl o'
  | Panic p => ∃ e, p = ExplicitPanic (error_text e)
      ∧ foldl (λ r obj, match r with inl t => tracker_Add obj t | inr e => inr e end) (inl o) objects = inr e
  end.
Proof.
  revert o. induction objects as [|obj objects IH]; intros o; simpl; [done|].
  destruct (tracker_Add obj o) as [o1|e]; [apply IH|]. exists e. split; [done|].
  clear IH. by induction objects.
Qed.

Lemma wire_spec o h :
  let '(cs, h') := wire o h in
  fh_trackers h' !! fake_Tracker cs = Some o
  ∧ fh_fakes h' !! fc_Fake cs = Some [ObjectReaction "*" "*" (fake_Tracker cs); WatchReaction "*" (fake_Tracker cs)]
  ∧ fake_Discovery cs = fc_Fake cs
  ∧ (∀ r l, fh_fakes h !! r = Some l → fh_fakes h' !! r = Some l)
  ∧ (∀ r t, fh_trackers h !! r = Some t → fh_trackers h' !! r = Some t).
Proof.
  unfold wire. simpl. split; [by rewrite lookup_insert_eq|]. split; [by rewrite lookup_insert_eq|].
  split; [done|]. split.
  - intros r l Hr. rewrite lookup_insert_ne; [done|]. intros <-.
    apply (is_fresh (dom (fh_fakes h))). by apply elem_of_dom_2 in Hr.
  - intros r t Hr. rewrite lookup_insert_ne; [done|]. intros <-.
    apply (is_fresh (dom (fh_trackers h))). by apply elem_of_dom_2 in Hr.
Qed.

(** A clientset for tests: it is made exactly when the tracker accepts the objects one
    after the other; its tracker then holds them; the clientset, its discovery and its
    typed clients share one [Fake] of its own, whose two reactions read that tracker; and
    the clientsets made before are untouched. *)
Theorem fake_clientset_spec scheme objects h :
  match NewSimpleClientset scheme objects h with
  | Val (cs, h') =>
      (∃ o, add_objects objects (NewObjectTracker scheme) = Val o ∧ fh_trackers h' !! fake_Tracker cs = Some o)
      ∧ fh_fakes h' !! fc_Fake cs
        = Some [ObjectReaction "*" "*" (fake_Tracker cs); WatchReaction "*" (fake_Tracker cs)]
      ∧ fake_Discovery cs = fc_Fake cs
      ∧ (∀ ns, ft_Fake (fake_InferenceModels (fake_InferenceV1alpha2 cs) ns) = fc_Fake cs
               ∧ ft_Fake (fake_InferencePools (fake_InferenceV1alpha2 cs) ns) = fc_Fake cs)
      ∧ (∀ r l, fh_fakes h !! r = Some l → fh_fakes h' !! r = Some l)
  | Panic p => ∃ e, p = ExplicitPanic (error_text e)
      ∧ foldl (λ r obj, match r with inl t => tracker_Add obj t | inr e => inr e end)
          (inl (NewObjectTracker scheme)) objects = inr e
  end.
Proof.
  unfold NewSimpleClientset. pose proof (add_objects_spec objects (NewObjectTracker scheme)) as Ha.
  destruct (add_objects _ _) as [o|p]; [|done]. cbn [mbind outcome_bind mret outcome_ret].
  pose proof (wire_spec o h) as Hw. destruct (wire o h) as [cs h'].
  destruct Hw as (Ht & Hf & Hd & Hk & _). split; [by eauto|]. by repeat split.
Qed.

(** An object added to the tracker later is what the next watch sees. *)
Lemma watch_reads_the_tracker t o obj o' resource ns h :
  fh_trackers h !! t = Some o → tracker_Add obj o = inl o' →
  react_watch t resource ns (mkFakeHeap (fh_fakes h) (<[t := o']> (fh_trackers h)))
  = Val match tracker_Watch resource ns o' with
        | inl w => (true, Some w, None) | inr e => (false, None, Some e) end.
Proof. intros Ht Ha. unfold react_watch. simpl. by rewrite lookup_insert_eq. Qed.

(** The field-managed constructor fails to be wired only where the parser or an object is
    refused, and otherwise wires in the same way. *)
Lemma NewClientset_spec NewParser scheme objects st h cs h' :
  (NewClientset NewParser scheme objects st h).1 = Val (cs, h') →
  ∃ conv o, (NewTypeConverter NewParser scheme st).1 = Val conv
    ∧ add_objects objects (NewFieldManagedObjectTracker scheme conv) = Val o ∧ wire o h = (cs, h').
Proof.
  unfold NewClientset. destruct (NewTypeConverter NewParser scheme st) as [[conv|p] st']; [|done].
  cbn [fst mbind outcome_bind]. destruct (add_objects _ _) as [o|] eqn:Ho; [|done].
  cbn [mbind outcome_bind mret outcome_ret]. intros Hw. exists conv, o. split; [done|]. split; [done|]. unfold mret, outcome_ret in Hw. congruence.
Qed.
End fake.
