(* ===== verification/Fakes.v ===== *)
(** * Fakes and builders for tests

    pkg/epp/backend/metrics/fake.go and pkg/epp/util/testing (wrappers.go, request.go):
    the metrics client and pod objects that tests put in place of the real ones, the
    builders of pods, models and pools, and the requests the tests send.  A label map
    given to a builder is taken as the value it has then.

    Theorems: a pod built from a pool's selector serves that pool; a generated request
    carries its model; the fake client hands out the metrics it was given. *)

From S2P Require Import Prelude GoInt Float64 Json JsonProofs Api Errors BackendMetrics.
From S2P Require Import Utf8 BackendMetricsProofs ExtProc Datastore Handlers ControllersProofs.

Local Open Scope Z_scope.

(** ** fake.go *)

(** [FakePodMetrics]: its UpdatePod replaces the pod, StopRefreshLoop does nothing. *)
Record FakePodMetrics := mkFakePodMetrics {
  fpm_Pod : Pod;
  fpm_Metrics : Metrics
}.

Definition Fake_GetPod (f : FakePodMetrics) : Pod := fpm_Pod f.
Definition Fake_GetMetrics (f : FakePodMetrics) : Metrics := fpm_Metrics f.

Definition Fake_UpdatePod (pod : CorePod) (f : FakePodMetrics) : FakePodMetrics :=
  mkFakePodMetrics (toInternalPod pod) (fpm_Metrics f).

Definition Fake_StopRefreshLoop (f : FakePodMetrics) : FakePodMetrics := f.

(** [FakePodMetricsClient]; its two locks make every access one step. *)
Record FakePodMetricsClient := mkFakeClient {
  fc_Err : gmap NamespacedName error;
  fc_Res : gmap NamespacedName Metrics
}.

Definition Fake_FetchMetrics `{MapOrder} (f : FakePodMetricsClient) (pod : Pod) : Metrics + error :=
  match fc_Err f !! Pod_NamespacedName pod with
  | Some err => inr err
  | None =>
      match fc_Res f !! Pod_NamespacedName pod with
      | None => inr (PlainError ("no pod found: " +:+ NamespacedName_String (Pod_NamespacedName pod)))
      | Some res => inl (Clone res)
      end
  end.

Definition SetRes (new : gmap NamespacedName Metrics) (f : FakePodMetricsClient) : FakePodMetricsClient :=
  mkFakeClient (fc_Err f) new.

Definition SetErr (new : gmap NamespacedName error) (f : FakePodMetricsClient) : FakePodMetricsClient :=
  mkFakeClient new (fc_Res f).

(** [FakeDataStore], and its [FetchModelData]: nil for an unknown name. *)
Record FakeDataStore := mkFakeDataStore { fds_Res : gmap string InferenceModel }.

Definition FetchModelData (fds : FakeDataStore) (modelName : string) : option InferenceModel :=
  fds_Res fds !! modelName.

(** ** wrappers.go *)

Definition empty_meta (name : string) : ObjectMeta := mkObjectMeta name "" ∅ 0 None.

Definition meta_Namespace (ns : string) (m : ObjectMeta) : ObjectMeta :=
  mkObjectMeta (om_Name m) ns (om_Labels m) (om_CreationTimestamp m) (om_DeletionTimestamp m).
Definition meta_Labels (labels : gmap string string) (m : ObjectMeta) : ObjectMeta :=
  mkObjectMeta (om_Name m) (om_Namespace m) labels (om_CreationTimestamp m) (om_DeletionTimestamp m).
Definition meta_DeletionTimestamp (now : Time) (m : ObjectMeta) : ObjectMeta :=
  mkObjectMeta (om_Name m) (om_Namespace m) (om_Labels m) (om_CreationTimestamp m) (Some now).
Definition meta_CreationTimestamp (t : Time) (m : ObjectMeta) : ObjectMeta :=
  mkObjectMeta (om_Name m) (om_Namespace m) (om_Labels m) t (om_DeletionTimestamp m).

(** The pod in a [PodWrapper]: what the program reads of a pod, its finalizers, and the
    containers by name and image. *)
Record PodWrapper := mkPodWrapper {
  pw_Pod : CorePod;
  pw_Finalizers : list string;
  pw_Containers : list (string * string)
}.

Definition on_pod (f : CorePod → CorePod) (p : PodWrapper) : PodWrapper :=
  mkPodWrapper (f (pw_Pod p)) (pw_Finalizers p) (pw_Containers p).
Definition on_meta (f : ObjectMeta → ObjectMeta) : PodWrapper → PodWrapper :=
  on_pod (λ p, mkCorePod (f (pod_ObjectMeta p)) (pod_PodIP p) (pod_Conditions p)).

(** [FromBase] copies the pod. *)
Definition FromBase (pod : PodWrapper) : PodWrapper := pod.
Definition MakePod (podName : string) : PodWrapper :=
  mkPodWrapper (mkCorePod (empty_meta podName) "" []) [] [].
Definition Pod_Namespace (ns : string) : PodWrapper → PodWrapper := on_meta (meta_Namespace ns).
Definition Complete (p : PodWrapper) : PodWrapper :=
  let p := if bool_decide (om_Namespace (pod_ObjectMeta (pw_Pod p)) = "")
           then Pod_Namespace "default" p else p in
  mkPodWrapper (pw_Pod p) (pw_Finalizers p) [("mock-vllm", "mock-vllm:latest")].
Definition Pod_Labels (labels : gmap string string) : PodWrapper → PodWrapper := on_meta (meta_Labels labels).
Definition LabelsFromPoolSelector `{MapOrder} (selector : gmap LabelKey LabelValue) (p : PodWrapper) : PodWrapper :=
  Pod_Labels (foldl (λ m kv, <[kv.1 := kv.2]> m) (om_Labels (pod_ObjectMeta (pw_Pod p))) (map_range selector)) p.
Definition ReadyCondition : PodWrapper → PodWrapper :=
  on_pod (λ p, mkCorePod (pod_ObjectMeta p) (pod_PodIP p) [mkPodCondition PodReady ConditionTrue]).
Definition IP (ip : string) : PodWrapper → PodWrapper :=
  on_pod (λ p, mkCorePod (pod_ObjectMeta p) ip (pod_Conditions p)).
Definition Pod_DeletionTimestamp (now : Time) (p : PodWrapper) : PodWrapper :=
  let p := on_meta (meta_DeletionTimestamp now) p in
  mkPodWrapper (pw_Pod p) ["finalizer"] (pw_Containers p).
Definition Pod_ObjRef (p : PodWrapper) : CorePod := pw_Pod p.

(** The model in an [InferenceModelWrapper]. *)
Record InferenceModelWrapper := mkModelWrapper {
  mw_Model : InferenceModel;
  mw_Finalizers : list string
}.

Definition MakeInferenceModel (name : string) : InferenceModelWrapper :=
  mkModelWrapper
    (mkInferenceModel (empty_meta name) (mkInferenceModelSpec "" None [] (mkPoolObjectReference "" "" ""))) [].

Definition Model_on_meta (f : ObjectMeta → ObjectMeta) (m : InferenceModelWrapper) : InferenceModelWrapper :=
  mkModelWrapper (mkInferenceModel (f (im_ObjectMeta (mw_Model m))) (im_Spec (mw_Model m))) (mw_Finalizers m).
Definition Model_on_spec (f : InferenceModelSpec → InferenceModelSpec) (m : InferenceModelWrapper)
  : InferenceModelWrapper :=
  mkModelWrapper (mkInferenceModel (im_ObjectMeta (mw_Model m)) (f (im_Spec (mw_Model m)))) (mw_Finalizers m).

Definition Model_Namespace (ns : string) := Model_on_meta (meta_Namespace ns).
Definition Model_ModelName (modelName : string) :=
  Model_on_spec (λ s, mkInferenceModelSpec modelName (im_Criticality s) (TargetModels s) (PoolRef s)).
Definition Model_TargetModel (modelName : string) :=
  Model_on_spec (λ s, mkInferenceModelSpec (ModelName s) (im_Criticality s)
    (TargetModels s ++ [mkTargetModel modelName None]) (PoolRef s)).
Definition Model_PoolName (poolName : string) :=
  Model_on_spec (λ s, mkInferenceModelSpec (ModelName s) (im_Criticality s) (TargetModels s)
    (mkPoolObjectReference "" "" poolName)).
Definition Model_Criticality (criticality : Criticality) :=
  Model_on_spec (λ s, mkInferenceModelSpec (ModelName s) (Some criticality) (TargetModels s) (PoolRef s)).
Definition Model_DeletionTimestamp (now : Time) (m : InferenceModelWrapper) : InferenceModelWrapper :=
  mkModelWrapper (mw_Model (Model_on_meta (meta_DeletionTimestamp now) m)) ["finalizer"].
Definition Model_CreationTimestamp (t : Time) := Model_on_meta (meta_CreationTimestamp t).
Definition Model_ObjRef (m : InferenceModelWrapper) : InferenceModel := mw_Model m.

(** An InferencePool. *)
Definition MakeInferencePool (name : string) : InferencePool :=
  mkInferencePool (empty_meta name) (mkInferencePoolSpec None 0 (mkEndpointPickerConfig None)).
Definition Pool_ObjRef (p : InferencePool) : InferencePool := p.

Definition Pool_on_spec (f : InferencePoolSpec → InferencePoolSpec) (p : InferencePool) : InferencePool :=
  mkInferencePool (ip_ObjectMeta p) (f (ip_Spec p)).

Definition Pool_Namespace (ns : string) (p : InferencePool) : InferencePool :=
  mkInferencePool (meta_Namespace ns (ip_ObjectMeta p)) (ip_Spec p).
Definition Pool_Selector `{MapOrder} (selector : gmap string string) :=
  Pool_on_spec (λ s, mkInferencePoolSpec
    (Some (foldl (λ m kv, <[kv.1 := kv.2]> m) (∅ : gmap LabelKey LabelValue) (map_range selector)))
    (TargetPortNumber s) (ip_EndpointPickerConfig s)).
Definition Pool_TargetPortNumber (port : Z) :=
  Pool_on_spec (λ s, mkInferencePoolSpec (ips_Selector s) port (ip_EndpointPickerConfig s)).
Definition Pool_ExtensionRef (name : string) :=
  Pool_on_spec (λ s, mkInferencePoolSpec (ips_Selector s) (TargetPortNumber s)
    (mkEndpointPickerConfig
       (Some (mkExtension (mkExtensionReference None None name None) (mkExtensionConnection None))))).

(** ** request.go *)

(** The map of a generated request, in the order its keys are written; its integers are
    written as the floats of the same value are. *)
Definition request_fields (prompt model : string) : fields :=
  [("max_tokens", VFloat (of_int 100)); ("model", VString model); ("prompt", VString prompt);
   ("temperature", VFloat fzero)].

(** [GenerateRequest]: marshalling this map does not fail; an error would exit. *)
Definition GenerateRequest (prompt model : string) : option ProcessingRequest :=
  match MarshalMap (Some (request_fields prompt model)) with
  | inl llmReq => Some (RequestBody (mkHttpBody llmReq true))
  | inr _ => None
  end.

Definition GenerateStreamedRequestSet (prompt model : string) : option (list ProcessingRequest) :=
  (λ r, [RequestHeaders (mkHttpHeaders [("hi", "mom")] false); r]) <$> GenerateRequest prompt model.

(** ** Theorems *)

Lemma Fake_FetchMetrics_set `{MapOrder} f res pod m :
  fc_Err f !! Pod_NamespacedName pod = None → res !! Pod_NamespacedName pod = Some m →
  Fake_FetchMetrics (SetRes res f) pod = inl m.
Proof. intros He Hm. unfold Fake_FetchMetrics. simpl. by rewrite He, Hm, Clone_id. Qed.

(** A pod labelled from a pool's selector and marked ready serves that pool. *)
Lemma built_pod_serves `{MapOrder} pool name ns ip :
  serves pool (Pod_ObjRef (Complete (IP ip (ReadyCondition (LabelsFromPoolSelector (Selector (ip_Spec pool))
    (Pod_Namespace ns (MakePod name))))))).
Proof.
  unfold serves, LabelsFromPoolSelector, Complete. simpl.
  case_bool_decide; (split; [left|]; split; [|done]; simpl; by rewrite foldl_insert_range).
Qed.

(** A pod marked for deletion serves no pool, whatever was built before. *)
Lemma deleted_pod_serves_none pool now p :
  now ≠ 0 → ¬ serves pool (Pod_ObjRef (Pod_DeletionTimestamp now p)).
Proof. intros Hnow [Hd _]. simpl in Hd. set_solver. Qed.

(** A generated request unmarshals to a map with its model and prompt. *)
Lemma generated_request_reads_back prompt model :
  valid_utf8 prompt → valid_utf8 model →
  ∃ body, GenerateRequest prompt model = Some (RequestBody (mkHttpBody body true))
    ∧ UnmarshalMap body None = (Some (request_fields prompt model), None)
    ∧ body_model (Some (request_fields prompt model)) = Some model.
Proof.
  intros Hp Hm. exists (print (VMap (request_fields prompt model))).
  split; [reflexivity|]. split; [|reflexivity]. apply unmarshal_marshal.
  - change (request_fields prompt model)
      with (set_field "max_tokens" (VFloat (of_int 100)) (set_field "model" (VString model)
              (set_field "prompt" (VString prompt) (set_field "temperature" (VFloat fzero) [])))).
    repeat apply set_field_ok; try done. split; constructor.
  - cbn [floats_ok map foldr fst snd request_fields]. split; [by vm_compute|done].
Qed.
