(* ===== verification/TestHelpers.v ===== *)
(** * Helpers of the end-to-end tests

    test/utils/utils.go and wrappers.go, pkg/epp/util/testing/diff.go and
    pkg/epp/util/logging/logger.go.  The cluster decides how each call ends; a helper is a
    program in a monad that logs its calls.  The poll of the test framework is a parameter,
    [Eventually]; the n-th observation it makes is of the cluster as it is then.

    Theorem: a clean-up helper makes its deletions in order, goes on when an object is
    not there, and stops with the first other error. *)

From S2P Require Import Prelude GoInt Api Errors Datastore.

(** ** Calls to the cluster *)

(** The objects the helpers delete; all calls ask for foreground propagation. *)
Inductive cluster_call :=
  | Delete (kind name : string)
  | DeleteAllOf (kind namespace : string).

Inductive delete_result := Deleted | Gone | Failed (e : error).

(** What the cluster does with a call after the calls made so far. *)
Definition cluster : Type := list cluster_call → cluster_call → delete_result.

(** A program: the error it returns, and the calls made. *)
Definition helper : Type := cluster → list cluster_call → option error * list cluster_call.

Definition nothing : helper := λ _ tr, (None, tr).

(** [if err != nil && !apierrors.IsNotFound(err) { return err }], then the rest. *)
Definition delete_then (c : cluster_call) (rest : helper) : helper := λ w tr,
  match w tr c with
  | Failed e => (Some e, tr ++ [c])
  | Deleted | Gone => rest w (tr ++ [c])
  end.

Definition DeleteClusterResources : helper :=
  delete_then (Delete "ClusterRoleBinding" "pod-read-binding")
   (delete_then (Delete "ClusterRole" "pod-read")
     (delete_then (Delete "CustomResourceDefinition" "inferencemodels.inference.networking.x-k8s.io")
       (delete_then (Delete "CustomResourceDefinition" "inferencepools.inference.networking.x-k8s.io")
         nothing))).

Definition DeleteNamespacedResources (ns : string) : helper :=
  if bool_decide (ns = "") then nothing
  else
    delete_then (DeleteAllOf "Deployment" ns)
     (delete_then (DeleteAllOf "Service" ns)
       (delete_then (DeleteAllOf "Pod" ns)
         (delete_then (DeleteAllOf "ConfigMap" ns)
           (delete_then (DeleteAllOf "Secret" ns)
             (delete_then (DeleteAllOf "InferencePool" ns)
               (delete_then (DeleteAllOf "InferenceModel" ns)
                 (if bool_decide (ns ≠ "default") then delete_then (Delete "Namespace" ns) nothing
                  else nothing))))))).

Definition DeleteInferenceModelResources (ns : string) : helper :=
  if bool_decide (ns = "") then nothing
  else delete_then (DeleteAllOf "InferenceModel" ns) nothing.

(** ** Conditions *)

(** The loop of the three check functions, on a fetched list of conditions. *)
Definition conditions_found {T} (matches : T → T → bool) (wanted fetched : list T) : nat :=
  foldl (λ found want, foldl (λ found c, if matches c want then S found else found) found fetched)
    0%nat wanted.

Definition same_condition (c want : PodCondition) : bool :=
  bool_decide (pc_Type c = pc_Type want) && bool_decide (pc_Status c = pc_Status want).

(** [checkPodStatus]; a pod that cannot be fetched is an error. *)
Definition checkPodStatus (c : Client) (NotFoundError : error) (pod : CorePod) (conditions : list PodCondition)
  : bool * option error :=
  match Get_pod c (pod_key pod) with
  | GetError e => (false, Some e)
  | NotFound => (false, Some NotFoundError)
  | Found fetched =>
      (Nat.eqb (conditions_found same_condition conditions (pod_Conditions fetched)) (length conditions), None)
  end.

(** [checkDeploymentStatus] and [checkCrdStatus] on conditions as pairs of type and status;
    [fetched] is the answer of Get. *)
Definition checkDeploymentStatus (fetched : list (string * string) + error)
    (conditions : list (string * string)) : bool * option error :=
  match fetched with
  | inr e => (false, Some e)
  | inl cs => (Nat.eqb (conditions_found (λ c want, bool_decide (c = want)) conditions cs) (length conditions), None)
  end.

Definition checkCrdStatus (fetched : list (string * string) + error)
    (conditions : list (string * string)) : bool * option error :=
  match fetched with
  | inr e => (false, Some e)
  | inl cs => (Nat.eqb (conditions_found (λ c want, bool_decide (c = want)) conditions cs) (length conditions), None)
  end.

(** ** Polls *)

Section polls.
(** [gomega.Eventually(observe, timeout, interval).Should(matcher)] *)
Variable Eventually : ∀ {A : Type}, (A → bool) → (nat → A) → Z → Z → outcome unit.

(** [BeTrue] on a value with an error, which has to be nil, and [Succeed]. *)
Definition BeTrue (r : bool * option error) : bool := r.1 && bool_decide (r.2 = None).
Definition Succeed (r : option error) : bool := bool_decide (r = None).

Definition PodReady (at_time : nat → Client) (NotFoundError : error) (pod : CorePod) (timeout interval : Z)
  : outcome unit :=
  Eventually BeTrue
    (λ n, checkPodStatus (at_time n) NotFoundError pod [mkPodCondition PodReady ConditionTrue])
    timeout interval.

Definition DeploymentAvailable (fetched : nat → list (string * string) + error) (timeout interval : Z)
  : outcome unit :=
  Eventually BeTrue (λ n, checkDeploymentStatus (fetched n) [("Available", "True")]) timeout interval.

Definition CRDEstablished (fetched : nat → list (string * string) + error) (timeout interval : Z)
  : outcome unit :=
  Eventually BeTrue (λ n, checkCrdStatus (fetched n) [("Established", "True")]) timeout interval.

Definition EventuallyExists (getResource : nat → option error) (timeout interval : Z) : outcome unit :=
  Eventually Succeed getResource timeout interval.
End polls.

(** ** Commands in a pod *)

(** [ExecCommandInPod]: whether the executor was made, what the command wrote, and the
    command as it is printed. *)
Definition ExecCommandInPod (executor : option error) (run : string * string * option error) (cmd : string)
  : string * option error :=
  match executor with
  | Some e => ("", Some (WrapError "could not initialize executor: " e))
  | None =>
      let '(stdout, stderr, execErr) := run in
      (stdout +:+ stderr,
       match execErr with
       | Some e => Some (WrapError ("exec dial command " +:+ cmd +:+ " failed: ") e)
       | None => None
       end)
  end.

(** ** wrappers.go *)

Definition MakeModelWrapper (name ns : string) : InferenceModel :=
  mkInferenceModel (mkObjectMeta name ns ∅ 0%Z None)
    (mkInferenceModelSpec "" None [] (mkPoolObjectReference "" "" "")).

Definition on_model_spec (f : InferenceModelSpec → InferenceModelSpec) (m : InferenceModel) : InferenceModel :=
  mkInferenceModel (im_ObjectMeta m) (f (im_Spec m)).

Definition SetModelName (name : string) : InferenceModel → InferenceModel :=
  on_model_spec (λ s, mkInferenceModelSpec name (im_Criticality s) (TargetModels s) (PoolRef s)).
Definition SetCriticality (level : Criticality) : InferenceModel → InferenceModel :=
  on_model_spec (λ s, mkInferenceModelSpec (ModelName s) (Some level) (TargetModels s) (PoolRef s)).
Definition SetPoolRef (name : string) : InferenceModel → InferenceModel :=
  on_model_spec (λ s, mkInferenceModelSpec (ModelName s) (im_Criticality s) (TargetModels s)
    (mkPoolObjectReference GroupName "inferencepools" name)).
Definition SetTargetModels (models : list TargetModel) : InferenceModel → InferenceModel :=
  on_model_spec (λ s, mkInferenceModelSpec (ModelName s) (im_Criticality s) models (PoolRef s)).

(** ** Loggers and differences *)

Section libraries.
(** zap, controller-runtime's context, and go-cmp with an order for slices *)
Context {Logger Context : Type}.
Inductive zap_option := UseDevMode (b : bool) | AddCaller.
Variables (zap_New : list zap_option → Logger) (IntoContext : Context → Logger → Context).
Variable Diff : (InferenceModel → InferenceModel → bool) → list InferenceModel → list InferenceModel → string.

Definition NewTestLogger : Logger := zap_New [UseDevMode true; AddCaller].
Definition NewTestLoggerIntoContext (ctx : Context) : Context :=
  IntoContext ctx (zap_New [UseDevMode true; AddCaller]).

Definition DiffModelLists (want got : list InferenceModel) : string :=
  Diff (λ a b, String.ltb (om_Name (im_ObjectMeta a)) (om_Name (im_ObjectMeta b))) want got.
End libraries.

(** ** Theorems *)

(** Deletions one after the other. *)
Fixpoint deletions (plan : list cluster_call) : helper :=
  match plan with
  | [] => nothing
  | c :: plan => delete_then c (deletions plan)
  end.

Definition cluster_plan : list cluster_call :=
  [Delete "ClusterRoleBinding" "pod-read-binding"; Delete "ClusterRole" "pod-read";
   Delete "CustomResourceDefinition" "inferencemodels.inference.networking.x-k8s.io";
   Delete "CustomResourceDefinition" "inferencepools.inference.networking.x-k8s.io"].

Definition namespace_plan (ns : string) : list cluster_call :=
  if bool_decide (ns = "") then []
  else ((λ kind, DeleteAllOf kind ns) <$>
          ["Deployment"; "Service"; "Pod"; "ConfigMap"; "Secret"; "InferencePool"; "InferenceModel"])
       ++ (if bool_decide (ns ≠ "default") then [Delete "Namespace" ns] else []).

Definition models_plan (ns : string) : list cluster_call :=
  if bool_decide (ns = "") then [] else [DeleteAllOf "InferenceModel" ns].

Lemma helpers_follow_plans ns :
  DeleteClusterResources = deletions cluster_plan
  ∧ DeleteNamespacedResources ns = deletions (namespace_plan ns)
  ∧ DeleteInferenceModelResources ns = deletions (models_plan ns).
Proof.
  split; [done|]. unfold DeleteNamespacedResources, DeleteInferenceModelResources, namespace_plan, models_plan.
  split; repeat case_bool_decide; done.
Qed.

(** The call fails. *)
Definition fails (w : cluster) (tr plan : list cluster_call) (n : nat) (e : error) : Prop :=
  ∃ c, plan !! n = Some c ∧ w (tr ++ take n plan) c = Failed e.

(** A clean-up makes its deletions in order; it returns no error exactly when none failed,
    objects that are gone apart, and otherwise the first failure, after which it makes no
    further call. *)
Theorem clean_up_stops_at_first_failure plan w tr :
  match deletions plan w tr with
  | (None, tr') => tr' = tr ++ plan ∧ ∀ n e, ¬ fails w tr plan n e
  | (Some e, tr') => ∃ n, tr' = tr ++ take (S n) plan ∧ fails w tr plan n e
      ∧ ∀ m e', (m < n)%nat → ¬ fails w tr plan m e'
  end.
Proof.
  revert tr. induction plan as [|c plan IH]; intros tr; simpl.
  { rewrite app_nil_r. split; [done|]. by intros n e (c & ? & _). }
  assert (∀ n e, fails w tr (c :: plan) (S n) e ↔ fails w (tr ++ [c]) plan n e) as Hshift.
  { intros n e. unfold fails. simpl. by setoid_rewrite <-(assoc_L (++)). }
  assert (∀ e, fails w tr (c :: plan) 0 e ↔ w tr c = Failed e) as Hhere.
  { intros e. unfold fails. simpl. rewrite app_nil_r. naive_solver. }
  unfold delete_then. destruct (w tr c) as [| |e] eqn:Hc.
  3:{ exists 0%nat. split; [done|]. split; [by apply Hhere|]. lia. }
  all: specialize (IH (tr ++ [c])); destruct (deletions plan w (tr ++ [c])) as [[e|] tr'].
  1,3: destruct IH as (n & -> & Hf & Hb); exists (S n);
    split; [by rewrite <-(assoc_L (++))|]; split; [by apply Hshift|];
    intros [|m] e' Hm Hf'; [apply Hhere in Hf'; congruence|apply Hshift in Hf'; apply (Hb m e'); [lia|done]].
  all: destruct IH as [-> Hb]; split; [by rewrite <-(assoc_L (++))|];
    intros [|n] e Hf; [apply Hhere in Hf; congruence|apply Hshift in Hf; by apply (Hb n e)].
Qed.

(** [checkPodStatus] for the ready condition: exactly one condition of the pod says so. *)
Lemma one_condition_found {T} (matches : T → T → bool) want fetched :
  conditions_found matches [want] fetched = length (filter (λ c, matches c want = true) fetched).
Proof.
  unfold conditions_found. simpl.
  assert (∀ n, foldl (λ found c, if matches c want then S found else found) n fetched
               = (n + length (filter (λ c, matches c want = true) fetched))%nat) as ->; [|done].
  induction fetched as [|c fetched IH]; intros n; simpl; [lia|]. rewrite filter_cons.
  destruct (matches c want); simpl; rewrite IH; lia.
Qed.
