(* ===== verification/Runnable.v ===== *)
(** * internal/runnable: the gRPC server as a runnable of the manager

    grpc.go as two goroutines and the server they share.  The function listens, starts a
    watcher that stops the server when the context ends, and serves until the server is
    done; the watcher selects between the context and a channel that is closed when the
    function returns.  leader_election.go marks a runnable.

    The gRPC server is the class [GrpcServer], with the documented behaviour of Serve and
    GracefulStop as its laws.

    Theorems: the function returns nil only after the context was cancelled, and otherwise
    the error of Listen or Serve, never the one for a stopped server; and once the context
    is cancelled or the function has returned, the goroutines end after at most three moves
    in every run, and nothing but a pending call of the stopped server can hold them up. *)

From S2P Require Import Prelude Errors.

(** ** The gRPC server *)

(** A server object.  [srv_step] is what happens on its own: connections and calls that
    come and end, listeners that fail.  [Serve] is what the call returns if it returns in
    this state, [graceful_returned] whether a call of GracefulStop has returned. *)
Class GrpcServer (srv : Type) := {
  srv_event : Type;
  srv_step : srv_event → srv → option srv;
  GracefulStop : srv → srv;
  graceful_returned : srv → bool;
  Serve : srv → option (option error);
  ErrServerStopped : error;
  srv_stopped : srv → bool;
  srv_pending : srv → nat
}.

(** The documentation of package grpc.  Serve: "will return a non-nil error unless Stop
    or GracefulStop is called"; ErrServerStopped: "the operation is now illegal because of
    the server being stopped"; GracefulStop: "stops the server from accepting new
    connections and RPCs and blocks until all the pending RPCs are finished". *)
Class GrpcServerLaws (srv : Type) `{GrpcServer srv} : Prop := {
  Serve_nil s : Serve s = Some None → srv_stopped s = true;
  Serve_stopped s : Serve s = Some (Some ErrServerStopped) → srv_stopped s = true;
  GracefulStop_stopped s : srv_stopped (GracefulStop s) = true;
  srv_step_stopped ev s s' : srv_step ev s = Some s' → srv_stopped s' = srv_stopped s;
  stopped_finishes s :
    srv_stopped s = true → srv_pending s = 0%nat → Serve s ≠ None ∧ graceful_returned s = true
}.

(** ** [GRPCServer] *)

(** Where the function is: before Listen, in Serve, returned. *)
Inductive main_pc := Starting | Serving | Returned (err : option error).

(** Where the watcher is: not started, in its select, in GracefulStop, ended. *)
Inductive watcher_pc := NotStarted | Selecting | Stopping | Ended.

Global Instance watcher_pc_eq_dec : EqDecision watcher_pc.
Proof. solve_decision. Defined.

Section grpc.
Context {srv : Type} `{GrpcServer srv}.

Record grpc_state := mkGrpc {
  g_main : main_pc;
  g_watcher : watcher_pc;
  g_ctx_done : bool;
  g_doneCh_closed : bool;
  g_srv : srv
}.

(** The scheduler's choices and what comes from outside: the context is cancelled, the
    server makes a step, Listen returns, and the moves of the two goroutines. *)
Inductive grpc_event :=
  | Cancel
  | ServerStep (ev : srv_event)
  | Listen (err : option error)
  | ServeReturns
  | SelectCtx
  | SelectDone
  | GracefulStopReturns.

(** What [if err := srv.Serve(lis); err != nil && err != grpc.ErrServerStopped] returns. *)
Definition serve_result (err : option error) : option error :=
  match err with
  | Some e => if bool_decide (e = ErrServerStopped) then None else Some e
  | None => None
  end.

(** [GRPCServer(name, srv, port).Start(ctx)], one event at a time; [None] when the event
    cannot happen.  The deferred close of doneCh runs as the function returns, and only
    after doneCh was made. *)
Definition GRPCServer (ev : grpc_event) (s : grpc_state) : option grpc_state :=
  match ev with
  | Cancel => Some (mkGrpc (g_main s) (g_watcher s) true (g_doneCh_closed s) (g_srv s))
  | ServerStep e =>
      x ← srv_step e (g_srv s);
      Some (mkGrpc (g_main s) (g_watcher s) (g_ctx_done s) (g_doneCh_closed s) x)
  | Listen err =>
      match g_main s with
      | Starting =>
          match err with
          | Some e =>
              Some (mkGrpc (Returned (Some e)) (g_watcher s) (g_ctx_done s) (g_doneCh_closed s) (g_srv s))
          | None => Some (mkGrpc Serving Selecting (g_ctx_done s) (g_doneCh_closed s) (g_srv s))
          end
      | _ => None
      end
  | ServeReturns =>
      match g_main s, Serve (g_srv s) with
      | Serving, Some err =>
          Some (mkGrpc (Returned (serve_result err)) (g_watcher s) (g_ctx_done s) true (g_srv s))
      | _, _ => None
      end
  | SelectCtx =>
      match g_watcher s with
      | Selecting =>
          if g_ctx_done s
          then Some (mkGrpc (g_main s) Stopping true (g_doneCh_closed s) (GracefulStop (g_srv s)))
          else None
      | _ => None
      end
  | SelectDone =>
      match g_watcher s with
      | Selecting =>
          if g_doneCh_closed s
          then Some (mkGrpc (g_main s) Ended (g_ctx_done s) true (g_srv s))
          else None
      | _ => None
      end
  | GracefulStopReturns =>
      match g_watcher s with
      | Stopping =>
          if graceful_returned (g_srv s)
          then Some (mkGrpc (g_main s) Ended (g_ctx_done s) (g_doneCh_closed s) (g_srv s))
          else None
      | _ => None
      end
  end.

(** A call of Start on a server that nobody stopped, with the context open or not. *)
Definition grpc_initial (ctx : bool) (x : srv) : grpc_state :=
  mkGrpc Starting NotStarted ctx false x.

(** A run with its events. *)
Fixpoint grpc_run (evs : list grpc_event) (s : grpc_state) : option grpc_state :=
  match evs with
  | [] => Some s
  | ev :: evs => s' ← GRPCServer ev s; grpc_run evs s'
  end.

(** ** Leader election *)

(** [manager.Runnable] with the optional interface LeaderElectionRunnable. *)
Record Runnable (start : Type) := mkRunnable {
  Start : start;
  NeedLeaderElection : option bool
}.

Definition LeaderElection {start} (r : Runnable start) (needsLeaderElection : bool) : Runnable start :=
  mkRunnable _ (Start _ r) (Some needsLeaderElection).

Definition RequireLeaderElection {start} (r : Runnable start) : Runnable start := LeaderElection r true.

Definition NoLeaderElection {start} (r : Runnable start) : Runnable start := LeaderElection r false.
End grpc.
Arguments grpc_state : clear implicits.
Arguments mkRunnable {start} _ _.
Arguments Start {start} _.
Arguments NeedLeaderElection {start} _.

(** ** Theorems *)

Section grpc_theorems.
Context {srv : Type} `{GrpcServerLaws srv}.
Implicit Types s : grpc_state srv.

Record grpc_inv (s : grpc_state srv) : Prop := {
  gi_starting : g_main s = Starting → g_watcher s = NotStarted;
  gi_serving : g_main s = Serving → g_watcher s ≠ NotStarted;
  gi_stopped : srv_stopped (g_srv s) = true → g_ctx_done s = true;
  gi_stopping : g_watcher s = Stopping → srv_stopped (g_srv s) = true;
  gi_ended : g_main s = Serving → g_watcher s = Ended → srv_stopped (g_srv s) = true;
  gi_nil : g_main s = Returned None → g_ctx_done s = true;
  gi_closed : ∀ r, g_main s = Returned r → g_watcher s ≠ NotStarted → g_doneCh_closed s = true;
  gi_open : g_doneCh_closed s = true → ∃ r, g_main s = Returned r
}.

Lemma initial_grpc_inv ctx x : srv_stopped x = false → grpc_inv (grpc_initial ctx x).
Proof. intros Hx. split; simpl; try done; congruence. Qed.

(** Close the components of the invariant that a step leaves alone. *)
Local Ltac inv_step :=
  split; simpl; intros; simplify_eq/=; try done; eauto; try congruence.

Lemma grpc_step_inv ev s s' : GRPCServer ev s = Some s' → grpc_inv s → grpc_inv s'.
Proof.
  intros Hstep [H1 H2 H3 H4 H5 H6 H7 H8].
  destruct s as [m w c d x]; simpl in *. destruct ev; simpl in Hstep.
  - simplify_eq/=. inv_step.
  - destruct (srv_step ev x) as [x'|] eqn:Hx; simplify_eq/=.
    apply srv_step_stopped in Hx. split; simpl; rewrite ?Hx; done.
  - destruct m; simplify_eq/=. destruct err; simplify_eq/=; inv_step.
    all: destruct (H8 ltac:(done)); congruence.
  - destruct m; simplify_eq/=. destruct (Serve x) as [err|] eqn:Hs; simplify_eq/=. inv_step.
    apply H3. destruct err as [e|]; [|by apply Serve_nil].
    apply Serve_stopped. unfold serve_result in *. case_bool_decide; congruence.
  - destruct w; simplify_eq/=. destruct c; simplify_eq/=. inv_step; try apply GracefulStop_stopped.
    by specialize (H1 eq_refl).
  - destruct w; simplify_eq/=. destruct d; simplify_eq/=. inv_step.
    all: destruct (H8 eq_refl); congruence.
  - destruct w; simplify_eq/=. destruct (graceful_returned x); simplify_eq/=. inv_step.
    by specialize (H1 eq_refl).
Qed.

Lemma grpc_run_app evs1 evs2 s :
  grpc_run (evs1 ++ evs2) s = s' ← grpc_run evs1 s; grpc_run evs2 s'.
Proof.
  revert s. induction evs1 as [|ev evs IH]; intros s; simpl; [done|].
  destruct (GRPCServer ev s); simpl; [apply IH|done].
Qed.

Lemma grpc_run_snoc evs ev s s' :
  grpc_run (evs ++ [ev]) s = Some s' →
  ∃ s1, grpc_run evs s = Some s1 ∧ GRPCServer ev s1 = Some s'.
Proof.
  rewrite grpc_run_app. destruct (grpc_run evs s) as [s1|]; simpl; [|done].
  destruct (GRPCServer ev s1) as [s2|] eqn:E; simpl; [|done]. intros [= <-]. eauto.
Qed.

Lemma grpc_run_inv evs s s' : grpc_run evs s = Some s' → grpc_inv s → grpc_inv s'.
Proof.
  revert s. induction evs as [|ev evs IH]; intros s; simpl; [by intros [= <-]|].
  destruct (GRPCServer ev s) as [s1|] eqn:E; simpl; [|done].
  intros Hr Hi. eapply IH, grpc_step_inv; eauto.
Qed.

(** The context is done only if it was at the start or a cancellation happened. *)
Lemma grpc_ctx evs s s' :
  grpc_run evs s = Some s' → g_ctx_done s' = true → g_ctx_done s = true ∨ Cancel ∈ evs.
Proof.
  revert s' . induction evs as [|ev evs IH] using rev_ind; intros s'; [intros [= <-]; by left|].
  intros (s1 & Hr & Hs)%grpc_run_snoc Hc. rewrite elem_of_app.
  destruct (g_ctx_done s1) eqn:Hc1; [by destruct (IH s1 Hr); tauto|].
  destruct ev as [|e| | | | |]; simpl in Hs; [right; right; by left| |..];
    [by destruct (srv_step e (g_srv s1)); simplify_eq/=; congruence|..]; split_match; congruence.
Qed.

(** Where a returned error comes from. *)
Lemma grpc_error evs s s' e :
  g_main s = Starting → grpc_run evs s = Some s' → g_main s' = Returned (Some e) →
  Listen (Some e) ∈ evs ∨
  ∃ evs1 s1, evs1 `prefix_of` evs ∧ grpc_run evs1 s = Some s1
    ∧ Serve (g_srv s1) = Some (Some e) ∧ e ≠ ErrServerStopped.
Proof.
  intros Hstart. revert s'. induction evs as [|ev evs IH] using rev_ind; intros s'.
  { intros [= <-]. congruence. }
  intros (s1 & Hr & Hs)%grpc_run_snoc Hm. rewrite elem_of_app.
  assert (g_main s1 = Returned (Some e) →
    (Listen (Some e) ∈ evs ∨ Listen (Some e) ∈ [ev]) ∨
    ∃ evs1 s2, evs1 `prefix_of` evs ++ [ev] ∧ grpc_run evs1 s = Some s2
      ∧ Serve (g_srv s2) = Some (Some e) ∧ e ≠ ErrServerStopped) as Hold.
  { intros Hm1. destruct (IH s1 Hr Hm1) as [?|(evs1 & s2 & ? & ?)]; [tauto|].
    right. exists evs1, s2. split; [by apply prefix_app_r|done]. }
  destruct ev; simpl in Hs; split_match; auto.
  - destruct (srv_step ev (g_srv s1)); simplify_eq/=. auto.
  - left. right. by left.
  - right. exists evs, s1. unfold serve_result in Hm. split_match. split; [by apply prefix_app_r|done].
Qed.

(** A gRPC runnable returns nil only after its context was cancelled; an error it
    returns is that of Listen or of Serve, and never the one for a stopped server; and the
    channel its watcher waits on is closed whenever it has returned. *)
Theorem grpc_runnable_results ctx x evs s :
  srv_stopped x = false → grpc_run evs (grpc_initial ctx x) = Some s →
  (g_main s = Returned None → ctx = true ∨ Cancel ∈ evs)
  ∧ (∀ e, g_main s = Returned (Some e) →
      Listen (Some e) ∈ evs ∨
      ∃ evs1 s1, evs1 `prefix_of` evs ∧ grpc_run evs1 (grpc_initial ctx x) = Some s1
        ∧ Serve (g_srv s1) = Some (Some e) ∧ e ≠ ErrServerStopped)
  ∧ (∀ r, g_main s = Returned r → g_watcher s = NotStarted ∨ g_doneCh_closed s = true).
Proof.
  intros Hx Hr. pose proof (grpc_run_inv _ _ _ Hr (initial_grpc_inv ctx x Hx)) as Hi.
  split; [|split].
  - intros Hm. apply (grpc_ctx _ _ _ Hr). by apply gi_nil.
  - intros e. by apply grpc_error.
  - intros r Hm. destruct (decide (g_watcher s = NotStarted)); [by left|right]. by eapply gi_closed.
Qed.

(** ** The goroutines end *)

Definition finished s : Prop :=
  (∃ r, g_main s = Returned r) ∧ (g_watcher s = NotStarted ∨ g_watcher s = Ended).

(** The moves of the two goroutines. *)
Definition goroutine_move (ev : grpc_event) : bool :=
  match ev with ServeReturns | SelectCtx | SelectDone | GracefulStopReturns => true | _ => false end.

Definition goroutine_moves (evs : list grpc_event) : nat := length (filter (λ ev, goroutine_move ev = true) evs).

(** How many they have left at most. *)
Definition moves_left s : nat :=
  (match g_main s with Starting => 2 | Serving => 1 | Returned _ => 0 end
   + match g_watcher s with Selecting => 2 | Stopping => 1 | NotStarted | Ended => 0 end)%nat.

Lemma moves_left_step ev s s' :
  GRPCServer ev s = Some s' → g_main s ≠ Starting →
  g_main s' ≠ Starting ∧ (goroutine_moves [ev] + moves_left s' <= moves_left s)%nat.
Proof.
  unfold moves_left, goroutine_moves. destruct s as [m w c d x], ev; simpl; intros Hs Hm.
  - by simplify_eq/=.
  - destruct (srv_step ev x); by simplify_eq/=.
  - by destruct m.
  - destruct m; simplify_eq. destruct (Serve x); simplify_eq/=. split; [done|lia].
  - destruct w, c; simplify_eq/=. split; [done|lia].
  - destruct w, d; simplify_eq/=. split; [done|lia].
  - destruct w; simplify_eq. destruct (graceful_returned x); simplify_eq/=. split; [done|lia].
Qed.

Lemma goroutine_moves_cons ev evs :
  goroutine_moves (ev :: evs) = (goroutine_moves [ev] + goroutine_moves evs)%nat.
Proof. unfold goroutine_moves. rewrite !filter_cons. by destruct (decide _). Qed.

Lemma moves_left_run evs s s' :
  grpc_run evs s = Some s' → g_main s ≠ Starting →
  g_main s' ≠ Starting ∧ (goroutine_moves evs + moves_left s' <= moves_left s)%nat.
Proof.
  revert s. induction evs as [|ev evs IH]; intros s; simpl; [by intros [= <-]|].
  destruct (GRPCServer ev s) as [s1|] eqn:Hs; simpl; [|done]. intros Hr Hm.
  destruct (moves_left_step _ _ _ Hs Hm) as [Hm1 H1]. destruct (IH _ Hr Hm1) as [Hm2 H2].
  split; [done|]. rewrite goroutine_moves_cons. lia.
Qed.

(** Cancelled or returned: the goroutines are to end. *)
Definition ending s : Prop := g_ctx_done s = true ∨ ∃ r, g_main s = Returned r.

Lemma ending_step ev s s' : GRPCServer ev s = Some s' → ending s → ending s'.
Proof.
  unfold ending. destruct s as [m w c d x], ev; simpl; intros Hs He.
  - simplify_eq/=. by left.
  - destruct (srv_step ev x); by simplify_eq/=.
  - destruct m; simplify_eq. destruct err; simplify_eq/=; [right; eauto|]. naive_solver.
  - destruct m; simplify_eq. destruct (Serve x); simplify_eq/=. right. eauto.
  - destruct w, c; simplify_eq/=. by left.
  - destruct w, d; by simplify_eq/=.
  - destruct w; simplify_eq. destruct (graceful_returned x); by simplify_eq/=.
Qed.

Lemma ending_run evs s s' : grpc_run evs s = Some s' → ending s → ending s'.
Proof.
  revert s. induction evs as [|ev evs IH]; intros s; simpl; [by intros [= <-]|].
  destruct (GRPCServer ev s) as [s1|] eqn:Hs; simpl; [|done]. eauto using ending_step.
Qed.

(** What holds the goroutines up: calls of a server that was told to stop. *)
Definition waits_for_calls s : Prop := srv_stopped (g_srv s) = true ∧ srv_pending (g_srv s) ≠ 0%nat.

Lemma ending_moves s :
  grpc_inv s → g_main s ≠ Starting → ending s → ¬ finished s →
  (∃ ev s', goroutine_move ev = true ∧ GRPCServer ev s = Some s') ∨ waits_for_calls s.
Proof.
  intros Hi Hm He Hnf.
  assert (srv_stopped (g_srv s) = true →
    (Serve (g_srv s) ≠ None ∧ graceful_returned (g_srv s) = true) ∨ waits_for_calls s) as Hstop.
  { intros Hst. destruct (decide (srv_pending (g_srv s) = 0%nat)); [left; by apply stopped_finishes|by right]. }
  destruct (g_main s) as [| |r] eqn:Hpc; [done| |].
  - destruct He as [Hc|[r ?]]; [|congruence]. destruct (g_watcher s) eqn:Hw.
    + by destruct (gi_serving _ Hi Hpc).
    + left. exists SelectCtx. simpl. rewrite Hw, Hc. eauto.
    + destruct (Hstop (gi_stopping _ Hi Hw)) as [[Hs _]|?]; [|by right]. left.
      destruct (Serve (g_srv s)) as [err|] eqn:Herr; [|done]. exists ServeReturns. simpl. rewrite Hpc, Herr. eauto.
    + destruct (Hstop (gi_ended _ Hi Hpc Hw)) as [[Hs _]|?]; [|by right]. left.
      destruct (Serve (g_srv s)) as [err|] eqn:Herr; [|done]. exists ServeReturns. simpl. rewrite Hpc, Herr. eauto.
  - destruct (g_watcher s) eqn:Hw.
    + destruct Hnf. split; eauto.
    + left. exists SelectDone. simpl. rewrite Hw, (gi_closed _ Hi r) by congruence. eauto.
    + destruct (Hstop (gi_stopping _ Hi Hw)) as [[_ Hg]|?]; [|by right]. left.
      exists GracefulStopReturns. simpl. rewrite Hw, Hg. eauto.
    + destruct Hnf. split; eauto.
Qed.

(** C38: a gRPC runnable comes to its end.  Take any reachable state past Listen in which
    the context is cancelled or the function has returned.  In every run from there the
    two goroutines make at most three moves; and at every moment of it either both have
    ended, or one of them can move, or the server was told to stop and still has calls
    pending, which is what the documentation says it waits for. *)
Theorem grpc_runnable_ends ctx x evs s evs' s' :
  srv_stopped x = false → grpc_run evs (grpc_initial ctx x) = Some s → g_main s ≠ Starting →
  ending s → grpc_run evs' s = Some s' →
  (goroutine_moves evs' <= 3)%nat
  ∧ (finished s' ∨ (∃ ev s'', goroutine_move ev = true ∧ GRPCServer ev s' = Some s'')
     ∨ waits_for_calls s').
Proof.
  intros Hx Hr Hm He Hr'. pose proof (grpc_run_inv _ _ _ Hr (initial_grpc_inv ctx x Hx)) as Hi.
  apply (grpc_run_inv _ _ _ Hr') in Hi as Hi'. destruct (moves_left_run _ _ _ Hr' Hm) as [Hm' Hle].
  pose proof (ending_run _ _ _ Hr' He) as He'. split.
  - assert (moves_left s <= 3)%nat; [|lia]. unfold moves_left. destruct (g_main s), (g_watcher s); simpl; done || lia.
  - destruct (decide (g_watcher s' = NotStarted ∨ g_watcher s' = Ended)) as [Hw|Hw].
    + destruct (g_main s') as [| |r] eqn:Hpc; [done| |left; split; eauto].
      right. apply ending_moves; [done|congruence|done|]. intros [[r Hr1] _]. congruence.
    + right. apply ending_moves; [done|done|done|]. by intros [_ ?].
Qed.
End grpc_theorems.

(** ** A server for the witnesses: whether it was stopped, whether its listener failed,
    and the number of pending calls. *)

Record toy_server := mkToy { toy_stopped : bool; toy_failed : bool; toy_calls : nat }.
Inductive toy_event := CallBegins | CallEnds | ListenerFails.

Definition accept_error : error := LibraryError "accept: too many open files".

#[export] Instance toy_grpc : GrpcServer toy_server := {|
  srv_event := toy_event;
  srv_step ev t :=
    match ev with
    | CallBegins => if toy_stopped t then None else Some (mkToy false (toy_failed t) (S (toy_calls t)))
    | CallEnds => match toy_calls t with O => None | S n => Some (mkToy (toy_stopped t) (toy_failed t) n) end
    | ListenerFails => Some (mkToy (toy_stopped t) true (toy_calls t))
    end;
  GracefulStop t := mkToy true (toy_failed t) (toy_calls t);
  graceful_returned t := toy_stopped t && bool_decide (toy_calls t = 0%nat);
  Serve t :=
    if toy_stopped t then if bool_decide (toy_calls t = 0%nat) then Some None else None
    else if toy_failed t then Some (Some accept_error) else None;
  ErrServerStopped := LibraryError "grpc: the server has been stopped";
  srv_stopped := toy_stopped;
  srv_pending := toy_calls
|}.

#[export] Instance toy_laws : GrpcServerLaws toy_server.
Proof.
  split; simpl.
  - intros [[] f n]; simpl; [done|]. by destruct f.
  - intros [[] f n]; simpl; [done|]. by destruct f.
  - done.
  - intros [] [b f n] s'; simpl; [destruct b| |]; [done|by intros [= <-]| |by intros [= <-]].
    destruct n; [done|]. by intros [= <-].
  - intros [b f n]; simpl. by intros -> ->.
Qed.

Abbreviation toy_step ev := (@ServerStep toy_server toy_grpc ev).

(** The listener fails while a call is pending. *)
Definition failing_run : list (@grpc_event toy_server toy_grpc) :=
  [Listen None; toy_step CallBegins; toy_step ListenerFails; ServeReturns; SelectDone].

Lemma grpc_runnable_results_witness :
  grpc_run failing_run
    (grpc_initial false (mkToy false false 0))
  = Some (mkGrpc (Returned (Some accept_error)) Ended false true (mkToy false true 1))
  ∧ (Returned (Some accept_error) = Returned (Some accept_error) →
     Listen (Some accept_error)
       ∈ failing_run ∨
     ∃ evs1 s1, evs1 `prefix_of` failing_run
       ∧ grpc_run evs1 (grpc_initial false (mkToy false false 0)) = Some s1
       ∧ Serve (g_srv s1) = Some (Some accept_error) ∧ accept_error ≠ ErrServerStopped).
Proof.
  split; [reflexivity|].
  refine (proj1 (proj2 (grpc_runnable_results false (mkToy false false 0)
    failing_run
    (mkGrpc (Returned (Some accept_error)) Ended false true (mkToy false true 1)) _ _)) _);
    reflexivity.
Defined.

(** The context is cancelled with a call pending; the call ends. *)
Lemma grpc_runnable_ends_witness :
  (3 <= 3)%nat
  ∧ (finished (mkGrpc (Returned None) Ended true true (mkToy true false 0))
     ∨ (∃ ev s'', goroutine_move ev = true
          ∧ GRPCServer ev (mkGrpc (Returned None) Ended true true (mkToy true false 0)) = Some s'')
     ∨ waits_for_calls (mkGrpc (Returned None) Ended true true (mkToy true false 0))).
Proof.
  apply (grpc_runnable_ends false (mkToy false false 0) [Listen None; toy_step CallBegins; Cancel]
           (mkGrpc Serving Selecting true false (mkToy false false 1))
           [SelectCtx; toy_step CallEnds; ServeReturns; GracefulStopReturns]);
    [reflexivity|reflexivity|discriminate|by left|reflexivity].
Defined.
