(* ===== verification/Tls.v ===== *)
(** * internal/tls: the self-signed certificate

    [CreateSelfSignedTLSCertificate] with the template it signs.  Random numbers, keys,
    X.509 and PEM are the class [Crypto]. *)

From S2P Require Import Prelude GoInt Errors.

Local Open Scope Z_scope.

(** [x509.KeyUsage] bits and the one extended usage. *)
Definition KeyUsageDigitalSignature : Z := Z.shiftl 1 0.
Definition KeyUsageKeyEncipherment : Z := Z.shiftl 1 2.
Inductive ExtKeyUsage := ExtKeyUsageServerAuth.

(** [x509.Certificate], the fields that are set; times in nanoseconds. *)
Record x509_template := mkTemplate {
  SerialNumber : Z;
  Organization : list string;
  NotBefore : Z;
  NotAfter : Z;
  KeyUsage : Z;
  ExtKeyUsages : list ExtKeyUsage;
  BasicConstraintsValid : bool
}.

(** [pem.Block]. *)
Record pem_block := mkBlock { block_type : string; block_bytes : string }.

Class Crypto := {
  private_key : Type;
  tls_certificate : Type;
  rand_Int : Z → Z + error;
  GenerateKey : Z → private_key + error;
  CreateCertificate : x509_template → private_key → string + error;
  MarshalPKCS8PrivateKey : private_key → string + error;
  EncodeToMemory : pem_block → string;
  X509KeyPair : string → string → tls_certificate + error
}.

(** [time.Hour * 24 * 365 * 10], a constant of type Duration. *)
Definition time_Hour : Z := 3600000000000.
Definition ten_years : Z := time_Hour * 24 * 365 * 10.

Definition serialNumberLimit : Z := Z.shiftl 1 128.

Section tls.
Context `{Crypto}.

Definition cert_template (serialNumber now : Z) : x509_template :=
  mkTemplate serialNumber ["Inference Ext"] now (now + ten_years)
    (Z.lor KeyUsageKeyEncipherment KeyUsageDigitalSignature) [ExtKeyUsageServerAuth] true.

(** [fmt.Errorf("...: %v", err)]: the text only. *)
Definition errorf (prefix : string) (err : error) : error := PlainError (prefix +:+ error_text err).

Definition CreateSelfSignedTLSCertificate (now : Z) : tls_certificate + error :=
  match rand_Int serialNumberLimit with
  | inr err => inr (errorf "error creating serial number: " err)
  | inl serialNumber =>
      let template := cert_template serialNumber now in
      match GenerateKey 4096 with
      | inr err => inr (errorf "error generating key: " err)
      | inl priv =>
          match CreateCertificate template priv with
          | inr err => inr (errorf "error creating certificate: " err)
          | inl derBytes =>
              let certBytes := EncodeToMemory (mkBlock "CERTIFICATE" derBytes) in
              match MarshalPKCS8PrivateKey priv with
              | inr err => inr (errorf "error marshalling private key: " err)
              | inl privBytes =>
                  let keyBytes := EncodeToMemory (mkBlock "PRIVATE KEY" privBytes) in
                  X509KeyPair certBytes keyBytes
              end
          end
      end
  end.

(** The certificate, when there is one, is for a key of 4096 bits, with a serial number
    of at most 128 bits, valid from now for ten years, for signing and for encrypting
    keys; certificate and key belong together. *)
Lemma self_signed_certificate now cert :
  (∀ limit n, 0 < limit → rand_Int limit = inl n → 0 <= n < limit) →
  CreateSelfSignedTLSCertificate now = inl cert →
  ∃ template priv der key,
    0 <= SerialNumber template < 2 ^ 128
    ∧ NotBefore template = now ∧ NotAfter template - NotBefore template = 10 * 365 * 86400 * 1000000000
    ∧ Z.testbit (KeyUsage template) 0 = true ∧ Z.testbit (KeyUsage template) 2 = true
    ∧ GenerateKey 4096 = inl priv
    ∧ CreateCertificate template priv = inl der ∧ MarshalPKCS8PrivateKey priv = inl key
    ∧ X509KeyPair (EncodeToMemory (mkBlock "CERTIFICATE" der))
        (EncodeToMemory (mkBlock "PRIVATE KEY" key)) = inl cert.
Proof.
  intros Hrand. unfold CreateSelfSignedTLSCertificate.
  destruct (rand_Int serialNumberLimit) as [n|e] eqn:Hn; [|done].
  apply Hrand in Hn; [|done].
  destruct (GenerateKey 4096) as [priv|] eqn:Hp; [|done].
  destruct (CreateCertificate _ priv) as [der|] eqn:Hd; [|done].
  destruct (MarshalPKCS8PrivateKey priv) as [key|] eqn:Hk; [|done].
  intros Hc. exists (cert_template n now), priv, der, key.
  split; [done|]. split; [done|]. split; [unfold cert_template, ten_years, time_Hour; simpl; lia|].
  repeat split; done.
Qed.

(** The ten years are a Duration. *)
Lemma ten_years_fits : int64_ok ten_years.
Proof. by apply int64_ok_iff. Qed.
End tls.
