(* ===== verification/Startup.v ===== *)
(** * Start-up of the two programs

    cmd/epp/main.go, pkg/epp/server (runserver.go, controller_manager.go), the Register
    functions of the two metrics packages, and cmd/body-based-routing/main.go with its
    runner and health service.

    A program is a sequence of calls into libraries, each of which may fail.  It runs in a
    monad of its own: the calls made so far are the state, an object that a call creates
    is named by the position of that call, and a [World] decides, knowing the calls
    before, which call fails.  Parsed flags and environment are arguments. *)

From S2P Require Import Prelude GoInt Errors Strconv BackendMetrics Handlers Runnable.

Local Open Scope Z_scope.

(** ** Calls *)

(** The object a call created: the position of the call. *)
Definition object : Type := nat.

(** [ctrl.Options], the part that is set: for each kind the namespace of its cache and
    the name its field selector asks for. *)
Inductive kind := PodKind | InferencePoolKind | InferenceModelKind.
Record ByObject := mkByObject { bo_kind : kind; bo_namespace : string; bo_name : option string }.
Definition Options : Type := list ByObject.

(** The two ext-proc servers of the endpoint picker. *)
Inductive ext_proc_kind := StreamingExtProc | BufferedExtProc.

(** [server.ExtProcServerRunner] of pkg/epp/server; intervals in nanoseconds. *)
Record ExtProcServerRunner := mkRunner {
  GrpcPort : Z;
  HintConfig : ServerConfig;
  PoolName : string;
  PoolNamespace : string;
  Datastore : option object;
  SecureServing : bool;
  CertPath : string;
  UseStreaming : bool;
  RefreshPrometheusMetricsInterval : Z
}.

(** [server.ExtProcServerRunner] of pkg/body-based-routing/server. *)
Record BbrRunner := mkBbrRunner {
  bbr_GrpcPort : Z;
  bbr_SecureServing : bool;
  bbr_Streaming : bool
}.

(** pkg/body-based-routing/handlers: the server and its constructor. *)
Record bbr_Server := mkBbrServer { bbr_streaming : bool }.

Definition bbr_NewServer (streaming : bool) : bbr_Server := mkBbrServer streaming.

(** What a gRPC server serves. *)
Inductive service :=
  | HealthService (ds : option object)
  | ExtProcService (k : ext_proc_kind) (c : ServerConfig) (ds : option object)
  | BbrService (s : bbr_Server).

(** The function of a runnable: a gRPC server by name, server object and port, the
    closure of one of the AsRunnable methods, or an HTTP server for one path. *)
Inductive process :=
  | GrpcProcess (name : string) (srv : object) (port : Z)
  | ExtProcProcess (r : ExtProcServerRunner)
  | BbrProcess (r : BbrRunner)
  | HttpProcess (name addr path : string).

(** The packages whose metrics are registered under a sync.Once of their own. *)
Inductive metrics_package := EppMetrics | BbrMetrics.

Inductive reconciler :=
  | InferencePoolReconciler (pool : string * string) (ds : option object)
  | InferenceModelReconciler (pool : string * string) (ds : option object)
  | PodReconciler (ds : option object).

Inductive call :=
  | SetLogger (level : option Z)
  | GetConfig
  | NewManager (cfg : object) (opts : Options)
  | SetupSignalHandler
  | NewDatastore (mapping : MetricMapping) (refreshMetricsInterval : Z)
  | IndexField (mgr : object) (field : string)
  | NewController (mgr : object) (r : reconciler)
  | NewGrpcServer (creds : option object)
  | RegisterService (srv : object) (s : service)
  | AddRunnable (mgr : object) (r : Runnable process)
  | Once (p : metrics_package)
  | MustRegister (collector : string)
  | HTTPClientFor (cfg : object)
  | WithAuthenticationAndAuthorization (cfg client : object)
  | AuthHandler (filter : object)
  | StartManager (mgr : object)
  | StartMetricsLogger (ds : option object) (interval : Z)
  | LoadX509KeyPair (crt key : string)
  | CreateSelfSignedTLSCertificate
  | ServeGrpc (name : string) (srv : object) (port : Z).

(** ** The monad *)

(** Which call fails, given the calls before it. *)
Definition World : Type := list call → call → option error.

(** A value, an error result, or a panic of MustRegister. *)
Inductive result (A : Type) := Done (a : A) | Failed (e : error) | Crashed.
Arguments Done {A} _.
Arguments Failed {A} _.
Arguments Crashed {A}.

Definition startM (A : Type) : Type := list call → result A * list call.

Global Instance startM_ret : MRet startM := λ A a tr, (Done a, tr).
Global Instance startM_bind : MBind startM := λ A B f m tr,
  match m tr with
  | (Done a, tr) => f a tr
  | (Failed e, tr) => (Failed e, tr)
  | (Crashed, tr) => (Crashed, tr)
  end.

Definition fail_with {A} (e : error) : startM A := λ tr, (Failed e, tr).

Section startup.
Context `{PrintTable} (w : World).

(** A call; its error, if any, is returned as [wrap] makes it. *)
Definition invoke_wrapped (wrap : error → error) (c : call) : startM object := λ tr,
  match w tr c with
  | Some e => (Failed (wrap e), tr ++ [c])
  | None => (Done (length tr), tr ++ [c])
  end.

Definition invoke (c : call) : startM object := invoke_wrapped id c.

(** A call without an error result. *)
Definition perform (c : call) : startM object := λ tr, (Done (length tr), tr ++ [c]).

(** [legacyregistry.MustRegister] panics on an error. *)
Definition must (c : call) : startM unit := λ tr,
  match w tr c with
  | Some _ => (Crashed, tr ++ [c])
  | None => (Done (), tr ++ [c])
  end.

Fixpoint all_of (cs : list call) : startM unit :=
  match cs with
  | [] => mret ()
  | c :: cs => must c ≫= λ _, all_of cs
  end.

(** [sync.Once.Do]: the body runs unless it was entered before. *)
Definition once_Do (p : metrics_package) (body : startM unit) : startM unit := λ tr,
  if existsb (λ c, match c, p with
                   | Once EppMetrics, EppMetrics | Once BbrMetrics, BbrMetrics => true
                   | _, _ => false
                   end) tr
  then (Done (), tr)
  else body (tr ++ [Once p]).

(** ** Registration of metrics *)

(** pkg/epp/metrics: subsystem and name. *)
Definition epp_collectors : list string :=
  ["inference_model_request_total"; "inference_model_request_error_total";
   "inference_model_request_duration_seconds"; "inference_model_request_sizes";
   "inference_model_response_sizes"; "inference_model_input_tokens";
   "inference_model_output_tokens"; "inference_model_running_requests";
   "inference_pool_average_kv_cache_utilization"; "inference_pool_average_queue_size";
   "inference_pool_ready_pods"].

Definition Register : startM unit := once_Do EppMetrics (all_of (MustRegister <$> epp_collectors)).

(** pkg/body-based-routing/metrics. *)
Definition bbr_collectors : list string :=
  ["bbr_success_total"; "bbr_model_not_in_body_total"; "bbr_model_not_parsed_total"].

Definition bbr_Register : startM unit :=
  once_Do BbrMetrics (all_of (MustRegister <$> bbr_collectors)).

(** ** controller_manager.go *)

Definition DefaultManagerOptions (namespace name : string) : Options :=
  [mkByObject PodKind namespace None;
   mkByObject InferencePoolKind namespace (Some name);
   mkByObject InferenceModelKind namespace None].

(** [fmt.Errorf] with [%v] keeps the text, with [%w] the error. *)
Definition text_of (prefix : string) (e : error) : error := PlainError (prefix +:+ error_text e).

Definition NewManagerWithOptions (cfg : object) (opts : Options) : startM object :=
  invoke_wrapped (text_of "failed to create controller manager: ") (NewManager cfg opts).

Definition NewDefaultManager (namespace name : string) (cfg : object) : startM object :=
  invoke_wrapped (text_of "failed to create controller manager: ")
    (NewManager cfg (DefaultManagerOptions namespace name)).

(** ** runserver.go *)

Definition DefaultGrpcPort : Z := 9002.
Definition DefaultDestinationEndpointHintMetadataNamespace : string := "envoy.lb".
Definition DefaultDestinationEndpointHintKey : string := "x-gateway-destination-endpoint".
Definition DefaultPoolName : string := "".
Definition DefaultPoolNamespace : string := "default".
Definition DefaultRefreshMetricsInterval : Z := 50 * 1000000.
Definition DefaultRefreshPrometheusMetricsInterval : Z := 5 * 1000000000.
Definition DefaultSecureServing : bool := true.

Definition NewDefaultExtProcServerRunner : ExtProcServerRunner :=
  mkRunner DefaultGrpcPort
    (mkServerConfig DefaultDestinationEndpointHintKey DefaultDestinationEndpointHintMetadataNamespace)
    DefaultPoolName DefaultPoolNamespace None DefaultSecureServing "" false 0.

(** datastore.ModelNameIndexKey *)
Definition ModelNameIndexKey : string := "spec.modelName".

(** The SetupWithManager methods of the reconcilers (pkg/epp/controller). *)
Definition setup_controller (wrap : error → error) (mgr : object) (r : reconciler) : startM object :=
  match r with
  | InferenceModelReconciler _ _ =>
      _ ← invoke_wrapped (λ e, wrap (WrapError "setting index on ModelName for InferenceModel: " e))
            (IndexField mgr ModelNameIndexKey);
      invoke_wrapped wrap (NewController mgr r)
  | _ => invoke_wrapped wrap (NewController mgr r)
  end.

(** [ExtProcServerRunner.SetupWithManager] *)
Definition SetupWithManager (r : ExtProcServerRunner) (mgr : object) : startM object :=
  let pool := (PoolName r, PoolNamespace r) in
  _ ← setup_controller (WrapError "failed setting up InferencePoolReconciler: ") mgr
        (InferencePoolReconciler pool (Datastore r));
  _ ← setup_controller (WrapError "failed setting up InferenceModelReconciler: ") mgr
        (InferenceModelReconciler pool (Datastore r));
  setup_controller (text_of "failed setting up EndpointSliceReconciler: ") mgr
    (PodReconciler (Datastore r)).

(** [ExtProcServerRunner.AsRunnable]: the runnable, and what its function does. *)
Definition AsRunnable (r : ExtProcServerRunner) : Runnable process :=
  NoLeaderElection (mkRunnable (ExtProcProcess r) None).

Definition ext_proc_start (r : ExtProcServerRunner) : startM object :=
  _ ← perform (StartMetricsLogger (Datastore r) (RefreshPrometheusMetricsInterval r));
  srv ← (if SecureServing r then
           cert ← invoke (if bool_decide (CertPath r ≠ "")
                          then LoadX509KeyPair (CertPath r +:+ "/tls.crt") (CertPath r +:+ "/tls.key")
                          else CreateSelfSignedTLSCertificate);
           perform (NewGrpcServer (Some cert))
         else perform (NewGrpcServer None));
  _ ← perform (RegisterService srv
        (ExtProcService (if UseStreaming r then StreamingExtProc else BufferedExtProc)
           (if UseStreaming r
            then NewStreamingServer (destinationEndpointHintMetadataNamespace (HintConfig r))
                   (destinationEndpointHintKey (HintConfig r))
            else NewServer (destinationEndpointHintMetadataNamespace (HintConfig r))
                   (destinationEndpointHintKey (HintConfig r))) (Datastore r)));
  invoke (ServeGrpc "ext-proc" srv (GrpcPort r)).

(** ** cmd/epp/main.go *)

(** The flags after parsing, and the names of those set on the command line; [zap_level]
    is the level -zap-log-level stored. *)
Record Flags := mkFlags {
  fl_grpcPort : Z;
  fl_grpcHealthPort : Z;
  fl_metricsPort : Z;
  fl_destinationEndpointHintKey : string;
  fl_destinationEndpointHintMetadataNamespace : string;
  fl_poolName : string;
  fl_poolNamespace : string;
  fl_refreshMetricsInterval : Z;
  fl_refreshPrometheusMetricsInterval : Z;
  fl_logVerbosity : Z;
  fl_secureServing : bool;
  fl_certPath : string;
  fl_totalQueuedRequestsMetric : string;
  fl_kvCacheUsagePercentageMetric : string;
  fl_loraInfoMetric : string;
  fl_explicit : list string;
  fl_zap_level : option Z
}.

(** The verbosity levels of pkg/epp/util/logging. *)
Definition logging_DEFAULT : Z := 2.
Definition logging_VERBOSE : Z := 3.
Definition logging_DEBUG : Z := 4.
Definition logging_TRACE : Z := 5.

(** The values without a command line. *)
Definition default_flags : Flags :=
  mkFlags DefaultGrpcPort 9003 9090 DefaultDestinationEndpointHintKey
    DefaultDestinationEndpointHintMetadataNamespace DefaultPoolName DefaultPoolNamespace
    DefaultRefreshMetricsInterval DefaultRefreshPrometheusMetricsInterval logging_DEFAULT
    DefaultSecureServing "" "vllm:num_requests_waiting" "vllm:gpu_cache_usage_perc"
    "vllm:lora_requests_info" [] None.

(** [initLogging]: the level given to zap, and SetLogger. *)
Definition log_level (explicit : list string) (zap_level : option Z) (logVerbosity : Z) : option Z :=
  let useV := negb (bool_decide ("zap-log-level" ∈ explicit)) in
  if useV then
    let lvl := wrap 64 (-1 * logVerbosity) in
    Some (wrap 8 lvl)
  else zap_level.

Definition initLogging (f : Flags) : startM object :=
  perform (SetLogger (log_level (fl_explicit f) (fl_zap_level f) (fl_logVerbosity f))).

Definition quote : string := String (ascii_of_nat 34) EmptyString.

Definition validateFlags (f : Flags) : option error :=
  if bool_decide (fl_poolName f = "")
  then Some (PlainError ("required " +:+ quote +:+ "poolName" +:+ quote +:+ " flag not set"))
  else None.

(** [registerHealthServer] *)
Definition registerHealthServer (mgr : object) (ds : option object) (port : Z) : startM object :=
  srv ← perform (NewGrpcServer None);
  _ ← perform (RegisterService srv (HealthService ds));
  invoke (AddRunnable mgr (NoLeaderElection (mkRunnable (GrpcProcess "health" srv port) None))).

Definition metricsEndpoint : string := "/metrics".

Definition metricsHandlerWithAuthenticationAndAuthorization (cfg : object) : startM object :=
  httpClient ← invoke (HTTPClientFor cfg);
  filter ← invoke (WithAuthenticationAndAuthorization cfg httpClient);
  invoke (AuthHandler filter).

(** [net.JoinHostPort("", strconv.Itoa(port))] *)
Definition metrics_addr (port : Z) : string := ":" +:+ Itoa port.

(** [registerMetricsHandler]; [manager.Server] has its own NeedLeaderElection. *)
Definition registerMetricsHandler (mgr : object) (port : Z) (cfg : object) : startM object :=
  _ ← Register;
  _ ← metricsHandlerWithAuthenticationAndAuthorization cfg;
  invoke (AddRunnable mgr (mkRunnable (HttpProcess "metrics" (metrics_addr port) metricsEndpoint) (Some false))).

(** The runner [run] builds. *)
Definition server_runner (f : Flags) (useStreamingServer : bool) (ds : object) : ExtProcServerRunner :=
  mkRunner (fl_grpcPort f)
    (mkServerConfig (fl_destinationEndpointHintKey f) (fl_destinationEndpointHintMetadataNamespace f))
    (fl_poolName f) (fl_poolNamespace f) (Some ds) (fl_secureServing f) (fl_certPath f)
    useStreamingServer (fl_refreshPrometheusMetricsInterval f).

(** [run]; [use_streaming] is the value of the environment variable USE_STREAMING, empty
    when it is not set; a value that does not parse is logged and taken as false. *)
Definition run (f : Flags) (use_streaming : string) : startM object :=
  _ ← initLogging f;
  let useStreamingServer := default false (ParseBool use_streaming) in
  match validateFlags f with
  | Some err => fail_with err
  | None =>
      cfg ← invoke GetConfig;
      mgr ← NewDefaultManager (fl_poolNamespace f) (fl_poolName f) cfg;
      _ ← perform SetupSignalHandler;
      match NewMetricMapping (fl_totalQueuedRequestsMetric f) (fl_kvCacheUsagePercentageMetric f)
              (fl_loraInfoMetric f) with
      | inr err => fail_with err
      | inl mapping =>
          ds ← perform (NewDatastore mapping (fl_refreshMetricsInterval f));
          let serverRunner := server_runner f useStreamingServer ds in
          _ ← SetupWithManager serverRunner mgr;
          _ ← registerHealthServer mgr (Some ds) (fl_grpcHealthPort f);
          _ ← invoke (AddRunnable mgr (AsRunnable serverRunner));
          _ ← registerMetricsHandler mgr (fl_metricsPort f) cfg;
          invoke (StartManager mgr)
      end
  end.

(** [verifyMetricMapping]: the messages for the metrics that are not scraped. *)
Definition verifyMetricMapping (mapping : MetricMapping) : list string :=
  (if TotalQueuedRequests mapping then [] else ["Not scraping metric: TotalQueuedRequests"])
  ++ (if KVCacheUtilization mapping then [] else ["Not scraping metric: KVCacheUtilization"])
  ++ (if LoraRequestInfo mapping then [] else ["Not scraping metric: LoraRequestInfo"]).

(** [Fatal] of pkg/epp/util/logging: the error is logged and the process ends with 1. *)
Definition Fatal (err : error) (msg : string) (log : list (error * string)) : Z * list (error * string) :=
  (1, log ++ [(err, msg)]).

(** [main]: the exit code; a panic of a Go program exits with 2. *)
Definition exit_code {A} (r : result A) : Z :=
  match r with Done _ => 0 | Failed _ => 1 | Crashed => 2 end.

Definition main (f : Flags) (use_streaming : string) : Z * list call :=
  let '(r, tr) := run f use_streaming [] in (exit_code r, tr).

(** ** The body-based router *)

Record BbrFlags := mkBbrFlags {
  bf_grpcPort : Z;
  bf_grpcHealthPort : Z;
  bf_metricsPort : Z;
  bf_streaming : bool;
  bf_logVerbosity : Z;
  bf_explicit : list string;
  bf_zap_level : option Z
}.

Definition default_bbr_flags : BbrFlags := mkBbrFlags 9004 9005 9090 false logging_DEFAULT [] None.

Definition bbr_NewDefaultExtProcServerRunner (port : Z) (streaming : bool) : BbrRunner :=
  mkBbrRunner port true streaming.

Definition bbr_AsRunnable (r : BbrRunner) : Runnable process :=
  NoLeaderElection (mkRunnable (BbrProcess r) None).

Definition bbr_start (r : BbrRunner) : startM object :=
  srv ← (if bbr_SecureServing r then
           cert ← invoke CreateSelfSignedTLSCertificate;
           perform (NewGrpcServer (Some cert))
         else perform (NewGrpcServer None));
  _ ← perform (RegisterService srv (BbrService (bbr_NewServer (bbr_Streaming r))));
  invoke (ServeGrpc "ext-proc" srv (bbr_GrpcPort r)).

Definition bbr_registerHealthServer (mgr : object) (port : Z) : startM object :=
  srv ← perform (NewGrpcServer None);
  _ ← perform (RegisterService srv (HealthService None));
  invoke (AddRunnable mgr (NoLeaderElection (mkRunnable (GrpcProcess "health" srv port) None))).

Definition bbr_initLogging (f : BbrFlags) : startM object :=
  perform (SetLogger (log_level (bf_explicit f) (bf_zap_level f) (bf_logVerbosity f))).

Definition bbr_metricsEndpoint : string := "/metrics".

Definition bbr_metricsHandlerWithAuthenticationAndAuthorization (cfg : object) : startM object :=
  httpClient ← invoke (HTTPClientFor cfg);
  filter ← invoke (WithAuthenticationAndAuthorization cfg httpClient);
  invoke (AuthHandler filter).

(** The package imported as metrics is that of the endpoint picker. *)
Definition bbr_registerMetricsHandler (mgr : object) (port : Z) (cfg : object) : startM object :=
  _ ← Register;
  _ ← bbr_metricsHandlerWithAuthenticationAndAuthorization cfg;
  invoke (AddRunnable mgr (mkRunnable (HttpProcess "metrics" (metrics_addr port) bbr_metricsEndpoint) (Some false))).

Definition bbr_run (f : BbrFlags) : startM object :=
  _ ← bbr_initLogging f;
  cfg ← invoke GetConfig;
  mgr ← invoke (NewManager cfg []);
  _ ← perform SetupSignalHandler;
  let serverRunner := bbr_NewDefaultExtProcServerRunner (bf_grpcPort f) (bf_streaming f) in
  _ ← bbr_registerHealthServer mgr (bf_grpcHealthPort f);
  _ ← invoke (AddRunnable mgr (bbr_AsRunnable serverRunner));
  _ ← bbr_registerMetricsHandler mgr (bf_metricsPort f) cfg;
  invoke (StartManager mgr).

Definition bbr_main (f : BbrFlags) : Z * list call :=
  let '(r, tr) := bbr_run f [] in (exit_code r, tr).
End startup.
