(* ===== verification/StartupProofs.v ===== *)
(** * Theorems on start-up

    A plan is the list of calls a program makes when nothing fails, each with what its
    failure does.  [run] and [bbr_run] carry out their plans and stop at the first
    failure; what the plans contain says which servers run, with which certificate and
    port, and which metrics exist.  The log level is that of the verbosity only in a
    range of eight bits. *)

From S2P Require Import Prelude GoInt Errors Strconv BackendMetrics Handlers Runnable Startup.

Local Open Scope Z_scope.

(** ** Plans *)

(** What a failure of a call does: it cannot fail, it is returned, it is a panic. *)
Inductive mode := CannotFail | Returns (wrap : error → error) | Panics.

Definition fate (m : mode) (answer : option error) : option (result object) :=
  match m, answer with
  | CannotFail, _ | _, None => None
  | Returns wrap, Some e => Some (Failed (wrap e))
  | Panics, Some _ => Some Crashed
  end.

Section plans.
Context (w : World).
Implicit Types p : list (mode * call).

(** The abstract program: make the calls in order, stop at the first failure, end with
    [last]. *)
Fixpoint carry_out p (last : list call → result object) (tr : list call)
  : result object * list call :=
  match p with
  | [] => (last tr, tr)
  | (m, c) :: p =>
      match fate m (w tr c) with
      | Some r => (r, tr ++ [c])
      | None => carry_out p last (tr ++ [c])
      end
  end.

(** The call at position [n] of a plan that starts after [tr] succeeds. *)
Definition succeeds (tr : list call) p (n : nat) : Prop :=
  ∃ m c, p !! n = Some (m, c) ∧ fate m (w (tr ++ take n p.*2) c) = None.

(** All calls were made and succeeded, or the last one made is the first that failed. *)
Definition follows (tr : list call) p (last : list call → result object)
    (r : result object * list call) : Prop :=
  (r = (last (tr ++ p.*2), tr ++ p.*2) ∧ ∀ n, (n < length p)%nat → succeeds tr p n)
  ∨ ∃ n m c, p !! n = Some (m, c) ∧ r.2 = tr ++ take (S n) p.*2
      ∧ fate m (w (tr ++ take n p.*2) c) = Some r.1
      ∧ ∀ k, (k < n)%nat → succeeds tr p k.

Lemma succeeds_cons tr m c p n :
  succeeds (tr ++ [c]) p n → succeeds tr ((m, c) :: p) (S n).
Proof.
  intros (m' & c' & Hp & Hf). exists m', c'. split; [done|]. simpl. by rewrite <-(assoc_L (++)) in Hf.
Qed.

Lemma carry_out_follows p last tr : follows tr p last (carry_out p last tr).
Proof.
  revert tr. induction p as [|[m c] p IH]; intros tr; simpl.
  { left. rewrite app_nil_r. split; [done|]. intros n. simpl. lia. }
  destruct (fate m (w tr c)) as [r|] eqn:Hf.
  { right. exists 0%nat, m, c. simpl. rewrite app_nil_r. repeat split; [done|]. lia. }
  assert (succeeds tr ((m, c) :: p) 0) as H0.
  { exists m, c. simpl. by rewrite app_nil_r. }
  destruct (IH (tr ++ [c])) as [[Hr Hok]|(n & m' & c' & Hp & Htr & Hfate & Hok)].
  - left. rewrite Hr. simpl. rewrite <-(assoc_L (++)). split; [done|].
    intros [|n] Hn; [done|]. apply succeeds_cons, Hok. simpl in Hn. lia.
  - right. exists (S n), m', c'. split; [done|]. rewrite <-(assoc_L (++)) in Htr, Hfate. split; [done|].
    split; [done|]. intros [|k] Hk; [done|]. apply succeeds_cons, Hok. lia.
Qed.

(** A call made is a call of the plan, and all calls before it were made. *)
Lemma follows_elem tr p last r c :
  follows tr p last r → c ∈ r.2 →
  c ∈ tr ∨ ∃ n, p.*2 !! n = Some c ∧ tr ++ take (S n) p.*2 `prefix_of` r.2.
Proof.
  intros Hf Hc.
  assert (∃ k, r.2 = tr ++ take k p.*2) as [k Hk].
  { destruct Hf as [[-> _]|(n & m & c' & _ & -> & _)]; [|by eexists].
    exists (length p). simpl. by rewrite take_ge by (by rewrite length_fmap). }
  rewrite Hk in Hc |- *. apply elem_of_app in Hc as [?|Hc]; [by left|right].
  apply list_elem_of_lookup in Hc as [n Hn]. rewrite lookup_take_Some in Hn. destruct Hn as [Hn Hlt].
  exists n. split; [done|]. apply prefix_app.
  replace (take (S n) p.*2) with (take (S n) (take k p.*2)) by (rewrite take_take; f_equal; lia).
  apply prefix_take.
Qed.

(** ** Programs that carry out a plan *)

Lemma bind_assoc {A B C} (m : startM A) (g : A → startM B) (h : B → startM C) tr :
  ((m ≫= g) ≫= h) tr = (m ≫= λ a, g a ≫= h) tr.
Proof. unfold mbind, startM_bind. by destruct (m tr) as [[] ?]. Qed.

Lemma carry_invoke wrap c (k : object → startM object) p last tr :
  k (length tr) (tr ++ [c]) = carry_out p last (tr ++ [c]) →
  (invoke_wrapped w wrap c ≫= k) tr = carry_out ((Returns wrap, c) :: p) last tr.
Proof. unfold mbind, startM_bind, invoke_wrapped. simpl. by destruct (w tr c). Qed.

Lemma carry_perform c (k : object → startM object) p last tr :
  k (length tr) (tr ++ [c]) = carry_out p last (tr ++ [c]) →
  (perform c ≫= k) tr = carry_out ((CannotFail, c) :: p) last tr.
Proof. unfold mbind, startM_bind, perform. simpl. by destruct (w tr c). Qed.

Lemma carry_must cs (k : () → startM object) p last tr :
  k () (tr ++ cs) = carry_out p last (tr ++ cs) →
  (all_of w cs ≫= k) tr = carry_out ((pair Panics <$> cs) ++ p) last tr.
Proof.
  revert tr. induction cs as [|c cs IH]; intros tr Hk; simpl.
  { by rewrite app_nil_r in Hk. }
  rewrite bind_assoc. unfold mbind at 1, startM_bind at 1, must. destruct (w tr c); simpl; [done|].
  apply IH. by rewrite <-(assoc_L (++)).
Qed.

Lemma carry_once cs (k : () → startM object) p last tr :
  (∀ q, Once q ∉ tr) →
  k () (tr ++ Once EppMetrics :: cs) = carry_out p last (tr ++ Once EppMetrics :: cs) →
  (once_Do EppMetrics (all_of w cs) ≫= k) tr
  = carry_out ((CannotFail, Once EppMetrics) :: (pair Panics <$> cs) ++ p) last tr.
Proof.
  intros Hnew Hk.
  assert (once_Do EppMetrics (all_of w cs) tr = all_of w cs (tr ++ [Once EppMetrics])) as Hdo.
  { unfold once_Do. destruct (existsb _ tr) eqn:He; [|done].
    apply existsb_exists in He as (c & Hin%list_elem_of_In & Hc). destruct c as [| | | | | | | | | |q| | | | | | | | |]; try done.
    by destruct (Hnew q). }
  unfold mbind, startM_bind. rewrite Hdo. apply (carry_must cs k p last (tr ++ [Once EppMetrics])).
  by rewrite <-(assoc_L (++)).
Qed.

Lemma carry_last wrap c tr :
  invoke_wrapped w wrap c tr = carry_out [(Returns wrap, c)] (λ tr, Done (Nat.pred (length tr))) tr.
Proof.
  unfold invoke_wrapped. simpl. destruct (w tr c); [done|]. rewrite length_app. simpl.
  by rewrite Nat.add_1_r.
Qed.

Lemma carry_fail e tr : fail_with e tr = carry_out [] (λ _, Failed e) tr.
Proof. done. Qed.
End plans.

(** ** The endpoint picker *)

Definition last_object (tr : list call) : result object := Done (Nat.pred (length tr)).

(** The runnables of the manager. *)
Definition health_runnable (port : Z) (srv : object) : Runnable process :=
  mkRunnable (GrpcProcess "health" srv port) (Some false).
Definition ext_proc_runnable (f : Flags) (use_streaming : string) (ds : object) : Runnable process :=
  mkRunnable (ExtProcProcess (server_runner f (default false (ParseBool use_streaming)) ds)) (Some false).
Definition metrics_runnable (port : Z) : Runnable process :=
  mkRunnable (HttpProcess "metrics" (":" +:+ Itoa port) "/metrics") (Some false).

(** The calls of a start that gets past the flags: objects 1 (configuration), 2
    (manager), 4 (datastore), 9 (health server), 25 and 26 (metrics client and filter). *)
Definition before_datastore (f : Flags) : list (mode * call) :=
  [(CannotFail, SetLogger (log_level (fl_explicit f) (fl_zap_level f) (fl_logVerbosity f)));
   (Returns id, GetConfig);
   (Returns (text_of "failed to create controller manager: "),
      NewManager 1%nat (DefaultManagerOptions (fl_poolNamespace f) (fl_poolName f)));
   (CannotFail, SetupSignalHandler)].

Definition controllers_plan (f : Flags) (mgr ds : object) : list (mode * call) :=
  let pool := (fl_poolName f, fl_poolNamespace f) in
  [(Returns (WrapError "failed setting up InferencePoolReconciler: "),
      NewController mgr (InferencePoolReconciler pool (Some ds)));
   (Returns (λ e, WrapError "failed setting up InferenceModelReconciler: "
                    (WrapError "setting index on ModelName for InferenceModel: " e)),
      IndexField mgr "spec.modelName");
   (Returns (WrapError "failed setting up InferenceModelReconciler: "),
      NewController mgr (InferenceModelReconciler pool (Some ds)));
   (Returns (text_of "failed setting up EndpointSliceReconciler: "),
      NewController mgr (PodReconciler (Some ds)))].

Definition metrics_plan (mgr cfg : object) (port : Z) (client filter : object) : list (mode * call) :=
  (CannotFail, Once EppMetrics) :: (pair Panics ∘ MustRegister <$> epp_collectors)
  ++ [(Returns id, HTTPClientFor cfg);
      (Returns id, WithAuthenticationAndAuthorization cfg client);
      (Returns id, AuthHandler filter);
      (Returns id, AddRunnable mgr (metrics_runnable port))].

Definition after_mapping (f : Flags) (use_streaming : string) (mapping : MetricMapping)
  : list (mode * call) :=
  [(CannotFail, NewDatastore mapping (fl_refreshMetricsInterval f))]
  ++ controllers_plan f 2%nat 4%nat
  ++ [(CannotFail, NewGrpcServer None);
      (CannotFail, RegisterService 9%nat (HealthService (Some 4%nat)));
      (Returns id, AddRunnable 2%nat (health_runnable (fl_grpcHealthPort f) 9%nat));
      (Returns id, AddRunnable 2%nat (ext_proc_runnable f use_streaming 4%nat))]
  ++ metrics_plan 2%nat 1%nat (fl_metricsPort f) 25%nat 26%nat
  ++ [(Returns id, StartManager 2%nat)].

Definition startup_plan `{PrintTable} (f : Flags) (use_streaming : string)
  : list (mode * call) * (list call → result object) :=
  match validateFlags f with
  | Some e => (take 1 (before_datastore f), λ _, Failed e)
  | None =>
      match NewMetricMapping (fl_totalQueuedRequestsMetric f) (fl_kvCacheUsagePercentageMetric f)
              (fl_loraInfoMetric f) with
      | inr e => (before_datastore f, λ _, Failed e)
      | inl mapping => (before_datastore f ++ after_mapping f use_streaming mapping, last_object)
      end
  end.

(** Match the next call of a program with that of its plan. *)
Local Ltac next_call :=
  first
    [ apply carry_invoke | apply carry_perform | apply carry_last | apply carry_fail
    | rewrite bind_assoc ]; simpl app; simpl length.

Lemma run_carries_out `{PrintTable} w f use_streaming :
  run w f use_streaming [] =
  carry_out w (startup_plan f use_streaming).1 (startup_plan f use_streaming).2 [].
Proof.
  unfold run, startup_plan. destruct (validateFlags f) as [e|].
  { unfold initLogging. by repeat next_call. }
  destruct (NewMetricMapping _ _ _) as [mapping|e];
    unfold initLogging, invoke, NewDefaultManager; [|by repeat next_call].
  unfold SetupWithManager, setup_controller, registerHealthServer, registerMetricsHandler,
    metricsHandlerWithAuthenticationAndAuthorization, invoke.
  repeat next_call.
  refine (carry_once w (MustRegister <$> epp_collectors) _ _ _ _ _ _); [set_solver|].
  repeat next_call.
Qed.

(** The whole plan, when the flags are valid. *)
Lemma startup_plan_StartManager `{PrintTable} f use_streaming mgr n :
  (startup_plan f use_streaming).1.*2 !! n = Some (StartManager mgr) →
  fl_poolName f ≠ "" ∧ n = 29%nat ∧ mgr = 2%nat
  ∧ ∃ mapping, startup_plan f use_streaming
               = (before_datastore f ++ after_mapping f use_streaming mapping, last_object).
Proof.
  unfold startup_plan, validateFlags. case_bool_decide as Hp; simpl.
  { by destruct n as [|n]. }
  destruct (NewMetricMapping _ _ _) as [mapping|e]; simpl.
  - intros Hn. do 30 (destruct n as [|n]; [simplify_eq/=; eauto 10|]; simpl in Hn). done.
  - by do 4 (destruct n as [|n]; [done|]).
Qed.

Lemma startup_plan_end `{PrintTable} f use_streaming :
  (startup_plan f use_streaming).2 = last_object ∨ ∃ e, (startup_plan f use_streaming).2 = λ _, Failed e.
Proof. unfold startup_plan. split_match; eauto. Qed.

Lemma fate_exit m a r : fate m a = Some r → exit_code r ≠ 0.
Proof. destruct m, a; intros [= <-]; done. Qed.

(** A program that follows a plan exits with 0 exactly when the plan has no error at its
    end and every call succeeds. *)
Lemma follows_exit w tr p last r :
  (last = last_object ∨ ∃ e, last = λ _, Failed e) → follows w tr p last r →
  exit_code r.1 = 0 ↔
  last = last_object ∧ r.2 = tr ++ p.*2 ∧ ∀ n, (n < length p)%nat → succeeds w tr p n.
Proof.
  intros Hlast [[-> Hok]|(n & m & c & Hp & Htr & Hfate & _)]; simpl.
  - destruct Hlast as [->|[e ->]]; simpl; [done|]. split; [done|]. intros [Heq _].
    apply (f_equal (λ g, g [])) in Heq. done.
  - split; [intros Hz; by destruct (fate_exit _ _ _ Hfate)|]. intros (_ & _ & Hok).
    destruct (Hok n) as (m' & c' & Hp' & Hnone); [by eapply lookup_lt_Some|]. congruence.
Qed.

(** C35: the endpoint picker starts in a fixed order and stops at the first failure.  Its
    calls are those of the plan up to the first that fails, whose error (wrapped as the
    code wraps it) is the result; it exits with 0 exactly when all succeed.  Without a
    pool name nothing but the logger is touched.  The manager is started last: by then
    the controllers, the health server, the ext-proc server and the metrics server were
    added to it, all on the one datastore. *)
Theorem startup_sequence `{PrintTable} w f use_streaming :
  let plan := startup_plan f use_streaming in
  let r := run w f use_streaming [] in
  follows w [] plan.1 plan.2 r
  ∧ (main w f use_streaming = (0, r.2) ↔
     plan.2 = last_object ∧ r.2 = plan.1.*2 ∧ ∀ n, (n < length plan.1)%nat → succeeds w [] plan.1 n)
  ∧ (fl_poolName f = "" →
     exit_code r.1 = 1
     ∧ r.2 = [SetLogger (log_level (fl_explicit f) (fl_zap_level f) (fl_logVerbosity f))])
  ∧ (∀ mgr, StartManager mgr ∈ r.2 →
     ∃ ds srv, AddRunnable mgr (health_runnable (fl_grpcHealthPort f) srv) ∈ r.2
       ∧ RegisterService srv (HealthService (Some ds)) ∈ r.2
       ∧ AddRunnable mgr (ext_proc_runnable f use_streaming ds) ∈ r.2
       ∧ AddRunnable mgr (metrics_runnable (fl_metricsPort f)) ∈ r.2
       ∧ NewController mgr (InferencePoolReconciler (fl_poolName f, fl_poolNamespace f) (Some ds)) ∈ r.2
       ∧ NewController mgr (InferenceModelReconciler (fl_poolName f, fl_poolNamespace f) (Some ds)) ∈ r.2
       ∧ NewController mgr (PodReconciler (Some ds)) ∈ r.2
       ∧ last r.2 = Some (StartManager mgr)).
Proof.
  intros plan r.
  assert (follows w [] plan.1 plan.2 r) as Hf.
  { unfold r. rewrite run_carries_out. apply carry_out_follows. }
  split; [done|]. split; [|split].
  - etrans; [|apply (follows_exit w [] _ _ _ (startup_plan_end f use_streaming) Hf)].
    unfold main, r. destruct (run w f use_streaming []) as [res tr]; simpl. split; congruence.
  - intros Hp. unfold r, run, validateFlags. rewrite bool_decide_true by done. done.
  - intros mgr Hin. destruct (follows_elem _ _ _ _ _ _ Hf Hin) as [?|(n & Hn & Hpre)]; [set_solver|].
    apply startup_plan_StartManager in Hn as (Hp & -> & -> & mapping & Hplan).
    fold plan in Hplan. rewrite Hplan in Hf, Hpre.
    assert (r.2 = (before_datastore f ++ after_mapping f use_streaming mapping).*2) as Hr.
    { symmetry. apply (prefix_length_eq _ _ Hpre).
      destruct Hf as [[-> _]|(k & m & c & _ & -> & _)]; [done|].
      rewrite !app_nil_l, !length_take. simpl length. lia. }
    exists 4%nat, 9%nat. rewrite Hr. clear. simpl. repeat split; try done; set_solver.
Qed.

(** A start in a world without failures. *)
Definition calm : World := λ _ _, None.
Definition pool_flags : Flags :=
  mkFlags DefaultGrpcPort 9003 9090 DefaultDestinationEndpointHintKey
    DefaultDestinationEndpointHintMetadataNamespace "vllm-pool" DefaultPoolNamespace
    DefaultRefreshMetricsInterval DefaultRefreshPrometheusMetricsInterval logging_DEFAULT
    DefaultSecureServing "" "vllm:num_requests_waiting" "vllm:gpu_cache_usage_perc"
    "vllm:lora_requests_info" ["poolName"] None.

Example calm_start : (main (H := latin1_only) calm pool_flags "").1 = 0
  ∧ length (main (H := latin1_only) calm pool_flags "").2 = 30%nat.
Proof. by vm_compute. Qed.

(** A busy health port is not a failure of start-up; a failing configuration is. *)
Example no_config :
  main (H := latin1_only) (λ _ c, match c with GetConfig => Some (LibraryError "no config") | _ => None end) pool_flags ""
  = (1, [SetLogger (Some (-2)); GetConfig]).
Proof. by vm_compute. Qed.

(** ** The ext-proc server *)

(** The calls of the ext-proc runnable, started after the calls [tr]. *)
Definition ext_proc_plan (r : ExtProcServerRunner) (n : nat) : list (mode * call) :=
  let kind := if UseStreaming r then StreamingExtProc else BufferedExtProc in
  (CannotFail, StartMetricsLogger (Datastore r) (RefreshPrometheusMetricsInterval r)) ::
  if SecureServing r then
    [(Returns id, if bool_decide (CertPath r = "") then CreateSelfSignedTLSCertificate
                  else LoadX509KeyPair (CertPath r +:+ "/tls.crt") (CertPath r +:+ "/tls.key"));
     (CannotFail, NewGrpcServer (Some (S n)));
     (CannotFail, RegisterService (S (S n)) (ExtProcService kind (HintConfig r) (Datastore r)));
     (Returns id, ServeGrpc "ext-proc" (S (S n)) (GrpcPort r))]
  else
    [(CannotFail, NewGrpcServer None);
     (CannotFail, RegisterService (S n) (ExtProcService kind (HintConfig r) (Datastore r)));
     (Returns id, ServeGrpc "ext-proc" (S n) (GrpcPort r))].

(** Both constructors store the namespace and the key in the fields of those names. *)
Lemma constructed_server r :
  (if UseStreaming r
   then NewStreamingServer (destinationEndpointHintMetadataNamespace (HintConfig r))
          (destinationEndpointHintKey (HintConfig r))
   else NewServer (destinationEndpointHintMetadataNamespace (HintConfig r))
          (destinationEndpointHintKey (HintConfig r))) = HintConfig r.
Proof. by destruct (HintConfig r), (UseStreaming r). Qed.

Lemma ext_proc_carries_out w r tr :
  ext_proc_start w r tr = carry_out w (ext_proc_plan r (length tr)) last_object tr.
Proof.
  unfold ext_proc_start, ext_proc_plan, invoke. rewrite constructed_server.
  apply carry_perform. destruct (SecureServing r).
  - rewrite bind_assoc.
    assert ((if bool_decide (CertPath r ≠ "") then LoadX509KeyPair (CertPath r +:+ "/tls.crt") (CertPath r +:+ "/tls.key")
             else CreateSelfSignedTLSCertificate)
            = if bool_decide (CertPath r = "") then CreateSelfSignedTLSCertificate
              else LoadX509KeyPair (CertPath r +:+ "/tls.crt") (CertPath r +:+ "/tls.key")) as ->.
    { by repeat case_bool_decide. }
    repeat (first [apply carry_invoke|apply carry_perform|apply carry_last]; rewrite ?length_app; simpl length; rewrite ?Nat.add_1_r).
  - repeat (first [apply carry_invoke|apply carry_perform|apply carry_last]; rewrite ?length_app; simpl length; rewrite ?Nat.add_1_r).
Qed.

(** The ext-proc server of a runner. *)
Definition runner_service (r : ExtProcServerRunner) : service :=
  ExtProcService (if UseStreaming r then StreamingExtProc else BufferedExtProc) (HintConfig r) (Datastore r).

Definition certificate_call (r : ExtProcServerRunner) : call :=
  if bool_decide (CertPath r = "") then CreateSelfSignedTLSCertificate
  else LoadX509KeyPair (CertPath r +:+ "/tls.crt") (CertPath r +:+ "/tls.key").

Lemma lookup_suffix {A} (l k : list A) i : (l ++ k) !! (length l + i)%nat = k !! i.
Proof. rewrite lookup_app_r by lia. f_equal. lia. Qed.

Lemma take_suffix {A} (l k : list A) i : take (length l + i) (l ++ k) = l ++ take i k.
Proof. rewrite take_app_ge by lia. do 2 f_equal. lia. Qed.

(** What the ext-proc runnable serves.  It serves on the configured port one server
    object, with the streaming or the buffered handler as configured registered on it,
    and with secure serving that object was created with a certificate that was loaded
    from the certificate path, or self-signed without one, without error; when the
    certificate fails nothing is served. *)
Theorem secure_serving w r tr name srv port :
  let calls := (ext_proc_start w r tr).2 in
  ServeGrpc name srv port ∈ drop (length tr) calls →
  port = GrpcPort r
  ∧ RegisterService srv (runner_service r) ∈ drop (length tr) calls
  ∧ (SecureServing r = true →
     ∃ cert, calls !! srv = Some (NewGrpcServer (Some cert))
       ∧ calls !! cert = Some (certificate_call r)
       ∧ w (take cert calls) (certificate_call r) = None)
  ∧ (SecureServing r = false → calls !! srv = Some (NewGrpcServer None)).
Proof.
  intros calls. unfold calls. rewrite ext_proc_carries_out. unfold ext_proc_plan.
  fold (runner_service r) (certificate_call r).
  replace (S (S (length tr))) with (length tr + 2)%nat by lia.
  replace (S (length tr)) with (length tr + 1)%nat by lia.
  assert (∀ n s p, certificate_call r ≠ ServeGrpc n s p) as Hcert.
  { intros. unfold certificate_call. by case_bool_decide. }
  destruct (SecureServing r); cbn -[drop take lookup].
  - destruct (w (tr ++ [_]) (certificate_call r)) as [e|] eqn:Hc; cbn -[drop take lookup].
    { rewrite <-(assoc_L (++)), drop_app_length. set_solver. }
    match goal with |- context [w ?l (ServeGrpc ?n ?x ?p)] => destruct (w l (ServeGrpc n x p)) end;
      cbn -[drop take lookup]; rewrite <-!(assoc_L (++)), drop_app_length; intros Hin;
      (assert (name = "ext-proc" ∧ srv = (length tr + 2)%nat ∧ port = GrpcPort r) as (-> & -> & ->)
        by set_solver); (split; [done|]); (split; [set_solver|]); (split; [|done]);
      intros _; exists (length tr + 1)%nat; rewrite !lookup_suffix, take_suffix; done.
  - match goal with |- context [w ?l (ServeGrpc ?n ?x ?p)] => destruct (w l (ServeGrpc n x p)) end;
      cbn -[drop take lookup]; rewrite <-!(assoc_L (++)), drop_app_length; intros Hin;
      (assert (name = "ext-proc" ∧ srv = (length tr + 1)%nat ∧ port = GrpcPort r) as (-> & -> & ->)
        by set_solver); (split; [done|]); (split; [set_solver|]); (split; [done|]);
      intros _; rewrite !lookup_suffix; done.
Qed.

Lemma secure_serving_witness :
  let r := server_runner pool_flags false 4%nat in
  ServeGrpc "ext-proc" 2%nat 9002 ∈ drop (length (@nil call)) (ext_proc_start calm r []).2
  ∧ RegisterService 2%nat
      (ExtProcService BufferedExtProc
         (mkServerConfig "x-gateway-destination-endpoint" "envoy.lb") (Some 4%nat))
    ∈ drop (length (@nil call)) (ext_proc_start calm r []).2.
Proof.
  intros r. assert (ServeGrpc "ext-proc" 2%nat 9002
    ∈ drop (length (@nil call)) (ext_proc_start calm r []).2) as Hin.
  { vm_compute. apply list_elem_of_here || (do 4 apply list_elem_of_further; apply list_elem_of_here). }
  split; [exact Hin|].
  exact (proj1 (proj2 (secure_serving calm r [] "ext-proc" 2%nat 9002 Hin))).
Defined.

(** USE_STREAMING unset, or with a text that is no truth value, selects the buffered
    server. *)
Lemma buffered_unless_asked f use_streaming ds :
  ParseBool use_streaming ≠ Some true →
  UseStreaming (server_runner f (default false (ParseBool use_streaming)) ds) = false.
Proof. simpl. by destruct (ParseBool use_streaming) as [[]|]. Qed.

(** ** The body-based router *)

Definition bbr_plan (f : BbrFlags) : list (mode * call) :=
  [(CannotFail, SetLogger (log_level (bf_explicit f) (bf_zap_level f) (bf_logVerbosity f)));
   (Returns id, GetConfig);
   (Returns id, NewManager 1%nat []);
   (CannotFail, SetupSignalHandler);
   (CannotFail, NewGrpcServer None);
   (CannotFail, RegisterService 4%nat (HealthService None));
   (Returns id, AddRunnable 2%nat (health_runnable (bf_grpcHealthPort f) 4%nat));
   (Returns id, AddRunnable 2%nat
      (mkRunnable (BbrProcess (mkBbrRunner (bf_grpcPort f) true (bf_streaming f))) (Some false)))]
  ++ metrics_plan 2%nat 1%nat (bf_metricsPort f) 20%nat 21%nat
  ++ [(Returns id, StartManager 2%nat)].

Lemma bbr_carries_out w f : bbr_run w f [] = carry_out w (bbr_plan f) last_object [].
Proof.
  unfold bbr_run, bbr_initLogging, bbr_registerHealthServer, bbr_registerMetricsHandler,
    bbr_metricsHandlerWithAuthenticationAndAuthorization, bbr_metricsEndpoint, invoke.
  repeat next_call.
  refine (carry_once w (MustRegister <$> epp_collectors) _ _ _ _ _ _); [set_solver|].
  repeat next_call.
Qed.

(** The body-based router starts in the order of its plan, stops at the first failure
    and exits with 0 exactly when every call succeeds; but on no start does it register
    one of its own counters: the metrics it registers are those of the endpoint picker. *)
Theorem bbr_counters_unregistered w f :
  let r := bbr_run w f [] in
  follows w [] (bbr_plan f) last_object r
  ∧ (bbr_main w f = (0, r.2) ↔ r.2 = (bbr_plan f).*2 ∧ ∀ n, (n < length (bbr_plan f))%nat → succeeds w [] (bbr_plan f) n)
  ∧ Forall (λ c, c ∉ MustRegister <$> bbr_collectors) r.2
  ∧ (exit_code r.1 = 0 → Forall (λ c, c ∈ r.2) (MustRegister <$> epp_collectors)).
Proof.
  intros r.
  assert (follows w [] (bbr_plan f) last_object r) as Hf.
  { unfold r. rewrite bbr_carries_out. apply carry_out_follows. }
  pose proof (follows_exit w [] _ _ _ (or_introl eq_refl) Hf) as Hexit.
  split; [done|]. split; [|split].
  - transitivity (exit_code r.1 = 0).
    { unfold bbr_main, r. destruct (bbr_run w f []); simpl. split; congruence. }
    rewrite Hexit. tauto.
  - apply Forall_forall. intros c Hc.
    destruct (follows_elem _ _ _ _ _ _ Hf Hc) as [?|(n & Hn & _)]; [set_solver|].
    apply list_elem_of_lookup_2 in Hn. clear -Hn. intros Hin.
    apply list_elem_of_fmap in Hin as (x & -> & Hx). revert Hn. simpl. set_solver.
  - rewrite Hexit. intros (_ & -> & _). clear. simpl. repeat constructor; set_solver.
Qed.

Lemma all_of_trace w cs tr tr' : all_of w cs tr = (Done (), tr') → tr' = tr ++ cs.
Proof.
  revert tr. induction cs as [|c cs IH]; intros tr; simpl.
  { intros [= <-]. by rewrite app_nil_r. }
  unfold mbind, startM_bind, must. destruct (w tr c); [done|]. intros ->%IH. by rewrite <-(assoc_L (++)).
Qed.

(** Each Register runs once: a second call changes nothing. *)
Lemma Register_once w tr tr' : Register w tr = (Done (), tr') → Register w tr' = (Done (), tr').
Proof.
  unfold Register, once_Do. destruct (existsb _ tr) eqn:He.
  { intros [= <-]. by rewrite He. }
  intros ->%all_of_trace. rewrite <-(assoc_L (++)), existsb_app. simpl. by rewrite orb_true_r.
Qed.

(** ** The log level *)

(** The level given to the logger.  For a verbosity from -127 to 128 it is its
    negation; it always fits eight bits, so from 129 to 255 it is 256 minus the
    verbosity, a level above Info (level 0), and asking for more output turns the
    information messages off.  With -zap-log-level on the command line it is left
    alone. *)
Theorem log_level_bounds explicit zap_level v :
  int64_ok v →
  ("zap-log-level" ∈ explicit → log_level explicit zap_level v = zap_level)
  ∧ ("zap-log-level" ∉ explicit →
     ∃ level, log_level explicit zap_level v = Some level ∧ in_range 8 level
       ∧ (-127 <= v <= 128 → level = - v)
       ∧ (129 <= v <= 255 → level = 256 - v ∧ 0 < level)).
Proof.
  intros Hv. unfold log_level. split; intros Hin.
  { by rewrite (bool_decide_true _ Hin). }
  rewrite (bool_decide_false _ Hin). simpl. eexists. split; [done|]. split; [by apply wrap_in_range|].
  split; intros Hr.
  - rewrite wrap64_id by (unfold MinInt, MaxInt; lia). rewrite wrap_id; [lia..|].
    unfold in_range, two_pow. simpl. lia.
  - rewrite wrap64_id by (unfold MinInt, MaxInt; lia).
    assert (wrap 8 (-1 * v) = 256 - v) as ->; [|lia].
    unfold wrap, two_pow. simpl (2 ^ _). rewrite <-(Z.mod_add _ 1) by lia.
    rewrite Z.mod_small; lia.
Qed.

Lemma log_level_bounds_witness :
  int64_ok 200 ∧ ∃ level, log_level ["poolName"] None 200 = Some level ∧ 0 < level.
Proof.
  split; [by apply int64_ok_iff|].
  destruct (proj2 (log_level_bounds ["poolName"] None 200 ltac:(by apply int64_ok_iff)) ltac:(set_solver))
    as (level & Hl & _ & _ & Hhigh).
  exists level. split; [exact Hl|]. apply Hhigh. lia.
Defined.
